(** * Task annotations, the priority matrix and habit streaks

    A shallow embedding of the annotation parser ([parseTask]), the quadrant
    grouping ([groupTasks]), the streak policy ([calculateStreakFromDates])
    and the line mutations of the plugin class ([_markHabitTaskDone],
    [_incrementAccumulatedTask], [_decrementAccumulatedTask],
    [_clearAccumulatedTask], [_markHabitTaskDoneWithDate],
    [_markEisenhowerTaskDone]), followed by the code around them: the scans
    of the vault by the two views and the two modals, [sortHabitTasks] and
    the sections of the habit view, [completeTask] and [moveTaskToQuadrant]
    of the matrix view, the delete handler of the habit modal, [escapeHtml],
    [getMotivationalColor] and [getAchievementLevel].

    Modelling conventions.
    - A JavaScript string is the list of its UTF-16 code units ([str]); the
      regular expressions of the source carry no [u] flag, so they work on
      code units.  The emoji literals are taken from the file as it is, code
      unit by code unit: the text it holds where an emoji was meant (see
      [emoji_fire]), not the character U+1F525 or the like.
    - A JavaScript number that holds an integer is a [Z].  The two agree as
      long as every value stays a safe integer ([isSafeInteger], below 2^53
      in absolute value): there [parseInt] reads a digit run exactly, adding
      or subtracting one is exact, and a template literal prints every
      digit.  Beyond it the source rounds, and from 10^21 on it prints an
      exponent: the numbers and printed texts of this file are meant on the
      safe range, and the properties that rest on the arithmetic state the
      range as a hypothesis.  The source only reads decimal digit runs, adds
      or subtracts one and takes a maximum.
    - [undefined] / [null] is [None].
    - The clock is read by [getTodayDateStr] and [getYesterdayDateStr]; both
      readings are inputs of the model ([clock]).
    - A vault maps a path to the text of a file; a mutation returns the
      notice it shows and, when it calls [vault.modify], the new text. *)

From Stdlib Require Import Ascii String.
From Stdlib Require Import ZArith NArith List Bool Lia Permutation Sorted.
Import ListNotations.
Open Scope Z_scope.

(** ** Strings as code units *)

Definition str := list N.

(** The code units of an ASCII literal of the source. *)
Definition u (s : string) : str :=
  map (fun a => N.of_nat (nat_of_ascii a)) (list_ascii_of_string s).

Fixpoint str_eqb (a b : str) : bool :=
  match a, b with
  | [], [] => true
  | x :: a', y :: b' => N.eqb x y && str_eqb a' b'
  | _, _ => false
  end.

(** [\d] *)
Definition is_digit (c : N) : bool := (N.leb 48 c && N.leb c 57)%N.

(** [\s], which is also the set that [trim] and [trimEnd] strip:
    white space and line terminators. *)
Definition is_space (c : N) : bool :=
  (N.leb 9 c && N.leb c 13)%N
  || N.eqb c 32 || N.eqb c 160 || N.eqb c 5760
  || (N.leb 8192 c && N.leb c 8202)%N
  || N.eqb c 8232 || N.eqb c 8233 || N.eqb c 8239 || N.eqb c 8287
  || N.eqb c 12288 || N.eqb c 65279.

(** Case folding of the [i] flag, seen from a lower-case ASCII pattern
    character: only [A-Z] fold onto [a-z]. *)
Definition to_lower (c : N) : N :=
  if (N.leb 65 c && N.leb c 90)%N then (c + 32)%N else c.

Definition chr_lbracket : N := 91.
Definition chr_rbracket : N := 93.
Definition chr_minus : N := 45.
Definition chr_space : N := 32.

(** The emoji literals of the source, code unit by code unit as the file
    has them.  The file went through a wrong decoding: where an emoji was
    meant, the literal is the text that the bytes of the emoji give when
    read in another character set (three or four characters of the basic
    plane, the first of them U+201A or U+F8FF), and that text is what the
    patterns test.  The names say which emoji was meant; in this file the
    importance emoji, the urgency emoji and so on are these texts. *)
Definition emoji_fire : str := [63743; 252; 238; 8226]%N.     (* lines 32, 451, 1539 *)
Definition emoji_star : str := [8218; 8800; 234]%N.           (* lines 33, 450, 1538 *)
Definition emoji_hourglass : str := [8218; 232; 8805]%N.      (* lines 34, 78 *)
Definition emoji_repeat : str := [63743; 252; 238; 197]%N.    (* line 38 *)
Definition emoji_coin : str := [63743; 252; 8482; 244]%N.     (* line 44 *)
Definition emoji_plus : str := [8218; 251; 239]%N.            (* line 88 *)

(** [String.prototype.trimEnd], [trimStart], [trim], [startsWith]. *)
Fixpoint trimEnd (s : str) : str :=
  match s with
  | [] => []
  | c :: r =>
      match trimEnd r with
      | [] => if is_space c then [] else [c]
      | r' => c :: r'
      end
  end.

Fixpoint trimStart (s : str) : str :=
  match s with
  | [] => []
  | c :: r => if is_space c then trimStart r else s
  end.

Definition trim (s : str) : str := trimEnd (trimStart s).

Fixpoint startsWith (s p : str) : bool :=
  match p, s with
  | [], _ => true
  | x :: p', y :: s' => N.eqb x y && startsWith s' p'
  | _ :: _, [] => false
  end.

(** ** Decimal numerals: [parseInt] on a digit run and number to string *)

Definition digit_val (c : N) : Z := Z.of_N c - 48.

Definition parse_digits (ds : str) : Z :=
  fold_left (fun acc c => 10 * acc + digit_val c) ds 0.

(** [Number.MAX_SAFE_INTEGER], 2^53 - 1, and [Number.isSafeInteger] on an
    integer.  A double holds every integer of this range, and the next one
    up, exactly; the definitions of this file that read, add to or print a
    number are exact, which the source is on this range only. *)
Definition MAX_SAFE_INTEGER : Z := 9007199254740991.

Definition isSafeInteger (n : Z) : bool :=
  (- MAX_SAFE_INTEGER <=? n) && (n <=? MAX_SAFE_INTEGER).

(** [parseInt] on the text captured by [(-?\d+)] or [(\d+)]: the number the
    digits denote.  The source gets the nearest double, which is this number
    when it is a safe integer. *)
Definition parseInt (s : str) : Z :=
  match s with
  | c :: ds => if N.eqb c chr_minus then - parse_digits ds else parse_digits s
  | [] => 0
  end.

Fixpoint show_digits (fuel : nat) (n : Z) (acc : str) : str :=
  match fuel with
  | O => acc
  | S f =>
      let acc' := Z.to_N (n mod 10 + 48) :: acc in
      if n / 10 =? 0 then acc' else show_digits f (n / 10) acc'
  end.

(** The decimal text of an integer, as a template literal prints it when
    the integer is a safe one (the source prints the digits of the double it
    holds, rounded beyond 2^53, and an exponent from 10^21 on). *)
Definition show (n : Z) : str :=
  if n <? 0
  then chr_minus :: show_digits (S (Z.to_nat (Z.log2 (- n)))) (- n) []
  else show_digits (S (Z.to_nat (Z.log2 n))) n [].

(** ** Pattern matching

    A matcher reads a prefix of its input and returns what it captured
    together with the rest of the input.  Every repetition of the source's
    patterns is followed by a character outside the repeated class (or by
    nothing), so the longest run is the only one a backtracking engine can
    succeed with. *)

(** A literal, case-sensitive. *)
Fixpoint lit (p s : str) : option str :=
  match p, s with
  | [], _ => Some s
  | x :: p', y :: s' => if N.eqb x y then lit p' s' else None
  | _ :: _, [] => None
  end.

(** A lower-case literal under the [i] flag. *)
Fixpoint lit_i (p s : str) : option str :=
  match p, s with
  | [], _ => Some s
  | x :: p', y :: s' => if N.eqb x (to_lower y) then lit_i p' s' else None
  | _ :: _, [] => None
  end.

(** The longest run of a class and what follows it: [c*]. *)
Fixpoint span (f : N -> bool) (s : str) : str * str :=
  match s with
  | [] => ([], [])
  | c :: r => if f c then let (a, b) := span f r in (c :: a, b) else ([], s)
  end.

(** [c+] *)
Definition many1 (f : N -> bool) (s : str) : option (str * str) :=
  match span f s with
  | ([], _) => None
  | (a, r) => Some (a, r)
  end.

(** [c{n}] *)
Fixpoint exactly (n : nat) (f : N -> bool) (s : str) : option (str * str) :=
  match n with
  | O => Some ([], s)
  | S k =>
      match s with
      | c :: r =>
          if f c
          then match exactly k f r with
               | Some (a, b) => Some (c :: a, b)
               | None => None
               end
          else None
      | [] => None
      end
  end.

(** [\s*] *)
Definition skip_spaces (s : str) : str := snd (span is_space s).

(** [\s*$] *)
Definition at_end_ws (s : str) : bool :=
  match skip_spaces s with [] => true | _ => false end.

(** [\d{4}-\d{2}-\d{2}], captured. *)
Definition date_lit (s : str) : option (str * str) :=
  match exactly 4 is_digit s with
  | Some (y, s1) =>
      match lit [chr_minus] s1 with
      | Some s2 =>
          match exactly 2 is_digit s2 with
          | Some (m, s3) =>
              match lit [chr_minus] s3 with
              | Some s4 =>
                  match exactly 2 is_digit s4 with
                  | Some (d, s5) => Some (y ++ [chr_minus] ++ m ++ [chr_minus] ++ d, s5)
                  | None => None
                  end
              | None => None
              end
          | None => None
          end
      | None => None
      end
  | None => None
  end.

(** The leftmost position at which a matcher succeeds: the text before the
    match, the capture and the text after the match ([RegExp.prototype.exec]
    on a fresh pattern). *)
Fixpoint search {A : Type} (m : str -> option (A * str)) (s : str)
  : option (str * A * str) :=
  match m s with
  | Some (a, rest) => Some ([], a, rest)
  | None =>
      match s with
      | [] => None
      | c :: s' =>
          match search m s' with
          | Some (pre, a, rest) => Some (c :: pre, a, rest)
          | None => None
          end
      end
  end.

(** [exec(..)?.[1]] *)
Definition capture {A : Type} (m : str -> option (A * str)) (s : str) : option A :=
  match search m s with
  | Some (_, a, _) => Some a
  | None => None
  end.

(** [test] *)
Definition test {A : Type} (m : str -> option (A * str)) (s : str) : bool :=
  match search m s with Some _ => true | None => false end.

(** [replace] with a pattern that has no [g] flag: the first match only. *)
Definition replace_first {A : Type} (m : str -> option (A * str))
  (f : A -> str) (s : str) : str :=
  match search m s with
  | Some (pre, a, rest) => pre ++ f a ++ rest
  | None => s
  end.

(** [replace(/.../g, '')]: every match, left to right, is dropped. *)
Fixpoint remove_all_fuel {A : Type} (m : str -> option (A * str))
  (fuel : nat) (s : str) : str :=
  match fuel with
  | O => s
  | S k =>
      match m s with
      | Some (_, rest) => remove_all_fuel m k rest
      | None =>
          match s with
          | [] => []
          | c :: s' => c :: remove_all_fuel m k s'
          end
      end
  end.

Definition remove_all {A : Type} (m : str -> option (A * str)) (s : str) : str :=
  remove_all_fuel m (S (length s)) s.

(** A literal as a matcher without capture. *)
Definition m_lit (p : str) (s : str) : option (unit * str) :=
  match lit p s with Some r => Some (tt, r) | None => None end.

Definition bind {A B : Type} (o : option A) (k : A -> option B) : option B :=
  match o with Some a => k a | None => None end.

Notation "x <- e ;; k" := (bind e (fun x => k))
  (at level 61, e at next level, right associativity).
Notation "' p <- e ;; k" := (bind e (fun p => k))
  (at level 61, p pattern, e at next level, right associativity).

(** [-?] *)
Definition opt_minus (s : str) : str * str :=
  match s with
  | c :: r => if N.eqb c chr_minus then ([c], r) else ([], s)
  | [] => ([], [])
  end.

(** [-?\d+], captured. *)
Definition signed_digits (s : str) : option (str * str) :=
  let (sg, s1) := opt_minus s in
  '(ds, s2) <- many1 is_digit s1 ;;
  Some (sg ++ ds, s2).

(** ** The data model *)

Inductive level := high | low.
Inductive habit := daily | weekly.
Inductive task_type := repeated_daily | scheduled | regular.

Record EisenhowerTask := {
  content : str;
  importance : level;
  urgency : level;
  durationMinutes : Z;
  file : str;
  line : Z;
  habitType : option habit;
  accumulated : bool;
  accumulatedCount : option Z;
  lastDoneDate : option str;
  taskType : task_type;
  scheduledDate : option str;
  startDate : option str;
  currentStreak : option Z;
  maxStreak : option Z;
  lastStreakDate : option str;
  attributeName : option str
}.

Definition level_eqb (a b : level) : bool :=
  match a, b with high, high | low, low => true | _, _ => false end.

(** ** The patterns of [parseTask] *)

(** [(high|low)] under the [i] flag; the capture is lower-cased by the
    caller, so it is the alternative that matched. *)
Definition alt_level (s : str) : option (level * str) :=
  match lit_i (u "high") s with
  | Some r => Some (high, r)
  | None => match lit_i (u "low") s with
            | Some r => Some (low, r)
            | None => None
            end
  end.

(** [(daily|weekly)] under the [i] flag. *)
Definition alt_habit (s : str) : option (habit * str) :=
  match lit_i (u "daily") s with
  | Some r => Some (daily, r)
  | None => match lit_i (u "weekly") s with
            | Some r => Some (weekly, r)
            | None => None
            end
  end.

(** [/\[importance::\s*(high|low)\]/i] *)
Definition re_importance (s : str) : option (level * str) :=
  s1 <- lit_i (u "[importance::") s ;;
  '(v, s2) <- alt_level (skip_spaces s1) ;;
  s3 <- lit (u "]") s2 ;;
  Some (v, s3).

(** [/\[urgency::\s*(high|low)\]/i] *)
Definition re_urgency (s : str) : option (level * str) :=
  s1 <- lit_i (u "[urgency::") s ;;
  '(v, s2) <- alt_level (skip_spaces s1) ;;
  s3 <- lit (u "]") s2 ;;
  Some (v, s3).

(** [/\[duration::\s*(\d+)\]/i] *)
Definition re_duration (s : str) : option (str * str) :=
  s1 <- lit_i (u "[duration::") s ;;
  '(ds, s2) <- many1 is_digit (skip_spaces s1) ;;
  s3 <- lit (u "]") s2 ;;
  Some (ds, s3).

(** [/(hourglass)(\d+)/] *)
Definition re_duration_emoji (s : str) : option (str * str) :=
  s1 <- lit emoji_hourglass s ;;
  many1 is_digit s1.

(** [/\[habit::\s*(daily|weekly)\]/i] *)
Definition re_habit (s : str) : option (habit * str) :=
  s1 <- lit_i (u "[habit::") s ;;
  '(v, s2) <- alt_habit (skip_spaces s1) ;;
  s3 <- lit (u "]") s2 ;;
  Some (v, s3).

(** [/\[accumulated::\s*true\]/i] *)
Definition re_accumulated (s : str) : option (unit * str) :=
  s1 <- lit_i (u "[accumulated::") s ;;
  s2 <- lit_i (u "true") (skip_spaces s1) ;;
  s3 <- lit (u "]") s2 ;;
  Some (tt, s3).

(** [/\[success::(-?\d+)]/i] *)
Definition re_success_signed (s : str) : option (str * str) :=
  s1 <- lit_i (u "[success::") s ;;
  '(n, s2) <- signed_digits s1 ;;
  s3 <- lit (u "]") s2 ;;
  Some (n, s3).

(** [/\[(-?\d+)]\s*$/] *)
Definition re_trailing_signed (s : str) : option (str * str) :=
  s1 <- lit (u "[") s ;;
  '(n, s2) <- signed_digits s1 ;;
  s3 <- lit (u "]") s2 ;;
  if at_end_ws s3 then Some (n, []) else None.

(** [/\[last-done::(\d{4}-\d{2}-\d{2})\]/i] *)
Definition re_last_done (s : str) : option (str * str) :=
  s1 <- lit_i (u "[last-done::") s ;;
  '(d, s2) <- date_lit s1 ;;
  s3 <- lit (u "]") s2 ;;
  Some (d, s3).

(** [/\[streak::(\d+)\]/i] *)
Definition re_streak (s : str) : option (str * str) :=
  s1 <- lit_i (u "[streak::") s ;;
  '(ds, s2) <- many1 is_digit s1 ;;
  s3 <- lit (u "]") s2 ;;
  Some (ds, s3).

(** [/\[max-streak::(\d+)\]/i] *)
Definition re_max_streak (s : str) : option (str * str) :=
  s1 <- lit_i (u "[max-streak::") s ;;
  '(ds, s2) <- many1 is_digit s1 ;;
  s3 <- lit (u "]") s2 ;;
  Some (ds, s3).

(** [/\[last-streak-date::(\d{4}-\d{2}-\d{2})\]/i] *)
Definition re_last_streak_date (s : str) : option (str * str) :=
  s1 <- lit_i (u "[last-streak-date::") s ;;
  '(d, s2) <- date_lit s1 ;;
  s3 <- lit (u "]") s2 ;;
  Some (d, s3).

(** [/(hourglass)\s*(\d{4}-\d{2}-\d{2})/] *)
Definition re_scheduled (s : str) : option (str * str) :=
  s1 <- lit emoji_hourglass s ;;
  date_lit (skip_spaces s1).

(** [/(plus sign)\s*(\d{4}-\d{2}-\d{2})/] *)
Definition re_start (s : str) : option (str * str) :=
  s1 <- lit emoji_plus s ;;
  date_lit (skip_spaces s1).

(** [/\[attribute::\s*([^\]\s]+)\]/i] *)
Definition re_attribute (s : str) : option (str * str) :=
  s1 <- lit_i (u "[attribute::") s ;;
  '(a, s2) <- many1 (fun c => negb (N.eqb c chr_rbracket || is_space c))
                    (skip_spaces s1) ;;
  s3 <- lit (u "]") s2 ;;
  Some (a, s3).

(** ** [parseTask] *)

(** A string or [undefined] in a boolean position. *)
Definition truthy (o : option str) : bool :=
  match o with
  | Some (_ :: _) => true
  | _ => false
  end.

(** [a || b] on strings that may be [undefined]. *)
Definition or_else (a b : option str) : option str :=
  if truthy a then a else b.

(** A boolean or [undefined] in a boolean position. *)
Definition truthy_bool (o : option bool) : bool :=
  match o with
  | Some true => true
  | _ => false
  end.

(** [v === undefined] *)
Definition is_undefined {A : Type} (v : option A) : bool :=
  match v with None => true | Some _ => false end.

Definition opt_level_is_high (o : option level) : bool :=
  match o with Some high => true | _ => false end.

(** Lines 47 to 54: the counter a line carries, [[success::N]] first, a
    trailing [[N]] otherwise. *)
Definition countAnnotation (ln : str) : option Z :=
  match search re_success_signed ln with
  | Some (_, n, _) => Some (parseInt n)
  | None =>
      match search re_trailing_signed ln with
      | Some (_, n, _) => Some (parseInt n)
      | None => None
      end
  end.

Definition parseTask (ln : str) (file_ : str) (lineNumber : Z)
  : option EisenhowerTask :=
  let importance_ := capture re_importance ln in
  let urgency_ := capture re_urgency ln in
  let duration := capture re_duration ln in
  (* both are booleans, never [undefined] *)
  let isUrgent : option bool :=
    Some (test (m_lit emoji_fire) ln || opt_level_is_high urgency_) in
  let isImportant : option bool :=
    Some (test (m_lit emoji_star) ln || opt_level_is_high importance_) in
  let durationMinutes_ :=
    or_else (or_else (capture re_duration_emoji ln) duration) (Some (u "0")) in
  let habitMatch := capture re_habit ln in
  let hasHabitEmoji := test (m_lit emoji_repeat) ln in
  let habitType_ : option habit :=
    match habitMatch with
    | Some h => Some h
    | None => if hasHabitEmoji then Some daily else None
    end in
  let accumulated_ := test re_accumulated ln || test (m_lit emoji_coin) ln in
  let accumulatedCount_ := countAnnotation ln in
  let lastDoneDate_ := capture re_last_done ln in
  let currentStreak_ := option_map parseInt (capture re_streak ln) in
  let maxStreak_ := option_map parseInt (capture re_max_streak ln) in
  let lastStreakDate_ := capture re_last_streak_date ln in
  let scheduledMatch := capture re_scheduled ln in
  let scheduledDate_ := scheduledMatch in
  let taskType_ :=
    match scheduledMatch with
    | Some _ => scheduled
    | None => if is_undefined habitType_ then regular else repeated_daily
    end in
  let startDate_ := capture re_start ln in
  let attributeName_ := capture re_attribute ln in
  if is_undefined isUrgent && is_undefined isImportant
     && is_undefined habitType_ && negb accumulated_
     && negb (truthy scheduledDate_) && negb (truthy startDate_)
     && negb (truthy attributeName_)
  then None
  else Some {|
    content := ln;
    importance := if truthy_bool isImportant then high else low;
    urgency := if truthy_bool isUrgent then high else low;
    durationMinutes := match durationMinutes_ with Some d => parseInt d | None => 0 end;
    file := file_;
    line := lineNumber;
    habitType := habitType_;
    accumulated := accumulated_;
    accumulatedCount :=
      if accumulated_
      then Some (match accumulatedCount_ with Some n => n | None => 0 end)
      else None;
    lastDoneDate := lastDoneDate_;
    taskType := taskType_;
    scheduledDate := scheduledDate_;
    startDate := startDate_;
    currentStreak := currentStreak_;
    maxStreak := maxStreak_;
    lastStreakDate := lastStreakDate_;
    attributeName := attributeName_
  |}.

(** ** [groupTasks] *)

Record quadrants := {
  urgent_important : list EisenhowerTask;          (* "Urgent & Important" *)
  not_urgent_important : list EisenhowerTask;      (* "Not Urgent but Important" *)
  urgent_not_important : list EisenhowerTask;      (* "Urgent but Not Important" *)
  neither : list EisenhowerTask                    (* "Neither Urgent nor Important" *)
}.

Definition groupTasks (tasks : list EisenhowerTask) : quadrants := {|
  urgent_important :=
    filter (fun t => level_eqb (importance t) high && level_eqb (urgency t) high) tasks;
  not_urgent_important :=
    filter (fun t => level_eqb (importance t) high && level_eqb (urgency t) low) tasks;
  urgent_not_important :=
    filter (fun t => level_eqb (importance t) low && level_eqb (urgency t) high) tasks;
  neither :=
    filter (fun t => level_eqb (importance t) low && level_eqb (urgency t) low) tasks
|}.

(** ** The streak policy *)

Record clock := {
  today : str;       (* getTodayDateStr() *)
  yesterday : str    (* getYesterdayDateStr() *)
}.

Record streak_result := {
  newStreak : Z;
  shouldUpdate : bool
}.

(** [d === x] for a date that may be [undefined]. *)
Definition date_is (d : option str) (x : str) : bool :=
  match d with
  | Some s => str_eqb s x
  | None => false
  end.

(** Lines 2197 to 2230.  [currentStreak + 1] is exact here; in the source it
    is an addition of doubles, exact when [currentStreak] is a safe
    integer. *)
Definition calculateStreakFromDates (c : clock)
  (lastDoneDate_ lastStreakDate_ : option str) (currentStreak_ : Z)
  : streak_result :=
  if negb (truthy lastDoneDate_) then
    {| newStreak := 0; shouldUpdate := false |}
  else if date_is lastDoneDate_ (today c) && date_is lastStreakDate_ (today c) then
    {| newStreak := currentStreak_; shouldUpdate := false |}
  else if date_is lastDoneDate_ (today c) then
    if date_is lastStreakDate_ (yesterday c)
    then {| newStreak := currentStreak_ + 1; shouldUpdate := true |}
    else {| newStreak := 1; shouldUpdate := true |}
  else if date_is lastDoneDate_ (yesterday c) && date_is lastStreakDate_ (yesterday c) then
    {| newStreak := currentStreak_; shouldUpdate := false |}
  else
    {| newStreak := 0; shouldUpdate := true |}.

(** ** Files and lines *)

(** [getAbstractFileByPath] followed by [vault.read]: the text of the file at
    a path, [None] when the path is not a file. *)
Definition vault := str -> option str.

(** [content.split(/\r?\n/)] *)
Fixpoint split_lines (s : str) : list str :=
  match s with
  | [] => [[]]
  | c :: r =>
      if N.eqb c 10 then [] :: split_lines r
      else
        match r with
        | c' :: r' =>
            if N.eqb c 13 && N.eqb c' 10 then [] :: split_lines r'
            else match split_lines r with
                 | l :: ls => (c :: l) :: ls
                 | [] => [[c]]
                 end
        | [] => [[c]]
        end
  end.

(** [lines.join("\n")] *)
Fixpoint join_lines (ls : list str) : str :=
  match ls with
  | [] => []
  | [l] => l
  | l :: ls' => l ++ 10%N :: join_lines ls'
  end.

(** [lines[idx]]: [undefined] outside the array. *)
Definition line_at (lines : list str) (idx : Z) : option str :=
  if idx <? 0 then None else nth_error lines (Z.to_nat idx).

Fixpoint set_nth (lines : list str) (i : nat) (v : str) : list str :=
  match lines, i with
  | [], _ => []
  | _ :: r, O => v :: r
  | l :: r, S k => l :: set_nth r k v
  end.

(** [lines[idx] = v] at an index inside the array. *)
Definition set_line (lines : list str) (idx : Z) (v : str) : list str :=
  set_nth lines (Z.to_nat idx) v.

(** The notices of the mutations. *)
Inductive notice :=
| NoHabitFile          (* 'Could not find file for habit task.' *)
| HabitComplete        (* 'Habit marked as complete!' *)
| NoHabitMatch         (* 'Could not match habit task line.' *)
| NoAccumulatedFile    (* 'Could not find file for accumulated task.' *)
| NoAccumulatedMatch   (* 'Could not match accumulated task line.' *)
| Incremented          (* 'Accumulated task count incremented!' *)
| Decremented          (* 'Accumulated task count decremented!' *)
| Cleared              (* 'Accumulated task count cleared!' *)
| NoStreakParse        (* 'Could not parse task for streak calculation.' *)
| HabitStreak (n : Z)  (* `Habit completed! ${streakEmoji} ${streakDesc}` *)
| HabitCompleteToday   (* 'Habit marked as complete for today!' *)
| NoTaskFile           (* 'Could not find file for task.' *)
| TaskComplete         (* 'Task marked as complete!' *)
| NoIncompleteTask.    (* 'Could not find incomplete task to mark as done.' *)

(** What a mutation does: a notice alone, or [vault.modify(file, text)]
    followed by a notice. *)
Inductive outcome :=
| Aborted (n : notice)
| Written (text : str) (n : notice).

(** The text of the file after the mutation. *)
Definition text_after (before : str) (o : outcome) : str :=
  match o with
  | Aborted _ => before
  | Written t _ => t
  end.

(** ** The patterns of the mutations *)

(** [/\[success::(\d+)]/i] *)
Definition re_success_unsigned (s : str) : option (str * str) :=
  s1 <- lit_i (u "[success::") s ;;
  '(n, s2) <- many1 is_digit s1 ;;
  s3 <- lit (u "]") s2 ;;
  Some (n, s3).

(** [/\[(\d+)]\s*$/] *)
Definition re_trailing_unsigned (s : str) : option (str * str) :=
  s1 <- lit (u "[") s ;;
  '(n, s2) <- many1 is_digit s1 ;;
  s3 <- lit (u "]") s2 ;;
  if at_end_ws s3 then Some (n, []) else None.

(** [/(habit::|accumulated::|accumulated-count::|\[\d+]|importance::|urgency::|duration::)/] *)
Definition re_split_token (s : str) : option (unit * str) :=
  match lit (u "habit::") s with Some r => Some (tt, r) | None =>
  match lit (u "accumulated::") s with Some r => Some (tt, r) | None =>
  match lit (u "accumulated-count::") s with Some r => Some (tt, r) | None =>
  match (s1 <- lit (u "[") s ;; '(_, s2) <- many1 is_digit s1 ;; lit (u "]") s2)
  with Some r => Some (tt, r) | None =>
  match lit (u "importance::") s with Some r => Some (tt, r) | None =>
  match lit (u "urgency::") s with Some r => Some (tt, r) | None =>
  match lit (u "duration::") s with Some r => Some (tt, r) | None =>
  None end end end end end end end.

(** [s.split(/(habit::|...)/)[0].trim()] *)
Definition match_prefix (s : str) : str :=
  trim (match search re_split_token s with
        | Some (pre, _, _) => pre
        | None => s
        end).

(** [/\[last-done::\d{4}-\d{2}-\d{2}\]/g] *)
Definition re_old_last_done (s : str) : option (unit * str) :=
  s1 <- lit (u "[last-done::") s ;;
  '(_, s2) <- date_lit s1 ;;
  s3 <- lit (u "]") s2 ;;
  Some (tt, s3).

(** [/\[streak::\d+\]/g] *)
Definition re_old_streak (s : str) : option (unit * str) :=
  s1 <- lit (u "[streak::") s ;;
  '(_, s2) <- many1 is_digit s1 ;;
  s3 <- lit (u "]") s2 ;;
  Some (tt, s3).

(** [/\[max-streak::\d+\]/g] *)
Definition re_old_max_streak (s : str) : option (unit * str) :=
  s1 <- lit (u "[max-streak::") s ;;
  '(_, s2) <- many1 is_digit s1 ;;
  s3 <- lit (u "]") s2 ;;
  Some (tt, s3).

(** [/\[last-streak-date::\d{4}-\d{2}-\d{2}\]/g] *)
Definition re_old_last_streak_date (s : str) : option (unit * str) :=
  s1 <- lit (u "[last-streak-date::") s ;;
  '(_, s2) <- date_lit s1 ;;
  s3 <- lit (u "]") s2 ;;
  Some (tt, s3).

(** ** The mutations *)

(** [lines[idx].replace(/^(- \[) \]/, '$1x]')] *)
Definition check_box (ln : str) : str :=
  match lit (u "- [ ]") ln with
  | Some r => u "- [x]" ++ r
  | None => ln
  end.

Definition _markHabitTaskDone (v : vault) (filePath : str) (lineNumber : Z)
  (originalLine : str) : outcome :=
  match v filePath with
  | None => Aborted NoHabitFile
  | Some text =>
      let lines := split_lines text in
      let idx := lineNumber - 1 in
      match line_at lines idx with
      | Some ln =>
          if truthy (Some ln) && str_eqb (trim ln) (trim originalLine)
          then Written (join_lines (set_line lines idx (check_box ln))) HabitComplete
          else Aborted NoHabitMatch
      | None => Aborted NoHabitMatch
      end
  end.

(** The three counter mutations share everything but the rewriting of the
    line and the final notice. *)
Definition counter_mutation (rewrite : str -> str) (done : notice)
  (v : vault) (filePath : str) (lineNumber : Z) (originalLine : str) : outcome :=
  match v filePath with
  | None => Aborted NoAccumulatedFile
  | Some text =>
      let lines := split_lines text in
      let idx := lineNumber - 1 in
      let ln := line_at lines idx in
      if negb (truthy ln) then Aborted NoAccumulatedMatch
      else
        match ln with
        | None => Aborted NoAccumulatedMatch
        | Some ln =>
            let originalPrefix := match_prefix originalLine in
            let linePrefix := match_prefix ln in
            if negb (startsWith linePrefix originalPrefix)
            then Aborted NoAccumulatedMatch
            else Written (join_lines (set_line lines idx (rewrite ln))) done
        end
  end.

(** Lines 1637 to 1648. *)
Definition increment_line (ln : str) : str :=
  if test re_success_unsigned ln then
    replace_first re_success_unsigned
      (fun n => u "[success::" ++ show (parseInt n + 1) ++ u "]") ln
  else if test re_trailing_unsigned ln then
    let newCount :=
      match capture re_trailing_unsigned ln with
      | Some n => parseInt n + 1
      | None => 1
      end in
    replace_first re_trailing_unsigned
      (fun _ => u "[success::" ++ show newCount ++ u "]") ln
  else trimEnd ln ++ u " [success::1]".

(** Lines 1674 to 1685. *)
Definition decrement_line (ln : str) : str :=
  if test re_success_unsigned ln then
    replace_first re_success_unsigned
      (fun n => u "[success::" ++ show (Z.max 0 (parseInt n - 1)) ++ u "]") ln
  else if test re_trailing_unsigned ln then
    let newCount :=
      match capture re_trailing_unsigned ln with
      | Some n => Z.max 0 (parseInt n - 1)
      | None => 0
      end in
    replace_first re_trailing_unsigned
      (fun _ => u "[success::" ++ show newCount ++ u "]") ln
  else trimEnd ln ++ u " [success::0]".

(** Lines 1711 to 1718. *)
Definition clear_line (ln : str) : str :=
  if test re_success_unsigned ln then
    replace_first re_success_unsigned (fun _ => u "[success::0]") ln
  else if test re_trailing_unsigned ln then
    replace_first re_trailing_unsigned (fun _ => u "[success::0]") ln
  else trimEnd ln ++ u " [success::0]".

Definition _incrementAccumulatedTask : vault -> str -> Z -> str -> outcome :=
  counter_mutation increment_line Incremented.

Definition _decrementAccumulatedTask : vault -> str -> Z -> str -> outcome :=
  counter_mutation decrement_line Decremented.

Definition _clearAccumulatedTask : vault -> str -> Z -> str -> outcome :=
  counter_mutation clear_line Cleared.

(** Lines 1736 to 1743: the old properties are dropped and the new
    [last-done] is appended. *)
Definition with_last_done (c : clock) (ln : str) : str :=
  trimEnd
    (remove_all re_old_last_streak_date
      (remove_all re_old_max_streak
        (remove_all re_old_streak
          (remove_all re_old_last_done ln))))
  ++ u " [last-done::" ++ today c ++ u "]".

(** [n || 0] on a number that may be [undefined]. *)
Definition or_zero (n : option Z) : Z :=
  match n with Some k => k | None => 0 end.

(** Lines 1766 to 1768. *)
Definition with_streak (c : clock) (newLine : str) (newStreak_ maxStreak_ : Z) : str :=
  newLine ++ u " [streak::" ++ show newStreak_ ++ u "]"
          ++ u " [max-streak::" ++ show maxStreak_ ++ u "]"
          ++ u " [last-streak-date::" ++ today c ++ u "]".

Definition _markHabitTaskDoneWithDate (enableStreakTracking : bool) (c : clock)
  (v : vault) (filePath : str) (lineNumber : Z) (originalLine : str) : outcome :=
  match v filePath with
  | None => Aborted NoHabitFile
  | Some text =>
      let lines := split_lines text in
      let idx := lineNumber - 1 in
      match line_at lines idx with
      | Some ln =>
          if truthy (Some ln) && str_eqb (trim ln) (trim originalLine) then
            let newLine := with_last_done c ln in
            if enableStreakTracking then
              match parseTask ln filePath lineNumber with
              | None => Aborted NoStreakParse
              | Some task =>
                  let streakResult :=
                    calculateStreakFromDates c (lastDoneDate task)
                      (lastStreakDate task) (or_zero (currentStreak task)) in
                  if shouldUpdate streakResult then
                    let newStreak_ := newStreak streakResult in
                    let maxStreak_ := Z.max newStreak_ (or_zero (maxStreak task)) in
                    Written
                      (join_lines (set_line lines idx
                         (with_streak c newLine newStreak_ maxStreak_)))
                      (HabitStreak newStreak_)
                  else
                    Written (join_lines (set_line lines idx newLine)) HabitCompleteToday
              end
            else
              Written (join_lines (set_line lines idx newLine)) HabitCompleteToday
          else Aborted NoHabitMatch
      | None => Aborted NoHabitMatch
      end
  end.

(** The second component is the value the method returns ([undefined] when
    the file is missing). *)
Definition _markEisenhowerTaskDone (v : vault) (filePath : str) (lineNumber : Z)
  (originalLine : str) : outcome * option bool :=
  match v filePath with
  | None => (Aborted NoTaskFile, None)
  | Some text =>
      let lines := split_lines text in
      let idx := lineNumber - 1 in
      match line_at lines idx with
      | Some ln =>
          if truthy (Some ln) && test (m_lit (u "- [ ]")) ln
          then (Written
                  (join_lines (set_line lines idx
                     (replace_first (m_lit (u "- [ ]")) (fun _ => u "- [x]") ln)))
                  TaskComplete,
                Some true)
          else (Aborted NoIncompleteTask, Some false)
      | None => (Aborted NoIncompleteTask, Some false)
      end
  end.

(** ** [escapeHtml] *)

(** The callback of line 358: the entity of one of the five characters the
    pattern matches (ampersand, the two angle brackets, the double and the
    single quote). *)
Definition escape_char (c : N) : str :=
  if N.eqb c 38 then u "&amp;"
  else if N.eqb c 60 then u "&lt;"
  else if N.eqb c 62 then u "&gt;"
  else if N.eqb c 34 then u "&quot;"
  else if N.eqb c 39 then u "&#39;"
  else [c].

(** Every match is replaced, every other character is kept. *)
Definition escapeHtml (s : str) : str := flat_map escape_char s.

(** ** [sortHabitTasks] *)

Inductive sort_key := SortProgress | SortStartDate | SortDefault.
Inductive sort_direction := Asc | Desc.

(** [direction === 'asc' ? 1 : -1] *)
Definition modifier (d : sort_direction) : Z :=
  match d with Asc => 1 | Desc => -1 end.

(** The comparator of lines 138 to 164; [localeCompare] is the comparison of
    the host's locale. *)
Definition compare_tasks (localeCompare : str -> str -> Z)
  (key : sort_key) (d : sort_direction) (a b : EisenhowerTask) : Z :=
  match key with
  | SortProgress =>
      let aIsAccumulated := accumulated a in
      let bIsAccumulated := accumulated b in
      if aIsAccumulated && negb bIsAccumulated then -1
      else if negb aIsAccumulated && bIsAccumulated then 1
      else if aIsAccumulated && bIsAccumulated then
        (or_zero (accumulatedCount b) - or_zero (accumulatedCount a)) * modifier d
      else 0
  | SortStartDate =>
      let aDate := startDate a in
      let bDate := startDate b in
      if truthy aDate && negb (truthy bDate) then -1
      else if negb (truthy aDate) && truthy bDate then 1
      else if truthy aDate && truthy bDate then
        match aDate, bDate with
        | Some x, Some y => localeCompare x y * modifier d
        | _, _ => 0
        end
      else 0
  | SortDefault => 0
  end.

(** [Array.prototype.sort] with a comparator: the sort is stable, and for a
    consistent comparator its result is the one stable ordering, which
    insertion from the right computes. *)
Fixpoint insert_task (cmp : EisenhowerTask -> EisenhowerTask -> Z)
  (x : EisenhowerTask) (l : list EisenhowerTask) : list EisenhowerTask :=
  match l with
  | [] => [x]
  | y :: r => if cmp x y <=? 0 then x :: l else y :: insert_task cmp x r
  end.

Fixpoint sort_tasks (cmp : EisenhowerTask -> EisenhowerTask -> Z)
  (l : list EisenhowerTask) : list EisenhowerTask :=
  match l with
  | [] => []
  | x :: r => insert_task cmp x (sort_tasks cmp r)
  end.

Definition sortHabitTasks (localeCompare : str -> str -> Z)
  (tasks : list EisenhowerTask) (sortKey : sort_key) (direction : sort_direction)
  : list EisenhowerTask :=
  match sortKey with
  | SortDefault => tasks
  | _ => sort_tasks (compare_tasks localeCompare sortKey direction) tasks
  end.

(** ** Scanning the vault *)

(** [/^- \[ \]/.test(line)] *)
Definition open_task (ln : str) : bool :=
  match lit (u "- [ ]") ln with Some _ => true | None => false end.

(** [/importance::\s*(high|low)/], without brackets and without the [i]
    flag. *)
Definition re_plain_importance (s : str) : option (unit * str) :=
  s1 <- lit (u "importance::") s ;;
  match lit (u "high") (skip_spaces s1) with
  | Some r => Some (tt, r)
  | None => match lit (u "low") (skip_spaces s1) with
            | Some r => Some (tt, r)
            | None => None
            end
  end.

(** [/urgency::\s*(high|low)/] *)
Definition re_plain_urgency (s : str) : option (unit * str) :=
  s1 <- lit (u "urgency::") s ;;
  match lit (u "high") (skip_spaces s1) with
  | Some r => Some (tt, r)
  | None => match lit (u "low") (skip_spaces s1) with
            | Some r => Some (tt, r)
            | None => None
            end
  end.

(** [/importance::\s*low/] *)
Definition re_plain_importance_low (s : str) : option (unit * str) :=
  s1 <- lit (u "importance::") s ;;
  s2 <- lit (u "low") (skip_spaces s1) ;;
  Some (tt, s2).

(** [/urgency::\s*low/] *)
Definition re_plain_urgency_low (s : str) : option (unit * str) :=
  s1 <- lit (u "urgency::") s ;;
  s2 <- lit (u "low") (skip_spaces s1) ;;
  Some (tt, s2).

(** The loop over the lines of one file: [body] is what one iteration
    pushes for the line [lines[i]], which has the number [i + 1]. *)
Fixpoint scan_lines {A : Type} (body : str -> Z -> list A)
  (lines : list str) (i : Z) : list A :=
  match lines with
  | [] => []
  | l :: r => body l (i + 1) ++ scan_lines body r (i + 1)
  end.

(** The markdown files of the vault, each with its path and its text
    ([getMarkdownFiles] and [vault.read]). *)
Definition markdown_files := list (str * str).

(** The loop over the files. *)
Definition scan_files {A : Type} (body : str -> str -> Z -> list A)
  (files : markdown_files) : list A :=
  flat_map (fun f => scan_lines (body (fst f)) (split_lines (snd f)) 0) files.

(** Lines 449 to 455: one iteration of [EisenhowerMatrixView.reloadAndRender]. *)
Definition matrix_view_body (path ln : str) (lineNumber : Z) : list EisenhowerTask :=
  if open_task ln then
    let hasImportance := test re_plain_importance ln || test (m_lit emoji_star) ln in
    let hasUrgency := test re_plain_urgency ln || test (m_lit emoji_fire) ln in
    if hasImportance || hasUrgency then
      match parseTask ln path lineNumber with
      | Some task => [task]
      | None => []
      end
    else []
  else [].

(** What [showEisenhowerMatrix] pushes: a parsed task, or the minimal task of
    lines 1546 to 1553, which has a content, a file and a line, importance
    and urgency low, a duration of 0 and no other field. *)
Inductive matrix_entry :=
| Parsed (task : EisenhowerTask)
| Minimal (content_ file_ : str) (line_ : Z).

(** Lines 1536 to 1555: one iteration of [showEisenhowerMatrix]. *)
Definition show_matrix_body (path ln : str) (lineNumber : Z) : list matrix_entry :=
  if open_task ln then
    let hasImportance := test re_plain_importance ln || test (m_lit emoji_star) ln in
    let hasUrgency := test re_plain_urgency ln || test (m_lit emoji_fire) ln in
    if hasImportance || hasUrgency then
      match parseTask ln path lineNumber with
      | Some task => [Parsed task]
      | None => []
      end
    else if test re_plain_importance_low ln && test re_plain_urgency_low ln then
      [Minimal ln path lineNumber]
    else []
  else [].

(** [task.taskType === "scheduled"] *)
Definition is_scheduled (t : EisenhowerTask) : bool :=
  match taskType t with scheduled => true | _ => false end.

(** Lines 828 to 844: one iteration of [DailyHabitTrackerView.reloadAndRender];
    [today_] is the date the method reads at its start. *)
Definition habit_view_body (today_ : str) (path ln : str) (lineNumber : Z)
  : list EisenhowerTask :=
  if open_task ln then
    match parseTask ln path lineNumber with
    | Some task =>
        if negb (is_undefined (habitType task)) then
          if negb (truthy (lastDoneDate task)) || negb (date_is (lastDoneDate task) today_)
          then [task]
          else if date_is (lastDoneDate task) today_ then [task]
          else []
        else if is_scheduled task && date_is (scheduledDate task) today_ then [task]
        else []
    | None => []
    end
  else [].

(** Lines 1575 to 1580: one iteration of [showHabitTracker]. *)
Definition show_habit_body (path ln : str) (lineNumber : Z) : list EisenhowerTask :=
  if open_task ln then
    match parseTask ln path lineNumber with
    | Some task => if negb (is_undefined (habitType task)) then [task] else []
    | None => []
    end
  else [].

(** The [type] that lines 848 to 851 add to a task: it is a function of the
    task, so a typed task is the task. *)
Inductive habit_kind := KDaily | KWeekly | KScheduled.

Definition habit_kind_of (t : EisenhowerTask) : habit_kind :=
  if is_scheduled t then KScheduled
  else match habitType t with
       | Some daily => KDaily
       | Some weekly => KWeekly
       | None => KDaily
       end.

Definition habit_kind_eqb (a b : habit_kind) : bool :=
  match a, b with
  | KDaily, KDaily | KWeekly, KWeekly | KScheduled, KScheduled => true
  | _, _ => false
  end.

(** Lines 1236 to 1246: the sections that [renderUI] shows, in their
    order. *)
Definition habit_sections (localeCompare : str -> str -> Z) (isGrouped : bool)
  (habitTasks : list EisenhowerTask) (key : sort_key) (d : sort_direction)
  : list (list EisenhowerTask) :=
  let processedTasks := sortHabitTasks localeCompare habitTasks key d in
  if isGrouped then
    [ filter (fun t => accumulated t) processedTasks;
      filter (fun t => negb (accumulated t)) processedTasks ]
  else
    [ filter (fun t => habit_kind_eqb (habit_kind_of t) KDaily) processedTasks;
      filter (fun t => habit_kind_eqb (habit_kind_of t) KWeekly) processedTasks;
      filter (fun t => habit_kind_eqb (habit_kind_of t) KScheduled) processedTasks ].

(** Lines 766 to 773: [completeTask] of the matrix view;
    [enableStreakTracking] is the setting the plugin reads. *)
Definition completeTask (enableStreakTracking : bool) (c : clock) (v : vault)
  (task : EisenhowerTask) : outcome :=
  match taskType task with
  | repeated_daily =>
      _markHabitTaskDoneWithDate enableStreakTracking c v
        (file task) (line task) (content task)
  | _ => fst (_markEisenhowerTaskDone v (file task) (line task) (content task))
  end.

(** ** [moveTaskToQuadrant] *)

(** [replace(/.../g, f)]: every match, left to right, is replaced. *)
Fixpoint replace_all_fuel {A : Type} (m : str -> option (A * str)) (f : A -> str)
  (fuel : nat) (s : str) : str :=
  match fuel with
  | O => s
  | S k =>
      match m s with
      | Some (a, rest) => f a ++ replace_all_fuel m f k rest
      | None =>
          match s with
          | [] => []
          | c :: s' => c :: replace_all_fuel m f k s'
          end
      end
  end.

Definition replace_all {A : Type} (m : str -> option (A * str)) (f : A -> str)
  (s : str) : str :=
  replace_all_fuel m f (S (length s)) s.

(** [`${newImportance}`]: the level as it is written into a tag. *)
Definition level_text (l : level) : str :=
  match l with high => u "high" | low => u "low" end.

(** A lower-case literal under the [i] flag as a matcher without capture:
    [/\[importance::/i] and [/\[urgency::/i]. *)
Definition m_lit_i (p : str) (s : str) : option (unit * str) :=
  match lit_i p s with Some r => Some (tt, r) | None => None end.

(** Lines 746 to 755: the two replacements of every tag, then the tags
    that are added when the line does not open one. *)
Definition move_line (ln : str) (newImportance newUrgency : level) : str :=
  let l1 := replace_all re_importance
              (fun _ => u "[importance::" ++ level_text newImportance ++ u "]") ln in
  let l2 := replace_all re_urgency
              (fun _ => u "[urgency::" ++ level_text newUrgency ++ u "]") l1 in
  let l3 := if negb (test (m_lit_i (u "[importance::")) l2)
            then l2 ++ u " [importance::" ++ level_text newImportance ++ u "]"
            else l2 in
  if negb (test (m_lit_i (u "[urgency::")) l3)
  then l3 ++ u " [urgency::" ++ level_text newUrgency ++ u "]"
  else l3.

(** What [moveTaskToQuadrant] does: it returns without a change, it throws
    ([lines[task.line - 1]] is [undefined] and has no [replace]), or it
    writes the file and shows the notice of the new quadrant. *)
Inductive move_outcome :=
| MoveSkipped
| MoveThrows
| MoveWritten (text : str) (newImportance newUrgency : level).

(** Lines 735 to 764. *)
Definition moveTaskToQuadrant (v : vault) (task : EisenhowerTask)
  (newImportance newUrgency : level) : move_outcome :=
  if level_eqb (importance task) newImportance && level_eqb (urgency task) newUrgency
  then MoveSkipped
  else
    match v (file task) with
    | None => MoveSkipped
    | Some text =>
        let lines := split_lines text in
        match line_at lines (line task - 1) with
        | None => MoveThrows
        | Some ln =>
            MoveWritten
              (join_lines (set_line lines (line task - 1)
                             (move_line ln newImportance newUrgency)))
              newImportance newUrgency
        end
    end.

(** ** Deleting a habit *)

(** [lines.splice(start, 1)]: a negative start counts from the end, a start
    past the end removes nothing. *)
Definition splice_one (lines : list str) (start : Z) : list str :=
  let len := Z.of_nat (length lines) in
  let k := if start <? 0 then Z.max (len + start) 0 else Z.min start len in
  firstn (Z.to_nat k) lines ++ skipn (S (Z.to_nat k)) lines.

(** Lines 1584 to 1594: the delete handler of the habit modal; the text that
    is written, nothing when the path is not a file. *)
Definition onDeleteHabit (v : vault) (task : EisenhowerTask) : option str :=
  match v (file task) with
  | None => None
  | Some text => Some (join_lines (splice_one (split_lines text) (line task - 1)))
  end.

(** ** The colours and levels of a counter *)

Record colors := {
  background : str;
  border : str;
  textColor : str;
  badge : str
}.

(** Lines 1963 to 2017; the badges are the emoji literals of the file, code
    unit by code unit (see [emoji_fire] and the constants after it). *)
Definition getMotivationalColor (count : Z) : colors :=
  if count <? 0 then
    if count >=? -2 then
      {| background := u "#fff3e0"; border := u "#ffb74d"; textColor := u "#e65100";
         badge := [8218; 246; 8224; 212; 8719; 232]%N |}
    else if count >=? -5 then
      {| background := u "#ffe0b2"; border := u "#ff9800"; textColor := u "#e65100";
         badge := [8218; 246; 176]%N |}
    else if count >=? -10 then
      {| background := u "#ffcc80"; border := u "#ff9800"; textColor := u "#d84315";
         badge := [63743; 252; 246; 174]%N |}
    else
      {| background := u "#ffcdd2"; border := u "#f44336"; textColor := u "#c62828";
         badge := [63743; 252; 237; 8226]%N |}
  else if count <=? 2 then
    {| background := u "#f5f5f5"; border := u "#e0e0e0"; textColor := u "#616161";
       badge := [63743; 252; 229; 177]%N |}
  else if count <=? 5 then
    {| background := u "#e3f2fd"; border := u "#90caf9"; textColor := u "#1976d2";
       badge := [63743; 252; 237; 223]%N |}
  else if count <=? 8 then
    {| background := u "#bbdefb"; border := u "#64b5f6"; textColor := u "#1565c0";
       badge := [63743; 252; 229; 228]%N |}
  else if count <=? 11 then
    {| background := u "#90caf9"; border := u "#42a5f5"; textColor := u "#0d47a1";
       badge := [8218; 246; 176]%N |}
  else if count <=? 15 then
    {| background := u "#c8e6c9"; border := u "#81c784"; textColor := u "#388e3c";
       badge := [63743; 252; 229; 248]%N |}
  else if count <=? 20 then
    {| background := u "#a5d6a7"; border := u "#66bb6a"; textColor := u "#2e7d32";
       badge := [63743; 252; 231; 201]%N |}
  else if count <=? 30 then
    {| background := u "#fff176"; border := u "#ffeb3b"; textColor := u "#f57f17";
       badge := [8218; 8800; 234]%N |}
  else
    {| background := u "#ce93d8"; border := u "#ba68c8"; textColor := u "#6a1b9a";
       badge := [63743; 252; 235; 235]%N |}.

(** Lines 2020 to 2036. *)
Definition getAchievementLevel (count : Z) : str :=
  if count <? 0 then
    if count >=? -2 then u "Needs Attention"
    else if count >=? -5 then u "Concerning"
    else if count >=? -10 then u "Warning"
    else u "Critical"
  else if count <=? 2 then u "Starting Out"
  else if count <=? 5 then u "Building Momentum"
  else if count <=? 8 then u "Getting Consistent"
  else if count <=? 11 then u "Strong Habit"
  else if count <=? 15 then u "Habit Established"
  else if count <=? 20 then u "Mastery Building"
  else if count <=? 30 then u "Golden Streak"
  else u "Legend Status".

(** ** Notions used to state the properties *)

(** [l1] is [l2] with some elements left out, the others in their order. *)
Inductive subseq {A : Type} : list A -> list A -> Prop :=
| subseq_nil : subseq [] []
| subseq_skip x l1 l2 : subseq l1 l2 -> subseq l1 (x :: l2)
| subseq_keep x l1 l2 : subseq l1 l2 -> subseq (x :: l1) (x :: l2).

(** No element is in both lists. *)
Definition disjoint {A : Type} (l1 l2 : list A) : Prop :=
  forall x, In x l1 -> In x l2 -> False.

(** No match of [m] starts inside [pre] when [pre] is followed by [t]. *)
Definition no_match_before {A : Type} (m : str -> option (A * str))
  (pre t : str) : Prop :=
  forall p q, pre = p ++ q -> q <> [] -> m (q ++ t) = None.

(** Neither bracket occurs in the text. *)
Definition no_bracket (s : str) : Prop :=
  Forall (fun c => c <> chr_lbracket /\ c <> chr_rbracket) s.

(** A run of decimal digits, not empty. *)
Definition digits (s : str) : Prop :=
  s <> [] /\ Forall (fun c => is_digit c = true) s.

(** The text does not go on with a character of the class. *)
Definition stops (f : N -> bool) (r : str) : Prop :=
  match r with
  | [] => True
  | c :: _ => f c = false
  end.

(** A digit run with or without a minus sign before it. *)
Definition signed (cap : str) : Prop :=
  digits cap \/ exists ds, cap = chr_minus :: ds /\ digits ds.

(** The text of the counter a line carries, before [parseInt]. *)
Definition counter_text (ln : str) : option str :=
  match search re_success_signed ln with
  | Some (_, n, _) => Some n
  | None =>
      match search re_trailing_signed ln with
      | Some (_, n, _) => Some n
      | None => None
      end
  end.

(** The annotation the counter mutations write. *)
Definition success_token (n : Z) : str := u "[success::" ++ show n ++ u "]".

(** The common shape of lines 1637 to 1648, 1674 to 1685 and 1711 to 1718:
    [f] maps the old count to the new one, [d] is the count that is appended
    when the line has no unsigned counter. *)
Definition rewrite_counter (f : Z -> Z) (d : Z) (ln : str) : str :=
  if test re_success_unsigned ln then
    replace_first re_success_unsigned (fun n => success_token (f (parseInt n))) ln
  else if test re_trailing_unsigned ln then
    replace_first re_trailing_unsigned
      (fun _ => success_token
                  (match capture re_trailing_unsigned ln with
                   | Some n => f (parseInt n)
                   | None => d
                   end)) ln
  else trimEnd ln ++ chr_space :: success_token d.

(** The digit run that a counter mutation reads from the line: that of the
    first unsigned [[success::N]], of a trailing unsigned [[N]] otherwise. *)
Definition mutation_reads (ln : str) : option str :=
  match capture re_success_unsigned ln with
  | Some n => Some n
  | None => capture re_trailing_unsigned ln
  end.

(** The number that a counter mutation reads from the line, when there is
    one, is a safe integer. *)
Definition reads_safe_integer (ln : str) : bool :=
  match mutation_reads ln with
  | Some n => isSafeInteger (parseInt n)
  | None => true
  end.

(** The text and what is left of it after each of its characters. *)
Fixpoint tails (s : str) : list str :=
  s :: match s with
       | [] => []
       | _ :: r => tails r
       end.

(** A match, if any, whose capture starts with a minus sign. *)
Definition minus_first (o : option (str * str)) : bool :=
  match o with
  | Some (c :: _, _) => N.eqb c chr_minus
  | Some ([], _) => false
  | None => true
  end.

(** Every counter annotation that the two patterns of [parseTask] match on
    the line, wherever it stands, has a minus sign. *)
Definition negative_only (ln : str) : bool :=
  forallb (fun q => minus_first (re_success_signed q)
                    && minus_first (re_trailing_signed q)) (tails ln).

(** The check of the counter mutations: the text of the line before its
    first recognised token starts with that of the expected line. *)
Definition prefix_matches (ln orig : str) : Prop :=
  exists r, match_prefix ln = match_prefix orig ++ r.

(** [/\[kw(\d+)\]/i] for a lower-case keyword [kw] that starts with the
    opening bracket: the shape of the patterns for [[success::N]],
    [[streak::N]] and [[max-streak::N]]. *)
Definition tag_unsigned (kw : str) (s : str) : option (str * str) :=
  s1 <- lit_i kw s ;;
  '(n, s2) <- many1 is_digit s1 ;;
  s3 <- lit (u "]") s2 ;;
  Some (n, s3).

(** The three counter mutations as operations, on a line and on the number
    the line carries. *)
Inductive counter_op := OpIncrement | OpDecrement | OpClear.

Definition op_line (op : counter_op) (ln : str) : str :=
  match op with
  | OpIncrement => increment_line ln
  | OpDecrement => decrement_line ln
  | OpClear => clear_line ln
  end.

Definition op_count (op : counter_op) (n : Z) : Z :=
  match op with
  | OpIncrement => n + 1
  | OpDecrement => Z.max 0 (n - 1)
  | OpClear => 0
  end.

(** The text with every carriage return that stands before a line feed
    left out. *)
Fixpoint crlf_to_lf (s : str) : str :=
  match s with
  | [] => []
  | c :: r =>
      match r with
      | c' :: r' =>
          if N.eqb c 13 && N.eqb c' 10 then 10%N :: crlf_to_lf r'
          else c :: crlf_to_lf r
      | [] => [c]
      end
  end.

(** The line has no line feed and does not end with a carriage return: it
    is read back as one line after [join]. *)
Definition plain_line (l : str) : Prop :=
  ~ In 10%N l /\ forall l', l <> l' ++ [13%N].

(** [plain_line], decided. *)
Definition plain_lineb (l : str) : bool :=
  negb (existsb (N.eqb 10) l)
  && negb (match rev l with c :: _ => N.eqb c 13 | [] => false end).

(** The order of the progress sort: accumulated tasks first, and among them
    the higher count first for [Asc], the lower count first for [Desc]. *)
Definition progress_order (d : sort_direction) (a b : EisenhowerTask) : Prop :=
  (accumulated b = true -> accumulated a = true) /\
  (accumulated a = true -> accumulated b = true ->
   match d with
   | Asc => or_zero (accumulatedCount b) <= or_zero (accumulatedCount a)
   | Desc => or_zero (accumulatedCount a) <= or_zero (accumulatedCount b)
   end).

(** Two tasks that the progress sort does not tell apart. *)
Definition same_progress (a b : EisenhowerTask) : bool :=
  Bool.eqb (accumulated a) (accumulated b)
  && (negb (accumulated a)
      || (or_zero (accumulatedCount a) =? or_zero (accumulatedCount b))).

(** Reads one character of an escaped text back: what [escape_char] wrote,
    or the character itself. *)
Definition unescape_head (s : str) : option (N * str) :=
  match s with
  | [] => None
  | c :: r =>
      if N.eqb c 38 then
        match lit (u "&amp;") s with Some t => Some (38%N, t) | None =>
        match lit (u "&lt;") s with Some t => Some (60%N, t) | None =>
        match lit (u "&gt;") s with Some t => Some (62%N, t) | None =>
        match lit (u "&quot;") s with Some t => Some (34%N, t) | None =>
        match lit (u "&#39;") s with Some t => Some (39%N, t) | None =>
        None end end end end end
      else Some (c, r)
  end.

(** Tasks with a start date before tasks without one. *)
Definition dated_first (a b : EisenhowerTask) : Prop :=
  truthy (startDate b) = true -> truthy (startDate a) = true.

(** [task.habitType] in a boolean position. *)
Definition has_habit (t : EisenhowerTask) : bool := negb (is_undefined (habitType t)).

(** A date as the patterns read it: four digits, two digits and two
    digits with a minus sign between them. *)
Definition is_date (d : str) : Prop := date_lit d = Some (d, []).

(** [/\[kw(\d{4}-\d{2}-\d{2})\]/i] for a lower-case keyword [kw] that starts
    with the opening bracket: the shape of the patterns for
    [[last-done::D]] and [[last-streak-date::D]]. *)
Definition tag_date (kw : str) (s : str) : option (str * str) :=
  s1 <- lit_i kw s ;;
  '(d, s2) <- date_lit s1 ;;
  s3 <- lit (u "]") s2 ;;
  Some (d, s3).

(** The line of a completion before the new [last-done] is appended
    (lines 1736 to 1741). *)
Definition without_old_properties (ln : str) : str :=
  trimEnd
    (remove_all re_old_last_streak_date
      (remove_all re_old_max_streak
        (remove_all re_old_streak
          (remove_all re_old_last_done ln)))).


(** [/\[kw\s*(high|low)\]/i] for a lower-case keyword [kw] that starts with
    the opening bracket: the shape of the patterns for [[importance::L]] and
    [[urgency::L]]. *)
Definition tag_level (kw : str) (s : str) : option (level * str) :=
  s1 <- lit_i kw s ;;
  '(v, s2) <- alt_level (skip_spaces s1) ;;
  s3 <- lit (u "]") s2 ;;
  Some (v, s3).

(** The characters a level tag is made of: ASCII and white space. *)
Definition tag_char (c : N) : Prop := (c < 128)%N \/ is_space c = true.

(** The end of the text or the opening of a bracket. *)
Definition boundary (x : str) : Prop :=
  x = [] \/ exists y, x = chr_lbracket :: y.

(** [s'] is [s] with some of its [Old] tokens replaced by [New] tokens. *)
Inductive edited (Old New : str -> Prop) : str -> str -> Prop :=
| edited_nil : edited Old New [] []
| edited_char c s s' : edited Old New s s' -> edited Old New (c :: s) (c :: s')
| edited_token t t' s s' :
    Old t -> New t' -> edited Old New s s' -> edited Old New (t ++ s) (t' ++ s').

(** A bracket, a text without brackets and a bracket. *)
Definition is_token (t : str) : Prop :=
  exists body, t = chr_lbracket :: body ++ [chr_rbracket] /\ no_bracket body.

(** What a matcher captures at the start of the text. *)
Definition head_capture {A : Type} (m : str -> option (A * str)) (s : str) : option A :=
  match m s with Some (a, _) => Some a | None => None end.

(** Where the line opens an importance or urgency tag, it has a tag that
    [parseTask] reads. *)
Definition well_tagged (ln : str) : Prop :=
  (test (m_lit_i (u "[importance::")) ln = true -> search re_importance ln <> None) /\
  (test (m_lit_i (u "[urgency::")) ln = true -> search re_urgency ln <> None).


(** What the text before it cannot read into: white space up to the end of
    the line or up to an opening bracket. *)
Definition tail_text (x : str) : Prop :=
  exists ws x0, x = ws ++ x0 /\ Forall (fun c => is_space c = true) ws /\ boundary x0.

(** What the matcher captures does not depend on such a tail. *)
Definition blind {A : Type} (k : str -> option (A * str)) : Prop :=
  forall b x y, tail_text x -> tail_text y ->
  head_capture k (b ++ x) = head_capture k (b ++ y).

(** A character that no such tail starts with. *)
Definition solid (c : N) : Prop := is_space c = false /\ c <> chr_lbracket.

(** The fields of a task other than its content, its counter and its
    attribute name. *)
Definition frame_fields (t : EisenhowerTask) :=
  (importance t, urgency t, durationMinutes t, file t, line t, habitType t,
   accumulated t, lastDoneDate t, taskType t, scheduledDate t, startDate t,
   currentStreak t, maxStreak t, lastStreakDate t).

(** The counter annotations that the counter mutations replace, without
    the white space that may follow the trailing one. *)
Definition counter_token (t : str) : Prop :=
  (exists cap, re_success_unsigned t = Some (cap, [])) \/
  (exists ds, digits ds /\ t = chr_lbracket :: ds ++ [chr_rbracket]).

(** The counter annotations that they write. *)
Definition written_token (t : str) : Prop := exists k, t = success_token k.

(** The task one line up. *)
Definition moved_up (t : EisenhowerTask) : EisenhowerTask := {|
  content := content t;
  importance := importance t;
  urgency := urgency t;
  durationMinutes := durationMinutes t;
  file := file t;
  line := line t - 1;
  habitType := habitType t;
  accumulated := accumulated t;
  accumulatedCount := accumulatedCount t;
  lastDoneDate := lastDoneDate t;
  taskType := taskType t;
  scheduledDate := scheduledDate t;
  startDate := startDate t;
  currentStreak := currentStreak t;
  maxStreak := maxStreak t;
  lastStreakDate := lastStreakDate t;
  attributeName := attributeName t
|}.

(** The levels of a negative counter. *)
Definition warning_levels : list str :=
  [u "Needs Attention"; u "Concerning"; u "Warning"; u "Critical"].

(** * Properties *)

(** ** Strings *)

Lemma str_eqb_eq (a b : str) : str_eqb a b = true <-> a = b.
Proof.
  revert b; induction a as [|x a IH]; intros [|y b]; simpl; split;
    try congruence; try discriminate; auto.
  - rewrite andb_true_iff, N.eqb_eq, IH. intros [-> ->]; reflexivity.
  - intros E; injection E as -> ->.
    rewrite N.eqb_refl. simpl. apply IH. reflexivity.
Qed.

Lemma str_eqb_refl (a : str) : str_eqb a a = true.
Proof. apply str_eqb_eq; reflexivity. Qed.

Lemma str_eqb_neq (a b : str) : str_eqb a b = false <-> a <> b.
Proof.
  rewrite <- str_eqb_eq. destruct (str_eqb a b); split; congruence.
Qed.

Lemma date_is_true (d : option str) (x : str) : date_is d x = true <-> d = Some x.
Proof.
  destruct d as [s|]; simpl.
  - rewrite str_eqb_eq. split; congruence.
  - split; discriminate.
Qed.

Lemma date_is_false (d : option str) (x : str) : date_is d x = false <-> d <> Some x.
Proof.
  rewrite <- date_is_true. destruct (date_is d x); split; congruence.
Qed.

Lemma truthy_false (d : option str) : truthy d = false <-> d = None \/ d = Some [].
Proof.
  destruct d as [[|c s]|]; simpl; split; auto; try discriminate.
  intros [E|E]; discriminate.
Qed.

(** ** The streak policy *)

Section StreakPolicy.

Variable c : clock.
Variables lastDone lastStreak : option str.
Variable current : Z.

Let result := calculateStreakFromDates c lastDone lastStreak current.

Lemma streak_never_done :
  lastDone = None ->
  result = {| newStreak := 0; shouldUpdate := false |}.
Proof. intros ->; reflexivity. Qed.

Lemma streak_done_today :
  lastDone <> Some [] -> lastDone = Some (today c) ->
  result =
    if date_is lastStreak (today c)
    then {| newStreak := current; shouldUpdate := false |}
    else if date_is lastStreak (yesterday c)
         then {| newStreak := current + 1; shouldUpdate := true |}
         else {| newStreak := 1; shouldUpdate := true |}.
Proof.
  intros Hne E. subst result. unfold calculateStreakFromDates.
  assert (Ht : truthy lastDone = true).
  { destruct (truthy lastDone) eqn:T; auto.
    apply truthy_false in T as [T|T]; congruence. }
  rewrite Ht. simpl.
  assert (Hd : date_is lastDone (today c) = true) by (apply date_is_true; exact E).
  rewrite Hd. simpl. destruct (date_is lastStreak (today c)); reflexivity.
Qed.

Lemma streak_not_done_today :
  lastDone <> None -> lastDone <> Some [] -> lastDone <> Some (today c) ->
  result =
    if date_is lastDone (yesterday c) && date_is lastStreak (yesterday c)
    then {| newStreak := current; shouldUpdate := false |}
    else {| newStreak := 0; shouldUpdate := true |}.
Proof.
  intros Hn Hne Ht. subst result. unfold calculateStreakFromDates.
  assert (Hy : truthy lastDone = true).
  { destruct (truthy lastDone) eqn:T; auto.
    apply truthy_false in T as [T|T]; congruence. }
  rewrite Hy. simpl.
  apply date_is_false in Ht. rewrite Ht. reflexivity.
Qed.

End StreakPolicy.

(** C1.  The six rules of the streak policy, first match first.  A date, when
    present, is a non-empty string; [today] and [yesterday] are the two
    readings of the clock; the current streak is a safe integer, so that
    the source adds one exactly as the model does.
    - rule 1: no last completion gives streak 0, nothing to persist;
    - rule 2: done today and streak dated today gives the current streak,
      nothing to persist;
    - rule 3: done today and streak dated yesterday gives the current streak
      plus one, to persist;
    - rule 4: done today with any other streak date gives 1, to persist;
    - rule 5: done yesterday and streak dated yesterday gives the current
      streak, nothing to persist;
    - rule 6: every remaining case gives 0, to persist. *)
Theorem calculateStreakFromDates_six_rules
  (c : clock) (lastDone lastStreak : option str) (current : Z) :
  lastDone <> Some [] ->
  isSafeInteger current = true ->
  let r := calculateStreakFromDates c lastDone lastStreak current in
  (lastDone = None ->
     r = {| newStreak := 0; shouldUpdate := false |}) /\
  (lastDone = Some (today c) -> lastStreak = Some (today c) ->
     r = {| newStreak := current; shouldUpdate := false |}) /\
  (lastDone = Some (today c) -> lastStreak <> Some (today c) ->
   lastStreak = Some (yesterday c) ->
     r = {| newStreak := current + 1; shouldUpdate := true |}) /\
  (lastDone = Some (today c) -> lastStreak <> Some (today c) ->
   lastStreak <> Some (yesterday c) ->
     r = {| newStreak := 1; shouldUpdate := true |}) /\
  (lastDone <> None -> lastDone <> Some (today c) ->
   lastDone = Some (yesterday c) -> lastStreak = Some (yesterday c) ->
     r = {| newStreak := current; shouldUpdate := false |}) /\
  (lastDone <> None -> lastDone <> Some (today c) ->
   ~ (lastDone = Some (yesterday c) /\ lastStreak = Some (yesterday c)) ->
     r = {| newStreak := 0; shouldUpdate := true |}).
Proof.
  intros Hne _ r. subst r. repeat split.
  - apply streak_never_done.
  - intros E1 E2. rewrite streak_done_today by assumption.
    apply date_is_true in E2. rewrite E2. reflexivity.
  - intros E1 N2 E3. rewrite streak_done_today by assumption.
    apply date_is_false in N2. apply date_is_true in E3.
    rewrite N2, E3. reflexivity.
  - intros E1 N2 N3. rewrite streak_done_today by assumption.
    apply date_is_false in N2. apply date_is_false in N3.
    rewrite N2, N3. reflexivity.
  - intros N0 N1 E2 E3. rewrite streak_not_done_today by assumption.
    apply date_is_true in E2. apply date_is_true in E3.
    rewrite E2, E3. reflexivity.
  - intros N0 N1 N2. rewrite streak_not_done_today by assumption.
    destruct (date_is lastDone (yesterday c)) eqn:E2;
      destruct (date_is lastStreak (yesterday c)) eqn:E3; try reflexivity.
    apply date_is_true in E2. apply date_is_true in E3.
    exfalso. apply N2. split; assumption.
Qed.

(** The six rules at a habit done today whose streak was last counted
    yesterday. *)
Lemma calculateStreakFromDates_six_rules_witness :
  let c := {| today := u "2025-06-08"; yesterday := u "2025-06-07" |} in
  Some (u "2025-06-08") <> Some [] /\
  isSafeInteger 4 = true /\
  calculateStreakFromDates c (Some (u "2025-06-08")) (Some (u "2025-06-07")) 4
  = {| newStreak := 5; shouldUpdate := true |}.
Proof.
  intros c. split; [discriminate|]. split; [reflexivity|].
  apply (calculateStreakFromDates_six_rules c (Some (u "2025-06-08"))
           (Some (u "2025-06-07")) 4);
    [discriminate|reflexivity|reflexivity|discriminate|reflexivity].
Defined.

(** ** Admission *)

(** The test of line 101 compares two booleans with [undefined], so it never
    holds: every line is admitted. *)
Lemma parseTask_never_absent (ln file_ : str) (lineNumber : Z) :
  parseTask ln file_ lineNumber <> None.
Proof. unfold parseTask. simpl. discriminate. Qed.

(** C2.  A plain checklist line carries no importance or urgency signal, no
    habit marker, no accumulated marker, no scheduled date, no start date and
    no attribute name, and [parseTask] still returns a record for it, in the
    low/low quadrant, where the admission rule asks for no record. *)
Theorem parseTask_admits_plain_line :
  let ln := u "- [ ] buy milk" in
  capture re_importance ln = None /\ capture re_urgency ln = None /\
  test (m_lit emoji_star) ln = false /\ test (m_lit emoji_fire) ln = false /\
  capture re_habit ln = None /\ test (m_lit emoji_repeat) ln = false /\
  test re_accumulated ln = false /\ test (m_lit emoji_coin) ln = false /\
  capture re_scheduled ln = None /\ capture re_start ln = None /\
  capture re_attribute ln = None /\
  parseTask ln (u "notes.md") 3 =
    Some {| content := ln; importance := low; urgency := low;
            durationMinutes := 0; file := u "notes.md"; line := 3;
            habitType := None; accumulated := false; accumulatedCount := None;
            lastDoneDate := None; taskType := regular; scheduledDate := None;
            startDate := None; currentStreak := None; maxStreak := None;
            lastStreakDate := None; attributeName := None |}.
Proof. vm_compute. repeat split. Qed.

(** ** Quadrants *)

Lemma filter_subseq {A : Type} (f : A -> bool) (l : list A) :
  subseq (filter f l) l.
Proof.
  induction l as [|x l IH]; simpl.
  - constructor.
  - destruct (f x); constructor; exact IH.
Qed.

(** Two filters whose tests exclude each other split a list. *)
Lemma filter_split_perm {A : Type} (f g : A -> bool) (l : list A) :
  (forall x, f x = true -> g x = false) ->
  Permutation (filter f l ++ filter g l) (filter (fun x => f x || g x) l).
Proof.
  intros Hfg. induction l as [|x l IH]; simpl.
  - constructor.
  - destruct (f x) eqn:Fx; simpl.
    + rewrite (Hfg x Fx). constructor. exact IH.
    + destruct (g x); simpl.
      * apply Permutation_sym, Permutation_cons_app, Permutation_sym. exact IH.
      * exact IH.
Qed.

Lemma filter_all {A : Type} (f : A -> bool) (l : list A) :
  (forall x, f x = true) -> filter f l = l.
Proof.
  intros H. induction l as [|x l IH]; simpl; [reflexivity|].
  rewrite H, IH. reflexivity.
Qed.

Lemma filter_disjoint {A : Type} (f g : A -> bool) (l : list A) :
  (forall x, f x = true -> g x = false) ->
  disjoint (filter f l) (filter g l).
Proof.
  intros Hfg x Hf Hg.
  apply filter_In in Hf as [_ Hf]. apply filter_In in Hg as [_ Hg].
  rewrite (Hfg x Hf) in Hg. discriminate.
Qed.

Lemma in_quadrant (tasks : list EisenhowerTask) (a b : level) (t : EisenhowerTask) :
  In t (filter (fun t => level_eqb (importance t) a && level_eqb (urgency t) b) tasks)
  <-> In t tasks /\ importance t = a /\ urgency t = b.
Proof.
  rewrite filter_In.
  destruct (importance t), (urgency t), a, b; simpl; intuition congruence.
Qed.

(** C4.  The four quadrants of [groupTasks] are pairwise disjoint, together
    they are the input as a multiset, and each keeps the input order. *)
Theorem groupTasks_partition (tasks : list EisenhowerTask) :
  let q := groupTasks tasks in
  Permutation
    (urgent_important q ++ not_urgent_important q
       ++ urgent_not_important q ++ neither q) tasks /\
  (disjoint (urgent_important q) (not_urgent_important q) /\
   disjoint (urgent_important q) (urgent_not_important q) /\
   disjoint (urgent_important q) (neither q) /\
   disjoint (not_urgent_important q) (urgent_not_important q) /\
   disjoint (not_urgent_important q) (neither q) /\
   disjoint (urgent_not_important q) (neither q)) /\
  (subseq (urgent_important q) tasks /\
   subseq (not_urgent_important q) tasks /\
   subseq (urgent_not_important q) tasks /\
   subseq (neither q) tasks) /\
  (forall t, In t (urgent_important q) <->
             In t tasks /\ importance t = high /\ urgency t = high) /\
  (forall t, In t (not_urgent_important q) <->
             In t tasks /\ importance t = high /\ urgency t = low) /\
  (forall t, In t (urgent_not_important q) <->
             In t tasks /\ importance t = low /\ urgency t = high) /\
  (forall t, In t (neither q) <->
             In t tasks /\ importance t = low /\ urgency t = low).
Proof.
  intros q. subst q. unfold groupTasks. simpl.
  split; [|split; [|split]].
  - rewrite !app_assoc.
    rewrite filter_split_perm
      by (intros x; destruct (importance x), (urgency x); simpl; congruence).
    rewrite filter_split_perm
      by (intros x; destruct (importance x), (urgency x); simpl; congruence).
    rewrite filter_split_perm
      by (intros x; destruct (importance x), (urgency x); simpl; congruence).
    rewrite filter_all; [reflexivity|].
    intros x; destruct (importance x), (urgency x); reflexivity.
  - repeat split; apply filter_disjoint;
      intros x; destruct (importance x), (urgency x); simpl; congruence.
  - repeat split; apply filter_subseq.
  - split; [|split; [|split]]; intros t; apply in_quadrant.
Qed.

(** ** Completing a habit *)

(** C3.  A habit whose line says it was done today and counted today is
    completed again on the same day: [shouldUpdate] is false, and the line
    that is written has lost [[streak::5]], [[max-streak::5]] and
    [[last-streak-date::...]], which were removed before the streak was
    looked at; the streak read back is absent, and one more completion
    starts a streak of 1.  Likewise a habit done and counted yesterday loses
    its streak annotations at the first completion of today, and the second
    completion of today has [shouldUpdate] true. *)
Theorem second_completion_drops_streak_annotations :
  let c := {| today := u "2025-06-08"; yesterday := u "2025-06-07" |} in
  let path := u "habits.md" in
  let ln := u "- [ ] Meditate [habit::daily] [last-done::2025-06-08] [streak::5] [max-streak::5] [last-streak-date::2025-06-08]" in
  let ln' := u "- [ ] Meditate [habit::daily] [last-done::2025-06-08]" in
  let old := u "- [ ] Meditate [habit::daily] [last-done::2025-06-07] [streak::4] [max-streak::4] [last-streak-date::2025-06-07]" in
  (* the second completion of the day *)
  option_map (fun t => calculateStreakFromDates c (lastDoneDate t)
                         (lastStreakDate t) (or_zero (currentStreak t)))
             (parseTask ln path 1)
    = Some {| newStreak := 5; shouldUpdate := false |} /\
  _markHabitTaskDoneWithDate true c (fun _ => Some ln) path 1 ln
    = Written ln' HabitCompleteToday /\
  option_map currentStreak (parseTask ln path 1) = Some (Some 5) /\
  option_map currentStreak (parseTask ln' path 1) = Some None /\
  option_map maxStreak (parseTask ln' path 1) = Some None /\
  (* one more completion *)
  _markHabitTaskDoneWithDate true c (fun _ => Some ln') path 1 ln'
    = Written (u "- [ ] Meditate [habit::daily] [last-done::2025-06-08] [streak::1] [max-streak::1] [last-streak-date::2025-06-08]")
              (HabitStreak 1) /\
  (* the first completion of the day, on a habit done and counted yesterday *)
  _markHabitTaskDoneWithDate true c (fun _ => Some old) path 1 old
    = Written ln' HabitCompleteToday.
Proof. vm_compute. repeat split. Qed.

(** ** Counters *)

(** C6.  A line whose counter is negative is incremented: the pattern of the
    mutation reads unsigned digits only, so [ [success::1]] is appended and
    the line read back still counts -3, not -2. *)
Theorem increment_leaves_negative_counter :
  let path := u "habits.md" in
  let ln := u "- [ ] Avoid sugar [accumulated::true] [success::-3]" in
  let ln' := u "- [ ] Avoid sugar [accumulated::true] [success::-3] [success::1]" in
  option_map accumulatedCount (parseTask ln path 1) = Some (Some (-3)) /\
  _incrementAccumulatedTask (fun _ => Some ln) path 1 ln = Written ln' Incremented /\
  option_map accumulatedCount (parseTask ln' path 1) = Some (Some (-3)).
Proof. vm_compute. repeat split. Qed.

(** ** Importance and urgency *)

(** C8, the claim fails: with [[importance::low]] and the importance emoji
    ([emoji_star], the literal that line 33 tests) on one line the
    importance read is high, and with [[urgency::low]] and the urgency emoji
    the urgency read is high; with [[duration::30]] and the duration emoji
    followed by 45 the duration read is 45. *)
Lemma bracket_low_does_not_override_emoji :
  let l1 := u "- [ ] Pay rent [importance::low] " ++ emoji_star in
  let l2 := u "- [ ] Pay rent [urgency::low] " ++ emoji_fire in
  let l3 := u "- [ ] Pay rent [duration::30] " ++ emoji_hourglass ++ u "45" in
  capture re_importance l1 = Some low /\
  test (m_lit emoji_star) l1 = true /\
  option_map importance (parseTask l1 (u "todo.md") 1) = Some high /\
  option_map importance (parseTask l1 (u "todo.md") 1) <> Some low /\
  capture re_urgency l2 = Some low /\
  test (m_lit emoji_fire) l2 = true /\
  option_map urgency (parseTask l2 (u "todo.md") 1) = Some high /\
  option_map urgency (parseTask l2 (u "todo.md") 1) <> Some low /\
  capture re_duration l3 = Some (u "30") /\
  capture re_duration_emoji l3 = Some (u "45") /\
  option_map durationMinutes (parseTask l3 (u "todo.md") 1) = Some 45.
Proof. vm_compute. repeat split; discriminate. Qed.

(** The characters U+2B50 and U+1F525 themselves are not what the patterns
    of the file test: next to a low tag they leave the field low. *)
Lemma emoji_character_is_not_tested :
  let l1 := u "- [ ] Pay rent [importance::low] " ++ [11088%N] in
  let l2 := u "- [ ] Pay rent [urgency::low] " ++ [55357%N; 56613%N] in
  test (m_lit emoji_star) l1 = false /\
  option_map importance (parseTask l1 (u "todo.md") 1) = Some low /\
  test (m_lit emoji_fire) l2 = false /\
  option_map urgency (parseTask l2 (u "todo.md") 1) = Some low.
Proof. vm_compute. repeat split. Qed.

(** ** The leftmost match *)

Section Search.

Context {A : Type}.
Variable m : str -> option (A * str).

Lemma no_match_before_nil (t : str) : no_match_before m [] t.
Proof.
  intros p q E Hq. symmetry in E. apply app_eq_nil in E as [_ E].
  contradiction.
Qed.

Lemma no_match_before_cons (c : N) (pre t : str) :
  m (c :: pre ++ t) = None -> no_match_before m pre t ->
  no_match_before m (c :: pre) t.
Proof.
  intros Hc H p q E Hq. destruct p as [|x p]; simpl in E.
  - subst q. exact Hc.
  - injection E as _ E. apply (H p q E Hq).
Qed.

Lemma no_match_before_tail (c : N) (pre t : str) :
  no_match_before m (c :: pre) t ->
  m (c :: pre ++ t) = None /\ no_match_before m pre t.
Proof.
  intros H. split.
  - apply (H [] (c :: pre)); [reflexivity|discriminate].
  - intros p q E Hq. apply (H (c :: p) q); [simpl; congruence|exact Hq].
Qed.

Lemma search_Some_iff (s pre : str) (a : A) (rest : str) :
  search m s = Some (pre, a, rest) <->
  exists t, s = pre ++ t /\ m t = Some (a, rest) /\ no_match_before m pre t.
Proof.
  revert pre. induction s as [|c s IH]; intros pre; simpl.
  - destruct (m []) as [[a0 r0]|] eqn:E; split.
    + intros H; injection H as <- <- <-. exists []. repeat split; auto.
      apply no_match_before_nil.
    + intros (t & Hs & Ht & _). symmetry in Hs.
      apply app_eq_nil in Hs as [-> ->]. rewrite E in Ht. injection Ht as -> ->. reflexivity.
    + discriminate.
    + intros (t & Hs & Ht & _). symmetry in Hs.
      apply app_eq_nil in Hs as [-> ->]. rewrite E in Ht. discriminate.
  - destruct (m (c :: s)) as [[a0 r0]|] eqn:E; split.
    + intros H; injection H as <- <- <-. exists (c :: s). repeat split; auto.
      apply no_match_before_nil.
    + intros (t & Hs & Ht & Hn). destruct pre as [|x pre]; simpl in Hs.
      * subst t. rewrite E in Ht. injection Ht as -> ->. reflexivity.
      * injection Hs as -> ->. apply no_match_before_tail in Hn as [Hn _].
        rewrite E in Hn. discriminate.
    + destruct (search m s) as [[[pre0 a1] r1]|] eqn:Es; [|discriminate].
      intros H; injection H as <- <- <-.
      destruct (proj1 (IH pre0) eq_refl) as (t & -> & Ht & Hn).
      exists t. repeat split; auto.
      apply no_match_before_cons; assumption.
    + intros (t & Hs & Ht & Hn). destruct pre as [|x pre]; simpl in Hs.
      * subst t. rewrite E in Ht. discriminate.
      * injection Hs as -> ->. apply no_match_before_tail in Hn as [_ Hn].
        assert (Es : search m (pre ++ t) = Some (pre, a, rest)).
        { apply IH. exists t. auto. }
        rewrite Es. reflexivity.
Qed.

Lemma search_None_iff (s : str) :
  search m s = None <-> forall p q, s = p ++ q -> m q = None.
Proof.
  induction s as [|c s IH]; simpl.
  - destruct (m []) as [[a0 r0]|] eqn:E; split.
    + discriminate.
    + intros H. specialize (H [] [] eq_refl). congruence.
    + intros _ p q Hs. symmetry in Hs. apply app_eq_nil in Hs as [_ ->]. exact E.
    + reflexivity.
  - destruct (m (c :: s)) as [[a0 r0]|] eqn:E; split.
    + discriminate.
    + intros H. specialize (H [] (c :: s) eq_refl). congruence.
    + destruct (search m s) as [[[pre0 a1] r1]|] eqn:Es; [discriminate|].
      intros _ p q Hs. destruct p as [|x p]; simpl in Hs.
      * subst q. exact E.
      * injection Hs as _ Hs. apply (proj1 IH eq_refl p q Hs).
    + intros H. destruct (search m s) as [[[pre0 a1] r1]|] eqn:Es; [|reflexivity].
      assert (Hn : Some (pre0, a1, r1) = None).
      { apply IH. intros p q Hs. apply (H (c :: p) q). simpl. congruence. }
      discriminate.
Qed.

(** A match somewhere makes the search succeed. *)
Lemma search_found (pre t : str) (a : A) (rest : str) :
  m t = Some (a, rest) -> search m (pre ++ t) <> None.
Proof.
  intros Ht Hn. rewrite search_None_iff in Hn.
  rewrite (Hn pre t eq_refl) in Ht. discriminate.
Qed.

Lemma test_found (pre t : str) (a : A) (rest : str) :
  m t = Some (a, rest) -> test m (pre ++ t) = true.
Proof.
  intros Ht. unfold test.
  destruct (search m (pre ++ t)) eqn:E; [reflexivity|].
  exfalso. exact (search_found pre t a rest Ht E).
Qed.

End Search.

Lemma lit_app (p s : str) : lit p (p ++ s) = Some s.
Proof.
  induction p as [|x p IH]; simpl; [reflexivity|].
  rewrite N.eqb_refl. exact IH.
Qed.

Lemma lit_Some (p s r : str) : lit p s = Some r <-> s = p ++ r.
Proof.
  revert s. induction p as [|x p IH]; intros s; simpl.
  - split; congruence.
  - destruct s as [|y s]; [split; discriminate|].
    destruct (N.eqb x y) eqn:E.
    + apply N.eqb_eq in E. subst y. rewrite IH. split; congruence.
    + apply N.eqb_neq in E. split; [discriminate|congruence].
Qed.

(** A line that contains a literal passes the test for it. *)
Lemma test_lit_contains (p a b : str) : test (m_lit p) (a ++ p ++ b) = true.
Proof.
  apply (test_found (m_lit p) a (p ++ b) tt b).
  unfold m_lit. rewrite lit_app. reflexivity.
Qed.

(** What [parseTask] reads for the two axes of the matrix. *)
Lemma parseTask_importance (ln file_ : str) (n : Z) :
  option_map importance (parseTask ln file_ n) =
  Some (if test (m_lit emoji_star) ln || opt_level_is_high (capture re_importance ln)
        then high else low).
Proof.
  unfold parseTask. cbn [is_undefined andb option_map importance truthy_bool].
  destruct (test (m_lit emoji_star) ln || opt_level_is_high (capture re_importance ln));
    reflexivity.
Qed.

Lemma parseTask_urgency (ln file_ : str) (n : Z) :
  option_map urgency (parseTask ln file_ n) =
  Some (if test (m_lit emoji_fire) ln || opt_level_is_high (capture re_urgency ln)
        then high else low).
Proof.
  unfold parseTask. cbn [is_undefined andb option_map urgency truthy_bool].
  destruct (test (m_lit emoji_fire) ln || opt_level_is_high (capture re_urgency ln));
    reflexivity.
Qed.

(** The count of a record is the counter of the line, 0 without one, when
    the line is accumulated. *)
Lemma parseTask_count (ln file_ : str) (n : Z) (t : EisenhowerTask) :
  parseTask ln file_ n = Some t ->
  accumulatedCount t =
    if accumulated t
    then Some (match countAnnotation ln with Some c => c | None => 0 end)
    else None.
Proof.
  unfold parseTask. cbn [is_undefined andb]. intros H. injection H as <-. reflexivity.
Qed.

Lemma parseTask_habitType (ln file_ : str) (n : Z) :
  option_map habitType (parseTask ln file_ n) =
  Some (match capture re_habit ln with
        | Some h => Some h
        | None => if test (m_lit emoji_repeat) ln then Some daily else None
        end).
Proof. unfold parseTask. cbn [is_undefined andb option_map habitType]. reflexivity. Qed.

Lemma parseTask_durationMinutes (ln file_ : str) (n : Z) :
  option_map durationMinutes (parseTask ln file_ n) =
  Some (match or_else (or_else (capture re_duration_emoji ln) (capture re_duration ln))
                      (Some (u "0")) with
        | Some d => parseInt d
        | None => 0
        end).
Proof.
  unfold parseTask. cbn [is_undefined andb option_map durationMinutes]. reflexivity.
Qed.

Lemma many1_nonempty (f : N -> bool) (s a r : str) :
  many1 f s = Some (a, r) -> a <> [].
Proof.
  unfold many1. destruct (span f s) as [[|x a'] r']; [discriminate|].
  intros H; injection H as <- _. discriminate.
Qed.

(** The digits after the duration emoji are at least one. *)
Lemma duration_emoji_nonempty (ln ds : str) :
  capture re_duration_emoji ln = Some ds -> ds <> [].
Proof.
  unfold capture.
  destruct (search re_duration_emoji ln) as [[[pre a] rest]|] eqn:E; [|discriminate].
  intros H; injection H as ->.
  apply search_Some_iff in E as (t & _ & Ht & _).
  unfold re_duration_emoji, bind in Ht.
  destruct (lit emoji_hourglass t) as [s1|]; [|discriminate].
  exact (many1_nonempty _ _ _ _ Ht).
Qed.

(** C8, amended.  Which of the two forms of a field decides depends on the
    field.
    - Importance and urgency: the emoji decides.  A line that contains the
      importance emoji is read with importance high, whatever a bracket tag
      says, and a line that contains the urgency emoji with urgency high;
      without the emoji the field is high when the first bracket tag says
      high and low otherwise.
    - Habit type: the bracket tag decides.  A line with a [[habit::...]] tag
      has the type of its first tag, whatever emoji it contains; without a
      tag the habit emoji gives daily.
    - Duration: the emoji form decides.  A line where the duration emoji is
      followed by digits has that number as its duration, whatever a
      [[duration::N]] tag says; without it the first tag gives the duration,
      and 0 is the duration of a line with neither (the numbers being safe
      integers).
    - Accumulated: either form sets the flag. *)
Theorem form_that_decides_each_field :
  (forall a b file_ n,
     option_map importance (parseTask (a ++ emoji_star ++ b) file_ n) = Some high) /\
  (forall a b file_ n,
     option_map urgency (parseTask (a ++ emoji_fire ++ b) file_ n) = Some high) /\
  (forall ln file_ n, test (m_lit emoji_star) ln = false ->
     option_map importance (parseTask ln file_ n) =
       Some (match capture re_importance ln with Some high => high | _ => low end)) /\
  (forall ln file_ n, test (m_lit emoji_fire) ln = false ->
     option_map urgency (parseTask ln file_ n) =
       Some (match capture re_urgency ln with Some high => high | _ => low end)) /\
  (forall ln file_ n h, capture re_habit ln = Some h ->
     option_map habitType (parseTask ln file_ n) = Some (Some h)) /\
  (forall ln file_ n, capture re_habit ln = None ->
     option_map habitType (parseTask ln file_ n) =
       Some (if test (m_lit emoji_repeat) ln then Some daily else None)) /\
  (forall ln file_ n ds, capture re_duration_emoji ln = Some ds ->
     isSafeInteger (parseInt ds) = true ->
     option_map durationMinutes (parseTask ln file_ n) = Some (parseInt ds)) /\
  (forall ln file_ n ds, capture re_duration_emoji ln = None ->
     capture re_duration ln = Some ds -> isSafeInteger (parseInt ds) = true ->
     option_map durationMinutes (parseTask ln file_ n) = Some (parseInt ds)) /\
  (forall ln file_ n, capture re_duration_emoji ln = None ->
     capture re_duration ln = None ->
     option_map durationMinutes (parseTask ln file_ n) = Some 0) /\
  (forall ln file_ n,
     option_map accumulated (parseTask ln file_ n) =
       Some (test re_accumulated ln || test (m_lit emoji_coin) ln)).
Proof.
  split; [|split; [|split; [|split; [|split; [|split; [|split; [|split; [|split]]]]]]]].
  - intros a b file_ n. rewrite parseTask_importance, test_lit_contains. reflexivity.
  - intros a b file_ n. rewrite parseTask_urgency, test_lit_contains. reflexivity.
  - intros ln file_ n H. rewrite parseTask_importance, H.
    destruct (capture re_importance ln) as [[|]|]; reflexivity.
  - intros ln file_ n H. rewrite parseTask_urgency, H.
    destruct (capture re_urgency ln) as [[|]|]; reflexivity.
  - intros ln file_ n h H. rewrite parseTask_habitType, H. reflexivity.
  - intros ln file_ n H. rewrite parseTask_habitType, H. reflexivity.
  - intros ln file_ n ds H _. rewrite parseTask_durationMinutes, H.
    pose proof (duration_emoji_nonempty ln ds H) as Hne.
    destruct ds as [|d ds]; [contradiction|]. reflexivity.
  - intros ln file_ n ds H Hd _. rewrite parseTask_durationMinutes, H, Hd.
    destruct ds as [|d ds]; reflexivity.
  - intros ln file_ n H Hd. rewrite parseTask_durationMinutes, H, Hd. reflexivity.
  - intros ln file_ n. unfold parseTask.
    cbn [is_undefined andb option_map accumulated]. reflexivity.
Qed.

(** The amended claim at a line with both forms of the importance, at a line
    with the bracket tag alone, at a weekly habit with the habit emoji and at
    a line with both forms of the duration. *)
Lemma form_that_decides_each_field_witness :
  let l1 := u "- [ ] Pay rent [importance::low] " ++ emoji_star ++ [] in
  let l2 := u "- [ ] Pay rent [importance::low]" in
  let l3 := u "- [ ] Run [habit::weekly] " ++ emoji_repeat in
  let l4 := u "- [ ] Run [duration::30] " ++ emoji_hourglass ++ u "45" in
  option_map importance (parseTask l1 (u "todo.md") 1) = Some high /\
  test (m_lit emoji_star) l2 = false /\
  option_map importance (parseTask l2 (u "todo.md") 1) = Some low /\
  test (m_lit emoji_repeat) l3 = true /\
  option_map habitType (parseTask l3 (u "todo.md") 1) = Some (Some weekly) /\
  capture re_duration l4 = Some (u "30") /\
  option_map durationMinutes (parseTask l4 (u "todo.md") 1) = Some 45.
Proof.
  intros l1 l2 l3 l4.
  destruct form_that_decides_each_field as (H1 & _ & H3 & _ & H5 & _ & H7 & _).
  split; [apply H1|]. split; [reflexivity|].
  split; [apply (H3 l2 (u "todo.md") 1); reflexivity|].
  split; [reflexivity|].
  split; [apply (H5 l3 (u "todo.md") 1 weekly); reflexivity|].
  split; [reflexivity|].
  apply (H7 l4 (u "todo.md") 1 (u "45")); reflexivity.
Defined.

(** ** Decimal numerals *)

Lemma is_digit_range (c : N) : is_digit c = true <-> (48 <= c <= 57)%N.
Proof.
  unfold is_digit. rewrite andb_true_iff, !N.leb_le. reflexivity.
Qed.

Lemma digit_val_range (c : N) : is_digit c = true -> 0 <= digit_val c <= 9.
Proof. rewrite is_digit_range. unfold digit_val. lia. Qed.

Lemma fold_digits_nonneg (ds : str) (acc : Z) :
  Forall (fun c => is_digit c = true) ds -> 0 <= acc ->
  0 <= fold_left (fun a c => 10 * a + digit_val c) ds acc.
Proof.
  intros H. revert acc. induction H as [|c ds Hc _ IH]; intros acc Hacc; cbn [fold_left].
  - exact Hacc.
  - apply IH. apply digit_val_range in Hc. lia.
Qed.

Lemma parse_digits_nonneg (ds : str) :
  Forall (fun c => is_digit c = true) ds -> 0 <= parse_digits ds.
Proof. intros H. apply fold_digits_nonneg; [exact H|lia]. Qed.

Lemma show_digits_spec (fuel : nat) :
  forall n acc, fuel <> O -> 0 <= n < 10 ^ Z.of_nat fuel ->
  exists ds, show_digits fuel n acc = ds ++ acc /\ digits ds /\
    forall a, fold_left (fun a c => 10 * a + digit_val c) ds a
              = a * 10 ^ Z.of_nat (length ds) + n.
Proof.
  induction fuel as [|f IH]; intros n acc Hf Hn; [contradiction|].
  simpl show_digits.
  set (d := Z.to_N (n mod 10 + 48)).
  assert (Hmod : 0 <= n mod 10 < 10) by (apply Z.mod_pos_bound; lia).
  assert (Hd : is_digit d = true).
  { apply is_digit_range. subst d. lia. }
  assert (Hv : digit_val d = n mod 10).
  { unfold digit_val. subst d. lia. }
  assert (Hdiv : n = 10 * (n / 10) + n mod 10) by (apply Z.div_mod; lia).
  destruct (n / 10 =? 0) eqn:E.
  - apply Z.eqb_eq in E. exists [d]. split; [reflexivity|]. split.
    + split; [discriminate|]. constructor; [exact Hd|constructor].
    + intros a. cbn [fold_left length]. rewrite Hv. lia.
  - apply Z.eqb_neq in E.
    assert (Hq : 0 <= n / 10) by (apply Z.div_pos; lia).
    assert (Hlt : n / 10 < 10 ^ Z.of_nat f).
    { apply Z.div_lt_upper_bound; [lia|].
      replace (10 * 10 ^ Z.of_nat f) with (10 ^ Z.of_nat (S f)); [lia|].
      rewrite Nat2Z.inj_succ, Z.pow_succ_r by lia. reflexivity. }
    assert (Hf0 : f <> O).
    { intros ->. simpl in Hlt. lia. }
    destruct (IH (n / 10) (d :: acc) Hf0 (conj Hq Hlt)) as (ds & Hs & [Hne Hall] & Hfold).
    exists (ds ++ [d]). split; [|split].
    + rewrite Hs, <- app_assoc. reflexivity.
    + split.
      * intros Hnil. apply app_eq_nil in Hnil as [_ Hnil]. discriminate.
      * apply Forall_app. split; [exact Hall|]. constructor; [exact Hd|constructor].
    + intros a. rewrite fold_left_app, Hfold. cbn [fold_left]. rewrite Hv.
      rewrite length_app. simpl length. rewrite Nat2Z.inj_add.
      rewrite Z.pow_add_r by lia. change (10 ^ Z.of_nat 1) with 10. lia.
Qed.

(** The text of a natural number is a digit run that reads back as the
    number. *)
Lemma show_nonneg (n : Z) :
  0 <= n -> digits (show n) /\ parse_digits (show n) = n.
Proof.
  intros Hn. unfold show.
  destruct (n <? 0) eqn:E; [apply Z.ltb_lt in E; lia|].
  assert (Hb : 0 <= n < 10 ^ Z.of_nat (S (Z.to_nat (Z.log2 n)))).
  { split; [exact Hn|].
    rewrite Nat2Z.inj_succ, Z2Nat.id by apply Z.log2_nonneg.
    destruct (Z.eq_dec n 0) as [->|Hz].
    - simpl. lia.
    - assert (H2 : n < 2 ^ Z.succ (Z.log2 n)) by (apply Z.log2_spec; lia).
      assert (H10 : 2 ^ Z.succ (Z.log2 n) <= 10 ^ Z.succ (Z.log2 n)).
      { apply Z.pow_le_mono_l. lia. }
      lia. }
  destruct (show_digits_spec _ n [] (Nat.neq_succ_0 _) Hb) as (ds & Hs & Hd & Hfold).
  rewrite Hs, app_nil_r. split; [exact Hd|].
  unfold parse_digits. rewrite Hfold. lia.
Qed.

Lemma digits_head (s : str) :
  digits s -> exists c r, s = c :: r /\ is_digit c = true.
Proof.
  intros [Hne Hall]. destruct s as [|c r]; [contradiction|].
  exists c, r. split; [reflexivity|]. inversion Hall; assumption.
Qed.

Lemma parseInt_digits (s : str) : digits s -> parseInt s = parse_digits s.
Proof.
  intros H. destruct (digits_head s H) as (c & r & -> & Hc). simpl.
  destruct (N.eqb c chr_minus) eqn:E; [|reflexivity].
  apply N.eqb_eq in E. subst c. discriminate.
Qed.

Lemma parseInt_show (n : Z) : 0 <= n -> parseInt (show n) = n.
Proof.
  intros Hn. destruct (show_nonneg n Hn) as [Hd Hp].
  rewrite parseInt_digits by exact Hd. exact Hp.
Qed.

Lemma parseInt_digits_nonneg (s : str) : digits s -> 0 <= parseInt s.
Proof.
  intros H. rewrite parseInt_digits by exact H.
  apply parse_digits_nonneg. apply H.
Qed.

Lemma parseInt_minus (ds : str) : parseInt (chr_minus :: ds) = - parse_digits ds.
Proof. reflexivity. Qed.

(** ** What the matchers accept *)

Lemma span_spec (f : N -> bool) (s a r : str) :
  span f s = (a, r) <->
  s = a ++ r /\ Forall (fun c => f c = true) a /\ stops f r.
Proof.
  revert a r. induction s as [|c s IH]; intros a r; simpl.
  - split.
    + intros H; injection H as <- <-. repeat split; constructor.
    + intros (Hs & _ & _). symmetry in Hs. apply app_eq_nil in Hs as [-> ->].
      reflexivity.
  - destruct (f c) eqn:Fc.
    + destruct (span f s) as [a0 r0] eqn:Es. split.
      * intros H; injection H as <- <-.
        destruct (proj1 (IH a0 r0) eq_refl) as (-> & Ha & Hr).
        repeat split; auto.
      * intros (Hs & Ha & Hr). destruct a as [|x a]; simpl in Hs.
        -- subst r. simpl in Hr. congruence.
        -- injection Hs as <- ->. inversion Ha; subst.
           assert (E : (a0, r0) = (a, r)) by (apply IH; auto).
           injection E as -> ->. reflexivity.
    + split.
      * intros H; injection H as <- <-. repeat split; [constructor|exact Fc].
      * intros (Hs & Ha & Hr). destruct a as [|x a]; simpl in Hs.
        -- subst r. reflexivity.
        -- injection Hs as <- ->. inversion Ha; subst. congruence.
Qed.

Lemma many1_digits_iff (s a r : str) :
  many1 is_digit s = Some (a, r) <->
  s = a ++ r /\ digits a /\ stops is_digit r.
Proof.
  unfold many1, digits. destruct (span is_digit s) as [a0 r0] eqn:E.
  apply span_spec in E as (Hs & Ha & Hr). split.
  - intros H. destruct a0 as [|x a0]; [discriminate|].
    injection H as <- <-. repeat split; auto. discriminate.
  - intros (Hs' & (Hne & Ha') & Hr').
    assert (E : span is_digit s = (a, r)) by (apply span_spec; auto).
    assert (E0 : span is_digit s = (a0, r0)) by (apply span_spec; auto).
    rewrite E in E0. injection E0 as <- <-.
    destruct a; [contradiction|reflexivity].
Qed.

Lemma digits_not_minus (ds r : str) :
  digits ds -> opt_minus (ds ++ r) = ([], ds ++ r).
Proof.
  intros H. destruct (digits_head ds H) as (c & t & -> & Hc). simpl.
  destruct (N.eqb c chr_minus) eqn:E; [|reflexivity].
  apply N.eqb_eq in E. subst c. discriminate.
Qed.

Lemma signed_digits_iff (s cap r : str) :
  signed_digits s = Some (cap, r) <->
  s = cap ++ r /\ signed cap /\ stops is_digit r.
Proof.
  unfold signed_digits, signed. split.
  - destruct s as [|c s]; simpl; [discriminate|].
    destruct (N.eqb c chr_minus) eqn:E; unfold bind.
    + apply N.eqb_eq in E. subst c.
      destruct (many1 is_digit s) as [[ds s2]|] eqn:Em; [|discriminate].
      intros H; injection H as <- <-.
      apply many1_digits_iff in Em as (-> & Hd & Hr).
      repeat split; auto. right. exists ds. auto.
    + destruct (many1 is_digit (c :: s)) as [[ds s2]|] eqn:Em; [|discriminate].
      intros H; injection H as <- <-.
      apply many1_digits_iff in Em as (Hs & Hd & Hr).
      repeat split; auto.
  - intros (-> & [Hd|(ds & -> & Hd)] & Hr).
    + rewrite digits_not_minus by exact Hd. unfold bind.
      assert (Em : many1 is_digit (cap ++ r) = Some (cap, r))
        by (apply many1_digits_iff; auto).
      rewrite Em. reflexivity.
    + simpl. unfold bind.
      assert (Em : many1 is_digit (ds ++ r) = Some (ds, r))
        by (apply many1_digits_iff; auto).
      rewrite Em. reflexivity.
Qed.

Lemma lit_i_iff (p s r : str) :
  lit_i p s = Some r <-> exists k, s = k ++ r /\ map to_lower k = p.
Proof.
  revert s. induction p as [|x p IH]; intros s; simpl.
  - split.
    + intros H; injection H as ->. exists []. auto.
    + intros (k & -> & Hk). apply map_eq_nil in Hk. subst k. reflexivity.
  - destruct s as [|y s].
    + split; [discriminate|]. intros (k & Hs & Hk).
      symmetry in Hs. apply app_eq_nil in Hs as [-> _]. discriminate.
    + destruct (N.eqb x (to_lower y)) eqn:E.
      * apply N.eqb_eq in E. rewrite IH. split.
        -- intros (k & -> & <-). exists (y :: k). simpl. rewrite E. auto.
        -- intros (k & Hs & Hk). destruct k as [|z k]; [discriminate|].
           simpl in Hs, Hk. injection Hs as <- ->. injection Hk as _ Hk.
           exists k. auto.
      * apply N.eqb_neq in E. split; [discriminate|].
        intros (k & Hs & Hk). destruct k as [|z k]; [discriminate|].
        simpl in Hs, Hk. injection Hs as <- ->. injection Hk as Hz _.
        congruence.
Qed.

Lemma stops_digit_rbracket (r : str) : stops is_digit (chr_rbracket :: r).
Proof. reflexivity. Qed.

Lemma at_end_ws_iff (s : str) :
  at_end_ws s = true <-> Forall (fun c => is_space c = true) s.
Proof.
  unfold at_end_ws, skip_spaces.
  destruct (span is_space s) as [a r] eqn:E. simpl.
  apply span_spec in E as (-> & Ha & Hr). split.
  - destruct r; [|discriminate]. intros _. rewrite app_nil_r. exact Ha.
  - intros H. destruct r as [|c r]; [reflexivity|].
    apply Forall_app in H as [_ H]. inversion H; subst.
    simpl in Hr. congruence.
Qed.

(** [/\[success::(-?\d+)]/i] accepts a keyword, a signed number and a closing
    bracket. *)
Lemma re_success_signed_iff (s cap rest : str) :
  re_success_signed s = Some (cap, rest) <->
  exists k, s = k ++ cap ++ chr_rbracket :: rest /\
            map to_lower k = u "[success::" /\ signed cap.
Proof.
  unfold re_success_signed, bind. split.
  - destruct (lit_i (u "[success::") s) as [s1|] eqn:E1; [|discriminate].
    destruct (signed_digits s1) as [[n s2]|] eqn:E2; [|discriminate].
    destruct (lit (u "]") s2) as [s3|] eqn:E3; [|discriminate].
    intros H; injection H as <- <-.
    apply lit_i_iff in E1 as (k & -> & Hk).
    apply signed_digits_iff in E2 as (-> & Hn & _).
    apply lit_Some in E3. subst s2.
    exists k. auto.
  - intros (k & -> & Hk & Hc).
    assert (E1 : lit_i (u "[success::") (k ++ cap ++ chr_rbracket :: rest)
                 = Some (cap ++ chr_rbracket :: rest))
      by (apply lit_i_iff; exists k; auto).
    rewrite E1.
    assert (E2 : signed_digits (cap ++ chr_rbracket :: rest)
                 = Some (cap, chr_rbracket :: rest))
      by (apply signed_digits_iff; repeat split; auto).
    rewrite E2. reflexivity.
Qed.

(** [/\[success::(\d+)]/i] accepts the same with an unsigned number. *)
Lemma re_success_unsigned_iff (s cap rest : str) :
  re_success_unsigned s = Some (cap, rest) <->
  exists k, s = k ++ cap ++ chr_rbracket :: rest /\
            map to_lower k = u "[success::" /\ digits cap.
Proof.
  unfold re_success_unsigned, bind. split.
  - destruct (lit_i (u "[success::") s) as [s1|] eqn:E1; [|discriminate].
    destruct (many1 is_digit s1) as [[n s2]|] eqn:E2; [|discriminate].
    destruct (lit (u "]") s2) as [s3|] eqn:E3; [|discriminate].
    intros H; injection H as <- <-.
    apply lit_i_iff in E1 as (k & -> & Hk).
    apply many1_digits_iff in E2 as (-> & Hn & _).
    apply lit_Some in E3. subst s2.
    exists k. auto.
  - intros (k & -> & Hk & Hc).
    assert (E1 : lit_i (u "[success::") (k ++ cap ++ chr_rbracket :: rest)
                 = Some (cap ++ chr_rbracket :: rest))
      by (apply lit_i_iff; exists k; auto).
    rewrite E1.
    assert (E2 : many1 is_digit (cap ++ chr_rbracket :: rest)
                 = Some (cap, chr_rbracket :: rest))
      by (apply many1_digits_iff; repeat split; auto; apply Hc).
    rewrite E2. reflexivity.
Qed.

(** [/\[(-?\d+)]\s*$/] accepts a bracketed signed number followed by white
    space up to the end. *)
Lemma re_trailing_signed_iff (s cap rest : str) :
  re_trailing_signed s = Some (cap, rest) <->
  rest = [] /\
  exists ws, s = chr_lbracket :: cap ++ chr_rbracket :: ws /\ signed cap /\
             Forall (fun c => is_space c = true) ws.
Proof.
  unfold re_trailing_signed, bind. split.
  - destruct (lit (u "[") s) as [s1|] eqn:E1; [|discriminate].
    destruct (signed_digits s1) as [[n s2]|] eqn:E2; [|discriminate].
    destruct (lit (u "]") s2) as [s3|] eqn:E3; [|discriminate].
    destruct (at_end_ws s3) eqn:E4; [|discriminate].
    intros H; injection H as <- <-.
    apply lit_Some in E1. apply signed_digits_iff in E2 as (-> & Hn & _).
    apply lit_Some in E3. apply at_end_ws_iff in E4. subst.
    split; [reflexivity|]. exists s3. auto.
  - intros (-> & ws & -> & Hc & Hws).
    change (lit (u "[") (chr_lbracket :: cap ++ chr_rbracket :: ws))
      with (Some (cap ++ chr_rbracket :: ws)).
    cbv beta iota.
    assert (E2 : signed_digits (cap ++ chr_rbracket :: ws)
                 = Some (cap, chr_rbracket :: ws))
      by (apply signed_digits_iff; repeat split; auto).
    rewrite E2. cbv beta iota.
    change (lit (u "]") (chr_rbracket :: ws)) with (Some ws).
    cbv beta iota.
    apply at_end_ws_iff in Hws. rewrite Hws. reflexivity.
Qed.

(** [/\[(\d+)]\s*$/] accepts the same with an unsigned number. *)
Lemma re_trailing_unsigned_iff (s cap rest : str) :
  re_trailing_unsigned s = Some (cap, rest) <->
  rest = [] /\
  exists ws, s = chr_lbracket :: cap ++ chr_rbracket :: ws /\ digits cap /\
             Forall (fun c => is_space c = true) ws.
Proof.
  unfold re_trailing_unsigned, bind. split.
  - destruct (lit (u "[") s) as [s1|] eqn:E1; [|discriminate].
    destruct (many1 is_digit s1) as [[n s2]|] eqn:E2; [|discriminate].
    destruct (lit (u "]") s2) as [s3|] eqn:E3; [|discriminate].
    destruct (at_end_ws s3) eqn:E4; [|discriminate].
    intros H; injection H as <- <-.
    apply lit_Some in E1. apply many1_digits_iff in E2 as (-> & Hn & _).
    apply lit_Some in E3. apply at_end_ws_iff in E4. subst.
    split; [reflexivity|]. exists s3. auto.
  - intros (-> & ws & -> & Hc & Hws).
    change (lit (u "[") (chr_lbracket :: cap ++ chr_rbracket :: ws))
      with (Some (cap ++ chr_rbracket :: ws)).
    cbv beta iota.
    assert (E2 : many1 is_digit (cap ++ chr_rbracket :: ws)
                 = Some (cap, chr_rbracket :: ws))
      by (apply many1_digits_iff; repeat split; auto; apply Hc).
    rewrite E2. cbv beta iota.
    change (lit (u "]") (chr_rbracket :: ws)) with (Some ws).
    cbv beta iota.
    apply at_end_ws_iff in Hws. rewrite Hws. reflexivity.
Qed.

(** ** Bracket tokens *)

Lemma app_lbracket_split (body rest q y : str) :
  no_bracket body ->
  body ++ chr_rbracket :: rest = q ++ chr_lbracket :: y ->
  exists w, q = body ++ chr_rbracket :: w /\ rest = w ++ chr_lbracket :: y.
Proof.
  intros Hb. revert q. induction Hb as [|b body [Hb1 Hb2] _ IH]; intros q E; simpl in E.
  - destruct q as [|c q]; simpl in E.
    + injection E as E _. discriminate.
    + injection E as <- ->. exists q. auto.
  - destruct q as [|c q]; simpl in E.
    + injection E as E _. congruence.
    + injection E as <- E. destruct (IH q E) as (w & -> & ->).
      exists w. auto.
Qed.

Lemma no_bracket_app (a b : str) :
  no_bracket a -> no_bracket b -> no_bracket (a ++ b).
Proof. intros Ha Hb. apply Forall_app. split; assumption. Qed.

Lemma no_bracket_forallb (s : str) :
  forallb (fun c => negb (N.eqb c chr_lbracket) && negb (N.eqb c chr_rbracket)) s = true ->
  no_bracket s.
Proof.
  intros H. apply Forall_forall. intros c Hc.
  rewrite forallb_forall in H. specialize (H c Hc).
  apply andb_true_iff in H as [H1 H2].
  apply negb_true_iff in H1, H2. apply N.eqb_neq in H1, H2. auto.
Qed.

Lemma digit_no_bracket (c : N) :
  is_digit c = true -> c <> chr_lbracket /\ c <> chr_rbracket.
Proof.
  rewrite is_digit_range. unfold chr_lbracket, chr_rbracket. lia.
Qed.

Lemma digits_no_bracket (ds : str) : digits ds -> no_bracket ds.
Proof.
  intros [_ H]. eapply Forall_impl; [|exact H].
  intros c Hc. apply digit_no_bracket. exact Hc.
Qed.

Lemma signed_no_bracket (cap : str) : signed cap -> no_bracket cap.
Proof.
  intros [H|(ds & -> & H)].
  - apply digits_no_bracket. exact H.
  - constructor; [split; discriminate|]. apply digits_no_bracket. exact H.
Qed.

Lemma to_lower_bracket (c : N) :
  (to_lower c = chr_lbracket -> c = chr_lbracket) /\
  (to_lower c = chr_rbracket -> c = chr_rbracket).
Proof.
  unfold to_lower, chr_lbracket, chr_rbracket.
  destruct (N.leb 65 c && N.leb c 90)%N eqn:E; [|auto].
  apply andb_true_iff in E as [E1 E2]. apply N.leb_le in E1, E2. lia.
Qed.

Lemma map_to_lower_no_bracket (k : str) :
  no_bracket (map to_lower k) -> no_bracket k.
Proof.
  induction k as [|c k IH]; simpl; intros H; [constructor|].
  inversion H as [|? ? [H1 H2] Hk]; subst. constructor; [|apply IH; exact Hk].
  destruct (to_lower_bracket c) as [_ _].
  split; intros ->; [apply H1|apply H2]; reflexivity.
Qed.

(** What [[success::] is under the [i] flag: an opening bracket and a
    keyword free of brackets. *)
Lemma success_keyword_shape (k : str) :
  map to_lower k = u "[success::" ->
  exists k', k = chr_lbracket :: k' /\ no_bracket k'.
Proof.
  intros H. destruct k as [|c k]; [discriminate|].
  change (u "[success::") with (chr_lbracket :: u "success::") in H.
  simpl in H. injection H as Hc Hk.
  apply to_lower_bracket in Hc. subst c. exists k. split; [reflexivity|].
  apply map_to_lower_no_bracket. rewrite Hk.
  apply no_bracket_forallb. reflexivity.
Qed.

Lemma app_cons_last_split (X p q : str) (c : N) :
  X ++ [c] = p ++ q -> q <> [] -> exists q0, q = q0 ++ [c] /\ X = p ++ q0.
Proof.
  intros E Hq. destruct (exists_last Hq) as (q0 & d & ->).
  rewrite app_assoc in E. apply app_inj_tail in E as [-> ->].
  exists q0. auto.
Qed.

Lemma trimEnd_split (s : str) :
  exists ws, s = trimEnd s ++ ws /\ Forall (fun c => is_space c = true) ws.
Proof.
  induction s as [|c s (ws & Hs & Hws)]; simpl.
  - exists []. split; [reflexivity|constructor].
  - destruct (trimEnd s) as [|x r] eqn:E.
    + simpl in Hs. subst s. destruct (is_space c) eqn:Ec.
      * exists (c :: ws). split; [reflexivity|]. constructor; assumption.
      * exists ws. split; [reflexivity|assumption].
    + exists ws. split; [|assumption]. simpl. rewrite Hs at 1. reflexivity.
Qed.

Lemma trimEnd_all_space (ws : str) :
  Forall (fun c => is_space c = true) ws -> trimEnd ws = [].
Proof.
  induction 1 as [|c ws Hc _ IH]; simpl; [reflexivity|].
  rewrite IH, Hc. reflexivity.
Qed.

(** What [trimEnd] returns does not end with white space. *)
Lemma trimEnd_last (s a : str) (c : N) :
  trimEnd s = a ++ [c] -> is_space c = false.
Proof.
  revert a. induction s as [|x s IH]; intros a; simpl.
  - destruct a; discriminate.
  - destruct (trimEnd s) as [|y r] eqn:E.
    + destruct (is_space x) eqn:Ex; [destruct a; discriminate|].
      destruct a as [|z [|z' a]]; try discriminate.
      intros H; injection H as <-. exact Ex.
    + destruct a as [|z a]; [discriminate|].
      intros H; injection H as _ H. exact (IH a H).
Qed.

(** [trimEnd] does not go past a character that is not white space. *)
Lemma trimEnd_app_keep (a z : str) (c : N) :
  is_space c = false -> trimEnd (a ++ c :: z) = a ++ c :: trimEnd z.
Proof.
  intros Hc. induction a as [|x a IH]; simpl.
  - destruct (trimEnd z); [rewrite Hc|]; reflexivity.
  - rewrite IH. destruct a; reflexivity.
Qed.

Section TokenMatcher.

Context {A : Type}.
Variable m : str -> option (A * str).

(** A match is a bracket, a text without brackets and a bracket... *)
Hypothesis m_token : forall s a rest,
  m s = Some (a, rest) ->
  exists body, s = chr_lbracket :: body ++ chr_rbracket :: rest /\ no_bracket body.

(** ... whatever follows it. *)
Hypothesis m_ext : forall body a rest rest',
  m (chr_lbracket :: body ++ chr_rbracket :: rest) = Some (a, rest) ->
  m (chr_lbracket :: body ++ chr_rbracket :: rest') = Some (a, rest').

Lemma m_local (q x y : str) :
  q <> [] ->
  m (q ++ chr_lbracket :: x) = None -> m (q ++ chr_lbracket :: y) = None.
Proof.
  intros Hq Hx. destruct (m (q ++ chr_lbracket :: y)) as [[a rest]|] eqn:E; [|reflexivity].
  exfalso. destruct (m_token _ _ _ E) as (body & Hs & Hb).
  destruct q as [|c q]; [contradiction|]. simpl in Hs. injection Hs as -> Hs.
  symmetry in Hs. apply app_lbracket_split in Hs as (w & -> & ->); [|exact Hb].
  simpl in E, Hx. rewrite <- app_assoc in E, Hx. simpl in E, Hx.
  rewrite (m_ext _ _ _ (w ++ chr_lbracket :: x) E) in Hx. discriminate.
Qed.

Lemma no_match_before_local (pre x y : str) :
  no_match_before m pre (chr_lbracket :: x) ->
  no_match_before m pre (chr_lbracket :: y).
Proof.
  intros H p q E Hq. apply (m_local q x y Hq). apply (H p q E Hq).
Qed.

(** The token at the first match is replaced by another one: the first
    match is the new token. *)
Lemma search_replace (pre x y : str) (a : A) (r : str) :
  no_match_before m pre (chr_lbracket :: x) ->
  m (chr_lbracket :: y) = Some (a, r) ->
  search m (pre ++ chr_lbracket :: y) = Some (pre, a, r).
Proof.
  intros Hn Hy. apply search_Some_iff. exists (chr_lbracket :: y).
  repeat split; auto. apply (no_match_before_local pre x y Hn).
Qed.

(** The first match is a token, and it stays the first match whatever is
    written after it. *)
Lemma search_first_token (s pre : str) (a : A) (z : str) :
  search m s = Some (pre, a, z) ->
  exists body, no_bracket body /\
    s = pre ++ chr_lbracket :: body ++ chr_rbracket :: z /\
    forall z', search m (pre ++ chr_lbracket :: body ++ chr_rbracket :: z')
               = Some (pre, a, z').
Proof.
  intros H. apply search_Some_iff in H as (t & -> & Ht & Hn).
  destruct (m_token _ _ _ Ht) as (body & -> & Hb).
  exists body. repeat split; auto. intros z'.
  apply (search_replace pre (body ++ chr_rbracket :: z)); [exact Hn|].
  apply (m_ext _ _ _ z' Ht).
Qed.

Lemma search_none_replace (pre x y : str) (a : A) (r : str) :
  search m (pre ++ chr_lbracket :: x) = None ->
  m (chr_lbracket :: y) = Some (a, r) ->
  search m (pre ++ chr_lbracket :: y) = Some (pre, a, r).
Proof.
  intros Hn Hy. apply (search_replace pre x y); [|exact Hy].
  intros p q E Hq. rewrite search_None_iff in Hn.
  apply (Hn p (q ++ chr_lbracket :: x)). rewrite E, <- app_assoc. reflexivity.
Qed.

(** A token is appended to a line without a match: it is the first
    match. *)
Lemma search_none_append (s t : str) (a : A) :
  search m s = None -> m t = Some (a, []) ->
  search m (trimEnd s ++ chr_space :: t) = Some (trimEnd s ++ [chr_space], a, []).
Proof.
  intros Hn Ht. apply search_Some_iff. exists t.
  split; [rewrite <- app_assoc; reflexivity|]. split; [exact Ht|].
  intros p q E Hq.
  destruct (m (q ++ t)) as [[a' rest']|] eqn:Em; [|reflexivity]. exfalso.
  destruct (m_token _ _ _ Ht) as (tb & -> & _).
  destruct (m_token _ _ _ Em) as (body & Hs & Hb).
  destruct (app_cons_last_split _ _ _ _ E Hq) as (q0 & -> & Hp).
  destruct q0 as [|c q0]; simpl in Hs.
  - injection Hs as Hs _. discriminate.
  - injection Hs as -> Hs. symmetry in Hs.
    apply app_lbracket_split in Hs as (w & Hw & ->); [|exact Hb].
    assert (Hwne : w <> []).
    { intros ->. apply app_inj_tail in Hw as [_ Hw]. discriminate. }
    destruct (exists_last Hwne) as (w' & d & ->).
    assert (Hw' : q0 ++ [chr_space] = (body ++ chr_rbracket :: w') ++ [d])
      by (rewrite Hw, <- app_assoc; reflexivity).
    apply app_inj_tail in Hw' as [-> <-].
    destruct (trimEnd_split s) as (ws & Hs & _).
    rewrite search_None_iff in Hn.
    repeat (rewrite <- app_assoc in Em; cbn [app] in Em).
    apply (m_ext body a' _ (w' ++ ws)) in Em.
    rewrite (Hn p) in Em; [discriminate|].
    rewrite Hs at 1. rewrite Hp.
    repeat (rewrite <- app_assoc; cbn [app]). reflexivity.
Qed.

(** Text is appended to a line with a match: the first match stays. *)
Lemma search_some_append (s pre t : str) (a : A) (z : str) :
  search m s = Some (pre, a, z) ->
  exists z', search m (trimEnd s ++ t) = Some (pre, a, z').
Proof.
  intros H. destruct (search_first_token _ _ _ _ H) as (body & Hb & -> & Hz).
  rewrite app_comm_cons, app_assoc.
  rewrite trimEnd_app_keep by reflexivity.
  rewrite <- app_assoc, <- app_comm_cons, <- app_assoc. simpl.
  eexists. apply Hz.
Qed.

End TokenMatcher.

(** ** The counter annotation under the mutations *)

Lemma success_signed_token (s cap rest : str) :
  re_success_signed s = Some (cap, rest) ->
  exists body, s = chr_lbracket :: body ++ chr_rbracket :: rest /\ no_bracket body.
Proof.
  intros H. apply re_success_signed_iff in H as (k & -> & Hk & Hc).
  apply success_keyword_shape in Hk as (k' & -> & Hk').
  exists (k' ++ cap). split.
  - simpl. rewrite <- app_assoc. reflexivity.
  - apply no_bracket_app; [exact Hk'|]. apply signed_no_bracket. exact Hc.
Qed.

Lemma success_signed_ext (body cap rest rest' : str) :
  re_success_signed (chr_lbracket :: body ++ chr_rbracket :: rest) = Some (cap, rest) ->
  re_success_signed (chr_lbracket :: body ++ chr_rbracket :: rest') = Some (cap, rest').
Proof.
  intros H. apply re_success_signed_iff in H as (k & Hs & Hk & Hc).
  apply re_success_signed_iff. exists k. repeat split; auto.
  change (chr_lbracket :: body ++ chr_rbracket :: rest)
    with ((chr_lbracket :: body) ++ chr_rbracket :: rest) in Hs.
  rewrite app_assoc in Hs. apply app_inv_tail in Hs.
  change (chr_lbracket :: body ++ chr_rbracket :: rest')
    with ((chr_lbracket :: body) ++ chr_rbracket :: rest').
  rewrite Hs, <- app_assoc. reflexivity.
Qed.

Lemma digits_signed (cap : str) : digits cap -> signed cap.
Proof. intros H. left. exact H. Qed.

Lemma digits_minus_absurd (ds : str) : digits (chr_minus :: ds) -> False.
Proof. intros [_ H]. inversion H; subst. discriminate. Qed.

Lemma success_unsigned_signed (s cap rest : str) :
  re_success_unsigned s = Some (cap, rest) ->
  re_success_signed s = Some (cap, rest) /\ digits cap.
Proof.
  intros H. apply re_success_unsigned_iff in H as (k & -> & Hk & Hc).
  split; [|exact Hc]. apply re_success_signed_iff. exists k.
  repeat split; auto. apply digits_signed. exact Hc.
Qed.

Lemma success_signed_unsigned (s cap rest : str) :
  re_success_signed s = Some (cap, rest) -> digits cap ->
  re_success_unsigned s = Some (cap, rest).
Proof.
  intros H Hd. apply re_success_signed_iff in H as (k & -> & Hk & _).
  apply re_success_unsigned_iff. exists k. auto.
Qed.

Lemma success_signed_none_unsigned (s : str) :
  re_success_signed s = None -> re_success_unsigned s = None.
Proof.
  intros H. destruct (re_success_unsigned s) as [[cap rest]|] eqn:E; [|reflexivity].
  apply success_unsigned_signed in E as [E _]. congruence.
Qed.

Lemma trailing_unsigned_signed (s cap rest : str) :
  re_trailing_unsigned s = Some (cap, rest) ->
  re_trailing_signed s = Some (cap, rest) /\ digits cap.
Proof.
  intros H. apply re_trailing_unsigned_iff in H as (-> & ws & -> & Hc & Hws).
  split; [|exact Hc]. apply re_trailing_signed_iff. split; [reflexivity|].
  exists ws. repeat split; auto. apply digits_signed. exact Hc.
Qed.

Lemma trailing_signed_unsigned (s cap rest : str) :
  re_trailing_signed s = Some (cap, rest) -> digits cap ->
  re_trailing_unsigned s = Some (cap, rest).
Proof.
  intros H Hd. apply re_trailing_signed_iff in H as (-> & ws & -> & _ & Hws).
  apply re_trailing_unsigned_iff. split; [reflexivity|]. exists ws. auto.
Qed.

Lemma trailing_signed_none_unsigned (s : str) :
  re_trailing_signed s = None -> re_trailing_unsigned s = None.
Proof.
  intros H. destruct (re_trailing_unsigned s) as [[cap rest]|] eqn:E; [|reflexivity].
  apply trailing_unsigned_signed in E as [E _]. congruence.
Qed.

(** The success token that the mutations write. *)
Lemma written_success_token (n : Z) (z : str) :
  0 <= n ->
  re_success_signed (u "[success::" ++ show n ++ u "]" ++ z) = Some (show n, z).
Proof.
  intros Hn. apply re_success_signed_iff. exists (u "[success::").
  split; [reflexivity|]. split; [reflexivity|].
  apply digits_signed. apply show_nonneg. exact Hn.
Qed.

(** A token that starts after the start of another one starts after its
    end. *)
Lemma later_token (body post l t : str) :
  no_bracket body -> l <> [] ->
  chr_lbracket :: body ++ chr_rbracket :: post = l ++ chr_lbracket :: t ->
  exists w, l = chr_lbracket :: body ++ chr_rbracket :: w /\
            post = w ++ chr_lbracket :: t.
Proof.
  intros Hb Hl E. destruct l as [|c l]; [contradiction|].
  simpl in E. injection E as <- E.
  apply app_lbracket_split in E as (w & -> & ->); [|exact Hb].
  exists w. auto.
Qed.

Lemma space_not_lbracket (ws a b : str) :
  Forall (fun c => is_space c = true) ws -> ws <> a ++ chr_lbracket :: b.
Proof.
  intros H ->. apply Forall_app in H as [_ H]. inversion H; subst. discriminate.
Qed.

Lemma first_rbracket_unique (b1 r1 b2 r2 : str) :
  no_bracket b1 -> no_bracket b2 ->
  b1 ++ chr_rbracket :: r1 = b2 ++ chr_rbracket :: r2 -> b1 = b2 /\ r1 = r2.
Proof.
  intros H1. revert b2. induction H1 as [|x b1 [_ Hx] _ IH]; intros b2 H2 E.
  - destruct b2 as [|y b2]; simpl in E.
    + injection E as ->. auto.
    + injection E as <- _. inversion H2 as [|? ? [_ Hy] _]; subst. contradiction.
  - destruct b2 as [|y b2]; simpl in E.
    + injection E as -> _. contradiction.
    + injection E as <- E. inversion H2 as [|? ? _ H2']; subst.
      destruct (IH b2 H2' E) as [-> ->]. auto.
Qed.

Lemma no_match_before_weaken {A B : Type}
  (m1 : str -> option (A * str)) (m2 : str -> option (B * str)) (pre t : str) :
  (forall s, m1 s = None -> m2 s = None) ->
  no_match_before m1 pre t -> no_match_before m2 pre t.
Proof. intros Hm H p q E Hq. apply Hm. apply (H p q E Hq). Qed.

Lemma search_none_weaken {A B : Type}
  (m1 : str -> option (A * str)) (m2 : str -> option (B * str)) (s : str) :
  (forall s, m1 s = None -> m2 s = None) ->
  search m1 s = None -> search m2 s = None.
Proof.
  intros Hm H. apply search_None_iff. intros p q E. apply Hm.
  rewrite search_None_iff in H. apply (H p q E).
Qed.

(** The first counter annotation is an unsigned [[success::N]]: the mutation
    pattern finds the same annotation, and once it is rewritten to the text
    of a natural number the line carries that number. *)
Lemma success_unsigned_rewritten (ln pre cap post : str) :
  search re_success_signed ln = Some (pre, cap, post) -> digits cap ->
  search re_success_unsigned ln = Some (pre, cap, post) /\
  forall n, 0 <= n ->
    countAnnotation (pre ++ (u "[success::" ++ show n ++ u "]") ++ post) = Some n.
Proof.
  intros Hs Hd. apply search_Some_iff in Hs as (t & -> & Ht & Hn). split.
  - apply search_Some_iff. exists t. repeat split; auto.
    + apply success_signed_unsigned; assumption.
    + apply (no_match_before_weaken re_success_signed); [|exact Hn].
      apply success_signed_none_unsigned.
  - intros n Hn0. unfold countAnnotation.
    destruct (success_signed_token _ _ _ Ht) as (body & -> & Hb).
    rewrite <- !app_assoc.
    change (u "[success::" ++ show n ++ u "]" ++ post)
      with (chr_lbracket :: (u "success::" ++ show n ++ u "]" ++ post)).
    rewrite (search_replace re_success_signed success_signed_token success_signed_ext
               pre _ _ (show n) post Hn).
    + rewrite parseInt_show by exact Hn0. reflexivity.
    + apply (written_success_token n post Hn0).
Qed.

(** The first counter annotation is a [[success::-N]]: whichever branch the
    mutation takes, that annotation stays the first one. *)
Lemma success_minus_kept (ln pre ds post ln' : str) :
  search re_success_signed ln = Some (pre, chr_minus :: ds, post) ->
  (exists p c r tok, search re_success_unsigned ln = Some (p, c, r) /\
                     ln' = p ++ tok ++ r) \/
  (exists p c r tok, search re_trailing_unsigned ln = Some (p, c, r) /\
                     ln' = p ++ tok ++ r) \/
  (exists t, ln' = trimEnd ln ++ t) ->
  exists z, search re_success_signed ln' = Some (pre, chr_minus :: ds, z).
Proof.
  intros Hs Hshape.
  destruct (search_first_token re_success_signed success_signed_token
              success_signed_ext _ _ _ _ Hs) as (body & Hb & Hln & Hz).
  pose proof Hs as Hs'.
  apply search_Some_iff in Hs' as (t & Hlt & Ht & Hn).
  assert (Et : t = chr_lbracket :: body ++ chr_rbracket :: post).
  { rewrite Hlt in Hln. apply app_inv_head in Hln. exact Hln. }
  destruct Hshape as [(p & c & r & tok & Hu & ->)|[(p & c & r & tok & Hu & ->)|(x & ->)]].
  - (* an unsigned success annotation further right *)
    apply search_Some_iff in Hu as (t2 & Hl2 & Ht2 & _).
    apply success_unsigned_signed in Ht2 as [Ht2 Hc].
    destruct (success_signed_token _ _ _ Ht2) as (b2 & -> & Hb2).
    rewrite Hlt in Hl2. apply app_eq_app in Hl2 as [l [[-> E]|[-> E]]].
    + destruct l as [|x l].
      * simpl in E. rewrite <- E in Ht. rewrite Ht in Ht2.
        injection Ht2 as <- _. exfalso. apply (digits_minus_absurd ds Hc).
      * exfalso. rewrite E in Ht2.
        rewrite (Hn p (x :: l) eq_refl) in Ht2; discriminate.
    + destruct l as [|x l].
      * simpl in E. rewrite E in Ht. rewrite Ht in Ht2.
        injection Ht2 as <- _. exfalso. apply (digits_minus_absurd ds Hc).
      * rewrite Et in E.
        apply later_token in E as (w & -> & _); [|exact Hb|discriminate].
        eexists. repeat (rewrite <- app_assoc; cbn [app]). apply Hz.
  - (* a trailing bracketed number *)
    apply search_Some_iff in Hu as (t3 & Hl3 & Ht3 & _).
    apply re_trailing_unsigned_iff in Ht3 as (-> & ws & -> & Hc & Hws).
    rewrite Hlt in Hl3. apply app_eq_app in Hl3 as [l [[-> E]|[-> E]]].
    + exfalso. destruct l as [|x l].
      * simpl in E. rewrite Et in E. injection E as E.
        apply first_rbracket_unique in E as [E _];
          [|apply digits_no_bracket; exact Hc|exact Hb].
        apply re_success_signed_iff in Ht as (k & Hk1 & Hk2 & _).
        apply success_keyword_shape in Hk2 as (k' & -> & _).
        rewrite Et in Hk1. simpl in Hk1. injection Hk1 as Hk1.
        assert (Hk3 : body ++ chr_rbracket :: post
                      = (k' ++ [chr_minus] ++ ds) ++ chr_rbracket :: post).
        { rewrite Hk1. repeat (rewrite <- app_assoc; cbn [app]). reflexivity. }
        apply app_inv_tail in Hk3. rewrite <- E in Hk3.
        destruct Hc as [_ Hc]. rewrite Hk3 in Hc.
        apply Forall_app in Hc as [_ Hc]. inversion Hc; subst. discriminate.
      * rewrite Et in E.
        apply later_token in E as (w & _ & E);
          [|apply digits_no_bracket; exact Hc|discriminate].
        apply (space_not_lbracket _ _ _ Hws E).
    + destruct l as [|x l].
      * exfalso. simpl in E. rewrite Et in E. injection E as E.
        apply first_rbracket_unique in E as [E _];
          [|exact Hb|apply digits_no_bracket; exact Hc].
        apply re_success_signed_iff in Ht as (k & Hk1 & Hk2 & _).
        apply success_keyword_shape in Hk2 as (k' & -> & _).
        rewrite Et in Hk1. simpl in Hk1. injection Hk1 as Hk1.
        assert (Hk3 : body ++ chr_rbracket :: post
                      = (k' ++ [chr_minus] ++ ds) ++ chr_rbracket :: post).
        { rewrite Hk1. repeat (rewrite <- app_assoc; cbn [app]). reflexivity. }
        apply app_inv_tail in Hk3. rewrite E in Hk3.
        destruct Hc as [_ Hc]. rewrite Hk3 in Hc.
        apply Forall_app in Hc as [_ Hc]. inversion Hc; subst. discriminate.
      * rewrite Et in E.
        apply later_token in E as (w & -> & _); [|exact Hb|discriminate].
        eexists. repeat (rewrite <- app_assoc; cbn [app]). apply Hz.
  - apply (search_some_append re_success_signed success_signed_token
             success_signed_ext _ _ x _ _ Hs).
Qed.

Lemma countAnnotation_text (ln : str) :
  countAnnotation ln = option_map parseInt (counter_text ln).
Proof.
  unfold countAnnotation, counter_text.
  destruct (search re_success_signed ln) as [[[? ?] ?]|]; [reflexivity|].
  destruct (search re_trailing_signed ln) as [[[? ?] ?]|]; reflexivity.
Qed.

Lemma increment_line_shape (ln : str) :
  increment_line ln = rewrite_counter (fun n => n + 1) 1 ln.
Proof. reflexivity. Qed.

Lemma decrement_line_shape (ln : str) :
  decrement_line ln = rewrite_counter (fun n => Z.max 0 (n - 1)) 0 ln.
Proof. reflexivity. Qed.

Lemma clear_line_shape (ln : str) :
  clear_line ln = rewrite_counter (fun _ => 0) 0 ln.
Proof.
  unfold clear_line, rewrite_counter.
  destruct (test re_success_unsigned ln); [reflexivity|].
  destruct (test re_trailing_unsigned ln); [|reflexivity].
  unfold replace_first.
  destruct (capture re_trailing_unsigned ln); reflexivity.
Qed.

(** A line without a [[success::N]] gets one appended: it is the counter. *)
Lemma appended_token_counts (ln : str) (n : Z) :
  search re_success_signed ln = None -> 0 <= n ->
  countAnnotation (trimEnd ln ++ chr_space :: success_token n) = Some n.
Proof.
  intros Hs Hn. unfold countAnnotation.
  rewrite (search_none_append re_success_signed success_signed_token
             success_signed_ext ln (success_token n) (show n) Hs).
  - rewrite parseInt_show by exact Hn. reflexivity.
  - unfold success_token.
    rewrite <- (app_nil_r (u "]")). apply written_success_token. exact Hn.
Qed.

(** The counter is a trailing unsigned [[N]]: the mutation pattern finds it,
    and the line carries the number it is rewritten to. *)
Lemma trailing_unsigned_rewritten (ln pre cap r : str) :
  search re_success_signed ln = None ->
  search re_trailing_signed ln = Some (pre, cap, r) -> digits cap ->
  search re_success_unsigned ln = None /\
  search re_trailing_unsigned ln = Some (pre, cap, []) /\
  forall n, 0 <= n -> countAnnotation (pre ++ success_token n ++ []) = Some n.
Proof.
  intros Hs Ht Hd. split; [|split].
  - apply (search_none_weaken re_success_signed); [|exact Hs].
    apply success_signed_none_unsigned.
  - apply search_Some_iff in Ht as (t & -> & Ht & Hn).
    apply search_Some_iff. exists t. split; [reflexivity|]. split.
    + pose proof Ht as Ht'.
      apply re_trailing_signed_iff in Ht' as (-> & _).
      apply trailing_signed_unsigned; assumption.
    + apply (no_match_before_weaken re_trailing_signed); [|exact Hn].
      apply trailing_signed_none_unsigned.
  - intros n Hn. unfold countAnnotation.
    apply search_Some_iff in Ht as (t & -> & Ht & _).
    apply re_trailing_signed_iff in Ht as (-> & ws & -> & _ & _).
    change (success_token n ++ [])
      with (chr_lbracket :: (u "success::" ++ show n ++ u "]") ++ []).
    rewrite (search_none_replace re_success_signed success_signed_token
               success_signed_ext pre _ _ (show n) [] Hs).
    + rewrite parseInt_show by exact Hn. reflexivity.
    + rewrite app_nil_r. rewrite <- (app_nil_r (u "]")).
      apply (written_success_token n [] Hn).
Qed.

(** The counter is a trailing [[-N]]: neither mutation pattern matches. *)
Lemma trailing_minus_unmatched (ln pre ds r : str) :
  search re_success_signed ln = None ->
  search re_trailing_signed ln = Some (pre, chr_minus :: ds, r) ->
  search re_success_unsigned ln = None /\ search re_trailing_unsigned ln = None.
Proof.
  intros Hs Ht. split.
  - apply (search_none_weaken re_success_signed); [|exact Hs].
    apply success_signed_none_unsigned.
  - apply search_None_iff. intros p q E.
    destruct (re_trailing_unsigned q) as [[c r']|] eqn:Eq; [|reflexivity]. exfalso.
    apply trailing_unsigned_signed in Eq as [Eq Hc].
    apply search_Some_iff in Ht as (t & Hl & Ht & Hn).
    rewrite Hl in E. apply app_eq_app in E as [l [[-> E]|[-> E]]].
    + destruct l as [|x l].
      * simpl in E. rewrite E in Eq. rewrite Ht in Eq. injection Eq as <- _.
        apply (digits_minus_absurd ds Hc).
      * rewrite E in Eq. rewrite (Hn p (x :: l) eq_refl) in Eq; discriminate.
    + destruct l as [|x l].
      * simpl in E. rewrite <- E in Eq. rewrite Ht in Eq. injection Eq as <- _.
        apply (digits_minus_absurd ds Hc).
      * apply re_trailing_signed_iff in Ht as (_ & ws & -> & Hsg & Hws).
        apply re_trailing_signed_iff in Eq as (_ & ws' & -> & _ & _).
        apply later_token in E as (w & _ & E);
          [|apply signed_no_bracket; exact Hsg|discriminate].
        apply (space_not_lbracket _ _ _ Hws E).
Qed.

Section RewriteCounter.

Variable f : Z -> Z.
Variable d : Z.

(** The counter is written without a sign: it becomes [f] of its value. *)
Lemma rewrite_counter_unsigned (ln cap : str) :
  counter_text ln = Some cap -> digits cap -> 0 <= f (parseInt cap) ->
  countAnnotation (rewrite_counter f d ln) = Some (f (parseInt cap)).
Proof.
  unfold counter_text. intros Hc Hd Hf.
  destruct (search re_success_signed ln) as [[[pre n] post]|] eqn:Es.
  - injection Hc as ->.
    destruct (success_unsigned_rewritten _ _ _ _ Es Hd) as [Hu Hcount].
    unfold rewrite_counter, test, replace_first. rewrite Hu.
    apply Hcount. exact Hf.
  - destruct (search re_trailing_signed ln) as [[[pre n] r]|] eqn:Et; [|discriminate].
    injection Hc as ->.
    destruct (trailing_unsigned_rewritten _ _ _ _ Es Et Hd) as (Hu & Htu & Hcount).
    unfold rewrite_counter, test, replace_first, capture. rewrite Hu, Htu.
    apply Hcount. exact Hf.
Qed.

(** The counter is a [[success::-N]]: the line still carries it. *)
Lemma rewrite_counter_success_minus (ln pre ds post : str) :
  search re_success_signed ln = Some (pre, chr_minus :: ds, post) ->
  countAnnotation (rewrite_counter f d ln) = countAnnotation ln.
Proof.
  intros Hs.
  assert (H : exists z, search re_success_signed (rewrite_counter f d ln)
                        = Some (pre, chr_minus :: ds, z)).
  { apply (success_minus_kept ln pre ds post); [exact Hs|].
    unfold rewrite_counter, test, replace_first.
    destruct (search re_success_unsigned ln) as [[[p c] r]|] eqn:Eu.
    - left. exists p, c, r. eexists. split; reflexivity.
    - destruct (search re_trailing_unsigned ln) as [[[p c] r]|] eqn:Et.
      + right. left. exists p, c, r. eexists. split; reflexivity.
      + right. right. eexists. reflexivity. }
  destruct H as (z & Hz). unfold countAnnotation. rewrite Hz, Hs. reflexivity.
Qed.

(** The counter is a trailing [[-N]]: the appended annotation takes over. *)
Lemma rewrite_counter_trailing_minus (ln pre ds r : str) :
  search re_success_signed ln = None ->
  search re_trailing_signed ln = Some (pre, chr_minus :: ds, r) ->
  0 <= d ->
  countAnnotation (rewrite_counter f d ln) = Some d.
Proof.
  intros Hs Ht Hd.
  destruct (trailing_minus_unmatched _ _ _ _ Hs Ht) as [Hu Htu].
  unfold rewrite_counter, test. rewrite Hu, Htu.
  apply appended_token_counts; assumption.
Qed.

End RewriteCounter.

Lemma counter_text_signed (ln cap : str) :
  counter_text ln = Some cap -> signed cap.
Proof.
  unfold counter_text.
  destruct (search re_success_signed ln) as [[[pre n] post]|] eqn:Es.
  - intros H; injection H as ->.
    apply search_Some_iff in Es as (t & _ & Ht & _).
    apply re_success_signed_iff in Ht as (k & _ & _ & Hc). exact Hc.
  - destruct (search re_trailing_signed ln) as [[[pre n] r]|] eqn:Et; [|discriminate].
    intros H; injection H as ->.
    apply search_Some_iff in Et as (t & _ & Ht & _).
    apply re_trailing_signed_iff in Ht as (_ & ws & _ & Hc & _). exact Hc.
Qed.

(** A counter that is not negative goes down by one, and not below zero. *)
Lemma decrement_line_count (ln : str) (n : Z) :
  countAnnotation ln = Some n -> 0 <= n ->
  countAnnotation (decrement_line ln) = Some (Z.max 0 (n - 1)).
Proof.
  intros Hc Hn. pose proof Hc as Hc'. rewrite countAnnotation_text in Hc'.
  destruct (counter_text ln) as [cap|] eqn:Ec; [|discriminate].
  simpl in Hc'. injection Hc' as Hcap.
  rewrite decrement_line_shape.
  destruct (counter_text_signed _ _ Ec) as [Hd|(ds & -> & Hd)].
  - rewrite <- Hcap.
    apply (rewrite_counter_unsigned (fun n => Z.max 0 (n - 1)) 0 ln cap);
      [exact Ec|exact Hd|lia].
  - rewrite parseInt_minus in Hcap.
    assert (Hp : 0 <= parse_digits ds) by (apply parse_digits_nonneg; apply Hd).
    assert (Hz : n = 0) by lia.
    unfold counter_text in Ec.
    destruct (search re_success_signed ln) as [[[pre c] post]|] eqn:Es.
    + injection Ec as ->.
      rewrite (rewrite_counter_success_minus _ _ ln pre ds post Es).
      rewrite Hc. f_equal. lia.
    + destruct (search re_trailing_signed ln) as [[[pre c] r]|] eqn:Et; [|discriminate].
      injection Ec as ->.
      rewrite (rewrite_counter_trailing_minus _ _ ln pre ds r Es Et); [f_equal|]; lia.
Qed.

(** A counter written without a sign goes up by one. *)
Lemma increment_line_count (ln cap : str) :
  counter_text ln = Some cap -> digits cap ->
  countAnnotation (increment_line ln) = Some (parseInt cap + 1).
Proof.
  intros Hc Hd. rewrite increment_line_shape.
  apply (rewrite_counter_unsigned (fun n => n + 1) 1 ln cap); [exact Hc|exact Hd|].
  pose proof (parseInt_digits_nonneg cap Hd). lia.
Qed.

(** ** The mutations on a file *)

Lemma set_nth_nth_error (lines : list str) (i : nat) (l v : str) :
  nth_error lines i = Some l -> nth_error (set_nth lines i v) i = Some v.
Proof.
  revert i. induction lines as [|x lines IH]; intros [|i]; simpl;
    try discriminate; auto.
Qed.

Lemma line_at_set_line (lines : list str) (idx : Z) (l v : str) :
  line_at lines idx = Some l -> line_at (set_line lines idx v) idx = Some v.
Proof.
  unfold line_at, set_line. destruct (idx <? 0); [discriminate|].
  apply set_nth_nth_error.
Qed.

Lemma truthy_nonempty (ln : str) : ln <> [] -> truthy (Some ln) = true.
Proof. destruct ln; [contradiction|reflexivity]. Qed.

(** A counter mutation on a line that passes the check writes the file with
    that line rewritten. *)
Lemma counter_mutation_writes (rewrite : str -> str) (done : notice)
  (v : vault) (path : str) (n : Z) (orig text ln : str) :
  v path = Some text ->
  line_at (split_lines text) (n - 1) = Some ln -> ln <> [] ->
  startsWith (match_prefix ln) (match_prefix orig) = true ->
  counter_mutation rewrite done v path n orig =
  Written (join_lines (set_line (split_lines text) (n - 1) (rewrite ln))) done.
Proof.
  intros Hv Hl Hne Hp. unfold counter_mutation.
  rewrite Hv, Hl, (truthy_nonempty ln Hne), Hp. reflexivity.
Qed.

Lemma countAnnotation_nonempty (ln : str) (n : Z) :
  countAnnotation ln = Some n -> ln <> [].
Proof. intros H ->. discriminate. Qed.

Lemma startsWith_iff (s p : str) :
  startsWith s p = true <-> exists r, s = p ++ r.
Proof.
  revert s. induction p as [|x p IH]; intros [|y s]; simpl.
  - split; [intros _; exists []; reflexivity|reflexivity].
  - split; [intros _; exists (y :: s); reflexivity|reflexivity].
  - split; [discriminate|]. intros (r & E). discriminate.
  - rewrite andb_true_iff, N.eqb_eq, IH. split.
    + intros (-> & r & ->). exists r. reflexivity.
    + intros (r & E). injection E as -> ->.
      split; [reflexivity|exists r; reflexivity].
Qed.

Lemma startsWith_false (s p : str) :
  startsWith s p = false <-> ~ exists r, s = p ++ r.
Proof.
  rewrite <- startsWith_iff. destruct (startsWith s p); split; congruence.
Qed.

(** ** Validation of the target line *)

Section Validation.

Variable v : vault.
Variables path orig text : str.
Variable n : Z.
Hypothesis Hfile : v path = Some text.

Let target := line_at (split_lines text) (n - 1).

Lemma habit_check_fails :
  (forall ln, target = Some ln -> ln = [] \/ trim ln <> trim orig) ->
  _markHabitTaskDone v path n orig = Aborted NoHabitMatch /\
  forall e c, _markHabitTaskDoneWithDate e c v path n orig = Aborted NoHabitMatch.
Proof.
  intros H. unfold _markHabitTaskDone, _markHabitTaskDoneWithDate.
  rewrite Hfile. fold target. destruct target as [ln|]; [|auto].
  destruct (H ln eq_refl) as [->|Hne]; [auto|].
  apply str_eqb_neq in Hne. rewrite Hne, andb_false_r. auto.
Qed.

Lemma habit_check_passes (ln : str) :
  target = Some ln -> ln <> [] -> trim ln = trim orig ->
  _markHabitTaskDone v path n orig =
    Written (join_lines (set_line (split_lines text) (n - 1) (check_box ln)))
            HabitComplete /\
  forall e c, exists t msg,
    _markHabitTaskDoneWithDate e c v path n orig = Written t msg.
Proof.
  intros Ht Hne Heq. unfold _markHabitTaskDone, _markHabitTaskDoneWithDate.
  rewrite Hfile. fold target. rewrite Ht.
  rewrite (truthy_nonempty ln Hne).
  apply str_eqb_eq in Heq. rewrite Heq. simpl andb. cbv iota.
  split; [reflexivity|]. intros e c. destruct e; [|eauto].
  destruct (parseTask ln path n) as [task|] eqn:Ep.
  - destruct (shouldUpdate _); eauto.
  - destruct (parseTask_never_absent ln path n Ep).
Qed.

Lemma counter_check_fails :
  (forall ln, target = Some ln -> ln = [] \/ ~ prefix_matches ln orig) ->
  _incrementAccumulatedTask v path n orig = Aborted NoAccumulatedMatch /\
  _decrementAccumulatedTask v path n orig = Aborted NoAccumulatedMatch /\
  _clearAccumulatedTask v path n orig = Aborted NoAccumulatedMatch.
Proof.
  intros H.
  unfold _incrementAccumulatedTask, _decrementAccumulatedTask,
    _clearAccumulatedTask, counter_mutation.
  rewrite Hfile. fold target. destruct target as [ln|]; [|auto].
  destruct (H ln eq_refl) as [->|Hne]; [auto|].
  destruct ln as [|x ln]; [auto|]. simpl truthy. simpl negb. cbv iota.
  apply startsWith_false in Hne. rewrite Hne. auto.
Qed.

Lemma counter_check_passes (ln : str) :
  target = Some ln -> ln <> [] -> prefix_matches ln orig ->
  _incrementAccumulatedTask v path n orig =
    Written (join_lines (set_line (split_lines text) (n - 1) (increment_line ln)))
            Incremented /\
  _decrementAccumulatedTask v path n orig =
    Written (join_lines (set_line (split_lines text) (n - 1) (decrement_line ln)))
            Decremented /\
  _clearAccumulatedTask v path n orig =
    Written (join_lines (set_line (split_lines text) (n - 1) (clear_line ln)))
            Cleared.
Proof.
  intros Ht Hne Hp. apply startsWith_iff in Hp.
  repeat split; apply counter_mutation_writes; assumption.
Qed.

End Validation.

(** C5, the claim fails.  Done-marking of a matrix task does not look at the
    expected line: with another open task on the target line it writes that
    line as done.  The habit completion with streak update does not use the
    prefix match: it stops on a line whose prefix matches but whose
    annotations differ.  Habit done-marking accepts a line that differs from
    the expected one by white space at its ends. *)
Lemma done_marking_without_content_check :
  let path := u "todo.md" in
  let c := {| today := u "2025-06-08"; yesterday := u "2025-06-07" |} in
  let text := u "- [ ] Water the plants" in
  let orig := u "- [ ] Call the bank [importance::high]" in
  let l2 := u "- [ ] Meditate [habit::daily] [last-done::2025-06-07]" in
  let o2 := u "- [ ] Meditate [habit::daily]" in
  let l3 := u "- [ ] Stretch  " in
  let o3 := u "- [ ] Stretch" in
  (line_at (split_lines text) (1 - 1) = Some text /\
   str_eqb text orig = false /\ str_eqb (trim text) (trim orig) = false /\
   startsWith (match_prefix text) (match_prefix orig) = false /\
   _markEisenhowerTaskDone (fun _ => Some text) path 1 orig
     = (Written (u "- [x] Water the plants") TaskComplete, Some true)) /\
  (startsWith (match_prefix l2) (match_prefix o2) = true /\
   _markHabitTaskDoneWithDate true c (fun _ => Some l2) path 1 o2
     = Aborted NoHabitMatch) /\
  (str_eqb l3 o3 = false /\
   _markHabitTaskDone (fun _ => Some l3) path 1 o3
     = Written (u "- [x] Stretch  ") HabitComplete).
Proof. vm_compute. repeat split. Qed.

(** C5, amended.  Habit done-marking and habit completion with its streak
    update compare the target line with the expected line up to white space
    at both ends; the three counter mutations use the prefix match.  When
    the file is missing, the target line is missing or empty, or the check
    fails, the mutation shows a notice and writes nothing; when the check
    passes it writes the file. *)
Theorem mutations_revalidate_target_line
  (v : vault) (path orig : str) (n : Z) :
  (v path = None ->
     _markHabitTaskDone v path n orig = Aborted NoHabitFile /\
     (forall e c, _markHabitTaskDoneWithDate e c v path n orig = Aborted NoHabitFile) /\
     _incrementAccumulatedTask v path n orig = Aborted NoAccumulatedFile /\
     _decrementAccumulatedTask v path n orig = Aborted NoAccumulatedFile /\
     _clearAccumulatedTask v path n orig = Aborted NoAccumulatedFile) /\
  (forall text, v path = Some text ->
     let target := line_at (split_lines text) (n - 1) in
     ((forall ln, target = Some ln -> ln = [] \/ trim ln <> trim orig) ->
        _markHabitTaskDone v path n orig = Aborted NoHabitMatch /\
        forall e c, _markHabitTaskDoneWithDate e c v path n orig = Aborted NoHabitMatch) /\
     ((forall ln, target = Some ln -> ln = [] \/ ~ prefix_matches ln orig) ->
        _incrementAccumulatedTask v path n orig = Aborted NoAccumulatedMatch /\
        _decrementAccumulatedTask v path n orig = Aborted NoAccumulatedMatch /\
        _clearAccumulatedTask v path n orig = Aborted NoAccumulatedMatch) /\
     (forall ln, target = Some ln -> ln <> [] -> trim ln = trim orig ->
        _markHabitTaskDone v path n orig =
          Written (join_lines (set_line (split_lines text) (n - 1) (check_box ln)))
                  HabitComplete /\
        forall e c, exists t msg,
          _markHabitTaskDoneWithDate e c v path n orig = Written t msg) /\
     (forall ln, target = Some ln -> ln <> [] -> prefix_matches ln orig ->
        _incrementAccumulatedTask v path n orig =
          Written (join_lines (set_line (split_lines text) (n - 1) (increment_line ln)))
                  Incremented /\
        _decrementAccumulatedTask v path n orig =
          Written (join_lines (set_line (split_lines text) (n - 1) (decrement_line ln)))
                  Decremented /\
        _clearAccumulatedTask v path n orig =
          Written (join_lines (set_line (split_lines text) (n - 1) (clear_line ln)))
                  Cleared)) /\
  (forall text msg, text_after text (Aborted msg) = text).
Proof.
  split; [|split].
  - intros Hv.
    unfold _markHabitTaskDone, _markHabitTaskDoneWithDate,
      _incrementAccumulatedTask, _decrementAccumulatedTask,
      _clearAccumulatedTask, counter_mutation.
    rewrite Hv. auto.
  - intros text Hv target. subst target. split; [|split; [|split]].
    + apply habit_check_fails. exact Hv.
    + apply counter_check_fails. exact Hv.
    + apply habit_check_passes. exact Hv.
    + apply counter_check_passes. exact Hv.
  - reflexivity.
Qed.

(** A file whose second line was edited since the task was read: the habit
    mutations and the counter mutations stop. *)
Lemma mutations_revalidate_target_line_witness :
  let text := u "# Habits" ++ [10%N] ++ u "- [ ] Run 5 km [accumulated::true] [success::2]" in
  let orig := u "- [ ] Read ten pages [accumulated::true] [success::2]" in
  let v : vault := fun _ => Some text in
  _markHabitTaskDone v (u "habits.md") 2 orig = Aborted NoHabitMatch /\
  _incrementAccumulatedTask v (u "habits.md") 2 orig = Aborted NoAccumulatedMatch.
Proof.
  intros text orig v.
  destruct (mutations_revalidate_target_line v (u "habits.md") orig 2) as (_ & H & _).
  destruct (H text eq_refl) as (H1 & H2 & _).
  split.
  - apply H1. intros ln Hl. right. vm_compute in Hl. injection Hl as <-.
    intros E. vm_compute in E. discriminate E.
  - apply H2. intros ln Hl. right. vm_compute in Hl. injection Hl as <-.
    intros (r & E). vm_compute in E. discriminate E.
Defined.

(** ** The streak that is written *)

Lemma capture_Some {A : Type} (m : str -> option (A * str)) (s : str) (a : A) :
  capture m s = Some a -> exists t rest, m t = Some (a, rest).
Proof.
  unfold capture. destruct (search m s) as [[[pre a0] rest]|] eqn:E; [|discriminate].
  intros H; injection H as ->.
  apply search_Some_iff in E as (t & _ & Ht & _). eauto.
Qed.

Lemma re_streak_digits (s ds r : str) : re_streak s = Some (ds, r) -> digits ds.
Proof.
  unfold re_streak, bind.
  destruct (lit_i (u "[streak::") s) as [s1|]; [|discriminate].
  destruct (many1 is_digit s1) as [[n s2]|] eqn:E; [|discriminate].
  destruct (lit (u "]") s2); [|discriminate].
  intros H; injection H as <- _. apply many1_digits_iff in E. apply E.
Qed.

Lemma re_max_streak_digits (s ds r : str) : re_max_streak s = Some (ds, r) -> digits ds.
Proof.
  unfold re_max_streak, bind.
  destruct (lit_i (u "[max-streak::") s) as [s1|]; [|discriminate].
  destruct (many1 is_digit s1) as [[n s2]|] eqn:E; [|discriminate].
  destruct (lit (u "]") s2); [|discriminate].
  intros H; injection H as <- _. apply many1_digits_iff in E. apply E.
Qed.

(** The streak fields of a record are what the patterns capture. *)
Lemma parseTask_streak_fields (ln file_ : str) (n : Z) (task : EisenhowerTask) :
  parseTask ln file_ n = Some task ->
  lastDoneDate task = capture re_last_done ln /\
  lastStreakDate task = capture re_last_streak_date ln /\
  currentStreak task = option_map parseInt (capture re_streak ln) /\
  maxStreak task = option_map parseInt (capture re_max_streak ln).
Proof.
  unfold parseTask. cbn [is_undefined andb].
  intros H; injection H as <-. repeat split.
Qed.

(** The streaks read from a line are natural numbers. *)
Lemma parseTask_streaks_nonneg (ln file_ : str) (n : Z) (task : EisenhowerTask) :
  parseTask ln file_ n = Some task ->
  0 <= or_zero (currentStreak task) /\ 0 <= or_zero (maxStreak task).
Proof.
  intros H. apply parseTask_streak_fields in H as (_ & _ & -> & ->). split.
  - destruct (capture re_streak ln) as [ds|] eqn:E; simpl; [|lia].
    apply capture_Some in E as (t & r & E).
    apply parseInt_digits_nonneg. apply (re_streak_digits _ _ _ E).
  - destruct (capture re_max_streak ln) as [ds|] eqn:E; simpl; [|lia].
    apply capture_Some in E as (t & r & E).
    apply parseInt_digits_nonneg. apply (re_max_streak_digits _ _ _ E).
Qed.

Lemma newStreak_nonneg (c : clock) (d1 d2 : option str) (current : Z) :
  0 <= current -> 0 <= newStreak (calculateStreakFromDates c d1 d2 current).
Proof.
  intros H. unfold calculateStreakFromDates.
  repeat match goal with
         | |- context [if ?b then _ else _] => destruct b
         end; simpl; lia.
Qed.

(** ** Reading back what a streak update wrote *)

Section TagUnsigned.

Variable kw' : str.
Hypothesis kw_no_bracket : no_bracket kw'.
Hypothesis kw_lower : map to_lower kw' = kw'.

Let kw := chr_lbracket :: kw'.

Lemma tag_unsigned_iff (s cap rest : str) :
  tag_unsigned kw s = Some (cap, rest) <->
  exists k, s = k ++ cap ++ chr_rbracket :: rest /\
            map to_lower k = kw /\ digits cap.
Proof.
  unfold tag_unsigned, bind. split.
  - destruct (lit_i kw s) as [s1|] eqn:E1; [|discriminate].
    destruct (many1 is_digit s1) as [[n s2]|] eqn:E2; [|discriminate].
    destruct (lit (u "]") s2) as [s3|] eqn:E3; [|discriminate].
    intros H; injection H as <- <-.
    apply lit_i_iff in E1 as (k & -> & Hk).
    apply many1_digits_iff in E2 as (-> & Hn & _).
    apply lit_Some in E3. subst s2.
    exists k. auto.
  - intros (k & -> & Hk & Hc).
    assert (E1 : lit_i kw (k ++ cap ++ chr_rbracket :: rest)
                 = Some (cap ++ chr_rbracket :: rest))
      by (apply lit_i_iff; exists k; auto).
    rewrite E1.
    assert (E2 : many1 is_digit (cap ++ chr_rbracket :: rest)
                 = Some (cap, chr_rbracket :: rest))
      by (apply many1_digits_iff; repeat split; auto; apply Hc).
    rewrite E2. reflexivity.
Qed.

Lemma tag_unsigned_token (s cap rest : str) :
  tag_unsigned kw s = Some (cap, rest) ->
  exists body, s = chr_lbracket :: body ++ chr_rbracket :: rest /\ no_bracket body.
Proof.
  intros H. apply tag_unsigned_iff in H as (k & -> & Hk & Hc).
  destruct k as [|x k]; [discriminate|]. subst kw. simpl in Hk.
  injection Hk as Hx Hk. apply to_lower_bracket in Hx. subst x.
  exists (k ++ cap). split.
  - simpl. rewrite <- app_assoc. reflexivity.
  - apply no_bracket_app; [|apply digits_no_bracket; exact Hc].
    apply map_to_lower_no_bracket. rewrite Hk. exact kw_no_bracket.
Qed.

Lemma tag_unsigned_ext (body cap rest rest' : str) :
  tag_unsigned kw (chr_lbracket :: body ++ chr_rbracket :: rest) = Some (cap, rest) ->
  tag_unsigned kw (chr_lbracket :: body ++ chr_rbracket :: rest') = Some (cap, rest').
Proof.
  intros H. apply tag_unsigned_iff in H as (k & Hs & Hk & Hc).
  apply tag_unsigned_iff. exists k. split; [|split; [exact Hk|exact Hc]].
  change (chr_lbracket :: body ++ chr_rbracket :: rest)
    with ((chr_lbracket :: body) ++ chr_rbracket :: rest) in Hs.
  rewrite app_assoc in Hs. apply app_inv_tail in Hs.
  change (chr_lbracket :: body ++ chr_rbracket :: rest')
    with ((chr_lbracket :: body) ++ chr_rbracket :: rest').
  rewrite Hs, <- app_assoc. reflexivity.
Qed.

(** The tag as the plugin writes it. *)
Lemma tag_unsigned_written (n : Z) (z : str) :
  0 <= n ->
  tag_unsigned kw (kw ++ show n ++ chr_rbracket :: z) = Some (show n, z).
Proof.
  intros Hn. apply tag_unsigned_iff. exists kw.
  split; [reflexivity|]. split.
  - subst kw. simpl. rewrite kw_lower. reflexivity.
  - apply show_nonneg. exact Hn.
Qed.

End TagUnsigned.

Section TokenMatcherAppend.

Context {A : Type}.
Variable m : str -> option (A * str).

Hypothesis m_token : forall s a rest,
  m s = Some (a, rest) ->
  exists body, s = chr_lbracket :: body ++ chr_rbracket :: rest /\ no_bracket body.

Hypothesis m_ext : forall body a rest rest',
  m (chr_lbracket :: body ++ chr_rbracket :: rest) = Some (a, rest) ->
  m (chr_lbracket :: body ++ chr_rbracket :: rest') = Some (a, rest').

Lemma m_head (c : N) (s : str) : c <> chr_lbracket -> m (c :: s) = None.
Proof.
  intros Hc. destruct (m (c :: s)) as [[a r]|] eqn:E; [|reflexivity].
  destruct (m_token _ _ _ E) as (body & Hs & _). injection Hs as Hs _.
  contradiction.
Qed.

Lemma m_nil : m [] = None.
Proof.
  destruct (m []) as [[a r]|] eqn:E; [|reflexivity].
  destruct (m_token _ _ _ E) as (body & Hs & _). discriminate.
Qed.

Lemma search_none_no_lbracket (x : str) :
  Forall (fun c => c <> chr_lbracket) x -> search m x = None.
Proof.
  induction 1 as [|c x Hc _ IH]; simpl.
  - rewrite m_nil. reflexivity.
  - rewrite (m_head c x Hc), IH. reflexivity.
Qed.

Lemma search_cons_none (c : N) (s : str) :
  m (c :: s) = None -> search m s = None -> search m (c :: s) = None.
Proof. intros H1 H2. simpl. rewrite H1, H2. reflexivity. Qed.

(** A match that starts in [q] and is followed by a space and an opening
    bracket lies within [q]. *)
Lemma m_before_space (q y z : str) :
  q <> [] ->
  m (q ++ chr_space :: chr_lbracket :: y) <> None -> m (q ++ z) <> None.
Proof.
  intros Hq Hm.
  destruct (m (q ++ chr_space :: chr_lbracket :: y)) as [[a rest]|] eqn:E;
    [clear Hm|contradiction].
  destruct (m_token _ _ _ E) as (body & Hs & Hb).
  destruct q as [|c q]; [contradiction|]. simpl in Hs. injection Hs as -> Hs.
  change (q ++ chr_space :: chr_lbracket :: y)
    with (q ++ [chr_space] ++ chr_lbracket :: y) in Hs.
  rewrite app_assoc in Hs. symmetry in Hs.
  apply app_lbracket_split in Hs as (w & Hw & ->); [|exact Hb].
  assert (Hwne : w <> []).
  { intros ->. apply app_inj_tail in Hw as [_ Hw]. discriminate. }
  destruct (exists_last Hwne) as (w' & d & ->).
  assert (Hw' : q ++ [chr_space] = (body ++ chr_rbracket :: w') ++ [d])
    by (rewrite Hw, <- app_assoc; reflexivity).
  apply app_inj_tail in Hw' as [-> <-].
  repeat (rewrite <- app_assoc in E; cbn [app] in E).
  apply (m_ext body a _ (w' ++ z)) in E.
  cbn [app]. repeat (rewrite <- app_assoc; cbn [app]). rewrite E. discriminate.
Qed.

Lemma no_match_before_space (s y : str) :
  search m s = None ->
  no_match_before m (s ++ [chr_space]) (chr_lbracket :: y).
Proof.
  intros Hn p q E Hq.
  destruct (app_cons_last_split _ _ _ _ E Hq) as (q0 & -> & ->).
  destruct q0 as [|c q0].
  - simpl. apply m_head. discriminate.
  - destruct (m (((c :: q0) ++ [chr_space]) ++ chr_lbracket :: y)) eqn:Em;
      [|reflexivity].
    exfalso. rewrite <- app_assoc in Em.
    apply (m_before_space (c :: q0) y []); [discriminate|..].
    + cbn [app]. cbn [app] in Em. rewrite Em. discriminate.
    + rewrite app_nil_r. rewrite search_None_iff in Hn. apply (Hn p). reflexivity.
Qed.

(** A token is appended after a space to a text without a match: it is the
    first match. *)
Lemma search_appended_token (s y : str) (a : A) (r : str) :
  search m s = None -> m (chr_lbracket :: y) = Some (a, r) ->
  search m (s ++ chr_space :: chr_lbracket :: y) = Some (s ++ [chr_space], a, r).
Proof.
  intros Hn Hy. apply search_Some_iff. exists (chr_lbracket :: y).
  split; [rewrite <- app_assoc; reflexivity|]. split; [exact Hy|].
  apply no_match_before_space. exact Hn.
Qed.

(** Two texts without a match, the second one starting with a space and an
    opening bracket, have no match together. *)
Lemma search_none_app_space (s y : str) :
  search m s = None ->
  search m (chr_space :: chr_lbracket :: y) = None ->
  search m (s ++ chr_space :: chr_lbracket :: y) = None.
Proof.
  intros Hs Hy. apply search_None_iff. intros p q E.
  apply app_eq_app in E as [l [[-> E]|[-> E]]].
  - destruct l as [|x l].
    + simpl in E. subst q. rewrite search_None_iff in Hy. apply (Hy []). reflexivity.
    + subst q. destruct (m ((x :: l) ++ chr_space :: chr_lbracket :: y)) eqn:Em;
        [|reflexivity].
      exfalso. apply (m_before_space (x :: l) y []); [discriminate|..].
      * rewrite Em. discriminate.
      * rewrite app_nil_r. rewrite search_None_iff in Hs. apply (Hs p). reflexivity.
  - rewrite search_None_iff in Hy. apply (Hy l). exact E.
Qed.

End TokenMatcherAppend.

Lemma streak_keyword_no_bracket : no_bracket (u "streak::").
Proof. apply no_bracket_forallb. reflexivity. Qed.

Lemma max_streak_keyword_no_bracket : no_bracket (u "max-streak::").
Proof. apply no_bracket_forallb. reflexivity. Qed.

Lemma digits_no_lbracket (ds : str) :
  digits ds -> Forall (fun c => c <> chr_lbracket) ds.
Proof.
  intros H. apply digits_no_bracket in H.
  eapply Forall_impl; [|exact H]. intros c [Hc _]. exact Hc.
Qed.

(** The streak annotations that a streak update appends to a line without
    streak annotations are the ones read back. *)
Lemma streak_written_read_back (c : clock) (base : str) (s m : Z) :
  0 <= s -> 0 <= m ->
  search re_streak base = None -> search re_max_streak base = None ->
  capture re_streak (with_streak c base s m) = Some (show s) /\
  capture re_max_streak (with_streak c base s m) = Some (show m).
Proof.
  intros Hs Hm Hn1 Hn2. unfold with_streak, capture. split.
  - set (rest := u " [max-streak::" ++ show m ++ u "]"
                 ++ u " [last-streak-date::" ++ today c ++ u "]").
    change (base ++ u " [streak::" ++ show s ++ u "]" ++ rest)
      with (base ++ chr_space :: chr_lbracket
                 :: (u "streak::" ++ show s ++ chr_rbracket :: rest)).
    rewrite (search_appended_token re_streak
               (tag_unsigned_token _ streak_keyword_no_bracket)
               (tag_unsigned_ext _) base _ (show s) rest Hn1); [reflexivity|].
    apply (tag_unsigned_written (u "streak::") eq_refl s rest Hs).
  - set (rest := u " [last-streak-date::" ++ today c ++ u "]").
    replace (base ++ u " [streak::" ++ show s ++ u "]"
               ++ u " [max-streak::" ++ show m ++ u "]" ++ rest)
      with ((base ++ u " [streak::" ++ show s ++ u "]")
              ++ u " [max-streak::" ++ show m ++ u "]" ++ rest)
      by (rewrite <- !app_assoc; reflexivity).
    change (u " [max-streak::" ++ show m ++ u "]" ++ rest)
      with (chr_space :: chr_lbracket
              :: (u "max-streak::" ++ show m ++ chr_rbracket :: rest)).
    rewrite (search_appended_token re_max_streak
               (tag_unsigned_token _ max_streak_keyword_no_bracket)
               (tag_unsigned_ext _) _ _ (show m) rest); [reflexivity| |].
    + change (u " [streak::" ++ show s ++ u "]")
        with (chr_space :: chr_lbracket :: (u "streak::" ++ show s ++ u "]")).
      apply (search_none_app_space re_max_streak
               (tag_unsigned_token _ max_streak_keyword_no_bracket)
               (tag_unsigned_ext _)); [exact Hn2|].
      apply search_cons_none; [reflexivity|].
      apply search_cons_none; [reflexivity|].
      apply (search_none_no_lbracket re_max_streak
               (tag_unsigned_token _ max_streak_keyword_no_bracket)).
      apply Forall_app. split.
      * apply Forall_forall. intros x Hx Hc. subst x. vm_compute in Hx.
        repeat (destruct Hx as [Hx|Hx]; [discriminate Hx|]). exact Hx.
      * apply Forall_app. split.
        -- apply digits_no_lbracket. apply show_nonneg. exact Hs.
        -- constructor; [discriminate|constructor].
    + apply (tag_unsigned_written (u "max-streak::") eq_refl m rest Hm).
Qed.

(** C9, the code fails the claim.  The best streak that is written at an
    update is the larger of the new streak and the best streak read from
    the line at that time, but the two consequences do not hold.
    - A habit with a streak of 8 is completed on a day that continues it:
      streak 9 and best streak 9 are written.  The first completion of the
      next day updates nothing and writes the line without its streak
      annotations; the second one is an update and writes streak 1, best
      streak 1.  The best streak has gone from 9 to 1.
    - A line carries [[Max-Streak::5]], which [parseTask] reads and the
      removal of the old properties, case-sensitive, leaves in place: the
      update appends [[streak::6] [max-streak::6]] after it, and the line
      read back has a current streak of 6 above a best streak of 5. *)
Theorem best_streak_is_not_kept :
  let day1 := {| today := u "2025-06-07"; yesterday := u "2025-06-06" |} in
  let day2 := {| today := u "2025-06-08"; yesterday := u "2025-06-07" |} in
  let path := u "habits.md" in
  let k0 := u "- [ ] Meditate [habit::daily] [last-done::2025-06-07] [streak::8] [max-streak::8] [last-streak-date::2025-06-06]" in
  let k1 := u "- [ ] Meditate [habit::daily] [last-done::2025-06-07] [streak::9] [max-streak::9] [last-streak-date::2025-06-07]" in
  let k2 := u "- [ ] Meditate [habit::daily] [last-done::2025-06-08]" in
  let k3 := u "- [ ] Meditate [habit::daily] [last-done::2025-06-08] [streak::1] [max-streak::1] [last-streak-date::2025-06-08]" in
  let m0 := u "- [ ] Stretch [habit::daily] [Max-Streak::5] [last-done::2025-06-08] [streak::5] [last-streak-date::2025-06-07]" in
  let m1 := u "- [ ] Stretch [habit::daily] [Max-Streak::5] [last-done::2025-06-08] [streak::6] [max-streak::6] [last-streak-date::2025-06-08]" in
  (_markHabitTaskDoneWithDate true day1 (fun _ => Some k0) path 1 k0
     = Written k1 (HabitStreak 9) /\
   option_map maxStreak (parseTask k1 path 1) = Some (Some 9) /\
   _markHabitTaskDoneWithDate true day2 (fun _ => Some k1) path 1 k1
     = Written k2 HabitCompleteToday /\
   option_map maxStreak (parseTask k2 path 1) = Some None /\
   _markHabitTaskDoneWithDate true day2 (fun _ => Some k2) path 1 k2
     = Written k3 (HabitStreak 1) /\
   option_map maxStreak (parseTask k3 path 1) = Some (Some 1)) /\
  (option_map maxStreak (parseTask m0 path 1) = Some (Some 5) /\
   _markHabitTaskDoneWithDate true day2 (fun _ => Some m0) path 1 m0
     = Written m1 (HabitStreak 6) /\
   option_map currentStreak (parseTask m1 path 1) = Some (Some 6) /\
   option_map maxStreak (parseTask m1 path 1) = Some (Some 5)).
Proof. vm_compute. repeat split. Qed.

(** * Further properties *)

(** ** Counter mutations as arithmetic on the line *)

Lemma success_unsigned_rewritten_text (ln pre cap post : str) (n : Z) :
  search re_success_signed ln = Some (pre, cap, post) -> 0 <= n ->
  counter_text (pre ++ success_token n ++ post) = Some (show n).
Proof.
  intros Hs Hn0. apply search_Some_iff in Hs as (t & -> & Ht & Hn).
  unfold counter_text, success_token.
  destruct (success_signed_token _ _ _ Ht) as (body & -> & Hb).
  rewrite <- !app_assoc.
  change (u "[success::" ++ show n ++ u "]" ++ post)
    with (chr_lbracket :: (u "success::" ++ show n ++ u "]" ++ post)).
  rewrite (search_replace re_success_signed success_signed_token success_signed_ext
             pre _ _ (show n) post Hn); [reflexivity|].
  apply (written_success_token n post Hn0).
Qed.

Lemma trailing_unsigned_rewritten_text (ln pre cap r : str) (n : Z) :
  search re_success_signed ln = None ->
  search re_trailing_signed ln = Some (pre, cap, r) -> 0 <= n ->
  counter_text (pre ++ success_token n ++ []) = Some (show n).
Proof.
  intros Hs Ht Hn. unfold counter_text.
  apply search_Some_iff in Ht as (t & -> & Ht & _).
  apply re_trailing_signed_iff in Ht as (-> & ws & -> & _ & _).
  change (success_token n ++ [])
    with (chr_lbracket :: (u "success::" ++ show n ++ u "]") ++ []).
  rewrite (search_none_replace re_success_signed success_signed_token
             success_signed_ext pre _ _ (show n) [] Hs); [reflexivity|].
  rewrite app_nil_r. rewrite <- (app_nil_r (u "]")).
  apply (written_success_token n [] Hn).
Qed.

Lemma appended_token_text (ln : str) (n : Z) :
  search re_success_signed ln = None -> 0 <= n ->
  counter_text (trimEnd ln ++ chr_space :: success_token n) = Some (show n).
Proof.
  intros Hs Hn. unfold counter_text.
  rewrite (search_none_append re_success_signed success_signed_token
             success_signed_ext ln (success_token n) (show n) Hs); [reflexivity|].
  unfold success_token.
  rewrite <- (app_nil_r (u "]")). apply written_success_token. exact Hn.
Qed.

Lemma counter_text_none (ln : str) :
  counter_text ln = None ->
  search re_success_signed ln = None /\
  test re_success_unsigned ln = false /\ test re_trailing_unsigned ln = false.
Proof.
  unfold counter_text, test.
  destruct (search re_success_signed ln) as [[[? ?] ?]|] eqn:Es; [discriminate|].
  destruct (search re_trailing_signed ln) as [[[? ?] ?]|] eqn:Et; [discriminate|].
  intros _. split; [reflexivity|].
  rewrite (search_none_weaken re_success_signed re_success_unsigned ln
             success_signed_none_unsigned Es).
  rewrite (search_none_weaken re_trailing_signed re_trailing_unsigned ln
             trailing_signed_none_unsigned Et).
  auto.
Qed.

Section RewriteCounterText.

Variable f : Z -> Z.
Variable d : Z.

(** A counter written without a sign is rewritten to the text of [f] of its
    value. *)
Lemma rewrite_counter_unsigned_text (ln cap : str) :
  counter_text ln = Some cap -> digits cap -> 0 <= f (parseInt cap) ->
  counter_text (rewrite_counter f d ln) = Some (show (f (parseInt cap))).
Proof.
  unfold counter_text at 1. intros Hc Hd Hf.
  destruct (search re_success_signed ln) as [[[pre n] post]|] eqn:Es.
  - injection Hc as ->.
    destruct (success_unsigned_rewritten _ _ _ _ Es Hd) as [Hu _].
    unfold rewrite_counter, test, replace_first. rewrite Hu.
    apply (success_unsigned_rewritten_text ln pre cap post _ Es Hf).
  - destruct (search re_trailing_signed ln) as [[[pre n] r]|] eqn:Et; [|discriminate].
    injection Hc as ->.
    destruct (trailing_unsigned_rewritten _ _ _ _ Es Et Hd) as (Hu & Htu & _).
    unfold rewrite_counter, test, replace_first, capture. rewrite Hu, Htu.
    apply (trailing_unsigned_rewritten_text ln pre cap r _ Es Et Hf).
Qed.

(** A line without a counter gets the text of [d]. *)
Lemma rewrite_counter_absent_text (ln : str) :
  counter_text ln = None -> 0 <= d ->
  counter_text (rewrite_counter f d ln) = Some (show d).
Proof.
  intros Hc Hd. destruct (counter_text_none ln Hc) as (Hs & Hu & Ht).
  unfold rewrite_counter. rewrite Hu, Ht.
  apply appended_token_text; assumption.
Qed.

End RewriteCounterText.

Lemma op_line_shape (op : counter_op) (ln : str) :
  op_line op ln =
  rewrite_counter (op_count op) (op_count op 0) ln.
Proof.
  destruct op; simpl.
  - apply increment_line_shape.
  - apply decrement_line_shape.
  - apply clear_line_shape.
Qed.

Lemma op_count_nonneg (op : counter_op) (n : Z) : 0 <= n -> 0 <= op_count op n.
Proof. destruct op; simpl; lia. Qed.

(** One operation on a line whose counter is [show]n. *)
Lemma op_line_step (op : counter_op) (ln : str) (n : Z) :
  0 <= n -> counter_text ln = Some (show n) ->
  counter_text (op_line op ln) = Some (show (op_count op n)).
Proof.
  intros Hn Hc. rewrite op_line_shape.
  rewrite (rewrite_counter_unsigned_text _ _ ln (show n) Hc).
  - rewrite parseInt_show by exact Hn. reflexivity.
  - apply show_nonneg. exact Hn.
  - rewrite parseInt_show by exact Hn. apply op_count_nonneg. exact Hn.
Qed.

Lemma ops_line_steps (ops : list counter_op) (ln : str) (n : Z) :
  0 <= n -> counter_text ln = Some (show n) ->
  counter_text (fold_left (fun l op => op_line op l) ops ln)
  = Some (show (fold_left (fun k op => op_count op k) ops n)) /\
  0 <= fold_left (fun k op => op_count op k) ops n.
Proof.
  revert ln n. induction ops as [|op ops IH]; intros ln n Hn Hc; simpl.
  - auto.
  - apply IH; [apply op_count_nonneg; exact Hn|].
    apply op_line_step; assumption.
Qed.

(** X1.  The counter on a line behaves as a natural number under the three
    counter mutations: on a line whose counter is written without a sign, or
    that has no counter annotation (read as 0), any sequence of increments,
    decrements and clears, the first one included, leaves a line whose
    counter is the number obtained by adding one, subtracting one down to
    zero, and resetting to zero, in that order.  The counter stays a safe
    integer: the count at the start plus the number of operations is one. *)
Theorem counter_operations_compose (ops : list counter_op) (ln : str) :
  ops <> [] ->
  (counter_text ln = None \/ exists cap, counter_text ln = Some cap /\ digits cap) ->
  let start := match countAnnotation ln with Some n => n | None => 0 end in
  isSafeInteger (start + Z.of_nat (length ops)) = true ->
  countAnnotation (fold_left (fun l op => op_line op l) ops ln)
  = Some (fold_left (fun k op => op_count op k) ops start) /\
  0 <= fold_left (fun k op => op_count op k) ops start.
Proof.
  intros Hne Hc start _. subst start.
  destruct ops as [|op ops]; [contradiction|]. simpl fold_left.
  rewrite !countAnnotation_text.
  assert (H : 0 <= op_count op (match option_map parseInt (counter_text ln) with
                                 | Some n => n | None => 0 end) /\
              counter_text (op_line op ln) =
              Some (show (op_count op (match option_map parseInt (counter_text ln) with
                                       | Some n => n | None => 0 end)))).
  { destruct Hc as [Hc|(cap & Hc & Hd)]; rewrite Hc; simpl option_map; cbv iota.
    - split; [apply op_count_nonneg; lia|].
      rewrite op_line_shape. apply rewrite_counter_absent_text; [exact Hc|].
      apply op_count_nonneg; lia.
    - pose proof (parseInt_digits_nonneg cap Hd) as Hp.
      split; [apply op_count_nonneg; exact Hp|].
      rewrite op_line_shape. apply rewrite_counter_unsigned_text; auto.
      apply op_count_nonneg; exact Hp. }
  destruct H as [Hn Ht].
  destruct (ops_line_steps ops _ _ Hn Ht) as [Hs Hk].
  split; [|exact Hk].
  rewrite Hs. simpl option_map.
  rewrite parseInt_show by exact Hk. reflexivity.
Qed.

(** Seven, then one up, two down and one up again; and a line without a
    counter, decremented and incremented twice. *)
Lemma counter_operations_compose_witness :
  countAnnotation
    (increment_line (decrement_line (decrement_line (increment_line
       (u "- [ ] Meditate [accumulated::true] [success::7]")))))
  = Some 7 /\
  countAnnotation
    (increment_line (increment_line (decrement_line
       (u "- [ ] Meditate [accumulated::true]"))))
  = Some 2.
Proof.
  split.
  - apply (counter_operations_compose
             [OpIncrement; OpDecrement; OpDecrement; OpIncrement]
             (u "- [ ] Meditate [accumulated::true] [success::7]")).
    + discriminate.
    + right. exists (u "7"). split; [reflexivity|].
      split; [discriminate|repeat constructor].
    + reflexivity.
  - apply (counter_operations_compose
             [OpDecrement; OpIncrement; OpIncrement]
             (u "- [ ] Meditate [accumulated::true]")).
    + discriminate.
    + left. reflexivity.
    + reflexivity.
Defined.

(** ** Clearing a counter *)

Lemma success_keyword_no_bracket : no_bracket (u "success::").
Proof. apply no_bracket_forallb. reflexivity. Qed.

Lemma success_unsigned_token (s cap rest : str) :
  re_success_unsigned s = Some (cap, rest) ->
  exists body, s = chr_lbracket :: body ++ chr_rbracket :: rest /\ no_bracket body.
Proof. apply (tag_unsigned_token (u "success::") success_keyword_no_bracket). Qed.

Lemma success_unsigned_ext (body cap rest rest' : str) :
  re_success_unsigned (chr_lbracket :: body ++ chr_rbracket :: rest) = Some (cap, rest) ->
  re_success_unsigned (chr_lbracket :: body ++ chr_rbracket :: rest') = Some (cap, rest').
Proof. apply (tag_unsigned_ext (u "success::")). Qed.

Lemma zero_token_unsigned (z : str) :
  re_success_unsigned (u "[success::0]" ++ z) = Some (u "0", z).
Proof. reflexivity. Qed.

(** X2.  Clearing is idempotent on the text of the line: a second clear
    writes the line the first one wrote. *)
Theorem clear_line_idempotent (ln : str) :
  clear_line (clear_line ln) = clear_line ln.
Proof.
  assert (H : exists pre post,
             clear_line ln = pre ++ u "[success::0]" ++ post /\
             search re_success_unsigned (clear_line ln) = Some (pre, u "0", post)).
  { unfold clear_line, test, replace_first.
    destruct (search re_success_unsigned ln) as [[[pre c] post]|] eqn:Eu.
    - exists pre, post. split; [reflexivity|].
      apply search_Some_iff in Eu as (t & -> & Ht & Hn).
      destruct (success_unsigned_token _ _ _ Ht) as (body & -> & _).
      apply (search_replace re_success_unsigned success_unsigned_token
               success_unsigned_ext pre _ _ _ _ Hn).
      apply zero_token_unsigned.
    - destruct (search re_trailing_unsigned ln) as [[[pre c] r]|] eqn:Et.
      + exists pre, r. split; [reflexivity|].
        apply search_Some_iff in Et as (t & -> & Ht & _).
        apply re_trailing_unsigned_iff in Ht as (-> & ws & -> & _ & _).
        apply (search_none_replace re_success_unsigned success_unsigned_token
                 success_unsigned_ext pre _ _ _ _ Eu).
        apply zero_token_unsigned.
      + exists (trimEnd ln ++ [chr_space]), []. split.
        * rewrite <- app_assoc. reflexivity.
        * apply (search_none_append re_success_unsigned success_unsigned_token
                   success_unsigned_ext ln (u "[success::0]") (u "0") Eu).
          reflexivity. }
  destruct H as (pre & post & Hshape & Hs).
  unfold clear_line at 1. unfold test, replace_first. rewrite Hs.
  symmetry. exact Hshape.
Qed.

(** X3.  A clear leaves a line whose counter is 0, whatever the line carried
    before, a missing or a trailing negative counter included, unless the
    counter of the line is a [[success::-N]]: that one is not matched by the
    patterns of the mutation and the line keeps the counter it had. *)
Theorem clear_resets_counter (ln : str) :
  ((forall pre ds post,
      search re_success_signed ln <> Some (pre, chr_minus :: ds, post)) ->
   countAnnotation (clear_line ln) = Some 0) /\
  (forall pre ds post,
      search re_success_signed ln = Some (pre, chr_minus :: ds, post) ->
      countAnnotation (clear_line ln) = countAnnotation ln /\
      countAnnotation ln = Some (- parse_digits ds)).
Proof.
  split.
  - intros Hneg. rewrite clear_line_shape.
    destruct (counter_text ln) as [cap|] eqn:Ec.
    + destruct (counter_text_signed _ _ Ec) as [Hd|(ds & -> & Hd)].
      * apply (rewrite_counter_unsigned (fun _ => 0) 0 ln cap Ec Hd). lia.
      * unfold counter_text in Ec.
        destruct (search re_success_signed ln) as [[[pre c] post]|] eqn:Es.
        -- injection Ec as ->. destruct (Hneg pre ds post eq_refl).
        -- destruct (search re_trailing_signed ln) as [[[pre c] r]|] eqn:Et;
             [|discriminate].
           injection Ec as ->.
           apply (rewrite_counter_trailing_minus _ _ ln pre ds r Es Et). lia.
    + destruct (counter_text_none ln Ec) as (Hs & Hu & Ht).
      unfold rewrite_counter. rewrite Hu, Ht.
      apply appended_token_counts; [exact Hs|lia].
  - intros pre ds post Hs. split.
    + rewrite clear_line_shape.
      apply (rewrite_counter_success_minus _ _ ln pre ds post Hs).
    + unfold countAnnotation. rewrite Hs. reflexivity.
Qed.

(** A counter at 12, and a counter at -4. *)
Lemma clear_resets_counter_witness :
  countAnnotation (clear_line (u "- [ ] Read [accumulated::true] [success::12]")) = Some 0 /\
  countAnnotation (clear_line (u "- [ ] Snack [accumulated::true] [success::-4]")) = Some (-4).
Proof.
  split.
  - apply (clear_resets_counter (u "- [ ] Read [accumulated::true] [success::12]")).
    intros pre ds post H. vm_compute in H. discriminate H.
  - destruct (clear_resets_counter (u "- [ ] Snack [accumulated::true] [success::-4]"))
      as [_ H].
    destruct (H (u "- [ ] Snack [accumulated::true] ") (u "4") [] eq_refl) as [H1 H2].
    rewrite H1. reflexivity.
Defined.

(** ** Reading and writing a file *)

Lemma split_lines_nonempty (s : str) : split_lines s <> [].
Proof.
  induction s as [|c r IH]; simpl; [discriminate|].
  destruct (N.eqb c 10); [discriminate|].
  destruct r as [|c' r']; [discriminate|].
  destruct (N.eqb c 13 && N.eqb c' 10); [discriminate|].
  destruct (split_lines (c' :: r')); discriminate.
Qed.

Lemma join_lines_cons_char (c : N) (l : str) (ls : list str) :
  join_lines ((c :: l) :: ls) = c :: join_lines (l :: ls).
Proof. destruct ls; reflexivity. Qed.

Lemma join_lines_cons_empty (ls : list str) :
  ls <> [] -> join_lines ([] :: ls) = 10%N :: join_lines ls.
Proof. destruct ls; [contradiction|reflexivity]. Qed.

Lemma join_split_upto (k : nat) :
  forall s, (length s <= k)%nat -> join_lines (split_lines s) = crlf_to_lf s.
Proof.
  induction k as [|k IH]; intros s Hk.
  - destruct s; [reflexivity|simpl in Hk; lia].
  - destruct s as [|c r]; [reflexivity|]. simpl in Hk.
    cbn [split_lines crlf_to_lf].
    destruct (N.eqb c 10) eqn:E10.
    + apply N.eqb_eq in E10. subst c.
      rewrite join_lines_cons_empty by apply split_lines_nonempty.
      rewrite IH by lia. destruct r as [|c' r']; reflexivity.
    + destruct r as [|c' r']; [reflexivity|].
      destruct (N.eqb c 13 && N.eqb c' 10) eqn:Ecr.
      * rewrite join_lines_cons_empty by apply split_lines_nonempty.
        rewrite IH by (simpl in Hk; lia). reflexivity.
      * pose proof (split_lines_nonempty (c' :: r')) as Hne.
        destruct (split_lines (c' :: r')) as [|l ls] eqn:Es; [contradiction|].
        rewrite join_lines_cons_char. rewrite <- Es.
        rewrite IH by lia. reflexivity.
Qed.

(** X4.  Writing back the lines that were read gives the text with every
    CR LF turned into LF: a mutation that passes its check rewrites the line
    ends of the whole file this way, and leaves a file without CR LF as it
    was outside the target line. *)
Theorem join_split_normalises_line_ends (text : str) :
  join_lines (split_lines text) = crlf_to_lf text /\
  (length (crlf_to_lf text) <= length text)%nat /\
  ((forall a b, text <> a ++ 13%N :: 10%N :: b) -> crlf_to_lf text = text).
Proof.
  split; [apply (join_split_upto (length text)); lia|]. split.
  - assert (H : forall k s, (length s <= k)%nat ->
                            (length (crlf_to_lf s) <= length s)%nat).
    { induction k as [|k IH]; intros s Hk.
      - destruct s; [simpl; lia|simpl in Hk; lia].
      - destruct s as [|c r]; [simpl; lia|]. simpl in Hk. cbn [crlf_to_lf].
        destruct r as [|c' r']; [simpl; lia|].
        destruct (N.eqb c 13 && N.eqb c' 10).
        + simpl in Hk. specialize (IH r' ltac:(lia)). simpl. lia.
        + specialize (IH (c' :: r') ltac:(lia)). simpl in *. lia. }
    apply (H (length text)). lia.
  - assert (H : forall k s, (length s <= k)%nat ->
                (forall a b, s <> a ++ 13%N :: 10%N :: b) -> crlf_to_lf s = s).
    { induction k as [|k IH]; intros s Hk Hs.
      - destruct s; [reflexivity|simpl in Hk; lia].
      - destruct s as [|c r]; [reflexivity|]. simpl in Hk. cbn [crlf_to_lf].
        destruct r as [|c' r']; [reflexivity|].
        destruct (N.eqb c 13 && N.eqb c' 10) eqn:E.
        + apply andb_true_iff in E as [E1 E2].
          apply N.eqb_eq in E1, E2. subst. destruct (Hs [] r' eq_refl).
        + f_equal. apply IH; [lia|]. intros a b Hab.
          apply (Hs (c :: a) b). rewrite Hab. reflexivity. }
    apply (H (length text)). lia.
Qed.

(** A file with Windows line ends, and one without. *)
Lemma join_split_normalises_line_ends_witness :
  join_lines (split_lines (u "a" ++ [13; 10]%N ++ u "b")) = u "a" ++ [10%N] ++ u "b" /\
  crlf_to_lf (u "a" ++ [10%N] ++ u "b") = u "a" ++ [10%N] ++ u "b".
Proof.
  split.
  - rewrite (proj1 (join_split_normalises_line_ends _)). reflexivity.
  - apply (join_split_normalises_line_ends (u "a" ++ [10%N] ++ u "b")).
    intros a b H. vm_compute in H.
    destruct a as [|x [|y [|z a]]]; try discriminate H.
    destruct a; discriminate H.
Defined.

Lemma split_lines_no_lf (l : str) : ~ In 10%N l -> split_lines l = [l].
Proof.
  induction l as [|c r IH]; intros H; [reflexivity|].
  cbn [split_lines].
  destruct (N.eqb c 10) eqn:E; [apply N.eqb_eq in E; subst; simpl in H; tauto|].
  destruct r as [|c' r']; [reflexivity|].
  assert (E' : N.eqb c' 10 = false).
  { apply N.eqb_neq. intros ->. apply H. simpl. auto. }
  rewrite E', andb_false_r.
  rewrite IH; [reflexivity|]. intros Hin. apply H. right. exact Hin.
Qed.

Lemma split_lines_app_lf (l x : str) :
  plain_line l -> split_lines (l ++ 10%N :: x) = l :: split_lines x.
Proof.
  intros [Hlf Hcr]. induction l as [|c r IH]; [reflexivity|].
  cbn [app split_lines].
  destruct (N.eqb c 10) eqn:E; [apply N.eqb_eq in E; subst; simpl in Hlf; tauto|].
  destruct r as [|c' r'].
  - simpl. destruct (N.eqb c 13) eqn:E13.
    + apply N.eqb_eq in E13. subst c. destruct (Hcr [] eq_refl).
    + reflexivity.
  - cbn [app].
    assert (E' : N.eqb c' 10 = false).
    { apply N.eqb_neq. intros ->. apply Hlf. simpl. auto. }
    rewrite E', andb_false_r.
    change (c' :: r' ++ 10%N :: x) with ((c' :: r') ++ 10%N :: x).
    rewrite IH; [reflexivity| |].
    + intros Hin. apply Hlf. right. exact Hin.
    + intros l' Hl'. apply (Hcr (c :: l')). rewrite Hl'. reflexivity.
Qed.

(** Lines that are plain are read back as they were written. *)
Lemma split_join_plain (ls : list str) :
  ls <> [] -> Forall plain_line ls -> split_lines (join_lines ls) = ls.
Proof.
  intros Hne H. induction H as [|l ls Hl Hls IH]; [contradiction|].
  destruct ls as [|l2 ls].
  - simpl. apply split_lines_no_lf. apply Hl.
  - change (join_lines (l :: l2 :: ls)) with (l ++ 10%N :: join_lines (l2 :: ls)).
    rewrite split_lines_app_lf by exact Hl.
    rewrite IH by discriminate. reflexivity.
Qed.

(** No line that is read contains a line feed. *)
Lemma split_lines_lines_no_lf (s : str) :
  Forall (fun l => ~ In 10%N l) (split_lines s).
Proof.
  assert (H : forall k s, (length s <= k)%nat ->
                          Forall (fun l => ~ In 10%N l) (split_lines s)).
  { induction k as [|k IH]; intros t Hk.
    - destruct t; [|simpl in Hk; lia]. repeat constructor. auto.
    - destruct t as [|c r]; [repeat constructor; auto|]. simpl in Hk.
      cbn [split_lines].
      destruct (N.eqb c 10) eqn:E10.
      + constructor; [auto|]. apply IH. lia.
      + destruct r as [|c' r'].
        * repeat constructor. intros [H|[]]. subst c. discriminate.
        * destruct (N.eqb c 13 && N.eqb c' 10).
          -- constructor; [auto|]. apply IH. simpl in Hk. lia.
          -- specialize (IH (c' :: r') ltac:(lia)).
             destruct (split_lines (c' :: r')) as [|l ls]; [repeat constructor|].
             ++ intros [H|[]]. subst c. discriminate.
             ++ inversion IH; subst. constructor; [|assumption].
                intros [H|H]; [subst c; discriminate|contradiction]. }
  apply (H (length s)). lia.
Qed.

(** ** The lines of a file after a write *)

Lemma set_nth_length (ls : list str) (i : nat) (v : str) :
  length (set_nth ls i v) = length ls.
Proof.
  revert i. induction ls as [|l ls IH]; intros [|i]; simpl; auto.
Qed.

Lemma set_nth_other (ls : list str) (i j : nat) (v : str) :
  i <> j -> nth_error (set_nth ls i v) j = nth_error ls j.
Proof.
  revert i j. induction ls as [|l ls IH]; intros [|i] [|j] H; simpl; auto.
  contradiction.
Qed.

Lemma set_nth_Forall (P : str -> Prop) (ls : list str) (i : nat) (v : str) :
  Forall P ls -> P v -> Forall P (set_nth ls i v).
Proof.
  intros H Hv. revert i. induction H as [|l ls Hl Hls IH]; intros [|i]; simpl;
    constructor; auto.
Qed.

Lemma line_at_nonneg (ls : list str) (idx : Z) (l : str) :
  line_at ls idx = Some l -> 0 <= idx.
Proof.
  unfold line_at. destruct (idx <? 0) eqn:E; [discriminate|].
  intros _. apply Z.ltb_ge in E. exact E.
Qed.

Lemma line_at_set_line_other (ls : list str) (idx j : Z) (l v : str) :
  line_at ls idx = Some l -> j <> idx ->
  line_at (set_line ls idx v) j = line_at ls j.
Proof.
  intros Hl Hj. pose proof (line_at_nonneg _ _ _ Hl) as Hi.
  unfold line_at, set_line. destruct (j <? 0) eqn:E; [reflexivity|].
  apply Z.ltb_ge in E. apply set_nth_other. lia.
Qed.

Lemma line_at_In (ls : list str) (idx : Z) (l : str) :
  line_at ls idx = Some l -> In l ls.
Proof.
  unfold line_at. destruct (idx <? 0); [discriminate|]. apply nth_error_In.
Qed.

(** What is read after a write: when the lines of the file and the new line
    are plain, the lines read back are the old ones with the new line at
    its place. *)
Lemma reread_after_write (text : str) (idx : Z) (ln new : str) :
  line_at (split_lines text) idx = Some ln ->
  Forall plain_line (split_lines text) -> plain_line new ->
  let ls' := set_line (split_lines text) idx new in
  split_lines (join_lines ls') = ls' /\
  length ls' = length (split_lines text) /\
  line_at ls' idx = Some new /\
  forall j, j <> idx -> line_at ls' j = line_at (split_lines text) j.
Proof.
  intros Hl Hp Hn ls'. subst ls'. split; [|split; [|split]].
  - apply split_join_plain.
    + unfold set_line. intros E.
      pose proof (set_nth_length (split_lines text) (Z.to_nat idx) new) as Hlen.
      rewrite E in Hlen. simpl in Hlen.
      destruct (split_lines text) eqn:Es; [|discriminate].
      exact (split_lines_nonempty text Es).
    + apply set_nth_Forall; assumption.
  - apply set_nth_length.
  - apply (line_at_set_line _ _ ln). exact Hl.
  - intros j Hj. apply (line_at_set_line_other _ _ _ ln); assumption.
Qed.

Lemma plain_line_parts (a b : str) :
  plain_line (a ++ b) ->
  ~ In 10%N a /\ ~ In 10%N b /\ forall l', b <> [] -> b <> l' ++ [13%N].
Proof.
  intros [Hlf Hcr]. split; [|split].
  - intros H. apply Hlf. apply in_or_app. auto.
  - intros H. apply Hlf. apply in_or_app. auto.
  - intros l' _ E. apply (Hcr (a ++ l')). rewrite E, app_assoc. reflexivity.
Qed.

(** A text that ends with a closing bracket, between two parts of a plain
    line. *)
Lemma plain_line_rebuilt (a t post : str) :
  ~ In 10%N a -> ~ In 10%N t -> ~ In 10%N post ->
  (forall l', post <> [] -> post <> l' ++ [13%N]) ->
  plain_line (a ++ (t ++ [chr_rbracket]) ++ post).
Proof.
  intros Ha Ht Hp Hcr. split.
  - intros H. apply in_app_or in H as [H|H]; [auto|].
    apply in_app_or in H as [H|H]; [|auto].
    apply in_app_or in H as [H|[H|[]]]; [auto|discriminate H].
  - intros l' E. destruct post as [|c post].
    + rewrite app_nil_r, app_assoc in E.
      apply app_inj_tail in E as [_ E]. discriminate E.
    + destruct (exists_last (l := c :: post)) as (p & x & Hx); [discriminate|].
      rewrite Hx in E. rewrite !app_assoc in E.
      apply app_inj_tail in E as [_ ->].
      apply (Hcr p); [discriminate|exact Hx].
Qed.

Lemma show_chars (n : Z) :
  Forall (fun c => c = chr_minus \/ is_digit c = true) (show n).
Proof.
  destruct (Z.ltb_spec n 0) as [Hn|Hn].
  - unfold show. apply Z.ltb_lt in Hn. rewrite Hn.
    apply Z.ltb_lt in Hn.
    destruct (show_digits_spec (S (Z.to_nat (Z.log2 (- n)))) (- n) []) as (ds & E & [_ Hd] & _).
    + discriminate.
    + split; [lia|].
      rewrite Nat2Z.inj_succ, Z2Nat.id by apply Z.log2_nonneg.
      assert (H2 : - n < 2 ^ Z.succ (Z.log2 (- n))) by (apply Z.log2_spec; lia).
      assert (H10 : 2 ^ Z.succ (Z.log2 (- n)) <= 10 ^ Z.succ (Z.log2 (- n))).
      { apply Z.pow_le_mono_l. lia. }
      lia.
    + rewrite E, app_nil_r. constructor; [auto|].
      eapply Forall_impl; [|exact Hd]. auto.
  - destruct (show_nonneg n Hn) as [[_ Hd] _].
    eapply Forall_impl; [|exact Hd]. auto.
Qed.

Lemma success_token_shape (n : Z) :
  exists t, success_token n = t ++ [chr_rbracket] /\ ~ In 10%N t.
Proof.
  exists (u "[success::" ++ show n). split.
  - unfold success_token. rewrite <- app_assoc. reflexivity.
  - intros H. apply in_app_or in H as [H|H].
    + vm_compute in H. repeat (destruct H as [H|H]; [discriminate H|]). exact H.
    + pose proof (show_chars n) as Hc. rewrite Forall_forall in Hc.
      destruct (Hc _ H) as [E|E]; discriminate E.
Qed.

(** The line that a counter mutation writes is plain when the line it read
    was. *)
Lemma rewrite_counter_plain (f : Z -> Z) (d : Z) (ln : str) :
  plain_line ln -> plain_line (rewrite_counter f d ln).
Proof.
  intros Hp. unfold rewrite_counter, test, replace_first.
  destruct (search re_success_unsigned ln) as [[[pre c] post]|] eqn:Eu.
  - apply search_Some_iff in Eu as (t & -> & Ht & _).
    apply re_success_unsigned_iff in Ht as (k & -> & _).
    destruct (success_token_shape (f (parseInt c))) as (tk & -> & Htk).
    destruct (plain_line_parts _ _ Hp) as (Ha & Hb & _).
    replace (pre ++ k ++ c ++ chr_rbracket :: post)
      with ((pre ++ k ++ c ++ [chr_rbracket]) ++ post) in Hp
      by (repeat (rewrite <- app_assoc; cbn [app]); reflexivity).
    destruct (plain_line_parts _ _ Hp) as (_ & Hpost & Hcr).
    apply plain_line_rebuilt; auto.
  - destruct (search re_trailing_unsigned ln) as [[[pre c] r]|] eqn:Et.
    + apply search_Some_iff in Et as (t & -> & Ht & _).
      apply re_trailing_unsigned_iff in Ht as (-> & _).
      destruct (plain_line_parts _ _ Hp) as (Ha & _ & _).
      match goal with
      | |- context [success_token ?k] =>
          destruct (success_token_shape k) as (tk & -> & Htk)
      end.
      apply plain_line_rebuilt; auto; try (intros l' H; contradiction).
    + destruct (trimEnd_split ln) as (ws & Hs & _).
      rewrite Hs in Hp. destruct (plain_line_parts _ _ Hp) as (Ha & _ & _).
      destruct (success_token_shape d) as (tk & -> & Htk).
      change (trimEnd ln ++ chr_space :: tk ++ [chr_rbracket])
        with (trimEnd ln ++ ((chr_space :: tk) ++ [chr_rbracket])).
      rewrite <- (app_nil_r ((chr_space :: tk) ++ [chr_rbracket])).
      apply plain_line_rebuilt; auto; try (intros l' H; contradiction).
      intros [H|H]; [discriminate H|auto].
Qed.

Lemma plain_lineb_correct (l : str) : plain_lineb l = true -> plain_line l.
Proof.
  unfold plain_lineb. intros H. apply andb_true_iff in H as [H1 H2].
  apply negb_true_iff in H1, H2. split.
  - intros Hin. assert (E : existsb (N.eqb 10) l = true).
    { apply existsb_exists. exists 10%N. split; [exact Hin|reflexivity]. }
    congruence.
  - intros l' ->. rewrite rev_app_distr in H2. discriminate H2.
Qed.

Lemma plain_lines_check (ls : list str) :
  forallb plain_lineb ls = true -> Forall plain_line ls.
Proof.
  intros H. apply Forall_forall. intros l Hl.
  apply plain_lineb_correct. rewrite forallb_forall in H. apply H. exact Hl.
Qed.

(** X5.  A counter mutation that passes its check on a file whose lines are
    plain (no line ends with a carriage return) writes the file, and the
    file, read again, has the same number of lines, the rewritten line at
    the target and every other line as it was. *)
Theorem counter_mutation_changes_one_line
  (op : counter_op) (v : vault) (path orig text ln : str) (n : Z) :
  v path = Some text ->
  line_at (split_lines text) (n - 1) = Some ln -> ln <> [] ->
  startsWith (match_prefix ln) (match_prefix orig) = true ->
  Forall plain_line (split_lines text) ->
  let mutation :=
    match op with
    | OpIncrement => _incrementAccumulatedTask
    | OpDecrement => _decrementAccumulatedTask
    | OpClear => _clearAccumulatedTask
    end in
  exists written msg,
    mutation v path n orig = Written written msg /\
    length (split_lines written) = length (split_lines text) /\
    line_at (split_lines written) (n - 1) = Some (op_line op ln) /\
    forall j, j <> n - 1 ->
      line_at (split_lines written) j = line_at (split_lines text) j.
Proof.
  intros Hv Hl Hne Hp Hplain mutation.
  assert (Hnew : plain_line (op_line op ln)).
  { rewrite op_line_shape. apply rewrite_counter_plain.
    rewrite Forall_forall in Hplain. apply Hplain.
    apply (line_at_In _ _ _ Hl). }
  destruct (reread_after_write text (n - 1) ln (op_line op ln) Hl Hplain Hnew)
    as (Hr & Hlen & Hat & Hother).
  exists (join_lines (set_line (split_lines text) (n - 1) (op_line op ln))).
  exists (match op with
          | OpIncrement => Incremented
          | OpDecrement => Decremented
          | OpClear => Cleared
          end).
  rewrite Hr. split; [|auto].
  subst mutation. destruct op; apply counter_mutation_writes; assumption.
Qed.

(** The second of three lines is incremented. *)
Lemma counter_mutation_changes_one_line_witness :
  let text := u "# Habits" ++ [10%N] ++ u "- [ ] Read [accumulated::true] [success::2]"
                ++ [10%N] ++ u "- [ ] Walk [habit::daily]" in
  let ln := u "- [ ] Read [accumulated::true] [success::2]" in
  exists written msg,
    _incrementAccumulatedTask (fun _ => Some text) (u "habits.md") 2 ln
      = Written written msg /\
    length (split_lines written) = length (split_lines text) /\
    line_at (split_lines written) (2 - 1) = Some (increment_line ln) /\
    forall j, j <> 2 - 1 ->
      line_at (split_lines written) j = line_at (split_lines text) j.
Proof.
  intros text ln.
  apply (counter_mutation_changes_one_line OpIncrement (fun _ => Some text)
           (u "habits.md") ln text ln 2);
    [reflexivity|reflexivity|discriminate|reflexivity|].
  apply plain_lines_check. reflexivity.
Defined.

(** ** The counter in the file that is written *)

(** The number that a counter mutation reads is the counter of the line
    when that one is written without a sign. *)
Lemma mutation_reads_counter (ln cap : str) :
  counter_text ln = Some cap -> digits cap -> mutation_reads ln = Some cap.
Proof.
  unfold counter_text, mutation_reads, capture. intros Hc Hd.
  destruct (search re_success_signed ln) as [[[pre c] post]|] eqn:Es.
  - injection Hc as ->.
    destruct (success_unsigned_rewritten _ _ _ _ Es Hd) as [Hu _].
    rewrite Hu. reflexivity.
  - destruct (search re_trailing_signed ln) as [[[pre c] r]|] eqn:Et; [|discriminate].
    injection Hc as ->.
    destruct (trailing_unsigned_rewritten _ _ _ _ Es Et Hd) as (Hu & Htu & _).
    rewrite Hu, Htu. reflexivity.
Qed.

Lemma safe_counter (ln : str) (count : Z) :
  countAnnotation ln = Some count -> 0 <= count ->
  reads_safe_integer ln = true -> isSafeInteger count = true.
Proof.
  intros Hc Hn Hs. rewrite countAnnotation_text in Hc.
  destruct (counter_text ln) as [cap|] eqn:Ec; [|discriminate].
  simpl in Hc. injection Hc as Hcap.
  destruct (counter_text_signed _ _ Ec) as [Hd|(ds & -> & Hd)].
  - unfold reads_safe_integer in Hs.
    rewrite (mutation_reads_counter ln cap Ec Hd), Hcap in Hs. exact Hs.
  - rewrite parseInt_minus in Hcap.
    assert (Hp : 0 <= parse_digits ds) by (apply parse_digits_nonneg; apply Hd).
    subst count. replace (- parse_digits ds) with 0 by lia. reflexivity.
Qed.

(** C7.  The line of a file carries a counter that is not negative and
    passes the check of the decrement mutation, and the number that the
    mutation reads from it is a safe integer: the file is written with that
    line rewritten, and the counter that the new line carries, as
    [parseTask] reads it, is the old one less one, or zero when that would
    be negative.  In the file that is written, read again, the rewritten
    line stands at the target and every other line is as it was (on a file
    whose lines are plain). *)
Theorem decrement_floors_at_zero
  (v : vault) (path : str) (n : Z) (orig text ln : str) (count : Z) :
  v path = Some text ->
  line_at (split_lines text) (n - 1) = Some ln ->
  startsWith (match_prefix ln) (match_prefix orig) = true ->
  countAnnotation ln = Some count -> 0 <= count ->
  reads_safe_integer ln = true ->
  exists written task',
    _decrementAccumulatedTask v path n orig = Written written Decremented /\
    written = join_lines (set_line (split_lines text) (n - 1) (decrement_line ln)) /\
    countAnnotation (decrement_line ln) = Some (Z.max 0 (count - 1)) /\
    0 <= Z.max 0 (count - 1) <= MAX_SAFE_INTEGER /\
    parseTask (decrement_line ln) path n = Some task' /\
    accumulatedCount task'
      = (if accumulated task' then Some (Z.max 0 (count - 1)) else None) /\
    (Forall plain_line (split_lines text) ->
       length (split_lines written) = length (split_lines text) /\
       line_at (split_lines written) (n - 1) = Some (decrement_line ln) /\
       forall j, j <> n - 1 ->
         line_at (split_lines written) j = line_at (split_lines text) j).
Proof.
  intros Hv Hl Hp Hc Hn Hs.
  destruct (parseTask (decrement_line ln) path n) as [task'|] eqn:Ep;
    [|destruct (parseTask_never_absent _ _ _ Ep)].
  pose proof (decrement_line_count ln count Hc Hn) as Hd.
  pose proof (safe_counter ln count Hc Hn Hs) as Hsafe.
  exists (join_lines (set_line (split_lines text) (n - 1) (decrement_line ln))), task'.
  split; [|split; [reflexivity|split; [exact Hd|split; [|split; [reflexivity|split]]]]].
  - apply counter_mutation_writes; auto.
    apply (countAnnotation_nonempty ln count Hc).
  - unfold isSafeInteger in Hsafe. apply andb_true_iff in Hsafe as [_ Hsafe].
    apply Z.leb_le in Hsafe. unfold MAX_SAFE_INTEGER in *. lia.
  - rewrite (parseTask_count _ _ _ _ Ep), Hd. reflexivity.
  - intros Hplain.
    assert (Hnew : plain_line (decrement_line ln)).
    { rewrite decrement_line_shape. apply rewrite_counter_plain.
      rewrite Forall_forall in Hplain. apply Hplain.
      apply (line_at_In _ _ _ Hl). }
    destruct (reread_after_write text (n - 1) ln (decrement_line ln) Hl Hplain Hnew)
      as (Hr & Hlen & Hat & Hother).
    rewrite Hr. auto.
Qed.

(** A counter at 7 on the second line of a file and a counter at 0 on the
    third. *)
Lemma decrement_floors_at_zero_witness :
  let l7 := u "- [ ] Meditate [accumulated::true] [success::7]" in
  let l6 := u "- [ ] Meditate [accumulated::true] [success::6]" in
  let l0 := u "- [ ] Stretch [accumulated::true] [success::0]" in
  let text := u "# Habits" ++ [10%N] ++ l7 ++ [10%N] ++ l0 in
  let text' := u "# Habits" ++ [10%N] ++ l6 ++ [10%N] ++ l0 in
  let v := fun _ : str => Some text in
  _decrementAccumulatedTask v (u "habits.md") 2 l7 = Written text' Decremented /\
  split_lines text' = [u "# Habits"; l6; l0] /\
  line_at (split_lines text') (2 - 1) = Some l6 /\
  countAnnotation l6 = Some 6 /\
  _decrementAccumulatedTask v (u "habits.md") 3 l0 = Written text Decremented /\
  line_at (split_lines text) (3 - 1) = Some l0 /\
  countAnnotation l0 = Some 0.
Proof.
  intros l7 l6 l0 text text' v.
  assert (Hplain : Forall plain_line (split_lines text))
    by (apply plain_lines_check; reflexivity).
  destruct (decrement_floors_at_zero v (u "habits.md") 2 l7 text l7 7)
    as (w7 & t7 & H7 & E7 & C7 & _ & _ & _ & R7);
    [reflexivity|reflexivity|reflexivity|reflexivity|lia|reflexivity|].
  destruct (decrement_floors_at_zero v (u "habits.md") 3 l0 text l0 0)
    as (w0 & t0 & H0 & E0 & C0 & _ & _ & _ & R0);
    [reflexivity|reflexivity|reflexivity|reflexivity|lia|reflexivity|].
  destruct (R7 Hplain) as (_ & L7 & _). destruct (R0 Hplain) as (_ & L0 & _).
  rewrite E7 in H7, L7. rewrite E0 in H0, L0.
  split; [exact H7|]. split; [reflexivity|]. split; [exact L7|].
  split; [exact C7|]. split; [exact H0|]. split; [exact L0|exact C0].
Defined.

Lemma tails_In (p q : str) : In q (tails (p ++ q)).
Proof.
  induction p as [|c p IH]; simpl.
  - destruct q; left; reflexivity.
  - right. exact IH.
Qed.

Lemma minus_first_digits (cap r : str) :
  minus_first (Some (cap, r)) = true -> digits cap -> False.
Proof.
  destruct cap as [|c cap]; simpl; [discriminate|].
  intros E Hd. apply N.eqb_eq in E. subst c. exact (digits_minus_absurd cap Hd).
Qed.

(** A line whose counter annotations all have a minus sign has none that
    the patterns of the mutations match. *)
Lemma negative_only_unmatched (ln : str) :
  negative_only ln = true ->
  test re_success_unsigned ln = false /\ test re_trailing_unsigned ln = false.
Proof.
  intros H. unfold negative_only in H. rewrite forallb_forall in H.
  assert (Hs : search re_success_unsigned ln = None).
  { apply search_None_iff. intros p q ->.
    destruct (re_success_unsigned q) as [[cap r]|] eqn:E; [|reflexivity]. exfalso.
    apply success_unsigned_signed in E as [E Hd].
    specialize (H q (tails_In p q)). apply andb_true_iff in H as [H _].
    rewrite E in H. exact (minus_first_digits cap r H Hd). }
  assert (Ht : search re_trailing_unsigned ln = None).
  { apply search_None_iff. intros p q ->.
    destruct (re_trailing_unsigned q) as [[cap r]|] eqn:E; [|reflexivity]. exfalso.
    apply trailing_unsigned_signed in E as [E Hd].
    specialize (H q (tails_In p q)). apply andb_true_iff in H as [_ H].
    rewrite E in H. exact (minus_first_digits cap r H Hd). }
  unfold test. rewrite Hs, Ht. auto.
Qed.

(** A line with an annotation appended is plain when the line was. *)
Lemma appended_line_plain (ln tok : str) :
  plain_line ln -> forallb (fun c => negb (N.eqb c 10)) tok = true ->
  (exists t, tok = t ++ [chr_rbracket]) ->
  plain_line (trimEnd ln ++ tok).
Proof.
  intros Hp Hk (t & ->). destruct (trimEnd_split ln) as (ws & Hs & _).
  rewrite Hs in Hp. destruct (plain_line_parts _ _ Hp) as (Ha & _ & _).
  rewrite <- (app_nil_r (t ++ [chr_rbracket])).
  apply plain_line_rebuilt; auto; try (intros l' H; contradiction).
  intros Hin. rewrite forallb_forall in Hk.
  assert (Hi : In 10%N (t ++ [chr_rbracket])) by (apply in_or_app; auto).
  specialize (Hk _ Hi). discriminate Hk.
Qed.

(** C10.  On a line that passes the check of the counter mutations:
    - when neither an unsigned [[success::N]] nor a trailing unsigned [[N]]
      is found, increment writes the line, without the white space it ends
      with, with [ [success::1]] appended and decrement with
      [ [success::0]], and the file that is written, read
      again, has the appended line at the target and every other line as it
      was (on a file whose lines are plain);
    - the patterns of the mutations do not match an annotation with a minus
      sign;
    - so a line all of whose counter annotations have a minus sign takes
      this branch;
    - and a [[success::-N]] that was the counter of the line is still
      there, first, next to the appended one, and still the counter that is
      read after either mutation, whatever branch was taken. *)
Theorem counter_appended_without_unsigned_annotation
  (v : vault) (path : str) (n : Z) (orig text ln : str) :
  v path = Some text ->
  line_at (split_lines text) (n - 1) = Some ln -> ln <> [] ->
  startsWith (match_prefix ln) (match_prefix orig) = true ->
  let inc := trimEnd ln ++ u " [success::1]" in
  let dec := trimEnd ln ++ u " [success::0]" in
  (exists ws, ln = trimEnd ln ++ ws /\ Forall (fun c => is_space c = true) ws /\
              forall a c, trimEnd ln = a ++ [c] -> is_space c = false) /\
  (test re_success_unsigned ln = false -> test re_trailing_unsigned ln = false ->
   exists wi wd,
     _incrementAccumulatedTask v path n orig = Written wi Incremented /\
     _decrementAccumulatedTask v path n orig = Written wd Decremented /\
     wi = join_lines (set_line (split_lines text) (n - 1) inc) /\
     wd = join_lines (set_line (split_lines text) (n - 1) dec) /\
     (Forall plain_line (split_lines text) ->
      line_at (split_lines wi) (n - 1) = Some inc /\
      line_at (split_lines wd) (n - 1) = Some dec /\
      length (split_lines wi) = length (split_lines text) /\
      length (split_lines wd) = length (split_lines text) /\
      forall j, j <> n - 1 ->
        line_at (split_lines wi) j = line_at (split_lines text) j /\
        line_at (split_lines wd) j = line_at (split_lines text) j)) /\
  (forall s ds rest, re_success_signed s = Some (chr_minus :: ds, rest) ->
                     re_success_unsigned s = None) /\
  (forall s ds rest, re_trailing_signed s = Some (chr_minus :: ds, rest) ->
                     re_trailing_unsigned s = None) /\
  (negative_only ln = true ->
   test re_success_unsigned ln = false /\ test re_trailing_unsigned ln = false) /\
  (forall pre ds post,
     search re_success_signed ln = Some (pre, chr_minus :: ds, post) ->
     (exists z, search re_success_signed inc = Some (pre, chr_minus :: ds, z)) /\
     (exists z, search re_success_signed dec = Some (pre, chr_minus :: ds, z)) /\
     countAnnotation (increment_line ln) = countAnnotation ln /\
     countAnnotation (decrement_line ln) = countAnnotation ln).
Proof.
  intros Hv Hl Hne Hp inc dec.
  split; [|split; [|split; [|split; [|split]]]].
  - destruct (trimEnd_split ln) as (ws & Hs & Hws).
    exists ws. split; [exact Hs|]. split; [exact Hws|].
    intros a c. apply trimEnd_last.
  - intros Hu Ht. exists (join_lines (set_line (split_lines text) (n - 1) inc)),
      (join_lines (set_line (split_lines text) (n - 1) dec)).
    split; [|split; [|split; [reflexivity|split; [reflexivity|]]]].
    + unfold _incrementAccumulatedTask.
      rewrite (counter_mutation_writes _ _ v path n orig text ln) by assumption.
      unfold increment_line. rewrite Hu, Ht. reflexivity.
    + unfold _decrementAccumulatedTask.
      rewrite (counter_mutation_writes _ _ v path n orig text ln) by assumption.
      unfold decrement_line. rewrite Hu, Ht. reflexivity.
    + intros Hplain.
      assert (Hln : plain_line ln).
      { rewrite Forall_forall in Hplain. apply Hplain. apply (line_at_In _ _ _ Hl). }
      assert (Hi : plain_line inc).
      { apply appended_line_plain; [exact Hln|reflexivity|].
        exists (u " [success::1"). reflexivity. }
      assert (Hd : plain_line dec).
      { apply appended_line_plain; [exact Hln|reflexivity|].
        exists (u " [success::0"). reflexivity. }
      destruct (reread_after_write text (n - 1) ln inc Hl Hplain Hi)
        as (Hr1 & Hlen1 & Hat1 & Hother1).
      destruct (reread_after_write text (n - 1) ln dec Hl Hplain Hd)
        as (Hr2 & Hlen2 & Hat2 & Hother2).
      rewrite Hr1, Hr2. repeat split; auto.
  - intros s ds rest Hs.
    destruct (re_success_unsigned s) as [[c r]|] eqn:E; [|reflexivity].
    apply success_unsigned_signed in E as [E Hd]. rewrite Hs in E.
    injection E as <- _. destruct (digits_minus_absurd ds Hd).
  - intros s ds rest Hs.
    destruct (re_trailing_unsigned s) as [[c r]|] eqn:E; [|reflexivity].
    apply trailing_unsigned_signed in E as [E Hd]. rewrite Hs in E.
    injection E as <- _. destruct (digits_minus_absurd ds Hd).
  - apply negative_only_unmatched.
  - intros pre ds post Hs.
    split; [|split; [|split]].
    + apply (search_some_append re_success_signed success_signed_token
               success_signed_ext _ _ _ _ _ Hs).
    + apply (search_some_append re_success_signed success_signed_token
               success_signed_ext _ _ _ _ _ Hs).
    + rewrite increment_line_shape.
      apply (rewrite_counter_success_minus _ _ ln pre ds post Hs).
    + rewrite decrement_line_shape.
      apply (rewrite_counter_success_minus _ _ ln pre ds post Hs).
Qed.

(** The line with [[success::-3]] alone and two spaces after it, second of
    three lines. *)
Lemma counter_appended_without_unsigned_annotation_witness :
  let ln := u "- [ ] Avoid sugar [accumulated::true] [success::-3]  " in
  let inc := u "- [ ] Avoid sugar [accumulated::true] [success::-3] [success::1]" in
  let dec := u "- [ ] Avoid sugar [accumulated::true] [success::-3] [success::0]" in
  let text := u "# Habits" ++ [10%N] ++ ln ++ [10%N] ++ u "- [ ] Walk [habit::daily]" in
  let v := fun _ : str => Some text in
  negative_only ln = true /\
  _incrementAccumulatedTask v (u "habits.md") 2 ln
    = Written (u "# Habits" ++ [10%N] ++ inc ++ [10%N] ++ u "- [ ] Walk [habit::daily]")
              Incremented /\
  _decrementAccumulatedTask v (u "habits.md") 2 ln
    = Written (u "# Habits" ++ [10%N] ++ dec ++ [10%N] ++ u "- [ ] Walk [habit::daily]")
              Decremented /\
  line_at (split_lines (u "# Habits" ++ [10%N] ++ inc ++ [10%N]
                          ++ u "- [ ] Walk [habit::daily]")) (2 - 1) = Some inc /\
  line_at (split_lines (u "# Habits" ++ [10%N] ++ dec ++ [10%N]
                          ++ u "- [ ] Walk [habit::daily]")) (2 - 1) = Some dec /\
  countAnnotation ln = Some (-3) /\
  countAnnotation (increment_line ln) = countAnnotation ln /\
  countAnnotation (decrement_line ln) = countAnnotation ln.
Proof.
  intros ln inc dec text v.
  destruct (counter_appended_without_unsigned_annotation v (u "habits.md") 2 ln text ln)
    as (_ & Happ & _ & _ & Hneg & Hkept);
    [reflexivity|reflexivity|discriminate|reflexivity|].
  assert (Hn : negative_only ln = true) by reflexivity.
  destruct (Hneg Hn) as [Hu Ht].
  destruct (Happ Hu Ht) as (wi & wd & Hi & Hd & Ei & Ed & Hread).
  destruct Hread as (Li & Ld & _); [apply plain_lines_check; reflexivity|].
  destruct (Hkept (u "- [ ] Avoid sugar [accumulated::true] ") (u "3") (u "  ") eq_refl)
    as (_ & _ & Ci & Cd).
  rewrite Ei in Hi, Li. rewrite Ed in Hd, Ld.
  split; [exact Hn|]. split; [exact Hi|]. split; [exact Hd|].
  split; [exact Li|]. split; [exact Ld|]. split; [reflexivity|].
  split; [exact Ci|exact Cd].
Defined.

(** ** Escaping *)

Lemma unescape_head_escape_char (c : N) (r : str) :
  unescape_head (escape_char c ++ r) = Some (c, r).
Proof.
  unfold escape_char.
  destruct (N.eqb c 38) eqn:E1; [apply N.eqb_eq in E1; subst; reflexivity|].
  destruct (N.eqb c 60) eqn:E2; [apply N.eqb_eq in E2; subst; reflexivity|].
  destruct (N.eqb c 62) eqn:E3; [apply N.eqb_eq in E3; subst; reflexivity|].
  destruct (N.eqb c 34) eqn:E4; [apply N.eqb_eq in E4; subst; reflexivity|].
  destruct (N.eqb c 39) eqn:E5; [apply N.eqb_eq in E5; subst; reflexivity|].
  simpl. rewrite E1. reflexivity.
Qed.

Lemma escape_char_safe (c : N) :
  Forall (fun x => x <> 60%N /\ x <> 62%N /\ x <> 34%N /\ x <> 39%N) (escape_char c).
Proof.
  unfold escape_char.
  destruct (N.eqb c 38) eqn:E1; [repeat constructor; discriminate|].
  destruct (N.eqb c 60) eqn:E2; [repeat constructor; discriminate|].
  destruct (N.eqb c 62) eqn:E3; [repeat constructor; discriminate|].
  destruct (N.eqb c 34) eqn:E4; [repeat constructor; discriminate|].
  destruct (N.eqb c 39) eqn:E5; [repeat constructor; discriminate|].
  apply N.eqb_neq in E2, E3, E4, E5. repeat constructor; assumption.
Qed.

(** X6.  The text [escapeHtml] returns has no angle bracket and no quote
    left, and no two texts are escaped to the same text: the escaped text
    determines the original. *)
Theorem escapeHtml_safe_and_injective :
  (forall s, Forall (fun x => x <> 60%N /\ x <> 62%N /\ x <> 34%N /\ x <> 39%N)
                    (escapeHtml s)) /\
  (forall a b, escapeHtml a = escapeHtml b -> a = b).
Proof.
  split.
  - induction s as [|c s IH]; simpl; [constructor|].
    apply Forall_app. split; [apply escape_char_safe|exact IH].
  - induction a as [|x a IH]; intros [|y b] E; simpl in E.
    + reflexivity.
    + apply (f_equal unescape_head) in E.
      rewrite unescape_head_escape_char in E. discriminate E.
    + apply (f_equal unescape_head) in E.
      rewrite unescape_head_escape_char in E. discriminate E.
    + apply (f_equal unescape_head) in E.
      rewrite !unescape_head_escape_char in E.
      injection E as -> E. f_equal. apply IH. exact E.
Qed.

(** ** Sorting habits *)

Lemma insert_task_perm (cmp : EisenhowerTask -> EisenhowerTask -> Z)
  (x : EisenhowerTask) (l : list EisenhowerTask) :
  Permutation (insert_task cmp x l) (x :: l).
Proof.
  induction l as [|y r IH]; simpl; [reflexivity|].
  destruct (cmp x y <=? 0); [reflexivity|].
  rewrite IH. apply perm_swap.
Qed.

Lemma sort_tasks_perm (cmp : EisenhowerTask -> EisenhowerTask -> Z)
  (l : list EisenhowerTask) : Permutation (sort_tasks cmp l) l.
Proof.
  induction l as [|x r IH]; simpl; [reflexivity|].
  rewrite insert_task_perm, IH. reflexivity.
Qed.

Lemma insert_task_In (cmp : EisenhowerTask -> EisenhowerTask -> Z)
  (x z : EisenhowerTask) (l : list EisenhowerTask) :
  In z (insert_task cmp x l) -> z = x \/ In z l.
Proof.
  intros H. apply (Permutation_in _ (insert_task_perm cmp x l)) in H.
  destruct H as [H|H]; auto.
Qed.

(** Insertion keeps the order of the tasks that a test selects, when the
    comparator does not put one of them after another. *)
Lemma insert_task_filter (cmp : EisenhowerTask -> EisenhowerTask -> Z)
  (p : EisenhowerTask -> bool) (x : EisenhowerTask) (l : list EisenhowerTask) :
  (forall y, p x = true -> p y = true -> cmp x y <= 0) ->
  filter p (insert_task cmp x l) = filter p (x :: l).
Proof.
  intros Hp. induction l as [|y r IH]; simpl; [reflexivity|].
  destruct (cmp x y <=? 0) eqn:E; [reflexivity|].
  apply Z.leb_gt in E. simpl. rewrite IH. simpl.
  destruct (p x) eqn:Px; [|reflexivity].
  destruct (p y) eqn:Py; [|reflexivity].
  specialize (Hp y eq_refl Py). lia.
Qed.

Lemma sort_tasks_filter (cmp : EisenhowerTask -> EisenhowerTask -> Z)
  (p : EisenhowerTask -> bool) (l : list EisenhowerTask) :
  (forall x y, p x = true -> p y = true -> cmp x y <= 0) ->
  filter p (sort_tasks cmp l) = filter p l.
Proof.
  intros Hp. induction l as [|x r IH]; simpl; [reflexivity|].
  rewrite insert_task_filter by (intros y; apply Hp).
  simpl. rewrite IH. reflexivity.
Qed.

Section SortHabitTasks.

Variable localeCompare : str -> str -> Z.

Lemma progress_compare_order (d : sort_direction) (a b : EisenhowerTask) :
  compare_tasks localeCompare SortProgress d a b <= 0 -> progress_order d a b.
Proof.
  unfold compare_tasks, progress_order, modifier.
  destruct (accumulated a), (accumulated b), d; simpl; intros H; split;
    intros; try discriminate; try reflexivity; lia.
Qed.

Lemma progress_compare_total (d : sort_direction) (a b : EisenhowerTask) :
  0 < compare_tasks localeCompare SortProgress d a b ->
  compare_tasks localeCompare SortProgress d b a <= 0.
Proof.
  unfold compare_tasks, modifier.
  destruct (accumulated a), (accumulated b), d; simpl; lia.
Qed.

Lemma progress_compare_trans (d : sort_direction) (a b c : EisenhowerTask) :
  compare_tasks localeCompare SortProgress d a b <= 0 ->
  compare_tasks localeCompare SortProgress d b c <= 0 ->
  compare_tasks localeCompare SortProgress d a c <= 0.
Proof.
  unfold compare_tasks, modifier.
  destruct (accumulated a), (accumulated b), (accumulated c), d; simpl; lia.
Qed.

Lemma progress_insert_sorted (d : sort_direction) (x : EisenhowerTask)
  (l : list EisenhowerTask) :
  let cmp := compare_tasks localeCompare SortProgress d in
  StronglySorted (fun a b => cmp a b <= 0) l ->
  StronglySorted (fun a b => cmp a b <= 0) (insert_task cmp x l).
Proof.
  intros cmp H. induction H as [|y r Hr IH Hy]; simpl.
  - repeat constructor.
  - destruct (cmp x y <=? 0) eqn:E.
    + apply Z.leb_le in E. constructor; [constructor; assumption|].
      constructor; [exact E|].
      eapply Forall_impl; [|exact Hy]. intros z Hz.
      apply (progress_compare_trans d x y z); assumption.
    + apply Z.leb_gt in E. constructor; [exact IH|].
      apply Forall_forall. intros z Hz.
      apply insert_task_In in Hz as [->|Hz].
      * apply progress_compare_total. exact E.
      * rewrite Forall_forall in Hy. apply Hy. exact Hz.
Qed.

Lemma start_date_insert_sorted (d : sort_direction) (x : EisenhowerTask)
  (l : list EisenhowerTask) :
  let cmp := compare_tasks localeCompare SortStartDate d in
  StronglySorted dated_first l ->
  StronglySorted dated_first (insert_task cmp x l).
Proof.
  intros cmp H. induction H as [|y r Hr IH Hy]; simpl.
  - repeat constructor.
  - destruct (cmp x y <=? 0) eqn:E.
    + apply Z.leb_le in E. constructor; [constructor; assumption|].
      assert (Hxy : dated_first x y).
      { unfold dated_first. subst cmp. unfold compare_tasks in E.
        destruct (truthy (startDate x)), (truthy (startDate y));
          simpl in E; intros; try reflexivity; try discriminate; lia. }
      constructor; [exact Hxy|].
      eapply Forall_impl; [|exact Hy]. intros z Hz Hdz.
      apply Hxy. apply Hz. exact Hdz.
    + apply Z.leb_gt in E. constructor; [exact IH|].
      assert (Hy' : truthy (startDate y) = true).
      { subst cmp. unfold compare_tasks in E.
        destruct (truthy (startDate x)), (truthy (startDate y));
          simpl in E; try reflexivity; lia. }
      apply Forall_forall. intros z _ _. exact Hy'.
Qed.

(** X7.  For every sort key and direction [sortHabitTasks] returns the tasks
    it was given, each as often as it was given, and with the default key in
    the order they were given. *)
Theorem sortHabitTasks_permutation
  (tasks : list EisenhowerTask) (key : sort_key) (d : sort_direction) :
  Permutation (sortHabitTasks localeCompare tasks key d) tasks /\
  sortHabitTasks localeCompare tasks SortDefault d = tasks.
Proof.
  split; [|reflexivity].
  destruct key; simpl; try apply sort_tasks_perm. reflexivity.
Qed.

(** X8.  The progress sort puts accumulated tasks before the others; among
    accumulated tasks the direction [asc] puts the higher count first and
    [desc] the lower count first; tasks that are not accumulated, and
    accumulated tasks of one count, keep the order they were given in. *)
Theorem sortHabitTasks_progress
  (tasks : list EisenhowerTask) (d : sort_direction) :
  StronglySorted (progress_order d)
    (sortHabitTasks localeCompare tasks SortProgress d) /\
  forall t, filter (same_progress t) (sortHabitTasks localeCompare tasks SortProgress d)
            = filter (same_progress t) tasks.
Proof.
  split.
  - assert (H : StronglySorted
                  (fun a b => compare_tasks localeCompare SortProgress d a b <= 0)
                  (sortHabitTasks localeCompare tasks SortProgress d)).
    { simpl. induction tasks as [|x r IH]; simpl; [constructor|].
      apply progress_insert_sorted. exact IH. }
    induction H as [|y r Hr IH Hy]; constructor; [exact IH|].
    eapply Forall_impl; [|exact Hy]. intros z. apply progress_compare_order.
  - intros t. simpl. apply sort_tasks_filter.
    intros x y Hx Hy. unfold same_progress in Hx, Hy.
    unfold compare_tasks, modifier.
    destruct (accumulated t), (accumulated x), (accumulated y), d; simpl in *;
      try discriminate; try lia.
Qed.

(** X9.  The start date sort puts the tasks with a start date before the
    tasks without one, whatever the comparison of the locale, and the tasks
    without a start date keep the order they were given in. *)
Theorem sortHabitTasks_start_date
  (tasks : list EisenhowerTask) (d : sort_direction) :
  StronglySorted dated_first
    (sortHabitTasks localeCompare tasks SortStartDate d) /\
  filter (fun t => negb (truthy (startDate t)))
    (sortHabitTasks localeCompare tasks SortStartDate d)
  = filter (fun t => negb (truthy (startDate t))) tasks.
Proof.
  split.
  - simpl. induction tasks as [|x r IH]; simpl; [constructor|].
    apply start_date_insert_sorted. exact IH.
  - simpl. apply sort_tasks_filter.
    intros x y Hx Hy. apply negb_true_iff in Hx, Hy.
    unfold compare_tasks. rewrite Hx, Hy. simpl. lia.
Qed.

End SortHabitTasks.

(** ** Scanning the vault *)

Lemma scan_lines_In {A : Type} (body : str -> Z -> list A) (lines : list str)
  (i : Z) (x : A) :
  In x (scan_lines body lines i) <->
  exists k ln, nth_error lines k = Some ln /\ In x (body ln (i + Z.of_nat k + 1)).
Proof.
  revert i. induction lines as [|l r IH]; intros i; simpl.
  - split; [contradiction|]. intros (k & ln & H & _). destruct k; discriminate.
  - rewrite in_app_iff, IH. split.
    + intros [H|(k & ln & Hk & H)].
      * exists 0%nat, l. split; [reflexivity|]. simpl Z.of_nat.
        replace (i + 0 + 1) with (i + 1) by lia. exact H.
      * exists (S k), ln. split; [exact Hk|].
        replace (i + Z.of_nat (S k) + 1) with (i + 1 + Z.of_nat k + 1) by lia. exact H.
    + intros (k & ln & Hk & H). destruct k as [|k].
      * left. simpl in Hk. injection Hk as ->.
        replace (i + 1) with (i + Z.of_nat 0 + 1) by (simpl; lia). exact H.
      * right. exists k, ln. split; [exact Hk|].
        replace (i + 1 + Z.of_nat k + 1) with (i + Z.of_nat (S k) + 1) by lia. exact H.
Qed.

Lemma scan_files_In {A : Type} (body : str -> str -> Z -> list A)
  (files : markdown_files) (x : A) :
  In x (scan_files body files) <->
  exists path text k ln,
    In (path, text) files /\ nth_error (split_lines text) k = Some ln /\
    In x (body path ln (Z.of_nat k + 1)).
Proof.
  unfold scan_files. rewrite in_flat_map. split.
  - intros ([path text] & Hf & H). apply scan_lines_In in H as (k & ln & Hk & H).
    exists path, text, k, ln. auto.
  - intros (path & text & k & ln & Hf & Hk & H). exists (path, text).
    split; [exact Hf|]. apply scan_lines_In. exists k, ln. auto.
Qed.

Lemma parseTask_location (ln file_ : str) (n : Z) (t : EisenhowerTask) :
  parseTask ln file_ n = Some t -> content t = ln /\ file t = file_ /\ line t = n.
Proof.
  unfold parseTask. cbn [is_undefined andb]. intros H. injection H as <-. auto.
Qed.

Lemma matrix_view_body_In (path ln : str) (n : Z) (t : EisenhowerTask) :
  In t (matrix_view_body path ln n) ->
  parseTask ln path n = Some t /\ open_task ln = true.
Proof.
  unfold matrix_view_body. destruct (open_task ln); [|contradiction].
  destruct (_ || _); [|contradiction].
  destruct (parseTask ln path n); [|contradiction].
  intros [<-|[]]. auto.
Qed.

Lemma habit_view_body_In (td path ln : str) (n : Z) (t : EisenhowerTask) :
  In t (habit_view_body td path ln n) ->
  parseTask ln path n = Some t /\ open_task ln = true.
Proof.
  unfold habit_view_body. destruct (open_task ln); [|contradiction].
  destruct (parseTask ln path n) as [task|]; [|contradiction].
  destruct (negb (is_undefined (habitType task))).
  - destruct (_ || _); [intros [<-|[]]; auto|].
    destruct (date_is _ _); [intros [<-|[]]; auto|contradiction].
  - destruct (_ && _); [intros [<-|[]]; auto|contradiction].
Qed.

Lemma show_habit_body_In (path ln : str) (n : Z) (t : EisenhowerTask) :
  In t (show_habit_body path ln n) ->
  parseTask ln path n = Some t /\ open_task ln = true.
Proof.
  unfold show_habit_body. destruct (open_task ln); [|contradiction].
  destruct (parseTask ln path n) as [task|]; [|contradiction].
  destruct (negb _); [intros [<-|[]]; auto|contradiction].
Qed.

Lemma listed_task_origin (td : str) (files : markdown_files) (t : EisenhowerTask) :
  In t (scan_files matrix_view_body files) \/
  In t (scan_files (habit_view_body td) files) \/
  In t (scan_files show_habit_body files) ->
  exists text k,
    In (file t, text) files /\ nth_error (split_lines text) k = Some (content t) /\
    line t = Z.of_nat k + 1 /\ open_task (content t) = true /\
    parseTask (content t) (file t) (line t) = Some t.
Proof.
  intros H.
  assert (exists path text k ln,
    In (path, text) files /\ nth_error (split_lines text) k = Some ln /\
    parseTask ln path (Z.of_nat k + 1) = Some t /\ open_task ln = true)
    as (path & text & k & ln & Hf & Hk & Hp & Ho).
  { destruct H as [H|[H|H]];
      apply scan_files_In in H as (path & text & k & ln & Hf & Hk & H);
      exists path, text, k, ln; (split; [exact Hf|split; [exact Hk|]]).
    - apply matrix_view_body_In. exact H.
    - apply (habit_view_body_In td). exact H.
    - apply show_habit_body_In. exact H. }
  destruct (parseTask_location _ _ _ _ Hp) as (Ec & Ef & El).
  exists text, k. rewrite Ec, Ef, El. auto.
Qed.

(** X10.  Every task that the matrix view, the habit view or the habit
    modal lists comes from a file of the vault: its [line] is the number of a
    line of that file, that line is its [content], it is an open task line,
    and parsing it again at that place gives the task. *)
Theorem listed_tasks_point_at_open_lines
  (td : str) (files : markdown_files) (t : EisenhowerTask) :
  In t (scan_files matrix_view_body files) \/
  In t (scan_files (habit_view_body td) files) \/
  In t (scan_files show_habit_body files) ->
  exists text,
    In (file t, text) files /\
    line_at (split_lines text) (line t - 1) = Some (content t) /\
    1 <= line t <= Z.of_nat (length (split_lines text)) /\
    open_task (content t) = true /\
    parseTask (content t) (file t) (line t) = Some t.
Proof.
  intros H. apply listed_task_origin in H as (text & k & Hf & Hk & El & Ho & Hp).
  exists text. split; [exact Hf|]. split; [|split; [|split]].
  - unfold line_at. rewrite El. replace (Z.of_nat k + 1 - 1) with (Z.of_nat k) by lia.
    destruct (Z.of_nat k <? 0) eqn:E; [apply Z.ltb_lt in E; lia|].
    rewrite Nat2Z.id. exact Hk.
  - assert (k < length (split_lines text))%nat.
    { apply nth_error_Some. rewrite Hk. discriminate. }
    lia.
  - exact Ho.
  - exact Hp.
Qed.

Lemma listed_tasks_point_at_open_lines_witness :
  let files := [(u "habits.md", u "# Habits" ++ [10%N] ++ u "- [ ] Stretch [habit::daily]")] in
  exists t,
    In t (scan_files show_habit_body files) /\
    exists text,
      In (file t, text) files /\
      line_at (split_lines text) (line t - 1) = Some (content t) /\
      1 <= line t <= Z.of_nat (length (split_lines text)) /\
      open_task (content t) = true /\
      parseTask (content t) (file t) (line t) = Some t.
Proof.
  intros files.
  match eval vm_compute in (scan_files show_habit_body files) with
  | ?t :: _ => exists t
  end.
  split; [vm_compute; left; reflexivity|].
  apply (listed_tasks_point_at_open_lines (u "2024-05-01") files).
  right. right. vm_compute. left. reflexivity.
Defined.

Lemma filter_scan_lines (f : EisenhowerTask -> bool)
  (b1 b2 : str -> Z -> list EisenhowerTask) (lines : list str) (i : Z) :
  (forall ln n, filter f (b1 ln n) = b2 ln n) ->
  filter f (scan_lines b1 lines i) = scan_lines b2 lines i.
Proof.
  intros H. revert i. induction lines as [|l r IH]; intros i; simpl; [reflexivity|].
  rewrite filter_app, H, IH. reflexivity.
Qed.

Lemma filter_scan_files (f : EisenhowerTask -> bool)
  (b1 b2 : str -> str -> Z -> list EisenhowerTask) (files : markdown_files) :
  (forall p ln n, filter f (b1 p ln n) = b2 p ln n) ->
  filter f (scan_files b1 files) = scan_files b2 files.
Proof.
  intros H. unfold scan_files. induction files as [|[p text] r IH]; simpl; [reflexivity|].
  rewrite filter_app, IH. f_equal. apply filter_scan_lines. intros. apply H.
Qed.

(** X11.  The habits that the habit view lists are the habits that the
    habit modal lists, in the same order: a habit is listed whether it was
    done today or not.  What the view lists besides are scheduled tasks whose
    date is today. *)
Theorem habit_view_lists_every_open_habit (td : str) (files : markdown_files) :
  filter has_habit (scan_files (habit_view_body td) files)
    = scan_files show_habit_body files /\
  forall t, In t (scan_files (habit_view_body td) files) -> has_habit t = false ->
    taskType t = scheduled /\ scheduledDate t = Some td.
Proof.
  split.
  - apply filter_scan_files. intros p ln n.
    unfold habit_view_body, show_habit_body, has_habit.
    destruct (open_task ln); [|reflexivity].
    destruct (parseTask ln p n) as [task|]; [|reflexivity].
    destruct (negb (is_undefined (habitType task))) eqn:E.
    + destruct (_ || _) eqn:E2.
      * simpl. rewrite E. reflexivity.
      * apply orb_false_iff in E2 as [_ E2]. apply negb_false_iff in E2.
        rewrite E2. simpl. rewrite E. reflexivity.
    + destruct (_ && _); simpl; [rewrite E|]; reflexivity.
  - intros t H Hh. apply scan_files_In in H as (p & text & k & ln & _ & _ & H).
    unfold habit_view_body in H. destruct (open_task ln); [|contradiction].
    destruct (parseTask ln p _) as [task|]; [|contradiction].
    unfold has_habit in Hh.
    destruct (negb (is_undefined (habitType task))) eqn:E.
    + destruct (_ || _); [destruct H as [<-|[]]; congruence|].
      destruct (date_is _ _); [destruct H as [<-|[]]; congruence|contradiction].
    + destruct (is_scheduled task && date_is (scheduledDate task) td) eqn:E2;
        [|contradiction].
      destruct H as [<-|[]]. apply andb_true_iff in E2 as [E3 E4].
      apply date_is_true in E4. split; [|exact E4].
      unfold is_scheduled in E3. destruct (taskType task); congruence.
Qed.

Lemma plain_importance_low (s : str) :
  re_plain_importance s = None -> re_plain_importance_low s = None.
Proof.
  unfold re_plain_importance, re_plain_importance_low, bind.
  destruct (lit (u "importance::") s) as [s1|]; [|reflexivity].
  destruct (lit (u "high") (skip_spaces s1)); [discriminate|].
  destruct (lit (u "low") (skip_spaces s1)); [discriminate|reflexivity].
Qed.

Lemma test_importance_low (ln : str) :
  test re_plain_importance_low ln = true -> test re_plain_importance ln = true.
Proof.
  unfold test. intros H.
  destruct (search re_plain_importance ln) eqn:E; [reflexivity|].
  rewrite (search_none_weaken re_plain_importance re_plain_importance_low ln
             plain_importance_low E) in H. discriminate.
Qed.

Lemma map_scan_lines {A B : Type} (f : A -> B)
  (b1 : str -> Z -> list A) (b2 : str -> Z -> list B) (lines : list str) (i : Z) :
  (forall ln n, b2 ln n = map f (b1 ln n)) ->
  scan_lines b2 lines i = map f (scan_lines b1 lines i).
Proof.
  intros H. revert i. induction lines as [|l r IH]; intros i; simpl; [reflexivity|].
  rewrite map_app, H, IH. reflexivity.
Qed.

(** X12.  [showEisenhowerMatrix] lists the tasks that the matrix view
    lists: the branch that builds a minimal task for a line with
    [importance::low] and [urgency::low] is never taken, since such a line
    has an importance already. *)
Theorem showEisenhowerMatrix_lists_parsed_tasks (files : markdown_files) :
  scan_files show_matrix_body files = map Parsed (scan_files matrix_view_body files).
Proof.
  unfold scan_files. induction files as [|[p text] r IH]; simpl; [reflexivity|].
  rewrite map_app, IH. f_equal. apply map_scan_lines. intros ln n.
  unfold show_matrix_body, matrix_view_body.
  destruct (open_task ln); [|reflexivity].
  destruct (test re_plain_importance ln) eqn:Ei.
  - simpl. destruct (parseTask ln p n); reflexivity.
  - destruct (test re_plain_importance_low ln) eqn:El.
    + apply test_importance_low in El. congruence.
    + simpl. destruct (_ || _); [destruct (parseTask ln p n)|]; reflexivity.
Qed.

Lemma open_task_shape (ln : str) :
  open_task ln = true <-> exists r, ln = u "- [ ]" ++ r.
Proof.
  unfold open_task. destruct (lit (u "- [ ]") ln) as [r|] eqn:E.
  - apply lit_Some in E. split; [eauto|reflexivity].
  - split; [discriminate|]. intros (r & ->). rewrite lit_app in E. discriminate.
Qed.

Lemma search_at_start {A : Type} (m : str -> option (A * str)) (s : str) (a : A)
  (rest : str) :
  m s = Some (a, rest) -> search m s = Some ([], a, rest).
Proof. intros H. destruct s; simpl; rewrite H; reflexivity. Qed.

Lemma check_open_task (r : str) :
  test (m_lit (u "- [ ]")) (u "- [ ]" ++ r) = true /\
  replace_first (m_lit (u "- [ ]")) (fun _ => u "- [x]") (u "- [ ]" ++ r)
    = u "- [x]" ++ r /\
  open_task (u "- [x]" ++ r) = false.
Proof.
  assert (H : search (m_lit (u "- [ ]")) (u "- [ ]" ++ r) = Some ([], tt, r)).
  { apply search_at_start. unfold m_lit. rewrite lit_app. reflexivity. }
  unfold test, replace_first. rewrite H. auto.
Qed.

Lemma listed_line_passes (v : vault) (path text ln : str) (k : nat) :
  v path = Some text -> nth_error (split_lines text) k = Some ln ->
  open_task ln = true ->
  let n := Z.of_nat k + 1 in
  (forall e c, exists w msg,
     _markHabitTaskDoneWithDate e c v path n ln = Written w msg) /\
  _markEisenhowerTaskDone v path n ln =
    (Written (join_lines (set_line (split_lines text) (n - 1) (check_box ln)))
       TaskComplete, Some true) /\
  _incrementAccumulatedTask v path n ln =
    Written (join_lines (set_line (split_lines text) (n - 1) (increment_line ln)))
      Incremented /\
  _decrementAccumulatedTask v path n ln =
    Written (join_lines (set_line (split_lines text) (n - 1) (decrement_line ln)))
      Decremented /\
  _clearAccumulatedTask v path n ln =
    Written (join_lines (set_line (split_lines text) (n - 1) (clear_line ln)))
      Cleared.
Proof.
  intros Hv Hk Ho n.
  assert (Hl : line_at (split_lines text) (n - 1) = Some ln).
  { unfold line_at, n. replace (Z.of_nat k + 1 - 1) with (Z.of_nat k) by lia.
    destruct (Z.of_nat k <? 0) eqn:E; [apply Z.ltb_lt in E; lia|].
    rewrite Nat2Z.id. exact Hk. }
  assert (Hne : ln <> []).
  { apply open_task_shape in Ho as (r & ->). discriminate. }
  split; [|split].
  - apply (habit_check_passes v path ln text n Hv ln Hl Hne eq_refl).
  - unfold _markEisenhowerTaskDone. rewrite Hv. cbv zeta. rewrite Hl.
    rewrite (truthy_nonempty ln Hne).
    apply open_task_shape in Ho as (r & ->).
    destruct (check_open_task r) as (-> & -> & _).
    unfold check_box. rewrite lit_app. reflexivity.
  - apply (counter_check_passes v path ln text n Hv ln Hl Hne).
    exists []. rewrite app_nil_r. reflexivity.
Qed.

(** X13.  An action on a listed task is not refused while the files are
    the ones that were scanned: completion from the matrix, habit completion
    and the three counter mutations, called with the file, line and content
    of the task as the views call them, all write the file. *)
Theorem listed_task_actions_accepted
  (td : str) (files : markdown_files) (v : vault) (t : EisenhowerTask) :
  (forall p text, In (p, text) files -> v p = Some text) ->
  In t (scan_files matrix_view_body files) \/
  In t (scan_files (habit_view_body td) files) \/
  In t (scan_files show_habit_body files) ->
  (forall e c, exists w msg, completeTask e c v t = Written w msg) /\
  (forall e c, exists w msg,
     _markHabitTaskDoneWithDate e c v (file t) (line t) (content t) = Written w msg) /\
  (exists w, _incrementAccumulatedTask v (file t) (line t) (content t)
             = Written w Incremented) /\
  (exists w, _decrementAccumulatedTask v (file t) (line t) (content t)
             = Written w Decremented) /\
  (exists w, _clearAccumulatedTask v (file t) (line t) (content t)
             = Written w Cleared).
Proof.
  intros Hv H. apply listed_task_origin in H as (text & k & Hf & Hk & El & Ho & _).
  destruct (listed_line_passes v (file t) text (content t) k (Hv _ _ Hf) Hk Ho)
    as (Hd & Hm & Hi & Hdec & Hc).
  rewrite <- El in Hd, Hm, Hi, Hdec, Hc.
  split; [|split; [exact Hd|split; [|split]]]; eauto.
  intros e c. unfold completeTask. destruct (taskType t); try apply Hd;
    rewrite Hm; simpl; eauto.
Qed.

Lemma listed_task_actions_accepted_witness :
  let text := u "# Habits" ++ [10%N] ++ u "- [ ] Push-ups [habit::daily] [accumulated::true]" in
  let files := [(u "habits.md", text)] in
  let v := fun p => if str_eqb p (u "habits.md") then Some text else None in
  exists t,
    In t (scan_files (habit_view_body (u "2024-05-01")) files) /\
    (forall e c, exists w msg, completeTask e c v t = Written w msg) /\
    (forall e c, exists w msg,
       _markHabitTaskDoneWithDate e c v (file t) (line t) (content t) = Written w msg) /\
    (exists w, _incrementAccumulatedTask v (file t) (line t) (content t)
               = Written w Incremented) /\
    (exists w, _decrementAccumulatedTask v (file t) (line t) (content t)
               = Written w Decremented) /\
    (exists w, _clearAccumulatedTask v (file t) (line t) (content t)
               = Written w Cleared).
Proof.
  intros text files v.
  match eval vm_compute in (scan_files (habit_view_body (u "2024-05-01")) files) with
  | ?t :: _ => exists t
  end.
  split; [vm_compute; left; reflexivity|].
  apply (listed_task_actions_accepted (u "2024-05-01") files v).
  - intros p tx [E|[]]. injection E as <- <-. reflexivity.
  - right. left. vm_compute. left. reflexivity.
Defined.

Lemma scan_lines_app {A : Type} (body : str -> Z -> list A) (l1 l2 : list str) (i : Z) :
  scan_lines body (l1 ++ l2) i
  = scan_lines body l1 i ++ scan_lines body l2 (i + Z.of_nat (length l1)).
Proof.
  revert i. induction l1 as [|l r IH]; intros i.
  - simpl. rewrite Z.add_0_r. reflexivity.
  - cbn [app scan_lines length]. rewrite IH, <- app_assoc.
    replace (i + 1 + Z.of_nat (length r)) with (i + Z.of_nat (S (length r))) by lia.
    reflexivity.
Qed.

Lemma scan_files_app {A : Type} (body : str -> str -> Z -> list A)
  (fs1 fs2 : markdown_files) (p text : str) :
  scan_files body (fs1 ++ (p, text) :: fs2)
  = scan_files body fs1 ++ scan_lines (body p) (split_lines text) 0
    ++ scan_files body fs2.
Proof. unfold scan_files. rewrite flat_map_app. reflexivity. Qed.

Lemma set_nth_app (l1 l2 : list str) (ln v : str) :
  set_nth (l1 ++ ln :: l2) (length l1) v = l1 ++ v :: l2.
Proof. induction l1 as [|l r IH]; simpl; [|rewrite IH]; reflexivity. Qed.

Lemma matrix_view_body_one (path ln : str) (n : Z) (t : EisenhowerTask) :
  In t (matrix_view_body path ln n) -> matrix_view_body path ln n = [t].
Proof.
  unfold matrix_view_body. destruct (open_task ln); [|contradiction].
  destruct (_ || _); [|contradiction].
  destruct (parseTask ln path n); [|contradiction].
  intros [<-|[]]. reflexivity.
Qed.

Lemma checked_line_plain (r : str) :
  plain_line (u "- [ ]" ++ r) -> plain_line (u "- [x]" ++ r).
Proof.
  intros Hp. destruct (plain_line_parts _ _ Hp) as (_ & Hr & Hcr). split.
  - intros H. apply in_app_or in H as [H|H]; [|auto].
    simpl in H. repeat (destruct H as [H|H]; [discriminate|]). exact H.
  - intros l' E. destruct r as [|x r0].
    + rewrite app_nil_r in E.
      apply (f_equal (@rev N)) in E. rewrite rev_app_distr in E. discriminate.
    + destruct (@exists_last _ (x :: r0)) as (r' & c & Er); [discriminate|].
      rewrite Er, app_assoc in E. apply app_inj_tail in E as [_ ->].
      apply (Hcr r'); [discriminate|exact Er].
Qed.

(** X14.  Completing a listed task of the matrix view that is not a
    repeated habit, in a file whose lines are read back as they were written,
    writes the file so that the next scan lists the same tasks in the same
    order without the completed one. *)
Theorem completed_task_leaves_matrix
  (e : bool) (c : clock) (v : vault) (fs1 fs2 : markdown_files)
  (p text : str) (t : EisenhowerTask) :
  v p = Some text ->
  Forall plain_line (split_lines text) ->
  In t (scan_lines (matrix_view_body p) (split_lines text) 0) ->
  taskType t <> repeated_daily ->
  exists written before after,
    completeTask e c v t = Written written TaskComplete /\
    scan_files matrix_view_body (fs1 ++ (p, text) :: fs2) = before ++ t :: after /\
    scan_files matrix_view_body (fs1 ++ (p, written) :: fs2) = before ++ after.
Proof.
  intros Hv Hpl Ht Hty.
  apply scan_lines_In in Ht as (k & ln & Hk & Ht). simpl in Ht.
  pose proof (matrix_view_body_one _ _ _ _ Ht) as Hone.
  apply matrix_view_body_In in Ht as (Hp & Ho).
  destruct (parseTask_location _ _ _ _ Hp) as (Ec & Ef & El).
  destruct (listed_line_passes v p text ln k Hv Hk Ho) as (_ & Hm & _).
  destruct (nth_error_split _ _ Hk) as (l1 & l2 & Es & Elen).
  pose proof Ho as Ho'. apply open_task_shape in Ho' as (r & Er).
  assert (Hnew : check_box ln = u "- [x]" ++ r).
  { rewrite Er. unfold check_box. rewrite lit_app. reflexivity. }
  assert (Hl : line_at (split_lines text) (Z.of_nat k + 1 - 1) = Some ln).
  { unfold line_at. replace (Z.of_nat k + 1 - 1) with (Z.of_nat k) by lia.
    destruct (Z.of_nat k <? 0) eqn:E; [apply Z.ltb_lt in E; lia|].
    rewrite Nat2Z.id. exact Hk. }
  assert (Hplain : plain_line (check_box ln)).
  { rewrite Hnew. apply checked_line_plain. rewrite <- Er.
    rewrite Forall_forall in Hpl. apply Hpl. eapply nth_error_In. exact Hk. }
  destruct (reread_after_write text _ ln (check_box ln) Hl Hpl Hplain) as (Hre & _).
  exists (join_lines (set_line (split_lines text) (Z.of_nat k + 1 - 1) (check_box ln))),
    (scan_files matrix_view_body fs1 ++ scan_lines (matrix_view_body p) l1 0),
    (scan_lines (matrix_view_body p) l2 (Z.of_nat k + 1)
       ++ scan_files matrix_view_body fs2).
  split; [|split].
  - unfold completeTask. rewrite Ec, Ef, El.
    destruct (taskType t); [contradiction| |]; rewrite Hm; reflexivity.
  - rewrite scan_files_app, Es, scan_lines_app. cbn [scan_lines].
    rewrite Elen. replace (0 + Z.of_nat k + 1) with (0 + Z.of_nat k + 1) by lia.
    simpl Z.add at 1. rewrite Hone. rewrite <- !app_assoc. reflexivity.
  - rewrite scan_files_app, Hre. unfold set_line.
    replace (Z.to_nat (Z.of_nat k + 1 - 1)) with (length l1) by lia.
    rewrite Es, set_nth_app, scan_lines_app. cbn [scan_lines].
    rewrite Elen. simpl Z.add at 1.
    assert (Hnone : matrix_view_body p (check_box ln) (Z.of_nat k + 1) = []).
    { unfold matrix_view_body. rewrite Hnew.
      destruct (check_open_task r) as (_ & _ & ->). reflexivity. }
    rewrite Hnone. rewrite <- !app_assoc. reflexivity.
Qed.

Lemma completed_task_leaves_matrix_witness :
  let text := u "- [ ] Pay rent [importance::high]" ++ [10%N]
              ++ u "- [ ] Call bank [urgency::high]" in
  let c := {| today := u "2025-06-08"; yesterday := u "2025-06-07" |} in
  let v := fun _ : str => Some text in
  let t := {| content := u "- [ ] Pay rent [importance::high]";
              importance := high; urgency := low; durationMinutes := 0;
              file := u "todo.md"; line := 1; habitType := None;
              accumulated := false; accumulatedCount := None;
              lastDoneDate := None; taskType := regular; scheduledDate := None;
              startDate := None; currentStreak := None; maxStreak := None;
              lastStreakDate := None; attributeName := None |} in
  exists written before after,
    completeTask true c v t = Written written TaskComplete /\
    scan_files matrix_view_body ([] ++ [(u "todo.md", text)]) = before ++ t :: after /\
    scan_files matrix_view_body ([] ++ [(u "todo.md", written)]) = before ++ after.
Proof.
  intros text c v t.
  apply (completed_task_leaves_matrix true c v [] [] (u "todo.md") text t).
  - reflexivity.
  - apply plain_lines_check. reflexivity.
  - vm_compute. left. reflexivity.
  - discriminate.
Defined.

(** X15.  The sections of the habit view, by accumulation when grouped and
    by kind otherwise, are pairwise disjoint, each keeps the order of the
    sorted list, and together they are the listed habits as a multiset. *)
Theorem habit_sections_partition (localeCompare : str -> str -> Z) (isGrouped : bool)
  (habitTasks : list EisenhowerTask) (key : sort_key) (d : sort_direction) :
  let sections := habit_sections localeCompare isGrouped habitTasks key d in
  Permutation (concat sections) habitTasks /\
  Forall (fun s => subseq s (sortHabitTasks localeCompare habitTasks key d)) sections /\
  forall i j s1 s2, i <> j ->
    nth_error sections i = Some s1 -> nth_error sections j = Some s2 ->
    disjoint s1 s2.
Proof.
  intros sections. subst sections. unfold habit_sections.
  set (sorted := sortHabitTasks localeCompare habitTasks key d).
  assert (Hs : Permutation sorted habitTasks).
  { subst sorted. destruct key; simpl; try apply sort_tasks_perm. reflexivity. }
  destruct isGrouped.
  - split; [|split].
    + cbn [concat]. rewrite app_nil_r.
      rewrite filter_split_perm by (intros x ->; reflexivity).
      rewrite filter_all; [exact Hs|]. intros x. destruct (accumulated x); reflexivity.
    + repeat constructor; apply filter_subseq.
    + intros [|[|[|i]]] [|[|[|j]]] s1 s2 Hij H1 H2; simpl in H1, H2;
        try congruence; try (destruct i; discriminate); try (destruct j; discriminate);
        injection H1 as <-; injection H2 as <-; apply filter_disjoint;
        intros x; destruct (accumulated x); simpl; congruence.
  - split; [|split].
    + cbn [concat]. rewrite app_nil_r, app_assoc.
      rewrite filter_split_perm
        by (intros x; destruct (habit_kind_of x); simpl; congruence).
      rewrite filter_split_perm
        by (intros x; destruct (habit_kind_of x); simpl; congruence).
      rewrite filter_all; [exact Hs|]. intros x. destruct (habit_kind_of x); reflexivity.
    + repeat constructor; apply filter_subseq.
    + intros [|[|[|i]]] [|[|[|j]]] s1 s2 Hij H1 H2; simpl in H1, H2;
        try congruence; try (destruct i; discriminate); try (destruct j; discriminate);
        injection H1 as <-; injection H2 as <-; apply filter_disjoint;
        intros x; destruct (habit_kind_of x); simpl; congruence.
Qed.

(** ** Completing a habit that was not done today *)

(** X16.  A completion with streak tracking of a habit whose line does not
    say that it was done today never writes a streak above 0: it writes the
    line with the new [last-done] alone, or with a streak of 0 and the best
    streak the line had.  The streak that is written can only grow when the
    line said [last-done] today before the completion. *)
Theorem streak_grows_only_when_already_done_today
  (c : clock) (v : vault) (path orig text ln : str) (n : Z) (task : EisenhowerTask) :
  v path = Some text ->
  line_at (split_lines text) (n - 1) = Some ln -> ln <> [] ->
  trim ln = trim orig ->
  parseTask ln path n = Some task ->
  lastDoneDate task <> Some (today c) ->
  exists newLine msg,
    _markHabitTaskDoneWithDate true c v path n orig
      = Written (join_lines (set_line (split_lines text) (n - 1) newLine)) msg /\
    ((msg = HabitCompleteToday /\ newLine = with_last_done c ln) \/
     (msg = HabitStreak 0 /\
      newLine = with_streak c (with_last_done c ln) 0 (or_zero (maxStreak task)))).
Proof.
  intros Hv Hl Hne Heq Hp Hd.
  destruct (parseTask_streaks_nonneg _ _ _ _ Hp) as [_ Hm].
  unfold _markHabitTaskDoneWithDate.
  rewrite Hv, Hl, (truthy_nonempty ln Hne).
  apply str_eqb_eq in Heq. rewrite Heq. simpl andb. cbv iota. rewrite Hp.
  apply date_is_false in Hd.
  unfold calculateStreakFromDates. rewrite Hd.
  destruct (truthy (lastDoneDate task)); simpl.
  - destruct (date_is (lastDoneDate task) (yesterday c)
              && date_is (lastStreakDate task) (yesterday c)); simpl.
    + eexists _, _. split; [reflexivity|]. left. auto.
    + eexists _, _. split; [reflexivity|]. right. split; [reflexivity|].
      rewrite Z.max_r by exact Hm. reflexivity.
  - eexists _, _. split; [reflexivity|]. left. auto.
Qed.

Lemma streak_grows_only_when_already_done_today_witness :
  let c := {| today := u "2025-06-08"; yesterday := u "2025-06-07" |} in
  let ln := u "- [ ] Meditate [habit::daily] [last-done::2025-06-07] [streak::4] [max-streak::9] [last-streak-date::2025-06-07]" in
  let v := fun _ : str => Some ln in
  exists task, parseTask ln (u "habits.md") 1 = Some task /\
  exists newLine msg,
    _markHabitTaskDoneWithDate true c v (u "habits.md") 1 ln
      = Written (join_lines (set_line (split_lines ln) (1 - 1) newLine)) msg /\
    ((msg = HabitCompleteToday /\ newLine = with_last_done c ln) \/
     (msg = HabitStreak 0 /\
      newLine = with_streak c (with_last_done c ln) 0 (or_zero (maxStreak task)))).
Proof.
  intros c ln v.
  destruct (parseTask ln (u "habits.md") 1) as [task|] eqn:Ep;
    [|destruct (parseTask_never_absent _ _ _ Ep)].
  exists task. split; [reflexivity|].
  apply (streak_grows_only_when_already_done_today c v (u "habits.md") ln ln ln 1 task).
  - reflexivity.
  - reflexivity.
  - discriminate.
  - reflexivity.
  - exact Ep.
  - vm_compute in Ep. injection Ep as <-. discriminate.
Defined.

(** ** Reading back the date of a completion *)

Lemma exactly_Some (n : nat) (f : N -> bool) (s a r : str) :
  exactly n f s = Some (a, r) ->
  s = a ++ r /\ length a = n /\ Forall (fun c => f c = true) a.
Proof.
  revert s a. induction n as [|n IH]; intros s a; simpl.
  - intros H; injection H as <- <-. auto.
  - destruct s as [|c s]; [discriminate|].
    destruct (f c) eqn:Ec; [|discriminate].
    destruct (exactly n f s) as [[a' b]|] eqn:E; [|discriminate].
    intros H; injection H as <- <-.
    destruct (IH _ _ E) as (-> & <- & Ha). auto.
Qed.

Lemma exactly_app (f : N -> bool) (a r : str) :
  Forall (fun c => f c = true) a -> exactly (length a) f (a ++ r) = Some (a, r).
Proof.
  induction 1 as [|c a Hc _ IH]; simpl; [reflexivity|].
  rewrite Hc, IH. reflexivity.
Qed.

Lemma date_lit_Some (s d r : str) :
  date_lit s = Some (d, r) ->
  s = d ++ r /\ no_bracket d /\ forall r', date_lit (d ++ r') = Some (d, r').
Proof.
  unfold date_lit.
  destruct (exactly 4 is_digit s) as [[y s1]|] eqn:E1; [|discriminate].
  destruct (lit [chr_minus] s1) as [s2|] eqn:E2; [|discriminate].
  destruct (exactly 2 is_digit s2) as [[m s3]|] eqn:E3; [|discriminate].
  destruct (lit [chr_minus] s3) as [s4|] eqn:E4; [|discriminate].
  destruct (exactly 2 is_digit s4) as [[dd s5]|] eqn:E5; [|discriminate].
  intros H; injection H as <- <-.
  apply exactly_Some in E1 as (-> & L1 & H1).
  apply exactly_Some in E3 as (-> & L3 & H3).
  apply exactly_Some in E5 as (-> & L5 & H5).
  apply lit_Some in E2, E4. subst s1 s3.
  split; [|split].
  - repeat (rewrite <- app_assoc; cbn [app]). reflexivity.
  - assert (Hd : forall x, Forall (fun c => is_digit c = true) x -> no_bracket x).
    { intros x Hx. eapply Forall_impl; [|exact Hx]. intros c. apply digit_no_bracket. }
    apply no_bracket_app; [apply Hd; exact H1|].
    constructor; [split; discriminate|].
    apply no_bracket_app; [apply Hd; exact H3|].
    constructor; [split; discriminate|apply Hd; exact H5].
  - intros r'.
    assert (Hl : forall X, lit [chr_minus] (chr_minus :: X) = Some X)
      by (intros; reflexivity).
    repeat (rewrite <- app_assoc; cbn [app]).
    rewrite <- L1, (exactly_app is_digit y _ H1). cbv beta iota. rewrite Hl.
    rewrite <- L3 at 1. rewrite (exactly_app is_digit m _ H3). cbv beta iota. rewrite Hl.
    rewrite <- L5, (exactly_app is_digit dd _ H5). reflexivity.
Qed.

Lemma is_date_read (d r : str) : is_date d -> date_lit (d ++ r) = Some (d, r).
Proof.
  intros H. destruct (date_lit_Some _ _ _ H) as (_ & _ & Hr). apply Hr.
Qed.

Section TagDate.

Variable kw' : str.
Hypothesis kw_no_bracket : no_bracket kw'.
Hypothesis kw_lower : map to_lower kw' = kw'.

Let kw := chr_lbracket :: kw'.

Lemma tag_date_iff (s d rest : str) :
  tag_date kw s = Some (d, rest) <->
  exists k, s = k ++ d ++ chr_rbracket :: rest /\
            map to_lower k = kw /\ is_date d.
Proof.
  unfold tag_date, bind. split.
  - destruct (lit_i kw s) as [s1|] eqn:E1; [|discriminate].
    destruct (date_lit s1) as [[n s2]|] eqn:E2; [|discriminate].
    destruct (lit (u "]") s2) as [s3|] eqn:E3; [|discriminate].
    intros H; injection H as <- <-.
    apply lit_i_iff in E1 as (k & -> & Hk).
    apply date_lit_Some in E2 as (-> & _ & Hd).
    apply lit_Some in E3. subst s2.
    exists k. split; [reflexivity|]. split; [exact Hk|].
    unfold is_date. rewrite <- (app_nil_r n) at 1. apply Hd.
  - intros (k & -> & Hk & Hd).
    assert (E1 : lit_i kw (k ++ d ++ chr_rbracket :: rest)
                 = Some (d ++ chr_rbracket :: rest))
      by (apply lit_i_iff; exists k; auto).
    rewrite E1, (is_date_read d _ Hd). reflexivity.
Qed.

Lemma tag_date_token (s d rest : str) :
  tag_date kw s = Some (d, rest) ->
  exists body, s = chr_lbracket :: body ++ chr_rbracket :: rest /\ no_bracket body.
Proof.
  intros H. apply tag_date_iff in H as (k & -> & Hk & Hd).
  destruct k as [|x k]; [discriminate|]. subst kw. simpl in Hk.
  injection Hk as Hx Hk. apply to_lower_bracket in Hx. subst x.
  exists (k ++ d). split.
  - simpl. rewrite <- app_assoc. reflexivity.
  - apply no_bracket_app.
    + apply map_to_lower_no_bracket. rewrite Hk. exact kw_no_bracket.
    + apply (date_lit_Some _ _ _ Hd).
Qed.

Lemma tag_date_ext (body d rest rest' : str) :
  tag_date kw (chr_lbracket :: body ++ chr_rbracket :: rest) = Some (d, rest) ->
  tag_date kw (chr_lbracket :: body ++ chr_rbracket :: rest') = Some (d, rest').
Proof.
  intros H. apply tag_date_iff in H as (k & Hs & Hk & Hc).
  apply tag_date_iff. exists k. split; [|split; [exact Hk|exact Hc]].
  change (chr_lbracket :: body ++ chr_rbracket :: rest)
    with ((chr_lbracket :: body) ++ chr_rbracket :: rest) in Hs.
  rewrite app_assoc in Hs. apply app_inv_tail in Hs.
  change (chr_lbracket :: body ++ chr_rbracket :: rest')
    with ((chr_lbracket :: body) ++ chr_rbracket :: rest').
  rewrite Hs, <- app_assoc. reflexivity.
Qed.

Lemma tag_date_written (d z : str) :
  is_date d -> tag_date kw (kw ++ d ++ chr_rbracket :: z) = Some (d, z).
Proof.
  intros Hd. apply tag_date_iff. exists kw.
  split; [reflexivity|]. split; [|exact Hd].
  subst kw. simpl. rewrite kw_lower. reflexivity.
Qed.

End TagDate.

Lemma last_done_keyword_no_bracket : no_bracket (u "last-done::").
Proof. apply no_bracket_forallb. reflexivity. Qed.

(** The [last-done] that a completion appends to a line that is left without
    one is what is read back, whatever is written after it. *)
Lemma last_done_written_read_back (base d z : str) :
  is_date d -> search re_last_done base = None ->
  capture re_last_done (base ++ u " [last-done::" ++ d ++ u "]" ++ z) = Some d.
Proof.
  intros Hd Hn. unfold capture.
  change (base ++ u " [last-done::" ++ d ++ u "]" ++ z)
    with (base ++ chr_space :: chr_lbracket
               :: (u "last-done::" ++ d ++ chr_rbracket :: z)).
  rewrite (search_appended_token re_last_done
             (tag_date_token _ last_done_keyword_no_bracket)
             (tag_date_ext _) base _ d z Hn); [reflexivity|].
  apply (tag_date_written (u "last-done::") eq_refl d z Hd).
Qed.

(** X17.  After a habit completion that passes its check, the line that is
    written is read back as done today, with or without streak tracking,
    provided the date of today has the form of a date and the line, once its
    old properties are removed, has no [last-done] annotation left. *)
Theorem completed_habit_reads_done_today
  (e : bool) (c : clock) (v : vault) (path orig text ln : str) (n : Z) :
  v path = Some text ->
  line_at (split_lines text) (n - 1) = Some ln -> ln <> [] ->
  trim ln = trim orig ->
  is_date (today c) ->
  search re_last_done (without_old_properties ln) = None ->
  exists newLine msg task',
    _markHabitTaskDoneWithDate e c v path n orig
      = Written (join_lines (set_line (split_lines text) (n - 1) newLine)) msg /\
    parseTask newLine path n = Some task' /\
    lastDoneDate task' = Some (today c).
Proof.
  intros Hv Hl Hne Heq Hd Hn.
  assert (Hread : forall z,
    exists task', parseTask (with_last_done c ln ++ z) path n = Some task' /\
                  lastDoneDate task' = Some (today c)).
  { intros z.
    destruct (parseTask (with_last_done c ln ++ z) path n) as [task'|] eqn:Ep;
      [|destruct (parseTask_never_absent _ _ _ Ep)].
    exists task'. split; [reflexivity|].
    apply parseTask_streak_fields in Ep as (-> & _).
    unfold with_last_done. fold (without_old_properties ln).
    repeat (rewrite <- app_assoc; cbn [app]).
    apply (last_done_written_read_back (without_old_properties ln) (today c) z Hd Hn). }
  unfold _markHabitTaskDoneWithDate.
  rewrite Hv, Hl, (truthy_nonempty ln Hne).
  apply str_eqb_eq in Heq. rewrite Heq. simpl andb. cbv iota.
  assert (Hplain : exists task',
    parseTask (with_last_done c ln) path n = Some task' /\
    lastDoneDate task' = Some (today c)).
  { destruct (Hread []) as (t & Ht & Hdone). rewrite app_nil_r in Ht. eauto. }
  destruct Hplain as (t0 & Ht0 & Hdone0).
  destruct e.
  - destruct (parseTask ln path n) as [task|] eqn:Ep;
      [|destruct (parseTask_never_absent _ _ _ Ep)].
    destruct (shouldUpdate _).
    + unfold with_streak.
      destruct (Hread (u " [streak::" ++ show (newStreak
                   (calculateStreakFromDates c (lastDoneDate task)
                      (lastStreakDate task) (or_zero (currentStreak task))))
                 ++ u "]" ++ u " [max-streak::"
                 ++ show (Z.max (newStreak
                   (calculateStreakFromDates c (lastDoneDate task)
                      (lastStreakDate task) (or_zero (currentStreak task))))
                   (or_zero (maxStreak task)))
                 ++ u "]" ++ u " [last-streak-date::" ++ today c ++ u "]"))
        as (t & Ht & Hdone).
      eexists _, _, t. split; [reflexivity|]. split; [exact Ht|exact Hdone].
    + eexists _, _, t0. split; [reflexivity|]. split; [exact Ht0|exact Hdone0].
  - eexists _, _, t0. split; [reflexivity|]. split; [exact Ht0|exact Hdone0].
Qed.

Lemma completed_habit_reads_done_today_witness :
  let c := {| today := u "2025-06-08"; yesterday := u "2025-06-07" |} in
  let ln := u "- [ ] Meditate [habit::daily] [last-done::2025-06-01]" in
  let v := fun _ : str => Some ln in
  exists newLine msg task',
    _markHabitTaskDoneWithDate true c v (u "habits.md") 1 ln
      = Written (join_lines (set_line (split_lines ln) (1 - 1) newLine)) msg /\
    parseTask newLine (u "habits.md") 1 = Some task' /\
    lastDoneDate task' = Some (today c).
Proof.
  intros c ln v.
  apply (completed_habit_reads_done_today true c v (u "habits.md") ln ln ln 1).
  - reflexivity.
  - reflexivity.
  - discriminate.
  - reflexivity.
  - reflexivity.
  - reflexivity.
Defined.

(** ** Replacing every match *)

Section ReplaceAll.

Context {A : Type}.
Variable m : str -> option (A * str).
Variable f : A -> str.

Hypothesis m_token : forall s a rest,
  m s = Some (a, rest) ->
  exists body, s = chr_lbracket :: body ++ chr_rbracket :: rest /\ no_bracket body.

Hypothesis m_ext : forall body a rest rest',
  m (chr_lbracket :: body ++ chr_rbracket :: rest) = Some (a, rest) ->
  m (chr_lbracket :: body ++ chr_rbracket :: rest') = Some (a, rest').

Lemma m_consumes (s : str) (a : A) (rest : str) :
  m s = Some (a, rest) -> (length rest < length s)%nat.
Proof.
  intros H. destruct (m_token _ _ _ H) as (body & -> & _).
  simpl. rewrite length_app. simpl. lia.
Qed.

Lemma replace_all_fuel_enough (k1 k2 : nat) (s : str) :
  (length s < k1)%nat -> (length s < k2)%nat ->
  replace_all_fuel m f k1 s = replace_all_fuel m f k2 s.
Proof.
  revert k2 s. induction k1 as [|k1 IH]; intros k2 s H1 H2; [lia|].
  destruct k2 as [|k2]; [lia|]. simpl.
  destruct (m s) as [[a rest]|] eqn:E.
  - apply m_consumes in E. f_equal. apply IH; lia.
  - destruct s as [|c s]; [reflexivity|]. simpl in H1, H2. f_equal. apply IH; lia.
Qed.

Lemma replace_all_fuel_S (k : nat) (s : str) :
  replace_all_fuel m f (S k) s =
  match m s with
  | Some (a, rest) => f a ++ replace_all_fuel m f k rest
  | None =>
      match s with
      | [] => []
      | c :: s' => c :: replace_all_fuel m f k s'
      end
  end.
Proof. reflexivity. Qed.

Lemma replace_all_match (s : str) (a : A) (rest : str) :
  m s = Some (a, rest) -> replace_all m f s = f a ++ replace_all m f rest.
Proof.
  intros E. unfold replace_all. rewrite replace_all_fuel_S, E. f_equal.
  apply m_consumes in E. apply replace_all_fuel_enough; lia.
Qed.

Lemma replace_all_cons (c : N) (s : str) :
  m (c :: s) = None -> replace_all m f (c :: s) = c :: replace_all m f s.
Proof.
  intros E. unfold replace_all. rewrite replace_all_fuel_S, E. reflexivity.
Qed.

Lemma replace_all_nil : replace_all m f [] = [].
Proof.
  unfold replace_all. rewrite replace_all_fuel_S.
  destruct (m []) as [[a rest]|] eqn:E; [|reflexivity].
  apply m_consumes in E. simpl in E. lia.
Qed.

Lemma replace_all_none (s : str) :
  search m s = None -> replace_all m f s = s.
Proof.
  induction s as [|c s IH]; intros H; [apply replace_all_nil|].
  simpl in H. destruct (m (c :: s)) as [[a rest]|] eqn:E; [discriminate|].
  destruct (search m s) as [[[p a] r]|] eqn:Es; [discriminate|].
  rewrite (replace_all_cons _ _ E), IH; reflexivity.
Qed.

Lemma replace_all_first (s pre : str) (a : A) (rest : str) :
  search m s = Some (pre, a, rest) ->
  replace_all m f s = pre ++ f a ++ replace_all m f rest.
Proof.
  revert pre. induction s as [|c s IH]; intros pre H; simpl in H.
  - destruct (m []) as [[a' r']|] eqn:E; [|discriminate].
    injection H as <- <- <-. apply (replace_all_match _ _ _ E).
  - destruct (m (c :: s)) as [[a' r']|] eqn:E.
    + injection H as <- <- <-. apply (replace_all_match _ _ _ E).
    + destruct (search m s) as [[[p a'] r']|] eqn:Es; [|discriminate].
      injection H as <- <- <-.
      rewrite (replace_all_cons _ _ E), (IH p eq_refl). reflexivity.
Qed.

Lemma replace_all_edited (s : str) :
  edited (fun t => exists a, m t = Some (a, [])) (fun t' => exists a, t' = f a)
    s (replace_all m f s).
Proof.
  assert (H : forall n s, (length s < n)%nat ->
    edited (fun t => exists a, m t = Some (a, [])) (fun t' => exists a, t' = f a)
      s (replace_all m f s)).
  { clear s. induction n as [|n IH]; intros s Hn; [lia|].
    destruct (m s) as [[a rest]|] eqn:E.
    - rewrite (replace_all_match _ _ _ E).
      pose proof (m_consumes _ _ _ E) as Hc.
      destruct (m_token _ _ _ E) as (body & Hs & Hb).
      assert (Ht : s = (chr_lbracket :: body ++ [chr_rbracket]) ++ rest).
      { rewrite Hs. simpl. rewrite <- app_assoc. reflexivity. }
      rewrite Ht at 1. apply edited_token.
      + exists a. rewrite Hs in E. apply (m_ext _ _ _ [] E).
      + exists a. reflexivity.
      + apply IH. lia.
    - destruct s as [|c s].
      + rewrite replace_all_nil. constructor.
      + rewrite (replace_all_cons _ _ E). constructor. apply IH. simpl in Hn. lia. }
  apply (H (S (length s))). lia.
Qed.

End ReplaceAll.

(** ** What an edit of tokens does not change *)

Lemma edited_common (Old New : str -> Prop) (s s' : str) :
  (forall t, Old t -> is_token t) -> (forall t, New t -> is_token t) ->
  edited Old New s s' ->
  exists b x y, s = b ++ x /\ s' = b ++ y /\ boundary x /\ boundary y.
Proof.
  intros HO HN H. induction H as [|c s s' _ (b & x & y & -> & -> & Hx & Hy)|t t' s s' Ht Ht' _ _].
  - exists [], [], []. repeat split; left; reflexivity.
  - exists (c :: b), x, y. auto.
  - destruct (HO _ Ht) as (body & -> & _). destruct (HN _ Ht') as (body' & -> & _).
    exists [], ((chr_lbracket :: body ++ [chr_rbracket]) ++ s),
      ((chr_lbracket :: body' ++ [chr_rbracket]) ++ s').
    repeat split; right; eexists; reflexivity.
Qed.

Section LocalMatcher.

Context {A : Type}.
Variable m : str -> option (A * str).
Variables Old New : str -> Prop.

Hypothesis Old_token : forall t, Old t -> is_token t.
Hypothesis New_token : forall t, New t -> is_token t.

Hypothesis m_start : forall c s, c <> chr_lbracket -> m (c :: s) = None.
Hypothesis m_loc : forall b x y, boundary x -> boundary y ->
  head_capture m (chr_lbracket :: b ++ x) = head_capture m (chr_lbracket :: b ++ y).
Hypothesis m_edit : forall t t' x y, Old t -> New t' ->
  head_capture m (t ++ x) = head_capture m (t' ++ y).

Lemma capture_cons (c : N) (s : str) :
  capture m (c :: s) =
  match head_capture m (c :: s) with
  | Some a => Some a
  | None => capture m s
  end.
Proof.
  unfold capture, head_capture. simpl.
  destruct (m (c :: s)) as [[a r]|]; [reflexivity|].
  destruct (search m s) as [[[p a] r]|]; reflexivity.
Qed.

Lemma capture_skip (x s : str) :
  Forall (fun c => c <> chr_lbracket) x -> capture m (x ++ s) = capture m s.
Proof.
  induction 1 as [|c x Hc _ IH]; [reflexivity|].
  simpl. rewrite capture_cons. unfold head_capture.
  rewrite (m_start c _ Hc). exact IH.
Qed.

Lemma capture_token (t s : str) :
  is_token t ->
  capture m (t ++ s) =
  match head_capture m (t ++ s) with
  | Some a => Some a
  | None => capture m s
  end.
Proof.
  intros (body & -> & Hb). cbn [app]. rewrite capture_cons.
  destruct (head_capture m _); [reflexivity|].
  rewrite <- app_assoc. rewrite capture_skip.
  - cbn [app]. apply (capture_skip [chr_rbracket]). repeat constructor. discriminate.
  - eapply Forall_impl; [|exact Hb]. intros c [Hc _]. exact Hc.
Qed.

Lemma capture_edited (s s' : str) :
  edited Old New s s' -> capture m s = capture m s'.
Proof.
  induction 1 as [|c s s' He IH|t t' s s' Ht Ht' He IH].
  - reflexivity.
  - rewrite !capture_cons, IH.
    assert (Hh : head_capture m (c :: s) = head_capture m (c :: s')).
    { destruct (N.eq_dec c chr_lbracket) as [->|Hc].
      - destruct (edited_common Old New s s' Old_token New_token He)
          as (b & x & y & -> & -> & Hx & Hy).
        apply m_loc; assumption.
      - unfold head_capture. rewrite !(m_start c _ Hc). reflexivity. }
    rewrite Hh. reflexivity.
  - rewrite (capture_token t s (Old_token _ Ht)), (capture_token t' s' (New_token _ Ht')).
    rewrite (m_edit t t' s s' Ht Ht'), IH. reflexivity.
Qed.

Lemma test_edited (s s' : str) :
  edited Old New s s' -> test m s = test m s'.
Proof.
  intros H. apply capture_edited in H. unfold capture, test in *.
  destruct (search m s) as [[[p a] r]|], (search m s') as [[[p' a'] r']|];
    try reflexivity; discriminate.
Qed.

End LocalMatcher.

(** ** The level tags *)

Lemma lit_i_cons (x : N) (p : str) (c : N) (s : str) :
  lit_i (x :: p) (c :: s) = if N.eqb x (to_lower c) then lit_i p s else None.
Proof. reflexivity. Qed.

Lemma to_lower_cases (c : N) :
  to_lower c = c \/ (to_lower c = c + 32 /\ 65 <= c <= 90)%N.
Proof.
  unfold to_lower. destruct (N.leb 65 c && N.leb c 90)%N eqn:E; [|auto].
  apply andb_true_iff in E as [E1 E2]. apply N.leb_le in E1, E2. right. lia.
Qed.

Lemma to_lower_ascii (c : N) : (to_lower c < 128)%N -> (c < 128)%N.
Proof. destruct (to_lower_cases c) as [->|[-> _]]; lia. Qed.

Lemma map_to_lower_ascii (k : str) :
  Forall (fun c => (c < 128)%N) (map to_lower k) -> Forall (fun c => (c < 128)%N) k.
Proof.
  induction k as [|c k IH]; simpl; intros H; [constructor|].
  inversion H as [|? ? Hc Hk]; subst. constructor; [|apply IH; exact Hk].
  apply to_lower_ascii. exact Hc.
Qed.

Lemma level_word_head (w : str) (v : level) :
  map to_lower w = level_text v ->
  exists c w', w = c :: w' /\ is_space c = false /\ c <> chr_lbracket /\
    (to_lower c = 104%N <-> v = high).
Proof.
  intros H. destruct w as [|c w']; [destruct v; discriminate|].
  exists c, w'. split; [reflexivity|].
  assert (Hc : to_lower c = 104%N /\ v = high \/ to_lower c = 108%N /\ v = low).
  { destruct v; simpl in H; injection H as H _; auto. }
  assert (Hv : (c = 104 \/ c = 72 \/ c = 108 \/ c = 76)%N).
  { destruct (to_lower_cases c) as [E|[E _]]; destruct Hc as [[Hc _]|[Hc _]]; lia. }
  split; [|split].
  - destruct Hv as [-> | [-> | [-> | ->]]]; reflexivity.
  - unfold chr_lbracket. lia.
  - destruct Hc as [[Hc ->]|[Hc ->]]; split; auto; try discriminate.
    rewrite Hc. discriminate.
Qed.

Section TagLevel.

Variable kw' : str.
Hypothesis kw_no_bracket : no_bracket kw'.
Hypothesis kw_lower : map to_lower kw' = kw'.
Hypothesis kw_ascii : Forall (fun c => (c < 128)%N) kw'.

Let kw := chr_lbracket :: kw'.

Lemma tag_level_iff (s : str) (v : level) (rest : str) :
  tag_level kw s = Some (v, rest) <->
  exists k sp w, s = k ++ sp ++ w ++ chr_rbracket :: rest /\
    map to_lower k = kw /\ Forall (fun c => is_space c = true) sp /\
    map to_lower w = level_text v.
Proof.
  unfold tag_level, bind. split.
  - destruct (lit_i kw s) as [s1|] eqn:E1; [|discriminate].
    apply lit_i_iff in E1 as (k & -> & Hk).
    unfold skip_spaces. destruct (span is_space s1) as [sp r1] eqn:E2.
    apply span_spec in E2 as (-> & Hsp & _). cbn [snd].
    destruct (alt_level r1) as [[v' s2]|] eqn:E3; [|discriminate].
    destruct (lit (u "]") s2) as [s3|] eqn:E4; [|discriminate].
    intros H; injection H as <- <-. apply lit_Some in E4. subst s2.
    unfold alt_level in E3.
    destruct (lit_i (u "high") r1) as [r2|] eqn:Eh.
    + injection E3 as <- ->. apply lit_i_iff in Eh as (w & -> & Hw).
      exists k, sp, w. auto.
    + destruct (lit_i (u "low") r1) as [r2|] eqn:El; [|discriminate].
      injection E3 as <- ->. apply lit_i_iff in El as (w & -> & Hw).
      exists k, sp, w. auto.
  - intros (k & sp & w & -> & Hk & Hsp & Hw).
    assert (E1 : lit_i kw (k ++ sp ++ w ++ chr_rbracket :: rest)
                 = Some (sp ++ w ++ chr_rbracket :: rest))
      by (apply lit_i_iff; exists k; auto).
    rewrite E1.
    destruct (level_word_head w v Hw) as (c & w' & -> & Hc & _ & Hh).
    assert (E2 : span is_space (sp ++ (c :: w') ++ chr_rbracket :: rest)
                 = (sp, (c :: w') ++ chr_rbracket :: rest)).
    { apply span_spec. split; [reflexivity|]. split; [exact Hsp|exact Hc]. }
    unfold skip_spaces. rewrite E2. cbn [snd].
    assert (E3 : alt_level ((c :: w') ++ chr_rbracket :: rest)
                 = Some (v, chr_rbracket :: rest)).
    { unfold alt_level. destruct v.
      - assert (E : lit_i (u "high") ((c :: w') ++ chr_rbracket :: rest)
                    = Some (chr_rbracket :: rest))
          by (apply lit_i_iff; exists (c :: w'); auto).
        rewrite E. reflexivity.
      - assert (E : lit_i (u "high") ((c :: w') ++ chr_rbracket :: rest) = None).
        { change (u "high") with (104%N :: u "igh"). cbn [app].
          rewrite lit_i_cons.
          destruct (N.eqb 104 (to_lower c)) eqn:Ec; [|reflexivity].
          apply N.eqb_eq in Ec. symmetry in Ec. apply Hh in Ec. discriminate. }
        rewrite E.
        assert (E' : lit_i (u "low") ((c :: w') ++ chr_rbracket :: rest)
                     = Some (chr_rbracket :: rest))
          by (apply lit_i_iff; exists (c :: w'); auto).
        rewrite E'. reflexivity. }
    rewrite E3. reflexivity.
Qed.

Lemma space_no_bracket (sp : str) :
  Forall (fun c => is_space c = true) sp -> no_bracket sp.
Proof.
  intros H. eapply Forall_impl; [|exact H]. intros c Hc.
  split; intros ->; discriminate.
Qed.

Lemma level_word_no_bracket (w : str) (v : level) :
  map to_lower w = level_text v -> no_bracket w.
Proof.
  intros H. apply map_to_lower_no_bracket. rewrite H.
  apply no_bracket_forallb. destruct v; reflexivity.
Qed.

Lemma tag_level_token (s : str) (v : level) (rest : str) :
  tag_level kw s = Some (v, rest) ->
  exists body, s = chr_lbracket :: body ++ chr_rbracket :: rest /\ no_bracket body.
Proof.
  intros H. apply tag_level_iff in H as (k & sp & w & -> & Hk & Hsp & Hw).
  destruct k as [|x k]; [discriminate|]. subst kw. simpl in Hk.
  injection Hk as Hx Hk. apply to_lower_bracket in Hx. subst x.
  exists (k ++ sp ++ w). split.
  - simpl. rewrite <- !app_assoc. reflexivity.
  - apply no_bracket_app; [|apply no_bracket_app].
    + apply map_to_lower_no_bracket. rewrite Hk. exact kw_no_bracket.
    + apply space_no_bracket. exact Hsp.
    + apply (level_word_no_bracket w v Hw).
Qed.

Lemma tag_level_ext (body : str) (v : level) (rest rest' : str) :
  tag_level kw (chr_lbracket :: body ++ chr_rbracket :: rest) = Some (v, rest) ->
  tag_level kw (chr_lbracket :: body ++ chr_rbracket :: rest') = Some (v, rest').
Proof.
  intros H. apply tag_level_iff in H as (k & sp & w & Hs & Hk & Hsp & Hw).
  apply tag_level_iff. exists k, sp, w. split; [|auto].
  change (chr_lbracket :: body ++ chr_rbracket :: rest)
    with ((chr_lbracket :: body) ++ chr_rbracket :: rest) in Hs.
  replace (k ++ sp ++ w ++ chr_rbracket :: rest)
    with ((k ++ sp ++ w) ++ chr_rbracket :: rest) in Hs
    by (rewrite <- !app_assoc; reflexivity).
  apply app_inv_tail in Hs.
  change (chr_lbracket :: body ++ chr_rbracket :: rest')
    with ((chr_lbracket :: body) ++ chr_rbracket :: rest').
  rewrite Hs, <- !app_assoc. reflexivity.
Qed.

Lemma tag_level_written (v : level) (z : str) :
  tag_level kw (kw ++ level_text v ++ chr_rbracket :: z) = Some (v, z).
Proof.
  apply tag_level_iff. exists kw, [], (level_text v).
  split; [reflexivity|]. split; [|split; [constructor|]].
  - subst kw. simpl. rewrite kw_lower. reflexivity.
  - destruct v; reflexivity.
Qed.

Lemma tag_level_chars (t : str) (v : level) :
  tag_level kw t = Some (v, []) -> Forall tag_char t.
Proof.
  intros H. apply tag_level_iff in H as (k & sp & w & -> & Hk & Hsp & Hw).
  apply Forall_app. split; [|apply Forall_app; split; [|apply Forall_app; split]].
  - assert (Hk' : Forall (fun c => (c < 128)%N) k).
    { apply map_to_lower_ascii. rewrite Hk. subst kw.
      constructor; [unfold chr_lbracket; lia|exact kw_ascii]. }
    eapply Forall_impl; [|exact Hk']. intros c Hc. left. exact Hc.
  - eapply Forall_impl; [|exact Hsp]. intros c Hc. right. exact Hc.
  - assert (Hw' : Forall (fun c => (c < 128)%N) w).
    { apply map_to_lower_ascii. rewrite Hw.
      destruct v; repeat constructor. }
    eapply Forall_impl; [|exact Hw']. intros c Hc. left. exact Hc.
  - repeat constructor.
Qed.

End TagLevel.

(** ** Literals that the tokens do not touch *)

Lemma test_lit_cons (p : str) (c : N) (s : str) :
  test (m_lit p) (c :: s) =
  match lit p (c :: s) with Some _ => true | None => test (m_lit p) s end.
Proof.
  unfold test, m_lit. simpl search.
  destruct (lit p (c :: s)); [reflexivity|].
  destruct (search _ s) as [[[q a] r]|]; reflexivity.
Qed.

Lemma lit_cons (x : N) (p : str) (c : N) (s : str) :
  lit (x :: p) (c :: s) = if N.eqb x c then lit p s else None.
Proof. reflexivity. Qed.

Lemma test_lit_skip (x : N) (p t s : str) :
  Forall (fun c => c <> x) t ->
  test (m_lit (x :: p)) (t ++ s) = test (m_lit (x :: p)) s.
Proof.
  induction 1 as [|c t Hc _ IH]; [reflexivity|].
  cbn [app]. rewrite test_lit_cons, lit_cons.
  destruct (N.eqb x c) eqn:E; [apply N.eqb_eq in E; congruence|exact IH].
Qed.

Lemma test_lit_app (p s z : str) :
  p <> [] -> Forall (fun c => ~ In c p) z ->
  test (m_lit p) (s ++ z) = test (m_lit p) s.
Proof.
  intros Hp Hz.
  assert (Hl : forall q s, q <> [] -> incl q p ->
            (lit q (s ++ z) = None <-> lit q s = None)).
  { induction q as [|x q IHq]; intros s0 Hq Hi; [contradiction|].
    destruct s0 as [|c s0].
    - split; [reflexivity|]. intros _. simpl. destruct z as [|d z']; [reflexivity|].
      destruct (N.eqb x d) eqn:E; [|reflexivity].
      apply N.eqb_eq in E. subst d. inversion Hz as [|? ? Hd _]; subst.
      exfalso. apply Hd. apply Hi. left. reflexivity.
    - cbn [app]. rewrite !lit_cons. destruct (N.eqb x c); [|tauto].
      destruct q as [|y q]; [simpl; split; discriminate|].
      apply IHq; [discriminate|]. intros a Ha. apply Hi. right. exact Ha. }
  destruct p as [|x p]; [contradiction|].
  induction s as [|c s IH].
  - simpl app. transitivity false.
    + rewrite <- (app_nil_r z). rewrite test_lit_skip; [|].
      * unfold test, m_lit. simpl. reflexivity.
      * eapply Forall_impl; [|exact Hz]. intros a Ha ->. apply Ha. left. reflexivity.
    + unfold test, m_lit. simpl. reflexivity.
  - cbn [app]. rewrite !test_lit_cons, IH.
    destruct (lit (x :: p) (c :: s)) eqn:E1, (lit (x :: p) (c :: s ++ z)) eqn:E2;
      try reflexivity.
    + apply (Hl (x :: p) (c :: s)) in E2; [congruence|discriminate|apply incl_refl].
    + assert (E3 : lit (x :: p) ((c :: s) ++ z) = None)
        by (apply Hl; [discriminate|apply incl_refl|exact E1]).
      simpl in E3. simpl in E2. congruence.
Qed.

Section ForeignLiteral.

Variables Old New : str -> Prop.
Variable x : N.
Variable p : str.

Hypothesis Old_token : forall t, Old t -> is_token t.
Hypothesis New_token : forall t, New t -> is_token t.
Hypothesis Old_chars : forall t, Old t -> Forall (fun c => c <> x) t.
Hypothesis New_chars : forall t, New t -> Forall (fun c => c <> x) t.
Hypothesis p_no_lbracket : Forall (fun c => c <> chr_lbracket) (x :: p).

Lemma lit_edited (q s s' : str) :
  Forall (fun c => c <> chr_lbracket) q ->
  edited Old New s s' -> (lit q s = None <-> lit q s' = None).
Proof.
  intros Hq. revert s s'. induction Hq as [|c q Hc _ IH]; intros s s' H.
  - simpl. split; discriminate.
  - destruct H as [|d s s' H|t t' s s' Ht Ht' H].
    + tauto.
    + rewrite !lit_cons. destruct (N.eqb c d); [apply IH; exact H|tauto].
    + destruct (Old_token _ Ht) as (b & -> & _).
      destruct (New_token _ Ht') as (b' & -> & _).
      cbn [app]. rewrite !lit_cons.
      destruct (N.eqb c chr_lbracket) eqn:E; [|tauto].
      apply N.eqb_eq in E. contradiction.
Qed.

Lemma test_lit_edited (s s' : str) :
  edited Old New s s' -> test (m_lit (x :: p)) s = test (m_lit (x :: p)) s'.
Proof.
  induction 1 as [|c s s' He IH|t t' s s' Ht Ht' He IH].
  - reflexivity.
  - rewrite !test_lit_cons, IH.
    assert (H : edited Old New (c :: s) (c :: s')) by (constructor; exact He).
    apply (lit_edited (x :: p) _ _ p_no_lbracket) in H.
    destruct (lit (x :: p) (c :: s)), (lit (x :: p) (c :: s')); try reflexivity.
    + destruct H as [_ H]. discriminate (H eq_refl).
    + destruct H as [H _]. discriminate (H eq_refl).
  - rewrite (test_lit_skip x p t s (Old_chars _ Ht)).
    rewrite (test_lit_skip x p t' s' (New_chars _ Ht')). exact IH.
Qed.

End ForeignLiteral.

(** ** Matchers that see one token *)

Section TokenLocal.

Context {A : Type}.
Variable m : str -> option (A * str).

Hypothesis m_token : forall s a rest,
  m s = Some (a, rest) ->
  exists body, s = chr_lbracket :: body ++ chr_rbracket :: rest /\ no_bracket body.

Hypothesis m_ext : forall body a rest rest',
  m (chr_lbracket :: body ++ chr_rbracket :: rest) = Some (a, rest) ->
  m (chr_lbracket :: body ++ chr_rbracket :: rest') = Some (a, rest').

Lemma token_within (b x : str) (a : A) (r : str) :
  boundary x -> m (chr_lbracket :: b ++ x) = Some (a, r) ->
  forall y, head_capture m (chr_lbracket :: b ++ y) = Some a.
Proof.
  intros Hx E y. destruct (m_token _ _ _ E) as (body & Hs & Hb).
  injection Hs as Hs.
  assert (Hb2 : exists b2, b = body ++ chr_rbracket :: b2).
  { apply app_eq_app in Hs as [l [[-> Hl]|[-> Hl]]].
    - destruct l as [|c l].
      + simpl in Hl. destruct Hx as [->|(x0 & ->)]; discriminate.
      + injection Hl as -> _. exists l. reflexivity.
    - destruct l as [|c l].
      + simpl in Hl. destruct Hx as [->|(x0 & ->)]; discriminate.
      + exfalso. destruct Hx as [->|(x0 & ->)]; [discriminate|].
        injection Hl as <- _. apply Forall_app in Hb as [_ Hb].
        inversion Hb as [|? ? [Hc _] _]. apply Hc. reflexivity. }
  destruct Hb2 as (b2 & ->). rewrite <- app_assoc in E. cbn [app] in E.
  assert (Er : r = b2 ++ x).
  { rewrite <- app_assoc in Hs. cbn [app] in Hs.
    apply app_inv_head in Hs. injection Hs as Hs. symmetry. exact Hs. }
  subst r. unfold head_capture. rewrite <- app_assoc. cbn [app].
  rewrite (m_ext body a _ (b2 ++ y) E). reflexivity.
Qed.

Lemma token_local (b x y : str) :
  boundary x -> boundary y ->
  head_capture m (chr_lbracket :: b ++ x) = head_capture m (chr_lbracket :: b ++ y).
Proof.
  intros Hx Hy.
  destruct (m (chr_lbracket :: b ++ x)) as [[a r]|] eqn:Ex.
  - rewrite (token_within b x a r Hx Ex y).
    unfold head_capture. rewrite Ex. reflexivity.
  - destruct (m (chr_lbracket :: b ++ y)) as [[a r]|] eqn:Ey.
    + pose proof (token_within b y a r Hy Ey x) as H.
      unfold head_capture in H. rewrite Ex in H. discriminate.
    + unfold head_capture. rewrite Ex, Ey. reflexivity.
Qed.

Lemma capture_some_app (s : str) (a : A) (t : str) :
  capture m s = Some a -> capture m (s ++ t) = Some a.
Proof.
  unfold capture at 1.
  destruct (search m s) as [[[pre a0] z]|] eqn:H; [|discriminate].
  intros E; injection E as ->.
  destruct (search_first_token m m_token m_ext _ _ _ _ H)
    as (body & Hb & -> & Hz).
  unfold capture. rewrite <- app_assoc. cbn [app]. rewrite <- app_assoc. cbn [app].
  rewrite Hz. reflexivity.
Qed.

End TokenLocal.

(** ** The opening of a tag *)

Section TagPrefix.

Variable kw' : str.
Hypothesis kw_no_bracket : no_bracket kw'.
Hypothesis kw_no_space : Forall (fun c => c <> chr_space) kw'.

Let kw := chr_lbracket :: kw'.

Lemma prefix_start (c : N) (s : str) :
  c <> chr_lbracket -> m_lit_i kw (c :: s) = None.
Proof.
  intros Hc. unfold m_lit_i. subst kw. rewrite lit_i_cons.
  destruct (N.eqb chr_lbracket (to_lower c)) eqn:E; [|reflexivity].
  apply N.eqb_eq in E. symmetry in E. apply to_lower_bracket in E. contradiction.
Qed.

Lemma lit_i_boundary (q b x y : str) :
  no_bracket q -> boundary x -> boundary y ->
  (lit_i q (b ++ x) = None <-> lit_i q (b ++ y) = None).
Proof.
  intros Hq Hx Hy. revert b. induction Hq as [|c q [Hc1 Hc2] _ IH]; intros b.
  - simpl. split; discriminate.
  - destruct b as [|d b].
    + simpl app.
      assert (H : forall z, boundary z -> lit_i (c :: q) z = None).
      { intros z [->|(z0 & ->)]; [reflexivity|]. rewrite lit_i_cons.
        destruct (N.eqb c (to_lower chr_lbracket)) eqn:E; [|reflexivity].
        apply N.eqb_eq in E. contradiction. }
      rewrite (H x Hx), (H y Hy). tauto.
    + cbn [app]. rewrite !lit_i_cons. destruct (N.eqb c (to_lower d)); [apply IH|tauto].
Qed.

Lemma prefix_local (b x y : str) :
  boundary x -> boundary y ->
  head_capture (m_lit_i kw) (chr_lbracket :: b ++ x)
  = head_capture (m_lit_i kw) (chr_lbracket :: b ++ y).
Proof.
  intros Hx Hy. unfold head_capture, m_lit_i. subst kw. rewrite !lit_i_cons.
  destruct (N.eqb chr_lbracket (to_lower chr_lbracket)); [|reflexivity].
  pose proof (lit_i_boundary kw' b x y kw_no_bracket Hx Hy) as H.
  destruct (lit_i kw' (b ++ x)), (lit_i kw' (b ++ y)); try reflexivity.
  - destruct H as [_ H]. discriminate (H eq_refl).
  - destruct H as [H _]. discriminate (H eq_refl).
Qed.

(** Nothing that opens the tag starts in a text that is followed by a space. *)
Lemma prefix_none_app_space (s z : str) :
  test (m_lit_i kw) s = false -> test (m_lit_i kw) (chr_space :: z) = false ->
  test (m_lit_i kw) (s ++ chr_space :: z) = false.
Proof.
  intros Hs Hz.
  assert (Hl : forall q b, Forall (fun c => c <> chr_space) q ->
            lit_i q b = None -> lit_i q (b ++ chr_space :: z) = None).
  { intros q b Hq. revert b. induction Hq as [|c q Hc _ IH]; intros b.
    - discriminate.
    - destruct b as [|d b].
      + intros _. cbn [app]. rewrite lit_i_cons.
        destruct (N.eqb c (to_lower chr_space)) eqn:E; [|reflexivity].
        apply N.eqb_eq in E. contradiction.
      + cbn [app]. rewrite !lit_i_cons. destruct (N.eqb c (to_lower d)); [apply IH|auto]. }
  induction s as [|c s IH]; [exact Hz|].
  unfold test in Hs |- *. cbn [app]. simpl search in Hs |- *.
  unfold m_lit_i at 1 in Hs. unfold m_lit_i at 1.
  destruct (lit_i kw (c :: s)) eqn:E; [discriminate|].
  assert (E' : lit_i kw ((c :: s) ++ chr_space :: z) = None).
  { apply Hl; [|exact E]. subst kw. constructor; [discriminate|exact kw_no_space]. }
  cbn [app] in E'. rewrite E'.
  destruct (search (m_lit_i kw) s) as [[[q a] r]|] eqn:Es; [discriminate|].
  unfold test in IH. rewrite Es in IH. specialize (IH eq_refl).
  destruct (search (m_lit_i kw) (s ++ chr_space :: z)) as [[[q a] r]|];
    [discriminate|reflexivity].
Qed.

End TagPrefix.

(** ** Rewriting the tags of one keyword *)

Lemma lit_i_app (q s r z : str) :
  lit_i q s = Some r -> lit_i q (s ++ z) = Some (r ++ z).
Proof.
  intros H. apply lit_i_iff in H as (k & -> & Hk).
  apply lit_i_iff. exists k. rewrite <- app_assoc. auto.
Qed.

Section OtherTag.

Variables kwA' kwB' : str.
Hypothesis kwA_no_bracket : no_bracket kwA'.
Hypothesis kwA_lower : map to_lower kwA' = kwA'.
Hypothesis kwA_ascii : Forall (fun c => (c < 128)%N) kwA'.
Hypothesis kwB_no_bracket : no_bracket kwB'.
Hypothesis kwB_lower : map to_lower kwB' = kwB'.

Let kwA := chr_lbracket :: kwA'.
Let kwB := chr_lbracket :: kwB'.

Hypothesis kw_disjoint : forall s, lit_i kwA s <> None -> lit_i kwB s = None.

Variable nl : level.

Let fA := fun _ : level => kwA ++ level_text nl ++ [chr_rbracket].
Let OldA := fun t : str => exists a, tag_level kwA t = Some (a, []).
Let NewA := fun t : str => exists a : level, t = fA a.

Lemma OldA_token (t : str) : OldA t -> is_token t.
Proof.
  intros (a & H).
  destruct (tag_level_token kwA' kwA_no_bracket _ _ _ H) as (body & -> & Hb).
  exists body. auto.
Qed.

Lemma NewA_token (t : str) : NewA t -> is_token t.
Proof.
  intros (a & ->). exists (kwA' ++ level_text nl). split.
  - unfold fA, kwA. cbn [app]. rewrite <- app_assoc. reflexivity.
  - apply no_bracket_app; [exact kwA_no_bracket|].
    apply no_bracket_forallb. destruct nl; reflexivity.
Qed.

Lemma NewA_matched (a : level) (z : str) :
  tag_level kwA (fA a ++ z) = Some (nl, z).
Proof.
  unfold fA. repeat (rewrite <- app_assoc; cbn [app]).
  apply (tag_level_written kwA' kwA_lower nl z).
Qed.

Lemma tag_level_opens (kw s : str) (v : level) (r : str) :
  tag_level kw s = Some (v, r) -> lit_i kw s <> None.
Proof.
  unfold tag_level, bind. destruct (lit_i kw s); [discriminate|discriminate].
Qed.

Lemma OldA_opens (t x : str) : OldA t -> lit_i kwA (t ++ x) <> None.
Proof.
  intros (a & H). apply tag_level_opens in H.
  destruct (lit_i kwA t) as [r|] eqn:E; [|contradiction].
  rewrite (lit_i_app _ _ _ x E). discriminate.
Qed.

Lemma NewA_opens (t y : str) : NewA t -> lit_i kwA (t ++ y) <> None.
Proof.
  intros (a & ->). apply (tag_level_opens kwA _ nl y). apply NewA_matched.
Qed.

Lemma tag_level_closed (s : str) :
  lit_i kwB s = None -> head_capture (tag_level kwB) s = None.
Proof. intros H. unfold head_capture, tag_level, bind. rewrite H. reflexivity. Qed.

Lemma prefix_closed (s : str) :
  lit_i kwB s = None -> head_capture (m_lit_i kwB) s = None.
Proof. intros H. unfold head_capture, m_lit_i. rewrite H. reflexivity. Qed.

Lemma tag_level_start (c : N) (s : str) :
  c <> chr_lbracket -> tag_level kwB (c :: s) = None.
Proof.
  intros Hc. unfold tag_level, bind, kwB. rewrite lit_i_cons.
  destruct (N.eqb chr_lbracket (to_lower c)) eqn:E; [|reflexivity].
  apply N.eqb_eq in E. symmetry in E. apply to_lower_bracket in E. contradiction.
Qed.

Lemma rewritten_edited (s : str) :
  edited OldA NewA s (replace_all (tag_level kwA) fA s).
Proof.
  apply (replace_all_edited (tag_level kwA) fA
           (tag_level_token kwA' kwA_no_bracket) (tag_level_ext kwA')).
Qed.

(** The tags of the other keyword are read as before. *)
Lemma other_capture (s : str) :
  capture (tag_level kwB) (replace_all (tag_level kwA) fA s)
  = capture (tag_level kwB) s.
Proof.
  symmetry. apply (capture_edited (tag_level kwB) OldA NewA OldA_token NewA_token).
  - apply tag_level_start.
  - apply (token_local (tag_level kwB) (tag_level_token kwB' kwB_no_bracket)
             (tag_level_ext kwB')).
  - intros t t' x y Ht Ht'.
    rewrite (tag_level_closed (t ++ x)) by (apply kw_disjoint, OldA_opens; exact Ht).
    rewrite (tag_level_closed (t' ++ y)) by (apply kw_disjoint, NewA_opens; exact Ht').
    reflexivity.
  - apply rewritten_edited.
Qed.

(** The other keyword opens a tag in the rewritten line when it did
    before. *)
Lemma other_prefix (s : str) :
  test (m_lit_i kwB) (replace_all (tag_level kwA) fA s) = test (m_lit_i kwB) s.
Proof.
  symmetry. apply (test_edited (m_lit_i kwB) OldA NewA OldA_token NewA_token).
  - apply (prefix_start kwB').
  - apply (prefix_local kwB' kwB_no_bracket).
  - intros t t' x y Ht Ht'.
    rewrite (prefix_closed (t ++ x)) by (apply kw_disjoint, OldA_opens; exact Ht).
    rewrite (prefix_closed (t' ++ y)) by (apply kw_disjoint, NewA_opens; exact Ht').
    reflexivity.
  - apply rewritten_edited.
Qed.

(** A literal whose first character no tag has is found as before. *)
Lemma foreign_literal (x : N) (p s : str) :
  ~ tag_char x -> Forall (fun c => c <> chr_lbracket) (x :: p) ->
  test (m_lit (x :: p)) (replace_all (tag_level kwA) fA s) = test (m_lit (x :: p)) s.
Proof.
  intros Hx Hp. symmetry.
  apply (test_lit_edited OldA NewA x p OldA_token NewA_token).
  - intros t (a & Ht). apply (tag_level_chars kwA' kwA_ascii) in Ht.
    eapply Forall_impl; [|exact Ht]. intros c Hc ->. contradiction.
  - intros t (a & ->).
    assert (Ht : tag_level kwA (fA a) = Some (nl, [])).
    { rewrite <- (app_nil_r (fA a)). apply NewA_matched. }
    apply (tag_level_chars kwA' kwA_ascii) in Ht.
    eapply Forall_impl; [|exact Ht]. intros c Hc ->. contradiction.
  - exact Hp.
  - apply rewritten_edited.
Qed.

(** The first tag of the keyword is read as the new level. *)
Lemma own_capture (s pre : str) (a : level) (rest : str) :
  search (tag_level kwA) s = Some (pre, a, rest) ->
  capture (tag_level kwA) (replace_all (tag_level kwA) fA s) = Some nl.
Proof.
  intros H.
  rewrite (replace_all_first (tag_level kwA) fA
             (tag_level_token kwA' kwA_no_bracket) _ _ _ _ H).
  apply search_Some_iff in H as (t & -> & Ht & Hn).
  destruct (tag_level_token kwA' kwA_no_bracket _ _ _ Ht) as (body & -> & _).
  unfold capture.
  assert (E : search (tag_level kwA)
                (pre ++ fA a ++ replace_all (tag_level kwA) fA rest)
              = Some (pre, nl, replace_all (tag_level kwA) fA rest)).
  { unfold fA at 1. unfold kwA at 2. cbn [app].
    apply (search_replace (tag_level kwA) (tag_level_token kwA' kwA_no_bracket)
             (tag_level_ext kwA') pre _ _ nl _ Hn).
    apply (NewA_matched a). }
  rewrite E. reflexivity.
Qed.

End OtherTag.

(** ** Moving a task to a quadrant *)

Lemma lit_i_second (a b : N) (p q s : str) :
  a <> b ->
  lit_i (chr_lbracket :: a :: p) s <> None -> lit_i (chr_lbracket :: b :: q) s = None.
Proof.
  intros Hab H. destruct s as [|c0 [|c1 s]]; try reflexivity.
  - rewrite lit_i_cons. destruct (N.eqb chr_lbracket (to_lower c0)); reflexivity.
  - rewrite !lit_i_cons in H |- *.
    destruct (N.eqb chr_lbracket (to_lower c0)); [|reflexivity].
    destruct (N.eqb a (to_lower c1)) eqn:Ea; [|contradiction].
    destruct (N.eqb b (to_lower c1)) eqn:Eb; [|reflexivity].
    apply N.eqb_eq in Ea, Eb. congruence.
Qed.

Lemma ascii_forallb (s : str) :
  forallb (fun c => N.ltb c 128) s = true -> Forall (fun c => (c < 128)%N) s.
Proof.
  intros H. apply Forall_forall. intros c Hc. rewrite forallb_forall in H.
  apply N.ltb_lt. apply H. exact Hc.
Qed.

Lemma no_space_forallb (s : str) :
  forallb (fun c => negb (N.eqb c chr_space)) s = true ->
  Forall (fun c => c <> chr_space) s.
Proof.
  intros H. apply Forall_forall. intros c Hc. rewrite forallb_forall in H.
  specialize (H c Hc). apply negb_true_iff in H. apply N.eqb_neq in H. exact H.
Qed.

Lemma not_in_forallb (p z : str) :
  forallb (fun c => negb (existsb (N.eqb c) p)) z = true ->
  Forall (fun c => ~ In c p) z.
Proof.
  intros H. apply Forall_forall. intros c Hc Hin. rewrite forallb_forall in H.
  specialize (H c Hc). apply negb_true_iff in H.
  assert (E : existsb (N.eqb c) p = true).
  { apply existsb_exists. exists c. split; [exact Hin|apply N.eqb_refl]. }
  congruence.
Qed.

Lemma tag_opens_test (kw s : str) :
  test (m_lit_i kw) s = false -> search (tag_level kw) s = None.
Proof.
  unfold test. destruct (search (m_lit_i kw) s) eqn:E; [discriminate|]. intros _.
  apply (search_none_weaken (m_lit_i kw) (tag_level kw) s); [|exact E].
  intros x. unfold m_lit_i, tag_level, bind.
  destruct (lit_i kw x); [discriminate|reflexivity].
Qed.

Lemma capture_none_search {A : Type} (m : str -> option (A * str)) (s : str) :
  capture m s = None <-> search m s = None.
Proof.
  unfold capture. destruct (search m s) as [[[p a] r]|]; split; congruence.
Qed.

Section MoveLine.

Variable ln : str.
Variables i v : level.

Let imp' := u "importance::".
Let urg' := u "urgency::".

Let f_imp := fun _ : level => u "[importance::" ++ level_text i ++ u "]".
Let f_urg := fun _ : level => u "[urgency::" ++ level_text v ++ u "]".
Let l1 := replace_all re_importance f_imp ln.
Let l2 := replace_all re_urgency f_urg l1.
Let tag_imp := u " [importance::" ++ level_text i ++ u "]".
Let tag_urg := u " [urgency::" ++ level_text v ++ u "]".
Let l3 := if negb (test (m_lit_i (u "[importance::")) l2) then l2 ++ tag_imp else l2.
Let l4 := if negb (test (m_lit_i (u "[urgency::")) l3) then l3 ++ tag_urg else l3.

Lemma move_line_steps : move_line ln i v = l4.
Proof. reflexivity. Qed.

Lemma imp_no_bracket : no_bracket imp'.
Proof. apply no_bracket_forallb. reflexivity. Qed.

Lemma urg_no_bracket : no_bracket urg'.
Proof. apply no_bracket_forallb. reflexivity. Qed.

Lemma imp_ascii : Forall (fun c => (c < 128)%N) imp'.
Proof. apply ascii_forallb. reflexivity. Qed.

Lemma urg_ascii : Forall (fun c => (c < 128)%N) urg'.
Proof. apply ascii_forallb. reflexivity. Qed.

Lemma imp_not_urg (s : str) :
  lit_i (u "[importance::") s <> None -> lit_i (u "[urgency::") s = None.
Proof. apply (lit_i_second 105 117 (u "mportance::") (u "rgency::")). discriminate. Qed.

Lemma urg_not_imp (s : str) :
  lit_i (u "[urgency::") s <> None -> lit_i (u "[importance::") s = None.
Proof. apply (lit_i_second 117 105 (u "rgency::") (u "mportance::")). discriminate. Qed.

(** Step by step. *)

Lemma l2_importance : capture re_importance l2 = capture re_importance l1.
Proof.
  apply (other_capture urg' imp' urg_no_bracket eq_refl imp_no_bracket urg_not_imp v).
Qed.

Lemma l2_importance_opens :
  test (m_lit_i (u "[importance::")) l2 = test (m_lit_i (u "[importance::")) l1.
Proof.
  apply (other_prefix urg' imp' urg_no_bracket eq_refl imp_no_bracket urg_not_imp v).
Qed.

Lemma l1_urgency : capture re_urgency l1 = capture re_urgency ln.
Proof.
  apply (other_capture imp' urg' imp_no_bracket eq_refl urg_no_bracket imp_not_urg i).
Qed.

Lemma l1_urgency_opens :
  test (m_lit_i (u "[urgency::")) l1 = test (m_lit_i (u "[urgency::")) ln.
Proof.
  apply (other_prefix imp' urg' imp_no_bracket eq_refl urg_no_bracket imp_not_urg i).
Qed.

Lemma capture_opens (kw s : str) (a : level) :
  capture (tag_level kw) s = Some a -> test (m_lit_i kw) s = true.
Proof.
  intros H. destruct (test (m_lit_i kw) s) eqn:E; [reflexivity|].
  apply tag_opens_test in E. apply capture_none_search in E. congruence.
Qed.

Lemma l3_importance :
  well_tagged ln -> capture re_importance l3 = Some i.
Proof.
  intros [Hw _].
  destruct (search re_importance ln) as [[[pre a] rest]|] eqn:Es.
  - assert (E1 : capture re_importance l1 = Some i)
      by (apply (own_capture imp' imp_no_bracket eq_refl i ln pre a rest Es)).
    assert (E2 : capture re_importance l2 = Some i) by (rewrite l2_importance; exact E1).
    unfold l3. rewrite (capture_opens (u "[importance::") l2 i E2). exact E2.
  - assert (Hp : test (m_lit_i (u "[importance::")) ln = false).
    { destruct (test (m_lit_i (u "[importance::")) ln); [|reflexivity].
      destruct (Hw eq_refl eq_refl). }
    assert (E1 : l1 = ln)
      by (apply (replace_all_none re_importance f_imp
                   (tag_level_token imp' imp_no_bracket) ln Es)).
    assert (Hp2 : test (m_lit_i (u "[importance::")) l2 = false)
      by (rewrite l2_importance_opens, E1; exact Hp).
    unfold l3. rewrite Hp2. cbn [negb]. unfold capture, tag_imp.
    change (l2 ++ u " [importance::" ++ level_text i ++ u "]")
      with (l2 ++ chr_space :: chr_lbracket
               :: (imp' ++ level_text i ++ chr_rbracket :: [])).
    rewrite (search_appended_token re_importance
               (tag_level_token imp' imp_no_bracket) (tag_level_ext imp')
               l2 _ i []); [reflexivity| |].
    + apply tag_opens_test. exact Hp2.
    + apply (tag_level_written imp' eq_refl i []).
Qed.

Lemma l4_importance :
  well_tagged ln -> capture re_importance l4 = Some i.
Proof.
  intros Hw. pose proof (l3_importance Hw) as H3.
  unfold l4. destruct (negb (test (m_lit_i (u "[urgency::")) l3)); [|exact H3].
  apply (capture_some_app re_importance (tag_level_token imp' imp_no_bracket)
           (tag_level_ext imp')).
  exact H3.
Qed.

Lemma tag_imp_no_urgency :
  test (m_lit_i (u "[urgency::")) tag_imp = false.
Proof. unfold tag_imp. destruct i; reflexivity. Qed.

Lemma l4_urgency :
  well_tagged ln -> capture re_urgency l4 = Some v.
Proof.
  intros [_ Hw].
  destruct (search re_urgency ln) as [[[pre a] rest]|] eqn:Es.
  - assert (E0 : capture re_urgency l1 = Some a).
    { rewrite l1_urgency. unfold capture. rewrite Es. reflexivity. }
    unfold capture in E0.
    destruct (search re_urgency l1) as [[[pre1 a1] rest1]|] eqn:Es1; [|discriminate].
    assert (E2 : capture re_urgency l2 = Some v)
      by (apply (own_capture urg' urg_no_bracket eq_refl v l1 pre1 a1 rest1 Es1)).
    assert (E3 : capture re_urgency l3 = Some v).
    { unfold l3. destruct (negb (test (m_lit_i (u "[importance::")) l2)); [|exact E2].
      apply (capture_some_app re_urgency (tag_level_token urg' urg_no_bracket)
               (tag_level_ext urg')). exact E2. }
    unfold l4. rewrite (capture_opens (u "[urgency::") l3 v E3). exact E3.
  - assert (Hp : test (m_lit_i (u "[urgency::")) ln = false).
    { destruct (test (m_lit_i (u "[urgency::")) ln); [|reflexivity].
      destruct (Hw eq_refl eq_refl). }
    assert (Hp1 : test (m_lit_i (u "[urgency::")) l1 = false)
      by (rewrite l1_urgency_opens; exact Hp).
    assert (E2 : l2 = l1).
    { apply (replace_all_none re_urgency f_urg (tag_level_token urg' urg_no_bracket)).
      apply tag_opens_test. exact Hp1. }
    assert (Hp3 : test (m_lit_i (u "[urgency::")) l3 = false).
    { unfold l3. destruct (negb (test (m_lit_i (u "[importance::")) l2));
        [|rewrite E2; exact Hp1].
      unfold tag_imp.
      change (u " [importance::" ++ level_text i ++ u "]")
        with (chr_space :: (u "[importance::" ++ level_text i ++ u "]")).
      apply (prefix_none_app_space urg').
      - apply no_space_forallb. reflexivity.
      - rewrite E2. exact Hp1.
      - apply tag_imp_no_urgency. }
    unfold l4. rewrite Hp3. cbn [negb]. unfold capture, tag_urg.
    change (l3 ++ u " [urgency::" ++ level_text v ++ u "]")
      with (l3 ++ chr_space :: chr_lbracket
               :: (urg' ++ level_text v ++ chr_rbracket :: [])).
    rewrite (search_appended_token re_urgency
               (tag_level_token urg' urg_no_bracket) (tag_level_ext urg')
               l3 _ v []); [reflexivity| |].
    + apply tag_opens_test. exact Hp3.
    + apply (tag_level_written urg' eq_refl v []).
Qed.

Lemma l4_literal (x : N) (p : str) :
  ~ tag_char x -> Forall (fun c => c <> chr_lbracket) (x :: p) ->
  Forall (fun c => ~ In c (x :: p)) tag_imp ->
  Forall (fun c => ~ In c (x :: p)) tag_urg ->
  test (m_lit (x :: p)) l4 = test (m_lit (x :: p)) ln.
Proof.
  intros Hx Hp Hi Hu.
  assert (E1 : test (m_lit (x :: p)) l1 = test (m_lit (x :: p)) ln)
    by (apply (foreign_literal imp' imp_no_bracket eq_refl imp_ascii i x p ln Hx Hp)).
  assert (E2 : test (m_lit (x :: p)) l2 = test (m_lit (x :: p)) l1)
    by (apply (foreign_literal urg' urg_no_bracket eq_refl urg_ascii v x p l1 Hx Hp)).
  assert (E3 : test (m_lit (x :: p)) l3 = test (m_lit (x :: p)) l2).
  { unfold l3. destruct (negb (test (m_lit_i (u "[importance::")) l2)); [|reflexivity].
    apply test_lit_app; [discriminate|exact Hi]. }
  assert (E4 : test (m_lit (x :: p)) l4 = test (m_lit (x :: p)) l3).
  { unfold l4. destruct (negb (test (m_lit_i (u "[urgency::")) l3)); [|reflexivity].
    apply test_lit_app; [discriminate|exact Hu]. }
  congruence.
Qed.

End MoveLine.

Lemma star_foreign : ~ tag_char 8218.
Proof. intros [H|H]; [lia|discriminate]. Qed.

Lemma fire_foreign : ~ tag_char 63743.
Proof. intros [H|H]; [lia|discriminate]. Qed.

Lemma move_line_read_back (ln : str) (i v : level) :
  well_tagged ln ->
  capture re_importance (move_line ln i v) = Some i /\
  capture re_urgency (move_line ln i v) = Some v /\
  test (m_lit emoji_star) (move_line ln i v) = test (m_lit emoji_star) ln /\
  test (m_lit emoji_fire) (move_line ln i v) = test (m_lit emoji_fire) ln.
Proof.
  intros Hw. rewrite move_line_steps. split; [|split; [|split]].
  - apply l4_importance. exact Hw.
  - apply l4_urgency. exact Hw.
  - apply (l4_literal ln i v 8218 [8800; 234]%N star_foreign).
    + repeat constructor; discriminate.
    + apply not_in_forallb. destruct i; reflexivity.
    + apply not_in_forallb. destruct v; reflexivity.
  - apply (l4_literal ln i v 63743 [252; 238; 8226]%N fire_foreign).
    + repeat constructor; discriminate.
    + apply not_in_forallb. destruct i; reflexivity.
    + apply not_in_forallb. destruct v; reflexivity.
Qed.

(** X18.  Moving a task to another quadrant writes its line so that it is
    read back in that quadrant, unless an emoji of the line says otherwise:
    on a line where every opened importance or urgency tag is one that
    [parseTask] reads, the written line is read with the new importance and
    the new urgency, except that a line with the importance emoji stays
    important and a line with the urgency emoji stays urgent. *)
Theorem moved_task_read_back
  (v : vault) (task : EisenhowerTask) (newImportance newUrgency : level)
  (text ln : str) :
  importance task <> newImportance \/ urgency task <> newUrgency ->
  v (file task) = Some text ->
  line_at (split_lines text) (line task - 1) = Some ln ->
  well_tagged ln ->
  exists task',
    moveTaskToQuadrant v task newImportance newUrgency
      = MoveWritten
          (join_lines (set_line (split_lines text) (line task - 1)
                         (move_line ln newImportance newUrgency)))
          newImportance newUrgency /\
    parseTask (move_line ln newImportance newUrgency) (file task) (line task)
      = Some task' /\
    importance task' = (if test (m_lit emoji_star) ln then high else newImportance) /\
    urgency task' = (if test (m_lit emoji_fire) ln then high else newUrgency).
Proof.
  intros Hne Hv Hl Hw.
  destruct (move_line_read_back ln newImportance newUrgency Hw) as (Hi & Hu & Hs & Hf).
  destruct (parseTask (move_line ln newImportance newUrgency) (file task) (line task))
    as [task'|] eqn:Ep; [|destruct (parseTask_never_absent _ _ _ Ep)].
  exists task'. split; [|split; [reflexivity|split]].
  - unfold moveTaskToQuadrant. rewrite Hv, Hl.
    destruct (level_eqb (importance task) newImportance
              && level_eqb (urgency task) newUrgency) eqn:E; [|reflexivity].
    apply andb_true_iff in E as [E1 E2].
    destruct (importance task), (urgency task), newImportance, newUrgency;
      simpl in E1, E2; try discriminate; destruct Hne as [H|H]; congruence.
  - pose proof (parseTask_importance (move_line ln newImportance newUrgency)
                  (file task) (line task)) as H.
    rewrite Ep, Hi, Hs in H. simpl in H. injection H as ->.
    destruct (test (m_lit emoji_star) ln), newImportance; reflexivity.
  - pose proof (parseTask_urgency (move_line ln newImportance newUrgency)
                  (file task) (line task)) as H.
    rewrite Ep, Hu, Hf in H. simpl in H. injection H as ->.
    destruct (test (m_lit emoji_fire) ln), newUrgency; reflexivity.
Qed.

(** A task with the importance emoji and a high tag is moved to the
    quadrant that is neither urgent nor important: the tag is rewritten,
    and the line is still read as important. *)
Lemma moved_task_read_back_witness :
  let ln := u "- [ ] Pay rent " ++ emoji_star ++ u " [importance::high] [duration::30]" in
  let ln' := u "- [ ] Pay rent " ++ emoji_star
               ++ u " [importance::low] [duration::30] [urgency::low]" in
  let v := fun _ : str => Some ln in
  let task := {| content := ln;
                 importance := high; urgency := low; durationMinutes := 30;
                 file := u "todo.md"; line := 1; habitType := None;
                 accumulated := false; accumulatedCount := None;
                 lastDoneDate := None; taskType := regular; scheduledDate := None;
                 startDate := None; currentStreak := None; maxStreak := None;
                 lastStreakDate := None; attributeName := None |} in
  exists task',
    moveTaskToQuadrant v task low low = MoveWritten ln' low low /\
    parseTask ln' (file task) (line task) = Some task' /\
    importance task' = high /\
    urgency task' = low.
Proof.
  intros ln ln' v task.
  destruct (moved_task_read_back v task low low ln ln) as (task' & H1 & H2 & H3 & H4).
  - left. discriminate.
  - reflexivity.
  - reflexivity.
  - split.
    + intros _. vm_compute. discriminate.
    + intros H. vm_compute in H. discriminate.
  - exists task'. split; [exact H1|]. split; [exact H2|].
    split; [rewrite H3|rewrite H4]; reflexivity.
Defined.

(** ** Matchers that do not see the counter *)

Lemma edited_refl (Old New : str -> Prop) (s : str) : edited Old New s s.
Proof. induction s; constructor; assumption. Qed.

Lemma edited_app (Old New : str -> Prop) (pre s s' : str) :
  edited Old New s s' -> edited Old New (pre ++ s) (pre ++ s').
Proof. intros H. induction pre; simpl; [exact H|constructor; assumption]. Qed.

Lemma boundary_tail (x : str) : boundary x -> tail_text x.
Proof. intros H. exists [], x. repeat split; [constructor|exact H]. Qed.

Lemma space_tail (ws : str) :
  Forall (fun c => is_space c = true) ws -> tail_text ws.
Proof.
  intros H. exists ws, []. rewrite app_nil_r. repeat split; [exact H|left; reflexivity].
Qed.

Section BlindMatcher.

Context {A : Type}.
Variable m : str -> option (A * str).
Variables Old New : str -> Prop.

Hypothesis Old_token : forall t, Old t -> is_token t.
Hypothesis New_token : forall t, New t -> is_token t.

Hypothesis m_tail : forall c b x y, tail_text x -> tail_text y ->
  head_capture m (c :: b ++ x) = head_capture m (c :: b ++ y).
Hypothesis m_none : forall t q1 q2 x,
  Old t \/ New t -> t = q1 ++ q2 -> q2 <> [] -> m (q2 ++ x) = None.
Hypothesis m_space : forall c s, is_space c = true -> m (c :: s) = None.
Hypothesis m_nil : m [] = None.

Lemma blind_inside (t s : str) :
  Old t \/ New t -> capture m (t ++ s) = capture m s.
Proof.
  intros Ht.
  assert (H : forall q2 q1, t = q1 ++ q2 -> capture m (q2 ++ s) = capture m s).
  { induction q2 as [|c q2 IH]; intros q1 E; [reflexivity|].
    cbn [app]. rewrite (capture_cons m). unfold head_capture.
    change (c :: q2 ++ s) with ((c :: q2) ++ s).
    rewrite (m_none t q1 (c :: q2) s Ht E) by discriminate.
    apply (IH (q1 ++ [c])). rewrite E, <- app_assoc. reflexivity. }
  apply (H t []). reflexivity.
Qed.

Lemma blind_edited (s s' : str) :
  edited Old New s s' -> capture m s = capture m s'.
Proof.
  induction 1 as [|c s s' He IH|t t' s s' Ht Ht' He IH].
  - reflexivity.
  - rewrite !(capture_cons m), IH.
    destruct (edited_common Old New s s' Old_token New_token He)
      as (b & x & y & -> & -> & Hx & Hy).
    rewrite (m_tail c b x y (boundary_tail x Hx) (boundary_tail y Hy)). reflexivity.
  - rewrite (blind_inside t s (or_introl Ht)), (blind_inside t' s' (or_intror Ht')).
    exact IH.
Qed.

Lemma blind_space (ws : str) :
  Forall (fun c => is_space c = true) ws -> capture m ws = None.
Proof.
  induction 1 as [|c ws Hc _ IH].
  - unfold capture. simpl. rewrite m_nil. reflexivity.
  - rewrite (capture_cons m). unfold head_capture. rewrite (m_space c ws Hc). exact IH.
Qed.

Lemma blind_tail (b x y : str) :
  tail_text x -> tail_text y -> capture m x = None -> capture m y = None ->
  capture m (b ++ x) = capture m (b ++ y).
Proof.
  intros Hx Hy Ex Ey. induction b as [|c b IH]; simpl.
  - rewrite Ex, Ey. reflexivity.
  - rewrite !(capture_cons m), IH, (m_tail c b x y Hx Hy). reflexivity.
Qed.

End BlindMatcher.

(** ** The counter tokens *)

Lemma counter_token_is_token (t : str) : counter_token t -> is_token t.
Proof.
  intros [(cap & H)|(ds & Hd & ->)].
  - destruct (success_unsigned_token _ _ _ H) as (body & -> & Hb). exists body. auto.
  - exists ds. split; [reflexivity|apply digits_no_bracket; exact Hd].
Qed.

Lemma show_no_bracket (k : Z) : no_bracket (show k).
Proof.
  eapply Forall_impl; [|apply show_chars]. intros c [->|Hc].
  - split; discriminate.
  - apply digit_no_bracket. exact Hc.
Qed.

Lemma written_token_is_token (t : str) : written_token t -> is_token t.
Proof.
  intros (k & ->). exists (u "success::" ++ show k). split.
  - unfold success_token. cbn [app]. rewrite <- app_assoc. reflexivity.
  - apply no_bracket_app; [apply success_keyword_no_bracket|apply show_no_bracket].
Qed.

Section BlindCounter.

Context {A : Type}.
Variable m : str -> option (A * str).

Hypothesis m_tail : forall c b x y, tail_text x -> tail_text y ->
  head_capture m (c :: b ++ x) = head_capture m (c :: b ++ y).
Hypothesis m_none : forall t q1 q2 x,
  counter_token t \/ written_token t -> t = q1 ++ q2 -> q2 <> [] -> m (q2 ++ x) = None.
Hypothesis m_space : forall c s, is_space c = true -> m (c :: s) = None.
Hypothesis m_nil : m [] = None.

Lemma blind_token_swap (pre t t' post : str) :
  counter_token t -> written_token t' ->
  capture m (pre ++ t' ++ post) = capture m (pre ++ t ++ post).
Proof.
  intros Ht Ht'. symmetry.
  apply (blind_edited m counter_token written_token
           counter_token_is_token written_token_is_token m_tail m_none).
  apply edited_app. apply edited_token; [exact Ht|exact Ht'|apply edited_refl].
Qed.

Lemma blind_rewrite_counter (f : Z -> Z) (d : Z) (ln : str) :
  capture m (rewrite_counter f d ln) = capture m ln.
Proof.
  unfold rewrite_counter, test, replace_first.
  destruct (search re_success_unsigned ln) as [[[pre c] post]|] eqn:Eu.
  - apply search_Some_iff in Eu as (t & -> & Ht & _).
    destruct (success_unsigned_token _ _ _ Ht) as (body & -> & Hb).
    change (chr_lbracket :: body ++ chr_rbracket :: post)
      with ((chr_lbracket :: body) ++ chr_rbracket :: post).
    replace ((chr_lbracket :: body) ++ chr_rbracket :: post)
      with ((chr_lbracket :: body ++ [chr_rbracket]) ++ post)
      by (cbn [app]; rewrite <- app_assoc; reflexivity).
    apply blind_token_swap.
    + left. exists c. apply (success_unsigned_ext body c post [] Ht).
    + eexists. reflexivity.
  - destruct (search re_trailing_unsigned ln) as [[[pre c] r]|] eqn:Et.
    + apply search_Some_iff in Et as (t & -> & Ht & _).
      apply re_trailing_unsigned_iff in Ht as (-> & ws & -> & Hd & Hws).
      set (k := match capture re_trailing_unsigned _ with
                | Some n => f (parseInt n) | None => d end).
      transitivity (capture m (pre ++ success_token k ++ ws)).
      * rewrite !app_assoc.
        apply (blind_tail m m_tail).
        -- apply space_tail. constructor.
        -- apply space_tail. exact Hws.
        -- unfold capture. simpl. rewrite m_nil. reflexivity.
        -- apply (blind_space m m_space m_nil). exact Hws.
      * replace (chr_lbracket :: c ++ chr_rbracket :: ws)
          with ((chr_lbracket :: c ++ [chr_rbracket]) ++ ws)
          by (cbn [app]; rewrite <- app_assoc; reflexivity).
        apply blind_token_swap.
        -- right. exists c. auto.
        -- eexists. reflexivity.
    + destruct (trimEnd_split ln) as (ws & Hs & Hws).
      rewrite Hs at 2.
      apply (blind_tail m m_tail).
      * exists [chr_space], (success_token d). split; [reflexivity|].
        split; [repeat constructor|right; eexists; reflexivity].
      * apply space_tail. exact Hws.
      * rewrite (capture_cons m). unfold head_capture.
        rewrite (m_space chr_space _ eq_refl).
        rewrite <- (app_nil_r (success_token d)).
        rewrite (blind_inside m counter_token written_token m_none).
        -- unfold capture. simpl. rewrite m_nil. reflexivity.
        -- right. eexists. reflexivity.
      * apply (blind_space m m_space m_nil). exact Hws.
Qed.

End BlindCounter.

(** ** Reading up to the end of the text or to a bracket *)

Lemma tail_head (x : str) :
  tail_text x -> x = [] \/ exists c r, x = c :: r /\ ~ solid c.
Proof.
  intros (ws & x0 & -> & Hws & Hx). destruct ws as [|c ws].
  - destruct Hx as [->|(y & ->)]; [left; reflexivity|].
    right. exists chr_lbracket, y. split; [reflexivity|]. intros [_ H]. apply H. reflexivity.
  - right. exists c, (ws ++ x0). split; [reflexivity|].
    inversion Hws as [|? ? Hc _]; subst. intros [H _]. congruence.
Qed.

Lemma space_to_lower (c : N) : is_space c = true -> to_lower c = c.
Proof.
  intros H. unfold to_lower.
  destruct (N.leb 65 c && N.leb c 90)%N eqn:E; [|reflexivity].
  apply andb_true_iff in E as [E1 E2]. apply N.leb_le in E1, E2.
  unfold is_space in H.
  repeat (apply orb_true_iff in H as [H|H]);
    try (apply andb_true_iff in H as [H1 H2]; apply N.leb_le in H1, H2; lia);
    apply N.eqb_eq in H; lia.
Qed.

Lemma not_solid_to_lower (c : N) : ~ solid c -> to_lower c = c.
Proof.
  intros H. destruct (is_space c) eqn:E; [apply space_to_lower; exact E|].
  destruct (N.eq_dec c chr_lbracket) as [->|Hc]; [reflexivity|].
  exfalso. apply H. split; assumption.
Qed.

Lemma lit_tail (w b x y : str) :
  Forall solid w -> tail_text x -> tail_text y ->
  (lit w (b ++ x) = None /\ lit w (b ++ y) = None) \/
  exists b2, lit w (b ++ x) = Some (b2 ++ x) /\ lit w (b ++ y) = Some (b2 ++ y).
Proof.
  intros Hw Hx Hy. revert b. induction Hw as [|c w Hc _ IH]; intros b.
  - right. exists b. auto.
  - destruct b as [|d b].
    + left. simpl app.
      assert (H : forall z, tail_text z -> lit (c :: w) z = None).
      { intros z Hz. destruct (tail_head z Hz) as [->|(e & r & -> & He)]; [reflexivity|].
        simpl. destruct (N.eqb c e) eqn:E; [|reflexivity].
        apply N.eqb_eq in E. subst e. contradiction. }
      auto.
    + cbn [app]. simpl lit. destruct (N.eqb c d); [apply IH|auto].
Qed.

Lemma lit_i_tail (w b x y : str) :
  Forall solid w -> tail_text x -> tail_text y ->
  (lit_i w (b ++ x) = None /\ lit_i w (b ++ y) = None) \/
  exists b2, lit_i w (b ++ x) = Some (b2 ++ x) /\ lit_i w (b ++ y) = Some (b2 ++ y).
Proof.
  intros Hw Hx Hy. revert b. induction Hw as [|c w Hc _ IH]; intros b.
  - right. exists b. auto.
  - destruct b as [|d b].
    + left. simpl app.
      assert (H : forall z, tail_text z -> lit_i (c :: w) z = None).
      { intros z Hz. destruct (tail_head z Hz) as [->|(e & r & -> & He)]; [reflexivity|].
        rewrite lit_i_cons. destruct (N.eqb c (to_lower e)) eqn:E; [|reflexivity].
        apply N.eqb_eq in E. rewrite (not_solid_to_lower e He) in E.
        subst e. contradiction. }
      auto.
    + cbn [app]. rewrite !lit_i_cons. destruct (N.eqb c (to_lower d)); [apply IH|auto].
Qed.

Lemma skip_spaces_cons (c : N) (s : str) :
  skip_spaces (c :: s) = if is_space c then skip_spaces s else c :: s.
Proof.
  unfold skip_spaces. simpl. destruct (is_space c); [|reflexivity].
  destruct (span is_space s). reflexivity.
Qed.

Lemma skip_spaces_tail (x : str) :
  tail_text x -> boundary (skip_spaces x).
Proof.
  intros (ws & x0 & -> & Hws & Hx). induction Hws as [|c ws Hc _ IH].
  - simpl app. destruct Hx as [->|(y & ->)].
    + left. reflexivity.
    + right. exists y. rewrite skip_spaces_cons. reflexivity.
  - cbn [app]. rewrite skip_spaces_cons, Hc. exact IH.
Qed.

Lemma blind_ret {A : Type} (a : A) : blind (fun s => Some (a, s)).
Proof. intros b x y _ _. reflexivity. Qed.

Lemma blind_lit {A : Type} (w : str) (k : str -> option (A * str)) :
  Forall solid w -> blind k ->
  blind (fun s => match lit w s with Some r => k r | None => None end).
Proof.
  intros Hw Hk b x y Hx Hy. unfold head_capture.
  destruct (lit_tail w b x y Hw Hx Hy) as [[-> ->]|(b2 & -> & ->)]; [reflexivity|].
  apply (Hk b2 x y Hx Hy).
Qed.

Lemma blind_lit_i {A : Type} (w : str) (k : str -> option (A * str)) :
  Forall solid w -> blind k ->
  blind (fun s => match lit_i w s with Some r => k r | None => None end).
Proof.
  intros Hw Hk b x y Hx Hy. unfold head_capture.
  destruct (lit_i_tail w b x y Hw Hx Hy) as [[-> ->]|(b2 & -> & ->)]; [reflexivity|].
  apply (Hk b2 x y Hx Hy).
Qed.

Lemma blind_skip {A : Type} (k : str -> option (A * str)) :
  blind k -> blind (fun s => k (skip_spaces s)).
Proof.
  intros Hk b x y Hx Hy. unfold head_capture. induction b as [|c b IH].
  - simpl app.
    apply (Hk [] _ _ (boundary_tail _ (skip_spaces_tail x Hx))
             (boundary_tail _ (skip_spaces_tail y Hy))).
  - cbn [app]. rewrite !skip_spaces_cons. destruct (is_space c); [exact IH|].
    apply (Hk (c :: b) x y Hx Hy).
Qed.

Lemma span_tail (f : N -> bool) (b x : str) :
  (forall c, ~ solid c -> f c = false) -> tail_text x ->
  span f (b ++ x) = (fst (span f b), snd (span f b) ++ x).
Proof.
  intros Hf Hx. induction b as [|c b IH].
  - simpl. destruct (tail_head x Hx) as [->|(e & r & -> & He)]; [reflexivity|].
    simpl. rewrite (Hf e He). reflexivity.
  - cbn [app]. simpl. destruct (f c); [|reflexivity].
    rewrite IH. destruct (span f b). reflexivity.
Qed.

Lemma blind_many1 {A : Type} (f : N -> bool) (k : str -> str -> option (A * str)) :
  (forall c, ~ solid c -> f c = false) -> (forall v, blind (k v)) ->
  blind (fun s => match many1 f s with Some (v, r) => k v r | None => None end).
Proof.
  intros Hf Hk b x y Hx Hy. unfold head_capture, many1.
  rewrite (span_tail f b x Hf Hx), (span_tail f b y Hf Hy).
  destruct (fst (span f b)) as [|c a]; [reflexivity|].
  apply (Hk (c :: a) (snd (span f b)) x y Hx Hy).
Qed.

Lemma solid_prefix (d r b x : str) :
  Forall solid d -> tail_text x -> d ++ r = b ++ x ->
  exists b2, b = d ++ b2 /\ r = b2 ++ x.
Proof.
  intros Hd Hx. revert b. induction Hd as [|c d Hc _ IH]; intros b E.
  - exists b. auto.
  - destruct b as [|e b].
    + simpl in E. destruct (tail_head x Hx) as [->|(e & r' & -> & He)]; [discriminate|].
      injection E as <- _. contradiction.
    + simpl in E. injection E as <- E. destruct (IH b E) as (b2 & -> & ->).
      exists b2. auto.
Qed.

Lemma digit_solid (c : N) : is_digit c = true -> solid c.
Proof.
  intros H. split; [|apply digit_no_bracket; exact H].
  apply is_digit_range in H. destruct (is_space c) eqn:E; [|reflexivity].
  unfold is_space in E.
  repeat (apply orb_true_iff in E as [E|E]);
    try (apply andb_true_iff in E as [H1 H2]; apply N.leb_le in H1, H2; lia);
    apply N.eqb_eq in E; lia.
Qed.

Lemma date_lit_solid (s d r : str) :
  date_lit s = Some (d, r) -> Forall solid d.
Proof.
  unfold date_lit.
  destruct (exactly 4 is_digit s) as [[y s1]|] eqn:E1; [|discriminate].
  destruct (lit [chr_minus] s1) as [s2|] eqn:E2; [|discriminate].
  destruct (exactly 2 is_digit s2) as [[m s3]|] eqn:E3; [|discriminate].
  destruct (lit [chr_minus] s3) as [s4|] eqn:E4; [|discriminate].
  destruct (exactly 2 is_digit s4) as [[dd s5]|] eqn:E5; [|discriminate].
  intros H; injection H as <- <-.
  apply exactly_Some in E1 as (_ & _ & H1).
  apply exactly_Some in E3 as (_ & _ & H3).
  apply exactly_Some in E5 as (_ & _ & H5).
  assert (Hd : forall x, Forall (fun c => is_digit c = true) x -> Forall solid x).
  { intros x Hx. eapply Forall_impl; [|exact Hx]. intros c. apply digit_solid. }
  assert (Hm : solid chr_minus) by (split; [reflexivity|discriminate]).
  apply Forall_app. split; [apply Hd; exact H1|].
  constructor; [exact Hm|]. apply Forall_app. split; [apply Hd; exact H3|].
  constructor; [exact Hm|apply Hd; exact H5].
Qed.

Lemma blind_date {A : Type} (k : str -> str -> option (A * str)) :
  (forall v, blind (k v)) ->
  blind (fun s => match date_lit s with Some (v, r) => k v r | None => None end).
Proof.
  intros Hk b x y Hx Hy. unfold head_capture.
  assert (H : forall x y, tail_text x -> tail_text y ->
            forall d r, date_lit (b ++ x) = Some (d, r) ->
            exists b2, r = b2 ++ x /\ date_lit (b ++ y) = Some (d, b2 ++ y)).
  { intros x' y' Hx' Hy' d r E.
    pose proof (date_lit_solid _ _ _ E) as Hd.
    destruct (date_lit_Some _ _ _ E) as (Es & _ & Hr).
    symmetry in Es. destruct (solid_prefix d r b x' Hd Hx' Es) as (b2 & -> & ->).
    exists b2. split; [reflexivity|]. rewrite <- app_assoc. apply Hr. }
  destruct (date_lit (b ++ x)) as [[d r]|] eqn:Ex.
  - destruct (H x y Hx Hy d r Ex) as (b2 & -> & ->). apply (Hk d b2 x y Hx Hy).
  - destruct (date_lit (b ++ y)) as [[d r]|] eqn:Ey; [|reflexivity].
    destruct (H y x Hy Hx d r Ey) as (b2 & _ & E). congruence.
Qed.

Lemma blind_alt_level {A : Type} (k : level -> str -> option (A * str)) :
  (forall v, blind (k v)) ->
  blind (fun s => match alt_level s with Some (v, r) => k v r | None => None end).
Proof.
  intros Hk b x y Hx Hy. unfold head_capture, alt_level.
  assert (Hh : Forall solid (u "high")) by (repeat constructor; discriminate).
  assert (Hl : Forall solid (u "low")) by (repeat constructor; discriminate).
  destruct (lit_i_tail (u "high") b x y Hh Hx Hy) as [[-> ->]|(b2 & -> & ->)].
  - destruct (lit_i_tail (u "low") b x y Hl Hx Hy) as [[-> ->]|(b2 & -> & ->)];
      [reflexivity|].
    apply (Hk low b2 x y Hx Hy).
  - apply (Hk high b2 x y Hx Hy).
Qed.

Lemma blind_alt_habit {A : Type} (k : habit -> str -> option (A * str)) :
  (forall v, blind (k v)) ->
  blind (fun s => match alt_habit s with Some (v, r) => k v r | None => None end).
Proof.
  intros Hk b x y Hx Hy. unfold head_capture, alt_habit.
  assert (Hh : Forall solid (u "daily")) by (repeat constructor; discriminate).
  assert (Hl : Forall solid (u "weekly")) by (repeat constructor; discriminate).
  destruct (lit_i_tail (u "daily") b x y Hh Hx Hy) as [[-> ->]|(b2 & -> & ->)].
  - destruct (lit_i_tail (u "weekly") b x y Hl Hx Hy) as [[-> ->]|(b2 & -> & ->)];
      [reflexivity|].
    apply (Hk weekly b2 x y Hx Hy).
  - apply (Hk daily b2 x y Hx Hy).
Qed.

(** ** How a counter token opens *)

Lemma counter_token_opens (t x : str) :
  counter_token t \/ written_token t ->
  exists c1 rest, t ++ x = chr_lbracket :: c1 :: rest /\
    (is_digit c1 = true \/
     (to_lower c1 = 115%N /\ exists c2 rest', rest = c2 :: rest' /\ to_lower c2 = 117%N)).
Proof.
  intros [[(cap & H)|(ds & Hd & ->)]|(k & ->)].
  - apply re_success_unsigned_iff in H as (kw & -> & Hk & _).
    destruct kw as [|c0 [|c1 [|c2 kw]]]; try discriminate.
    change (u "[success::") with (91%N :: 115%N :: 117%N :: u "ccess::") in Hk.
    simpl map in Hk. injection Hk as H0 H1 H2 _.
    apply to_lower_bracket in H0. subst c0.
    exists c1. eexists. split; [reflexivity|]. right. split; [exact H1|].
    exists c2. eexists. split; [reflexivity|exact H2].
  - destruct (digits_head ds Hd) as (c & r & -> & Hc).
    exists c. eexists. split; [reflexivity|]. left. exact Hc.
  - exists 115%N. eexists. split; [reflexivity|]. right. split; [reflexivity|].
    exists 117%N. eexists. split; reflexivity.
Qed.

Lemma counter_token_chars (t : str) :
  counter_token t \/ written_token t -> Forall tag_char t.
Proof.
  assert (Hd : forall ds, Forall (fun c => is_digit c = true) ds -> Forall tag_char ds).
  { intros ds H. eapply Forall_impl; [|exact H]. intros c Hc.
    apply is_digit_range in Hc. left. lia. }
  intros [[(cap & H)|(ds & [_ Hds] & ->)]|(k & ->)].
  - apply re_success_unsigned_iff in H as (kw & -> & Hk & [_ Hc]).
    apply Forall_app. split; [|apply Forall_app; split].
    + assert (Hk' : Forall (fun c => (c < 128)%N) kw).
      { apply map_to_lower_ascii. rewrite Hk. apply ascii_forallb. reflexivity. }
      eapply Forall_impl; [|exact Hk']. intros c Hc'. left. exact Hc'.
    + apply Hd. exact Hc.
    + repeat constructor.
  - constructor; [left; unfold chr_lbracket; lia|].
    apply Forall_app. split; [apply Hd; exact Hds|repeat constructor].
  - unfold success_token. apply Forall_app. split; [|apply Forall_app; split].
    + eapply Forall_impl; [|apply (ascii_forallb (u "[success::")); reflexivity].
      intros c Hc. left. exact Hc.
    + eapply Forall_impl; [|apply show_chars]. intros c [->|Hc].
      * left. unfold chr_minus. lia.
      * apply is_digit_range in Hc. left. lia.
    + repeat constructor.
Qed.

Lemma token_suffix_head (t q1 q2 : str) :
  is_token t -> t = q1 ++ q2 -> q1 <> [] -> q2 <> [] ->
  exists c r, q2 = c :: r /\ c <> chr_lbracket.
Proof.
  intros (body & -> & Hb) E H1 H2.
  destruct q1 as [|c1 q1]; [contradiction|]. injection E as _ E.
  destruct q2 as [|c r]; [contradiction|]. exists c, r. split; [reflexivity|].
  assert (Hall : Forall (fun c => c <> chr_lbracket) (body ++ [chr_rbracket])).
  { apply Forall_app. split.
    - eapply Forall_impl; [|exact Hb]. intros a [Ha _]. exact Ha.
    - repeat constructor. discriminate. }
  rewrite E in Hall. apply Forall_app in Hall as [_ Hall].
  inversion Hall; assumption.
Qed.

Section OpensBracket.

Context {A : Type}.
Variables a b : N.
Variable kw' : str.
Variable K : str -> option (A * str).
Variable m : str -> option (A * str).

Hypothesis m_def : forall s,
  m s = match lit_i (chr_lbracket :: a :: b :: kw') s with
        | Some r => K r
        | None => None
        end.
Hypothesis kw_solid : Forall solid (a :: b :: kw').
Hypothesis K_blind : blind K.
Hypothesis a_letter : is_digit a = false.
Hypothesis kw_clash : a <> 115%N \/ b <> 117%N.

Lemma bracket_start (c : N) (s : str) : c <> chr_lbracket -> m (c :: s) = None.
Proof.
  intros Hc. rewrite m_def, lit_i_cons.
  destruct (N.eqb chr_lbracket (to_lower c)) eqn:E; [|reflexivity].
  apply N.eqb_eq in E. symmetry in E. apply to_lower_bracket in E. contradiction.
Qed.

Lemma bracket_counter_closed (t x : str) :
  counter_token t \/ written_token t -> m (t ++ x) = None.
Proof.
  intros Ht. destruct (counter_token_opens t x Ht) as (c1 & rest & -> & H).
  rewrite m_def, !lit_i_cons.
  destruct (N.eqb chr_lbracket (to_lower chr_lbracket)); [|reflexivity].
  destruct (N.eqb a (to_lower c1)) eqn:Ea; [|reflexivity].
  apply N.eqb_eq in Ea. destruct H as [Hd|(H1 & c2 & rest' & -> & H2)].
  - exfalso. assert (Hc : to_lower c1 = c1).
    { unfold to_lower. apply is_digit_range in Hd.
      destruct (N.leb 65 c1 && N.leb c1 90)%N eqn:E; [|reflexivity].
      apply andb_true_iff in E as [E1 _]. apply N.leb_le in E1. lia. }
    rewrite Hc in Ea. subst c1. congruence.
  - rewrite lit_i_cons. destruct (N.eqb b (to_lower c2)) eqn:Eb; [|reflexivity].
    apply N.eqb_eq in Eb. exfalso. destruct kw_clash as [H|H]; congruence.
Qed.

Lemma bracket_blind_counter (f : Z -> Z) (d : Z) (ln : str) :
  capture m (rewrite_counter f d ln) = capture m ln.
Proof.
  apply blind_rewrite_counter.
  - intros c b0 x y Hx Hy. unfold head_capture. rewrite !m_def, !lit_i_cons.
    destruct (N.eqb chr_lbracket (to_lower c)); [|reflexivity].
    apply (blind_lit_i (a :: b :: kw') K kw_solid K_blind b0 x y Hx Hy).
  - intros t q1 q2 x Ht E Hq2. destruct q1 as [|c1 q1].
    + simpl in E. subst q2. apply bracket_counter_closed. exact Ht.
    + assert (Htok : is_token t).
      { destruct Ht as [Ht|Ht];
          [apply counter_token_is_token|apply written_token_is_token]; exact Ht. }
      destruct (token_suffix_head t (c1 :: q1) q2 Htok E) as (c & r & -> & Hc);
        [discriminate|exact Hq2|].
      apply bracket_start. exact Hc.
  - intros c s Hc. apply bracket_start. intros ->. discriminate.
  - rewrite m_def. reflexivity.
Qed.

End OpensBracket.

Section OpensEmoji.

Context {A : Type}.
Variable x1 : N.
Variable e' : str.
Variable K : str -> option (A * str).
Variable m : str -> option (A * str).

Hypothesis m_def : forall s,
  m s = match lit (x1 :: e') s with
        | Some r => K r
        | None => None
        end.
Hypothesis x1_foreign : ~ tag_char x1.
Hypothesis e_solid : Forall solid e'.
Hypothesis K_blind : blind K.

Lemma emoji_start (c : N) (s : str) : tag_char c -> m (c :: s) = None.
Proof.
  intros Hc. rewrite m_def, lit_cons.
  destruct (N.eqb x1 c) eqn:E; [|reflexivity].
  apply N.eqb_eq in E. subst c. contradiction.
Qed.

Lemma emoji_blind_counter (f : Z -> Z) (d : Z) (ln : str) :
  capture m (rewrite_counter f d ln) = capture m ln.
Proof.
  apply blind_rewrite_counter.
  - intros c b0 x y Hx Hy. unfold head_capture. rewrite !m_def, !lit_cons.
    destruct (N.eqb x1 c); [|reflexivity].
    apply (blind_lit e' K e_solid K_blind b0 x y Hx Hy).
  - intros t q1 q2 x Ht E Hq2. destruct q2 as [|c r]; [contradiction|].
    cbn [app]. apply emoji_start.
    apply counter_token_chars in Ht. rewrite E in Ht.
    apply Forall_app in Ht as [_ Ht]. inversion Ht; assumption.
  - intros c s Hc. apply emoji_start. right. exact Hc.
  - rewrite m_def. reflexivity.
Qed.

End OpensEmoji.

(** ** The patterns of [parseTask] under a counter mutation *)

Lemma solid_forallb (w : str) :
  forallb (fun c => negb (is_space c) && negb (N.eqb c chr_lbracket)) w = true ->
  Forall solid w.
Proof.
  intros H. apply Forall_forall. intros c Hc. rewrite forallb_forall in H.
  specialize (H c Hc). apply andb_true_iff in H as [H1 H2].
  apply negb_true_iff in H1, H2. apply N.eqb_neq in H2. split; assumption.
Qed.

Lemma rbracket_solid : Forall solid (u "]").
Proof. apply solid_forallb. reflexivity. Qed.

Lemma digit_class_tail (c : N) : ~ solid c -> is_digit c = false.
Proof.
  intros H. destruct (is_digit c) eqn:E; [|reflexivity].
  exfalso. apply H. apply digit_solid. exact E.
Qed.

Section CounterFrame.

Variable f : Z -> Z.
Variable d : Z.
Variable ln : str.

Let ln' := rewrite_counter f d ln.

Lemma frame_importance : capture re_importance ln' = capture re_importance ln.
Proof.
  apply (bracket_blind_counter 105 109 (u "portance::")
           (fun s1 => '(v, s2) <- alt_level (skip_spaces s1) ;;
                      s3 <- lit (u "]") s2 ;; Some (v, s3))).
  - reflexivity.
  - apply solid_forallb. reflexivity.
  - apply (blind_skip (fun s => '(v, s2) <- alt_level s ;;
                                s3 <- lit (u "]") s2 ;; Some (v, s3))).
    apply (blind_alt_level (fun v s2 => s3 <- lit (u "]") s2 ;; Some (v, s3))).
    intros v. apply (blind_lit (u "]") (fun s3 => Some (v, s3)) rbracket_solid).
    apply blind_ret.
  - reflexivity.
  - left. discriminate.
Qed.

Lemma frame_urgency : capture re_urgency ln' = capture re_urgency ln.
Proof.
  apply (bracket_blind_counter 117 114 (u "gency::")
           (fun s1 => '(v, s2) <- alt_level (skip_spaces s1) ;;
                      s3 <- lit (u "]") s2 ;; Some (v, s3))).
  - reflexivity.
  - apply solid_forallb. reflexivity.
  - apply (blind_skip (fun s => '(v, s2) <- alt_level s ;;
                                s3 <- lit (u "]") s2 ;; Some (v, s3))).
    apply (blind_alt_level (fun v s2 => s3 <- lit (u "]") s2 ;; Some (v, s3))).
    intros v. apply (blind_lit (u "]") (fun s3 => Some (v, s3)) rbracket_solid).
    apply blind_ret.
  - reflexivity.
  - left. discriminate.
Qed.

Lemma blind_digits_bracket :
  blind (fun s => '(ds, s2) <- many1 is_digit s ;;
                  s3 <- lit (u "]") s2 ;; Some (ds, s3)).
Proof.
  apply (blind_many1 is_digit (fun ds s2 => s3 <- lit (u "]") s2 ;; Some (ds, s3))
           digit_class_tail).
  intros v. apply (blind_lit (u "]") (fun s3 => Some (v, s3)) rbracket_solid).
  apply blind_ret.
Qed.

Lemma blind_date_bracket :
  blind (fun s => '(dt, s2) <- date_lit s ;;
                  s3 <- lit (u "]") s2 ;; Some (dt, s3)).
Proof.
  apply (blind_date (fun dt s2 => s3 <- lit (u "]") s2 ;; Some (dt, s3))).
  intros v. apply (blind_lit (u "]") (fun s3 => Some (v, s3)) rbracket_solid).
  apply blind_ret.
Qed.

Lemma frame_duration : capture re_duration ln' = capture re_duration ln.
Proof.
  apply (bracket_blind_counter 100 117 (u "ration::")
           (fun s1 => '(ds, s2) <- many1 is_digit (skip_spaces s1) ;;
                      s3 <- lit (u "]") s2 ;; Some (ds, s3))).
  - reflexivity.
  - apply solid_forallb. reflexivity.
  - apply (blind_skip (fun s => '(ds, s2) <- many1 is_digit s ;;
                                s3 <- lit (u "]") s2 ;; Some (ds, s3))).
    apply blind_digits_bracket.
  - reflexivity.
  - left. discriminate.
Qed.

Lemma frame_habit : capture re_habit ln' = capture re_habit ln.
Proof.
  apply (bracket_blind_counter 104 97 (u "bit::")
           (fun s1 => '(v, s2) <- alt_habit (skip_spaces s1) ;;
                      s3 <- lit (u "]") s2 ;; Some (v, s3))).
  - reflexivity.
  - apply solid_forallb. reflexivity.
  - apply (blind_skip (fun s => '(v, s2) <- alt_habit s ;;
                                s3 <- lit (u "]") s2 ;; Some (v, s3))).
    apply (blind_alt_habit (fun v s2 => s3 <- lit (u "]") s2 ;; Some (v, s3))).
    intros v. apply (blind_lit (u "]") (fun s3 => Some (v, s3)) rbracket_solid).
    apply blind_ret.
  - reflexivity.
  - left. discriminate.
Qed.

Lemma frame_accumulated : capture re_accumulated ln' = capture re_accumulated ln.
Proof.
  apply (bracket_blind_counter 97 99 (u "cumulated::")
           (fun s1 => s2 <- lit_i (u "true") (skip_spaces s1) ;;
                      s3 <- lit (u "]") s2 ;; Some (tt, s3))).
  - reflexivity.
  - apply solid_forallb. reflexivity.
  - apply (blind_skip (fun s => s2 <- lit_i (u "true") s ;;
                                s3 <- lit (u "]") s2 ;; Some (tt, s3))).
    apply (blind_lit_i (u "true") (fun s2 => s3 <- lit (u "]") s2 ;; Some (tt, s3))).
    + apply solid_forallb. reflexivity.
    + apply (blind_lit (u "]") (fun s3 => Some (tt, s3)) rbracket_solid).
      apply blind_ret.
  - reflexivity.
  - left. discriminate.
Qed.

Lemma frame_last_done : capture re_last_done ln' = capture re_last_done ln.
Proof.
  apply (bracket_blind_counter 108 97 (u "st-done::")
           (fun s1 => '(dt, s2) <- date_lit s1 ;;
                      s3 <- lit (u "]") s2 ;; Some (dt, s3))).
  - reflexivity.
  - apply solid_forallb. reflexivity.
  - apply blind_date_bracket.
  - reflexivity.
  - left. discriminate.
Qed.

Lemma frame_last_streak_date :
  capture re_last_streak_date ln' = capture re_last_streak_date ln.
Proof.
  apply (bracket_blind_counter 108 97 (u "st-streak-date::")
           (fun s1 => '(dt, s2) <- date_lit s1 ;;
                      s3 <- lit (u "]") s2 ;; Some (dt, s3))).
  - reflexivity.
  - apply solid_forallb. reflexivity.
  - apply blind_date_bracket.
  - reflexivity.
  - left. discriminate.
Qed.

Lemma frame_streak : capture re_streak ln' = capture re_streak ln.
Proof.
  apply (bracket_blind_counter 115 116 (u "reak::")
           (fun s1 => '(ds, s2) <- many1 is_digit s1 ;;
                      s3 <- lit (u "]") s2 ;; Some (ds, s3))).
  - reflexivity.
  - apply solid_forallb. reflexivity.
  - apply blind_digits_bracket.
  - reflexivity.
  - right. discriminate.
Qed.

Lemma frame_max_streak : capture re_max_streak ln' = capture re_max_streak ln.
Proof.
  apply (bracket_blind_counter 109 97 (u "x-streak::")
           (fun s1 => '(ds, s2) <- many1 is_digit s1 ;;
                      s3 <- lit (u "]") s2 ;; Some (ds, s3))).
  - reflexivity.
  - apply solid_forallb. reflexivity.
  - apply blind_digits_bracket.
  - reflexivity.
  - left. discriminate.
Qed.

Lemma foreign_unit (x : N) : (128 <=? x)%N && negb (is_space x) = true -> ~ tag_char x.
Proof.
  intros H. apply andb_true_iff in H as [H1 H2].
  apply N.leb_le in H1. apply negb_true_iff in H2.
  intros [H|H]; [lia|congruence].
Qed.

Lemma frame_literal (x : N) (p : str) :
  (128 <=? x)%N && negb (is_space x) = true ->
  forallb (fun c => negb (is_space c) && negb (N.eqb c chr_lbracket)) p = true ->
  capture (m_lit (x :: p)) ln' = capture (m_lit (x :: p)) ln.
Proof.
  intros Hx Hp.
  apply (emoji_blind_counter x p (fun r => Some (tt, r))).
  - reflexivity.
  - apply foreign_unit. exact Hx.
  - apply solid_forallb. exact Hp.
  - apply blind_ret.
Qed.

Lemma blind_same {A : Type} (k k' : str -> option (A * str)) :
  (forall s, head_capture k s = head_capture k' s) -> blind k' -> blind k.
Proof. intros E H b x y Hx Hy. rewrite !E. apply H; assumption. Qed.

Lemma blind_digits : blind (many1 is_digit).
Proof.
  apply (blind_same _ (fun s => '(ds, r) <- many1 is_digit s ;; Some (ds, r))).
  - intros s. unfold head_capture, bind. destruct (many1 is_digit s) as [[a r]|]; reflexivity.
  - apply (blind_many1 is_digit (fun ds r => Some (ds, r)) digit_class_tail).
    intros v. apply blind_ret.
Qed.

Lemma blind_spaced_date : blind (fun s => date_lit (skip_spaces s)).
Proof.
  apply (blind_skip date_lit).
  apply (blind_same _ (fun s => '(dt, r) <- date_lit s ;; Some (dt, r))).
  - intros s. unfold head_capture, bind. destruct (date_lit s) as [[a r]|]; reflexivity.
  - apply (blind_date (fun dt r => Some (dt, r))). intros v. apply blind_ret.
Qed.

Lemma frame_duration_emoji :
  capture re_duration_emoji ln' = capture re_duration_emoji ln.
Proof.
  apply (emoji_blind_counter 8218 [232; 8805]%N (many1 is_digit)).
  - reflexivity.
  - apply foreign_unit. reflexivity.
  - apply solid_forallb. reflexivity.
  - apply blind_digits.
Qed.

Lemma frame_scheduled : capture re_scheduled ln' = capture re_scheduled ln.
Proof.
  apply (emoji_blind_counter 8218 [232; 8805]%N (fun s => date_lit (skip_spaces s))).
  - reflexivity.
  - apply foreign_unit. reflexivity.
  - apply solid_forallb. reflexivity.
  - apply blind_spaced_date.
Qed.

Lemma frame_start : capture re_start ln' = capture re_start ln.
Proof.
  apply (emoji_blind_counter 8218 [251; 239]%N (fun s => date_lit (skip_spaces s))).
  - reflexivity.
  - apply foreign_unit. reflexivity.
  - apply solid_forallb. reflexivity.
  - apply blind_spaced_date.
Qed.

End CounterFrame.

Lemma test_capture {A : Type} (m : str -> option (A * str)) (s s' : str) :
  capture m s = capture m s' -> test m s = test m s'.
Proof.
  unfold capture, test.
  destruct (search m s) as [[[p a] r]|], (search m s') as [[[p' a'] r']|];
    try reflexivity; discriminate.
Qed.

Lemma frame_emoji (f : Z -> Z) (d : Z) (ln : str) :
  test (m_lit emoji_fire) (rewrite_counter f d ln) = test (m_lit emoji_fire) ln /\
  test (m_lit emoji_star) (rewrite_counter f d ln) = test (m_lit emoji_star) ln /\
  test (m_lit emoji_repeat) (rewrite_counter f d ln) = test (m_lit emoji_repeat) ln /\
  test (m_lit emoji_coin) (rewrite_counter f d ln) = test (m_lit emoji_coin) ln.
Proof.
  repeat split; apply test_capture.
  - exact (frame_literal f d ln 63743 [252; 238; 8226]%N eq_refl eq_refl).
  - exact (frame_literal f d ln 8218 [8800; 234]%N eq_refl eq_refl).
  - exact (frame_literal f d ln 63743 [252; 238; 197]%N eq_refl eq_refl).
  - exact (frame_literal f d ln 63743 [252; 8482; 244]%N eq_refl eq_refl).
Qed.

(** X19.  A counter mutation changes the counter and nothing else that is
    read from the line: importance, urgency, duration, habit type, the
    accumulated flag, the dates, the task type and the streaks of the line
    it writes are those of the line it read.  The attribute name is left
    out: its pattern accepts an opening bracket in the name, so that a
    trailing counter can be part of it. *)
Theorem counter_mutation_keeps_other_fields
  (op : counter_op) (ln file_ : str) (n : Z) :
  option_map frame_fields (parseTask (op_line op ln) file_ n)
  = option_map frame_fields (parseTask ln file_ n).
Proof.
  rewrite op_line_shape.
  set (f := op_count op). set (d := f 0).
  unfold parseTask. cbn [is_undefined andb option_map].
  unfold frame_fields.
  cbn [importance urgency durationMinutes file line habitType accumulated
       lastDoneDate taskType scheduledDate startDate currentStreak maxStreak
       lastStreakDate].
  rewrite (frame_importance f d ln), (frame_urgency f d ln), (frame_duration f d ln),
    (frame_habit f d ln), (frame_last_done f d ln), (frame_last_streak_date f d ln),
    (frame_streak f d ln), (frame_max_streak f d ln), (frame_duration_emoji f d ln),
    (frame_scheduled f d ln), (frame_start f d ln).
  rewrite (test_capture _ _ _ (frame_accumulated f d ln)).
  destruct (frame_emoji f d ln) as (-> & -> & -> & ->).
  reflexivity.
Qed.

(** ** Deleting a habit *)

Lemma parseTask_moved_up (ln file_ : str) (n : Z) :
  parseTask ln file_ n = option_map moved_up (parseTask ln file_ (n + 1)).
Proof.
  unfold parseTask. cbn [is_undefined andb option_map]. unfold moved_up.
  cbn [content importance urgency durationMinutes file line habitType accumulated
       accumulatedCount lastDoneDate taskType scheduledDate startDate currentStreak
       maxStreak lastStreakDate attributeName].
  rewrite Z.add_simpl_r. reflexivity.
Qed.

Lemma show_habit_body_moved_up (path ln : str) (n : Z) :
  show_habit_body path ln n = map moved_up (show_habit_body path ln (n + 1)).
Proof.
  unfold show_habit_body. destruct (open_task ln); [|reflexivity].
  rewrite (parseTask_moved_up ln path n).
  destruct (parseTask ln path (n + 1)) as [t|]; [|reflexivity].
  cbn [option_map]. change (habitType (moved_up t)) with (habitType t).
  destruct (negb (is_undefined (habitType t))); reflexivity.
Qed.

Lemma scan_lines_moved_up (path : str) (lines : list str) (i : Z) :
  scan_lines (show_habit_body path) lines i
  = map moved_up (scan_lines (show_habit_body path) lines (i + 1)).
Proof.
  revert i. induction lines as [|l r IH]; intros i; [reflexivity|].
  cbn [scan_lines]. rewrite map_app, <- IH, <- show_habit_body_moved_up. reflexivity.
Qed.

Lemma firstn_length_app (l1 l2 : list str) : firstn (length l1) (l1 ++ l2) = l1.
Proof. induction l1 as [|x l1 IH]; simpl; [destruct l2|rewrite IH]; reflexivity. Qed.

Lemma skipn_length_app (l1 l2 : list str) (x : str) :
  skipn (S (length l1)) (l1 ++ x :: l2) = l2.
Proof. induction l1 as [|y l1 IH]; simpl; [reflexivity|exact IH]. Qed.

Lemma splice_one_inside (l1 l2 : list str) (ln : str) :
  splice_one (l1 ++ ln :: l2) (Z.of_nat (length l1)) = l1 ++ l2.
Proof.
  unfold splice_one.
  destruct (Z.of_nat (length l1) <? 0) eqn:E; [apply Z.ltb_lt in E; lia|].
  rewrite Z.min_l by (rewrite length_app; simpl; lia).
  rewrite Nat2Z.id, firstn_length_app, skipn_length_app. reflexivity.
Qed.

Lemma show_habit_body_one (path ln : str) (n : Z) (t : EisenhowerTask) :
  In t (show_habit_body path ln n) -> show_habit_body path ln n = [t].
Proof.
  unfold show_habit_body. destruct (open_task ln); [|contradiction].
  destruct (parseTask ln path n); [|contradiction].
  destruct (negb _); [|contradiction]. intros [<-|[]]. reflexivity.
Qed.

Lemma scan_reread (path : str) (ls : list str) :
  Forall plain_line ls ->
  scan_lines (show_habit_body path) (split_lines (join_lines ls)) 0
  = scan_lines (show_habit_body path) ls 0.
Proof.
  intros H. destruct ls as [|l ls]; [reflexivity|].
  rewrite split_join_plain; [reflexivity|discriminate|exact H].
Qed.

(** X20.  Deleting a habit that the habit modal lists, in a file whose
    lines are read back as they were written, writes the file without the
    line of the habit: the next scan lists the other habits in the same
    order, those that follow it in the file one line up and otherwise as
    they were. *)
Theorem deleted_habit_leaves_modal
  (v : vault) (fs1 fs2 : markdown_files) (p text : str) (t : EisenhowerTask) :
  v p = Some text ->
  Forall plain_line (split_lines text) ->
  In t (scan_lines (show_habit_body p) (split_lines text) 0) ->
  exists written before after,
    onDeleteHabit v t = Some written /\
    scan_files show_habit_body (fs1 ++ (p, text) :: fs2)
      = scan_files show_habit_body fs1 ++ (before ++ t :: after)
        ++ scan_files show_habit_body fs2 /\
    scan_files show_habit_body (fs1 ++ (p, written) :: fs2)
      = scan_files show_habit_body fs1 ++ (before ++ map moved_up after)
        ++ scan_files show_habit_body fs2.
Proof.
  intros Hv Hpl Ht.
  apply scan_lines_In in Ht as (k & ln & Hk & Ht). simpl in Ht.
  pose proof (show_habit_body_one _ _ _ _ Ht) as Hone.
  apply show_habit_body_In in Ht as (Hp & _).
  destruct (parseTask_location _ _ _ _ Hp) as (_ & Ef & El).
  destruct (nth_error_split _ _ Hk) as (l1 & l2 & Es & Elen).
  assert (Hpl' : Forall plain_line (l1 ++ l2)).
  { rewrite Es in Hpl. apply Forall_app in Hpl as [H1 H2].
    apply Forall_app. split; [exact H1|]. inversion H2; assumption. }
  exists (join_lines (l1 ++ l2)),
    (scan_lines (show_habit_body p) l1 0),
    (scan_lines (show_habit_body p) l2 (Z.of_nat k + 1)).
  split; [|split].
  - unfold onDeleteHabit. rewrite Ef, Hv, El, Es.
    replace (Z.of_nat k + 1 - 1) with (Z.of_nat (length l1)) by lia.
    rewrite splice_one_inside. reflexivity.
  - rewrite scan_files_app, Es, scan_lines_app. cbn [scan_lines].
    rewrite Elen. simpl Z.add at 1. rewrite Hone. reflexivity.
  - rewrite scan_files_app, (scan_reread p _ Hpl'), scan_lines_app.
    rewrite Elen. simpl Z.add at 1.
    rewrite (scan_lines_moved_up p l2 (Z.of_nat k)). reflexivity.
Qed.

Lemma deleted_habit_leaves_modal_witness :
  let text := u "- [ ] Stretch [habit::daily]" ++ [10%N]
              ++ u "- [ ] Read [habit::weekly]" in
  let v := fun _ : str => Some text in
  let t := {| content := u "- [ ] Stretch [habit::daily]";
              importance := low; urgency := low; durationMinutes := 0;
              file := u "habits.md"; line := 1; habitType := Some daily;
              accumulated := false; accumulatedCount := None;
              lastDoneDate := None; taskType := repeated_daily; scheduledDate := None;
              startDate := None; currentStreak := None; maxStreak := None;
              lastStreakDate := None; attributeName := None |} in
  exists written before after,
    onDeleteHabit v t = Some written /\
    scan_files show_habit_body ([] ++ [(u "habits.md", text)])
      = scan_files show_habit_body [] ++ (before ++ t :: after)
        ++ scan_files show_habit_body [] /\
    scan_files show_habit_body ([] ++ [(u "habits.md", written)])
      = scan_files show_habit_body [] ++ (before ++ map moved_up after)
        ++ scan_files show_habit_body [].
Proof.
  intros text v t.
  apply (deleted_habit_leaves_modal v [] [] (u "habits.md") text t).
  - reflexivity.
  - apply plain_lines_check. reflexivity.
  - vm_compute. left. reflexivity.
Defined.

(** ** The level of a counter *)

Ltac split_bands :=
  repeat match goal with
         | |- context [if ?c then _ else _] => destruct c eqn:?
         end.

Lemma warning_level_iff (n : Z) :
  n < 0 <-> In (getAchievementLevel n) warning_levels.
Proof.
  unfold getAchievementLevel, warning_levels. split.
  - intros H. apply Z.ltb_lt in H. rewrite H. split_bands; simpl; auto.
  - destruct (n <? 0) eqn:E; [intros _; apply Z.ltb_lt; exact E|].
    split_bands; simpl; intros H;
      repeat (destruct H as [H|H]; [discriminate H|]); destruct H.
Qed.

(** X21.  The level and the colours of a counter are cut at the same
    counts: two counters have the same level exactly when they have the same
    colours, and the four warning levels are those of the negative
    counters. *)
Theorem level_and_colour_agree (n k : Z) :
  (getAchievementLevel n = getAchievementLevel k <->
   getMotivationalColor n = getMotivationalColor k) /\
  (n < 0 <-> In (getAchievementLevel n) warning_levels).
Proof.
  split; [|apply warning_level_iff].
  unfold getAchievementLevel, getMotivationalColor. split_bands;
    split; intros H; try reflexivity; discriminate H.
Qed.

Lemma mutated_counter_text (ops : list counter_op) (ln : str) :
  ops <> [] ->
  (counter_text ln = None \/ exists cap, counter_text ln = Some cap /\ digits cap) ->
  exists k, 0 <= k /\
    counter_text (fold_left (fun l op => op_line op l) ops ln) = Some (show k).
Proof.
  intros Hne Hc. destruct ops as [|op ops]; [contradiction|]. simpl fold_left.
  assert (H : exists k, 0 <= k /\ counter_text (op_line op ln) = Some (show k)).
  { destruct Hc as [Hc|(cap & Hc & Hd)].
    - exists (op_count op 0). split; [apply op_count_nonneg; lia|].
      rewrite op_line_shape. apply rewrite_counter_absent_text; [exact Hc|].
      apply op_count_nonneg; lia.
    - pose proof (parseInt_digits_nonneg cap Hd) as Hp.
      exists (op_count op (parseInt cap)). split; [apply op_count_nonneg; exact Hp|].
      rewrite op_line_shape. apply rewrite_counter_unsigned_text; auto.
      apply op_count_nonneg; exact Hp. }
  destruct H as (k & Hk & Ht).
  destruct (ops_line_steps ops _ _ Hk Ht) as [Hs Hk'].
  eexists. split; [exact Hk'|exact Hs].
Qed.

(** X22.  A counter that went through the counter mutations is not shown
    with a warning: on a line whose counter is unsigned or absent, after any
    sequence of increments, decrements and clears that keeps the counter a
    safe integer (the count at the start plus the number of operations is
    one), the count of the parsed task (0 when the task is not accumulated)
    is not negative and its level is none of the warning levels. *)
Theorem mutated_counter_never_warns
  (ops : list counter_op) (ln file_ : str) (n : Z) (t : EisenhowerTask) :
  ops <> [] ->
  (counter_text ln = None \/ exists cap, counter_text ln = Some cap /\ digits cap) ->
  isSafeInteger ((match countAnnotation ln with Some c => c | None => 0 end)
                 + Z.of_nat (length ops)) = true ->
  parseTask (fold_left (fun l op => op_line op l) ops ln) file_ n = Some t ->
  let count := match accumulatedCount t with Some c => c | None => 0 end in
  0 <= count /\ ~ In (getAchievementLevel count) warning_levels.
Proof.
  intros Hne Hc _ Hp count.
  assert (H : 0 <= count).
  { subst count. rewrite (parseTask_count _ _ _ _ Hp).
    destruct (accumulated t); [|lia].
    destruct (mutated_counter_text ops ln Hne Hc) as (k & Hk & Ht).
    rewrite countAnnotation_text, Ht. simpl option_map.
    rewrite parseInt_show by exact Hk. exact Hk. }
  split; [exact H|]. intros Hw. apply warning_level_iff in Hw. lia.
Qed.

Lemma mutated_counter_never_warns_witness :
  let ln := u "- [ ] Push-ups [habit::daily] [accumulated::true]" in
  let ops := [OpDecrement; OpIncrement; OpIncrement; OpIncrement] in
  exists t, parseTask (fold_left (fun l op => op_line op l) ops ln) (u "habits.md") 1
            = Some t /\
    accumulatedCount t = Some 3 /\
    getAchievementLevel 3 = u "Building Momentum" /\
    0 <= match accumulatedCount t with Some c => c | None => 0 end /\
    ~ In (getAchievementLevel (match accumulatedCount t with Some c => c | None => 0 end))
         warning_levels.
Proof.
  intros ln ops.
  destruct (parseTask (fold_left (fun l op => op_line op l) ops ln) (u "habits.md") 1)
    as [t|] eqn:Ep; [|destruct (parseTask_never_absent _ _ _ Ep)].
  exists t. split; [reflexivity|].
  split; [vm_compute in Ep; injection Ep as <-; reflexivity|].
  split; [reflexivity|].
  apply (mutated_counter_never_warns ops ln (u "habits.md") 1 t).
  - discriminate.
  - left. reflexivity.
  - reflexivity.
  - exact Ep.
Defined.


(** ** The best streak that an update writes *)

Section RemoveAll.

Context {A : Type}.
Variable m : str -> option (A * str).
Hypothesis m_suffix : forall s a r, m s = Some (a, r) -> exists t, s = t ++ r.

Lemma remove_all_fuel_In (k : nat) :
  forall s c, In c (remove_all_fuel m k s) -> In c s.
Proof.
  induction k as [|k IH]; intros s c; simpl; [auto|].
  destruct (m s) as [[a r]|] eqn:E.
  - intros H. apply IH in H. apply m_suffix in E as (t & ->).
    apply in_or_app. auto.
  - destruct s as [|x s]; [auto|]. intros [H|H]; [left; exact H|right; auto].
Qed.

Lemma remove_all_In (s : str) (c : N) : In c (remove_all m s) -> In c s.
Proof. apply remove_all_fuel_In. Qed.

End RemoveAll.

Lemma lit_suffix (p s r : str) : lit p s = Some r -> exists t, s = t ++ r.
Proof. intros H. apply lit_Some in H. eauto. Qed.

Lemma many1_suffix (f : N -> bool) (s a r : str) :
  many1 f s = Some (a, r) -> exists t, s = t ++ r.
Proof.
  unfold many1. destruct (span f s) as [a0 r0] eqn:E.
  apply span_spec in E as (-> & _). destruct a0; [discriminate|].
  intros H; injection H as _ <-. eauto.
Qed.

Lemma date_lit_suffix (s d r : str) :
  date_lit s = Some (d, r) -> exists t, s = t ++ r.
Proof. intros H. apply date_lit_Some in H as (-> & _). eauto. Qed.

Lemma suffix_trans (s t1 s1 t2 r : str) :
  s = t1 ++ s1 -> s1 = t2 ++ r -> exists t, s = t ++ r.
Proof. intros -> ->. exists (t1 ++ t2). rewrite app_assoc. reflexivity. Qed.

Lemma old_number_suffix (kw s : str) (a : unit) (r : str) :
  (s1 <- lit kw s ;; '(_, s2) <- many1 is_digit s1 ;; s3 <- lit (u "]") s2 ;; Some (tt, s3))
    = Some (a, r) -> exists t, s = t ++ r.
Proof.
  unfold bind. destruct (lit kw s) as [s1|] eqn:E1; [|discriminate].
  destruct (many1 is_digit s1) as [[n s2]|] eqn:E2; [|discriminate].
  destruct (lit (u "]") s2) as [s3|] eqn:E3; [|discriminate].
  intros H; injection H as _ <-.
  apply lit_suffix in E1 as (t1 & E1). apply many1_suffix in E2 as (t2 & E2).
  apply lit_suffix in E3 as (t3 & E3).
  destruct (suffix_trans _ _ _ _ _ E2 E3) as (t & E). exact (suffix_trans _ _ _ _ _ E1 E).
Qed.

Lemma old_date_suffix (kw s : str) (a : unit) (r : str) :
  (s1 <- lit kw s ;; '(_, s2) <- date_lit s1 ;; s3 <- lit (u "]") s2 ;; Some (tt, s3))
    = Some (a, r) -> exists t, s = t ++ r.
Proof.
  unfold bind. destruct (lit kw s) as [s1|] eqn:E1; [|discriminate].
  destruct (date_lit s1) as [[n s2]|] eqn:E2; [|discriminate].
  destruct (lit (u "]") s2) as [s3|] eqn:E3; [|discriminate].
  intros H; injection H as _ <-.
  apply lit_suffix in E1 as (t1 & E1). apply date_lit_suffix in E2 as (t2 & E2).
  apply lit_suffix in E3 as (t3 & E3).
  destruct (suffix_trans _ _ _ _ _ E2 E3) as (t & E). exact (suffix_trans _ _ _ _ _ E1 E).
Qed.

(** What is left of a line without its old properties has no character
    that the line did not have. *)
Lemma without_old_properties_In (ln : str) (c : N) :
  In c (without_old_properties ln) -> In c ln.
Proof.
  unfold without_old_properties. intros H.
  match type of H with
  | In _ (trimEnd ?x) =>
      destruct (trimEnd_split x) as (ws & Hs & _);
      assert (H' : In c x) by (rewrite Hs; apply in_or_app; auto)
  end.
  apply (remove_all_In re_old_last_streak_date (old_date_suffix _)) in H'.
  apply (remove_all_In re_old_max_streak (old_number_suffix _)) in H'.
  apply (remove_all_In re_old_streak (old_number_suffix _)) in H'.
  apply (remove_all_In re_old_last_done (old_date_suffix _)) in H'.
  exact H'.
Qed.

Lemma no_lf_check (s : str) :
  forallb (fun c => negb (N.eqb c 10)) s = true -> Forall (fun c => c <> 10%N) s.
Proof.
  intros H. apply Forall_forall. intros c Hc ->.
  rewrite forallb_forall in H. specialize (H _ Hc). discriminate H.
Qed.

Lemma closed_line_plain (a : str) :
  Forall (fun c => c <> 10%N) a -> plain_line (a ++ [chr_rbracket]).
Proof.
  intros Ha. split.
  - intros H. apply in_app_or in H as [H|[H|[]]]; [|discriminate H].
    rewrite Forall_forall in Ha. exact (Ha _ H eq_refl).
  - intros l' E. apply app_inj_tail in E as [_ E]. discriminate E.
Qed.

Lemma show_no_lf (n : Z) : Forall (fun c => c <> 10%N) (show n).
Proof.
  eapply Forall_impl; [|apply show_chars].
  intros c [->|H] E; [discriminate E|subst c; discriminate H].
Qed.

Lemma date_no_lf (d : str) : is_date d -> Forall (fun c => c <> 10%N) d.
Proof.
  intros H. eapply Forall_impl; [|apply (date_lit_solid _ _ _ H)].
  intros c [Hs _] ->. discriminate Hs.
Qed.

Lemma without_old_properties_no_lf (ln : str) :
  plain_line ln -> Forall (fun c => c <> 10%N) (without_old_properties ln).
Proof.
  intros [Hlf _]. apply Forall_forall. intros c Hc ->.
  apply Hlf. apply without_old_properties_In. exact Hc.
Qed.

(** The line that a streak update writes is plain when the line it read
    was. *)
Lemma streak_line_plain (c : clock) (ln : str) (s m : Z) :
  plain_line ln -> is_date (today c) ->
  plain_line (with_streak c (with_last_done c ln) s m).
Proof.
  intros Hp Hd. unfold with_streak, with_last_done. fold (without_old_properties ln).
  replace ((without_old_properties ln ++ u " [last-done::" ++ today c ++ u "]")
             ++ u " [streak::" ++ show s ++ u "]"
             ++ u " [max-streak::" ++ show m ++ u "]"
             ++ u " [last-streak-date::" ++ today c ++ u "]")
    with ((without_old_properties ln ++ u " [last-done::" ++ today c ++ u "]"
             ++ u " [streak::" ++ show s ++ u "]"
             ++ u " [max-streak::" ++ show m ++ u "]"
             ++ u " [last-streak-date::" ++ today c) ++ [chr_rbracket])
    by (repeat (rewrite <- app_assoc; cbn [app]); reflexivity).
  apply closed_line_plain.
  repeat (apply Forall_app; split);
    try (apply no_lf_check; reflexivity);
    try apply show_no_lf; try (apply date_no_lf; exact Hd).
  apply without_old_properties_no_lf. exact Hp.
Qed.

(** X23.  A habit completion that passes the check of the target line and
    whose streak result says [shouldUpdate] writes, after the new streak, a
    [max-streak] that is the larger of the new streak and the [max-streak]
    read from the line (0 when the line has none), where both numbers read
    from the line are safe integers: it is not below the previous one and
    the streak written is not above it.  The file that is written, read
    again, has the new line at the target and every other line as it was
    (on a file whose lines are plain, today having the form of a date), and
    when the line, once its old properties are removed, has no streak
    annotation left, the record read back from the new line has these two
    values. *)
Theorem streak_update_writes_max
  (c : clock) (v : vault) (path orig text ln : str) (n : Z) (task : EisenhowerTask) :
  v path = Some text ->
  line_at (split_lines text) (n - 1) = Some ln -> ln <> [] ->
  trim ln = trim orig ->
  parseTask ln path n = Some task ->
  isSafeInteger (or_zero (currentStreak task)) = true ->
  isSafeInteger (or_zero (maxStreak task)) = true ->
  let r := calculateStreakFromDates c (lastDoneDate task) (lastStreakDate task)
             (or_zero (currentStreak task)) in
  let previous := or_zero (maxStreak task) in
  let best := Z.max previous (newStreak r) in
  let newLine :=
    with_last_done c ln
      ++ u " [streak::" ++ show (newStreak r) ++ u "]"
      ++ u " [max-streak::" ++ show best ++ u "]"
      ++ u " [last-streak-date::" ++ today c ++ u "]" in
  shouldUpdate r = true ->
  exists written,
    _markHabitTaskDoneWithDate true c v path n orig
      = Written written (HabitStreak (newStreak r)) /\
    written = join_lines (set_line (split_lines text) (n - 1) newLine) /\
    previous <= best /\ 0 <= newStreak r <= best /\ best <= MAX_SAFE_INTEGER + 1 /\
    (Forall plain_line (split_lines text) -> is_date (today c) ->
       length (split_lines written) = length (split_lines text) /\
       line_at (split_lines written) (n - 1) = Some newLine /\
       forall j, j <> n - 1 ->
         line_at (split_lines written) j = line_at (split_lines text) j) /\
    (search re_streak (with_last_done c ln) = None ->
     search re_max_streak (with_last_done c ln) = None ->
     exists task', parseTask newLine path n = Some task' /\
       currentStreak task' = Some (newStreak r) /\
       maxStreak task' = Some best).
Proof.
  intros Hv Hl Hne Heq Hp Hsc Hsm r previous best newLine Hu.
  destruct (parseTask_streaks_nonneg _ _ _ _ Hp) as [Hc Hm].
  assert (Hr : 0 <= newStreak r) by (apply newStreak_nonneg; exact Hc).
  assert (Hw : 0 <= best) by (subst best; lia).
  assert (Hb : newStreak r <= or_zero (currentStreak task) + 1).
  { subst r. unfold calculateStreakFromDates.
    repeat match goal with
           | |- context [if ?b then _ else _] => destruct b
           end; simpl; lia. }
  exists (join_lines (set_line (split_lines text) (n - 1) newLine)).
  split; [|split; [reflexivity|split; [subst best; lia|split; [subst best; lia|split; [|split]]]]].
  - unfold _markHabitTaskDoneWithDate.
    rewrite Hv, Hl, (truthy_nonempty ln Hne).
    apply str_eqb_eq in Heq. rewrite Heq. simpl andb. cbv iota.
    rewrite Hp. fold r. rewrite Hu. unfold with_streak.
    subst newLine best previous. rewrite (Z.max_comm (newStreak r)). reflexivity.
  - unfold isSafeInteger in Hsc, Hsm.
    apply andb_true_iff in Hsc as [_ Hsc]. apply andb_true_iff in Hsm as [_ Hsm].
    apply Z.leb_le in Hsc, Hsm. subst best previous. lia.
  - intros Hplain Hd.
    assert (Hnew : plain_line newLine).
    { apply (streak_line_plain c ln (newStreak r) best); [|exact Hd].
      rewrite Forall_forall in Hplain. apply Hplain. apply (line_at_In _ _ _ Hl). }
    destruct (reread_after_write text (n - 1) ln newLine Hl Hplain Hnew)
      as (Hr1 & Hlen & Hat & Hother).
    rewrite Hr1. auto.
  - intros Hn1 Hn2.
    destruct (parseTask newLine path n) as [task'|] eqn:Ep;
      [|destruct (parseTask_never_absent _ _ _ Ep)].
    exists task'. split; [reflexivity|].
    apply parseTask_streak_fields in Ep as (_ & _ & E1 & E2).
    destruct (streak_written_read_back c (with_last_done c ln) (newStreak r) best
                Hr Hw Hn1 Hn2) as [R1 R2].
    unfold with_streak in R1, R2. fold newLine in R1, R2.
    rewrite R1 in E1. rewrite R2 in E2. simpl in E1, E2.
    rewrite parseInt_show in E1, E2 by lia.
    rewrite E1, E2. split; reflexivity.
Qed.

(** A habit done today whose streak of 4 was last counted yesterday, with a
    best streak of 9, on the second line of a file: the streak written is 5
    and the best stays 9. *)
Lemma streak_update_writes_max_witness :
  let c := {| today := u "2025-06-08"; yesterday := u "2025-06-07" |} in
  let ln := u "- [ ] Meditate [habit::daily] [last-done::2025-06-08] [streak::4] [max-streak::9] [last-streak-date::2025-06-07]" in
  let ln' := u "- [ ] Meditate [habit::daily] [last-done::2025-06-08] [streak::5] [max-streak::9] [last-streak-date::2025-06-08]" in
  let text := u "# Habits" ++ [10%N] ++ ln in
  _markHabitTaskDoneWithDate true c (fun _ => Some text) (u "habits.md") 2 ln
    = Written (u "# Habits" ++ [10%N] ++ ln') (HabitStreak 5) /\
  line_at (split_lines (u "# Habits" ++ [10%N] ++ ln')) (2 - 1) = Some ln' /\
  option_map currentStreak (parseTask ln' (u "habits.md") 2) = Some (Some 5) /\
  option_map maxStreak (parseTask ln' (u "habits.md") 2) = Some (Some 9).
Proof.
  intros c ln ln' text.
  destruct (parseTask ln (u "habits.md") 2) as [task|] eqn:Ep;
    [|destruct (parseTask_never_absent _ _ _ Ep)].
  pose proof (streak_update_writes_max c (fun _ => Some text) (u "habits.md") ln text ln 2
                task eq_refl eq_refl) as H.
  vm_compute in Ep. injection Ep as <-.
  destruct H as (w & H & E & _ & _ & _ & Hread & Hback);
    [discriminate|reflexivity|reflexivity|reflexivity|reflexivity|reflexivity|].
  destruct Hread as (_ & Hat & _); [apply plain_lines_check; reflexivity|reflexivity|].
  destruct Hback as (task' & Ep' & Ec & Em); [reflexivity|reflexivity|].
  rewrite E in H, Hat.
  split; [exact H|]. split; [exact Hat|].
  change ln' with (with_last_done c ln ++ u " [streak::" ++ show 5 ++ u "]"
      ++ u " [max-streak::" ++ show 9 ++ u "]"
      ++ u " [last-streak-date::" ++ today c ++ u "]").
  split.
  - etransitivity; [exact (f_equal (option_map currentStreak) Ep')|]. simpl. rewrite Ec. reflexivity.
  - etransitivity; [exact (f_equal (option_map maxStreak) Ep')|]. simpl. rewrite Em. reflexivity.
Defined.
